(* ===== verification/_CoqProject ===== *)
-Q . S2P
Prelude.v
Binary.v
Wire.v
Float.v
GoLib.v
Protocol.v
Strconv.v
Rounding.v
GoDuration.v
Config.v
Records.v
Broker.v
Replies.v
BrokerSafety.v
Interleave.v
Conn.v
Prompb.v
Utf8.v
Regexp.v
RegexpLaws.v
GoTime.v
Relabel.v
Rules.v
Json.v
TimeText.v
JsonScan.v
JsonText.v
JsonRescan.v
AnyJson.v
JsonUtf8.v
Parser.v
Readings.v
Values.v
LogLines.v
LokiWriter.v
Batch.v
Forwarder.v
Posts.v
Cache.v
Retry.v
CacheJson.v
Api.v
Pipeline.v
Main.v
EndToEnd.v
Shutdown.v
