(* ===== verification/Prelude.v ===== *)
(** * ome-kafka-bridge: a verification development

    The program (module under [src/], Go) pretends to be a Kafka broker so that
    Dell OpenManage Enterprise can push telemetry, health, alert, audit and
    inventory messages to it; it turns them into metric samples and log entries
    and forwards these to a Prometheus [remote_write] endpoint and to Loki.

    ** How the program works, and which file models which part

    Bytes from a TCP connection go through the following stages, each of which
    has one or more files here; a definition keeps the name of the Go function,
    method, struct or field it translates wherever Rocq allows it.

    - [internal/broker/broker.go].  [Protocol] has Kafka's responses as its
      clients read them, field by field; [Wire] the [reader] and [writer]
      structs with all their methods; [Records] the record-batch and legacy
      message-set decoders; [Broker] the struct with its topic set and message
      channel, [handleRequest], and the five API handlers with their responses;
      [Replies] what they tell a client, and do to the broker; [BrokerSafety] what they do on arbitrary bytes; [Interleave] the requests
      of several connections at once; [Conn] the listener ([Start],
      [acceptLoop]) and the loop [handleConn] that frames requests and
      responses.
    - [internal/parser/parser.go].  [Parser] has the payload structs and their
      JSON tags, topic kinds, the five parsers, labels, names and value
      conversion, from the bytes of a record on; [Readings] is about timestamps
      and metric values, [Values] about the range of the latter, [LogLines]
      about the lines that go to Loki.
    - [main.go].  [Main] is [main] from its flag to the running service, every
      fatal error in order, with the logger and the latency histogram.
      [Pipeline] has [processMessage], the pipeline goroutine's loop and the
      retry callbacks; its [pstep] is the program behind the broker: messages,
      flush ticks, cache retries and replays.  [EndToEnd] joins it to the broker
      by the message channel.  [Shutdown] has the goroutines and the sequence in
      which main stops them, [Api] the routes of the HTTP API.
    - [internal/forwarder/forwarder.go].  [Batch] is the pending queue both
      forwarders share (Submit, flush, the flush loop and Close as critical
      sections, interleaved); [Forwarder] what a flush does with a batch; [Posts]
      what the backends read of a sequence of batches.
    - [internal/relabel/relabel.go].  [Relabel]: rule compilation and [Apply],
      against the interface [Regexp.Regexp]; [Rules]: the same over package
      regexp itself.
    - [pkg/prompb/prompb.go].  [Prompb]: the protobuf encoder, with a reference
      decoder of the protobuf wire format.
    - [pkg/lokiwriter/writer.go].  [LokiWriter]: fingerprints, grouping, the
      JSON body and [Push], with a reference decoder of the body.
    - [internal/cache/cache.go].  [Cache]: the spool directory; [Retry]: the
      retry loop over its whole life; [CacheJson]: the JSON of the files.
    - [internal/config/config.go].  [Config]: structs, defaults, [Load],
      durations.

    What the program uses of Go's own library is modelled too, in files of
    their own: this file (machine integers, the [outcome] monad, list and option
    lemmas, automation), [Binary] (encoding/binary), [Float] (float64 as its bit
    pattern), [GoLib] (UTF-8 ranges, package strings, map iteration), [Utf8]
    (encoding scalar values), [Strconv] (numbers as text, and Sscanf),
    [Rounding] (which decimals name a double), [GoTime] (time.Parse and the
    calendar), [TimeText] (times as JSON), [GoDuration] (time.ParseDuration),
    package regexp ([Regexp] the parser, the search with captures and the
    templates; [RegexpLaws] their denotation), and encoding/json: [JsonScan]
    (text to value), [JsonText] (value to text, and back), [JsonRescan] (what was
    scanned can be written), [JsonUtf8] (what is written is UTF-8), [Json]
    (value to Go types) and [AnyJson] (values of type interface).

    ** Conventions

    - A Go integer of width [w] is a [Z] with wrap-around where an operation can
      leave the range ([wrapS], [wrapU], [int_add]); [time.Time] is a number of
      nanoseconds; a nil slice is told apart from an empty one ([option]) where
      the program can tell.
    - Code that can panic returns an [outcome]: [Ok], [Panic] with its cause, or
      [OutOfFuel].  Go errors are the right side of a sum, or the [err] of a
      pair where the source returns a value with it.
    - Go's [range] over a map visits keys in an order the language leaves open.
      Each such loop takes the order as an argument, and theorems quantify over
      all [valid_order]s.
    - Stateful code passes its state: the reader monad [M X] over cursor and
      broker, the directory map of the cache, the [program] record.
      Concurrency is a step function on the shared state ([Batch.step] for one
      queue, [Interleave.perform] for the broker, [EndToEnd]'s actions for broker
      and pipeline, [Shutdown.act] for the process), whose actions come in any
      order, or an environment argument ([Conn.env]).

    ** What is an argument of the model

    Third-party code, the operating system, and the large tables of Go's library
    are arguments of the definitions, never given a made-up body: snappy, the
    YAML decoder, the Prometheus handler, the HTTP client and TLS loading, the
    clock, which file operations fail ([Cache.faults]), what listening and
    accepting return, [logrus.ParseLevel], [unicode.ToLower] beyond ASCII,
    [unicode.IsLetter] and [unicode.IsDigit] (in the names of a template),
    package regexp on expressions outside the syntax [Regexp] parses (the
    argument [other] of [Regexp.go_regexp]), the quoting of [%q], the zone a time
    is shown in, and the texts of type errors, which are only logged.  The
    class [Regexp.Regexp] is what the relabeling engine is promised; [Rules] and
    the witnesses use its instance.  Theorems that rely on such
    code say what they rely on in a hypothesis (for example that a snappy
    decoder inverts the encoder), and their witnesses instantiate it with a
    concrete function.

    ** Fuel

    Two loops of the program can, as far as their text goes, run for ever.
    [Records.legacy_loop] has no counter in the source; a round that goes on
    consumes at least twelve bytes, and it gets one unit of fuel more than bytes
    remain.  A round of [Conn.conn_loop] consumes at least five bytes, and
    [handleConn] gives it one unit more than the input is long.  That both are
    enough is part of [BrokerSafety.handleRequest_terminates] and
    [Conn.handleConn_ends_and_rejects]: [OutOfFuel] is never the result.

    In the models of library code: [JsonScan.scan_fuel] is twice the length of
    the text plus one, never used up ([json_scan_done]); [GoDuration]'s loop
    takes the length of the text ([ParseDuration_total]); the loops over runes
    ([GoLib.runes_loop]) and protobuf fields ([Prompb.pb_fields], in the
    reference decoder) take the length of their input, every round consuming at
    least a byte; [Binary.put_uvarint_loop] takes the ten bytes of Go's buffer;
    the search for the shortest decimal of a float64 ([Strconv.shortest_loop])
    tries precisions up to 17 digits, which always suffice
    ([Rounding.shortest_total], [json_float_total]).  In [Regexp], the parser has
    four units per rune and four more, of which a rune uses at most three; an
    expression it does not get through, like one of more than 900 runes
    ([max_runes]; Go refuses nesting beyond 1000), counts as outside the modelled
    syntax, and so does one that repeats what can match the empty string (Go's
    search never comes back to an instruction at the same place, which decides
    what a group in such a repetition captures).  [star_loop] makes at most one round more than runes are left, since
    Go's [*] stops at an empty round; with that the search is complete
    ([RegexpLaws.search_complete]).  [expand_loop] takes one unit more than the
    template is long and [replace_loop] two more than the text has runes.  Every
    other loop is structural, on a count or on a list.

    ** What the theorems show

    - The whole program.  [EndToEnd.bridge_end_to_end]: from a configuration
      file that main starts on, and any sequence of requests (whole, or as the
      interleaved sections of several connections), receptions, flush ticks and
      cache replays, to what the bodies POSTed to the two backends decode to.
      Its requests are described by their layout, or plain and arbitrary
      ([EndToEnd.request_ok]); [Records.kafka_batch_misread] and
      [BrokerSafety.client_id_overflow_crashes] say what happens to others.
      Routing with default topics; conservation from the Kafka message, and from
      a replayed file, to the flushed batch; start-up from the command line;
      conservation and draining under shutdown, in every interleaving of the
      goroutines; what the statistics handler reports.
    - The broker.  A Produce request delivers exactly its records, in order, as
      far as the channel has room ([Replies.produce_request] for batches laid out
      as the decoder reads them, [Replies.legacy_produce_request] for magic 0);
      what a client of each version decodes from the responses is what they
      should say, or, for some versions, is not ([Replies.metadata_request],
      [Replies.apiVersions_roundtrip]); on arbitrary bytes the handler
      terminates, keeps the broker's invariant, echoes the correlation id, and
      does not panic outside Produce in the plain encoding.  Requests of several
      connections interleave without losing a topic, a listing or a message
      ([Interleave.concurrent_requests]).  [handleConn] refines the serial
      contract "answer the framed requests in order", ends on any input, and
      rejects bad sizes before reading a body.
    - The parser.  From JSON to the samples or the entry, for telemetry, health
      and alerts; every parsed message is well formed and metric names are
      valid; the shapes of timestamps are read as the instants they denote, and
      a decimal with a unit as the double nearest to it; the log line of an
      alert, an audit entry or an inventory report, unmarshalled, is the message
      received.
    - Configuration.  Durations are stored as the sum their text denotes;
      defaults are filled in once and override nothing.
    - Relabeling.  [Apply] does not depend on map order (outside the labelmap
      case that does), touches no label the rules do not name, and labelmap
      renames what it matches; a rule's expression applies to exactly the values
      it denotes as a whole ([Rules.whole_value_rules]).
    - The encoders.  [Prompb.Marshal_roundtrip] for every request; Loki grouping
      conserves entries, and groups by label set where fingerprints are
      injective.
    - The queue and the forwarders.  Exactly-once and order under every
      interleaving, and draining; what the posted bodies decode to, at the
      protobuf and at the Loki end; the fate of a batch on every path.
    - The cache.  Eviction bound and order, oldest first within a kind; replay
      verdicts for every file; every file delivered at most once over the life
      of the retry loop ([Retry.retryLoop_at_most_once]); the store/replay round
      trip down to the bytes of the file.

    ** What modelling showed

    Theorems that prove a defect or a divergence from the documentation:
    [Records.kafka_batch_misread] (the batch CRC is not read, so Kafka's own
    batches are misread), [BrokerSafety.client_id_overflow_crashes] (the bounds
    check overflows), [BrokerSafety.metadata_count_unchecked],
    [Pipeline.dotted_identifier_drops], [Pipeline.cache_never_fed] (nothing
    stores into the disk cache), [CacheJson.unwritable_batch] (one NaN and the
    batch cannot be stored), [Shutdown.main_never_waits] (main ends without
    waiting for the final flushes), [LokiWriter.fingerprint_collision],
    [Cache.evict_prefers_logs] (name order is not age order),
    [Relabel.labelmap_nondeterministic], [Relabel.absent_source_deletes_target],
    [Batch.stopped_queue_strands], [Api.gauge_stale] (the gauge of cache entries
    is set only by the statistics handler), [Replies.metadata_request] (clients
    of versions 0 to 2 and 9 do not find the broker, or a partition),
    [Replies.apiVersions_roundtrip] (four bytes too many in version 0), [Rules.default_rule] (the default
    expression does not match across lines), [Main.latency_counts_submits] (the
    latency histogram times Submit, with the flush of a full batch only) and [Main.main_start_spec]
    (a negative duration panics at start-up).

    ** What is not modelled

    Package flag beyond the value of [-config], log output, the HTTP server
    below the mux, and the registration and exposition of the Prometheus
    metrics: calls into libraries, with no effect on what is delivered.  Apart
    from these, every statement of the program is translated by some definition.

    ** Plan

    Next: repetition of what matches the empty string, counted repetition, flags
    and word boundaries in [Regexp]; a run of
    [EndToEnd] that ends with the shutdown of [Shutdown]; the decimals exactly
    halfway between two doubles in [Readings.unit_values]. *)
From stdpp Require Export base list strings gmap sorting.
From Stdlib Require Export ZArith Lia.
From Stdlib Require Strings.Byte.
From coqutil Require Export Byte Word.LittleEndianList.

Open Scope Z_scope.

(** ** Machine integers

    A Go integer of width [w] is a [Z] kept in range by the wrap-around of
    every operation that may leave it. *)

Definition wrapU (w z : Z) : Z := z mod 2 ^ w.
Definition wrapS (w z : Z) : Z := (z + 2 ^ (w - 1)) mod 2 ^ w - 2 ^ (w - 1).

Definition inU (w z : Z) : Prop := 0 <= z < 2 ^ w.
Definition inS (w z : Z) : Prop := - 2 ^ (w - 1) <= z < 2 ^ (w - 1).

(** Go's [int] is 64 bits wide on every platform the bridge is built for. *)
Definition int_add (a b : Z) : Z := wrapS 64 (a + b).
Definition int_sub (a b : Z) : Z := wrapS 64 (a - b).

Create HintDb goint.

Section Wrap.
Context (w : Z) (Hw : 0 < w).

Lemma pow_split : 2 ^ w = 2 * 2 ^ (w - 1).
Proof using Hw. rewrite <- Z.pow_succ_r by lia. f_equal. lia. Qed.

Lemma pow_half_pos : 0 < 2 ^ (w - 1).
Proof using Hw. apply Z.pow_pos_nonneg; lia. Qed.

Lemma wrapU_range z : inU w (wrapU w z).
Proof using Hw. apply Z.mod_pos_bound, Z.pow_pos_nonneg; lia. Qed.

Lemma wrapS_range z : inS w (wrapS w z).
Proof using Hw.
  unfold inS, wrapS. pose proof pow_split. pose proof pow_half_pos.
  pose proof (Z.mod_pos_bound (z + 2 ^ (w - 1)) (2 ^ w)). lia.
Qed.

Lemma wrapU_small z : inU w z → wrapU w z = z.
Proof using Type. apply Z.mod_small. Qed.

Lemma wrapS_small z : inS w z → wrapS w z = z.
Proof using Hw.
  unfold inS, wrapS. intros H. pose proof pow_split. pose proof pow_half_pos.
  rewrite Z.mod_small by lia. lia.
Qed.

Lemma wrapS_wrapU z : wrapS w (wrapU w z) = wrapS w z.
Proof using Hw. unfold wrapS, wrapU. f_equal. now rewrite Zplus_mod_idemp_l. Qed.

Lemma wrapU_wrapS z : wrapU w (wrapS w z) = wrapU w z.
Proof using Hw.
  unfold wrapS, wrapU. rewrite Zminus_mod_idemp_l. f_equal. lia.
Qed.
End Wrap.

#[export] Hint Resolve wrapU_range wrapS_range : goint.

(** ** Outcomes and the state monad

    A Go function that may crash the goroutine returns an [outcome]:
    [Panic] is an unrecovered run-time panic, [OutOfFuel] marks a bound on a
    loop that has no bound in the source (each such loop comes with a theorem
    that the bound chosen is never reached). *)

Inductive go_panic :=
  | PanicSliceBounds        (* slice bounds out of range *)
  | PanicIndex              (* index out of range *)
  | PanicMakeSlice          (* makeslice: len or cap out of range *)
  | PanicTicker             (* non-positive interval for NewTicker *)
  | PanicCloseClosed.       (* close of closed channel *)

Inductive outcome (A : Type) :=
  | Ok (a : A)
  | Panic (p : go_panic)
  | OutOfFuel.
Arguments Ok {A} a.
Arguments Panic {A} p.
Arguments OutOfFuel {A}.

#[export] Instance go_panic_eq_dec : EqDecision go_panic.
Proof. solve_decision. Defined.

#[export] Instance outcome_ret : MRet outcome := λ A a, Ok a.
#[export] Instance outcome_bind : MBind outcome := λ A B f m,
  match m with Ok a => f a | Panic p => Panic p | OutOfFuel => OutOfFuel end.

(** An [error] value of Go is modelled by the message it carries; [None] is
    [nil]. *)
Definition error := string.

(** State passing with panics. *)
Definition St (S A : Type) : Type := S → outcome (A * S).

#[export] Instance st_ret (S : Type) : MRet (St S) := λ A a s, Ok (a, s).
#[export] Instance st_bind (S : Type) : MBind (St S) := λ A B f m s,
  match m s with
  | Ok (a, s') => f a s'
  | Panic p => Panic p
  | OutOfFuel => OutOfFuel
  end.

Definition st_panic {S A} (p : go_panic) : St S A := λ _, Panic p.
Definition st_get {S A} (f : S → A) : St S A := λ s, Ok (f s, s).
Definition st_modify {S} (f : S → S) : St S unit := λ s, Ok (tt, f s).

(** [for i := 0; i < n; i++ { ... }] for a body that does not use [i]: the
    first form runs the body for its effect, the second appends what the body
    returns to a slice. *)
Fixpoint for_n {S} (n : nat) (body : St S unit) : St S unit :=
  match n with
  | O => mret tt
  | Datatypes.S n => _ ← body; for_n n body
  end.

Fixpoint for_collect {S A} (n : nat) (body : St S A) : St S (list A) :=
  match n with
  | O => mret []
  | Datatypes.S n => x ← body; xs ← for_collect n body; mret (x :: xs)
  end.

Lemma st_bind_ok {S A B} (m : St S A) (f : A → St S B) s a s' :
  m s = Ok (a, s') → (m ≫= f) s = f a s'.
Proof. intros H. unfold mbind, st_bind. now rewrite H. Qed.

Lemma st_bind_inv {S A B} (m : St S A) (f : A → St S B) s r :
  (m ≫= f) s = Ok r → ∃ a s', m s = Ok (a, s') ∧ f a s' = Ok r.
Proof. unfold mbind, st_bind. destruct (m s) as [[a s']| |]; [eauto|done|done]. Qed.

Lemma st_bind_assoc {S A B C} (m : St S A) (f : A → St S B) (g : B → St S C) s :
  ((m ≫= f) ≫= g) s = (m ≫= λ a, f a ≫= g) s.
Proof. unfold mbind, st_bind. by destruct (m s) as [[a s']| |]. Qed.

Lemma st_bind_ret_l {S A B} (a : A) (f : A → St S B) s : (mret a ≫= f) s = f a s.
Proof. reflexivity. Qed.

Lemma st_bind_cong {S A B} (m : St S A) (f g : A → St S B) s :
  (∀ a s', f a s' = g a s') → (m ≫= f) s = (m ≫= g) s.
Proof. intros H. unfold mbind, st_bind. by destruct (m s) as [[a s']| |]. Qed.

(** Prove two sequences of binds equal, read by read. *)
Ltac bind_cong :=
  repeat (rewrite ?st_bind_assoc; apply st_bind_cong; intros).

Lemma for_collect_length {S A} n (body : St S A) s xs s' :
  for_collect n body s = Ok (xs, s') → length xs = n.
Proof.
  revert s xs s'. induction n as [|n IH]; intros s xs s' H; [now inversion H|].
  cbn in H. unfold mbind, st_bind in H.
  destruct (body s) as [[x s1]| |]; try discriminate.
  destruct (for_collect n body s1) as [[ys s2]| |] eqn:E; try discriminate.
  inversion H; subst. cbn. f_equal. eauto.
Qed.

(** Tactics shared by the development. *)

(** Case analysis on every scrutinee of a [match] in the hypotheses or goal. *)
Ltac break_match :=
  repeat match goal with
  | |- context [match ?x with _ => _ end] => destruct x eqn:?; try discriminate
  end.

(** Turn boolean comparisons into propositions and call [lia]. *)
Ltac bool_lia :=
  repeat match goal with
  | H : context [Z.ltb _ _] |- _ => revert H
  | H : context [Z.leb _ _] |- _ => revert H
  | H : context [Z.eqb _ _] |- _ => revert H
  end; lia.

(** Linear arithmetic with division and remainder. *)
Ltac div_lia := Z.to_euclidean_division_equations; lia.

(** Settle a decidable closed goal by evaluating its decision procedure, so
    that only a boolean is read back. *)
Ltac by_decision := apply (bool_decide_eq_true_1 _); vm_compute; reflexivity.

(** Filters that agree on the elements of a list give the same list. *)
Lemma filter_ext_elem {A} (P1 P2 : A → Prop) `{!∀ x, Decision (P1 x), !∀ x, Decision (P2 x)} (l : list A) :
  (∀ x, x ∈ l → P1 x ↔ P2 x) → filter P1 l = filter P2 l.
Proof.
  induction l as [|a l IH]; intros Heq; [done|].
  assert (Ha : P1 a ↔ P2 a) by (apply Heq; by left).
  assert (Hl : filter P1 l = filter P2 l) by (apply IH; intros x Hx; apply Heq; by right).
  destruct (decide (P1 a)).
  - rewrite !filter_cons_True by tauto. by f_equal.
  - rewrite !filter_cons_False by tauto. done.
Qed.

(** ** Byte slices *)

Abbreviation bytes := (list byte).

#[export] Instance byte_eq_dec : EqDecision byte := Stdlib.Strings.Byte.byte_eq_dec.

Definition len {A} (l : list A) : Z := Z.of_nat (length l).

Lemma len_app {A} (l1 l2 : list A) : len (l1 ++ l2) = len l1 + len l2.
Proof. unfold len. rewrite length_app. lia. Qed.
Lemma len_cons {A} (x : A) l : len (x :: l) = 1 + len l.
Proof. unfold len. cbn [length]. lia. Qed.
Lemma len_nonneg {A} (l : list A) : 0 <= len l.
Proof. unfold len. lia. Qed.

Create Rewrite HintDb len.
#[export] Hint Rewrite @length_app @length_rev @length_take @length_drop @length_map : len.
#[export] Hint Resolve len_nonneg : goint.

(** [lia] after normalising lengths. *)
Ltac len_simp := unfold len in *; autorewrite with len in *; cbn [length] in *.
Ltac len_lia := len_simp; lia.

(** The slice expression [b[lo:hi]] (capacity = length): out of range panics. *)
Definition slice {A} (b : list A) (lo hi : Z) : outcome (list A) :=
  if (0 <=? lo) && (lo <=? hi) && (hi <=? len b)
  then Ok (take (Z.to_nat (hi - lo)) (drop (Z.to_nat lo) b))
  else Panic PanicSliceBounds.

(** [b[lo:]] *)
Definition slice_from {A} (b : list A) (lo : Z) : outcome (list A) := slice b lo (len b).

(** [make([]T, n)] for elements of [size] bytes: the run-time's [makeslice]
    panics on a negative length or when the bytes exceed [maxAlloc] (2^48 on
    amd64).  Exhausting the machine's memory below that bound is not modelled. *)
Definition maxAlloc : Z := 2 ^ 48.
Definition makeslice (size n : Z) : outcome unit :=
  if (n <? 0) || (maxAlloc <? size * n) then Panic PanicMakeSlice else Ok tt.

Lemma makeslice_ok size n : 0 <= n → size * n <= maxAlloc → makeslice size n = Ok tt.
Proof.
  intros H1 H2. unfold makeslice.
  destruct (Z.ltb_spec n 0), (Z.ltb_spec maxAlloc (size * n)); try lia. done.
Qed.

Lemma slice_app {A} (pre l suf : list A) :
  slice (pre ++ l ++ suf) (len pre) (len pre + len l) = Ok l.
Proof.
  unfold slice.
  replace (_ && _) with true.
  - rewrite drop_app_length'; [|unfold len; lia].
    rewrite take_app_length'; [done|unfold len; lia].
  - symmetry. rewrite !andb_true_iff, !Z.leb_le. len_lia.
Qed.

Lemma slice_from_app {A} (pre suf : list A) : slice_from (pre ++ suf) (len pre) = Ok suf.
Proof.
  unfold slice_from. rewrite <- (app_nil_r suf) at 1.
  rewrite len_app. apply slice_app.
Qed.

(** ** Time

    A [time.Time] is the number of nanoseconds since the Unix epoch; the
    conversions to [int64] wrap. *)
Definition time := Z.
Definition time_UnixMilli (ms : Z) : time := ms * 1000000.
Definition UnixMilli (t : time) : Z := wrapS 64 (t / 1000000).
Definition UnixNano (t : time) : Z := wrapS 64 t.
