(* ===== verification/Binary.v ===== *)
(** * Binary: the parts of Go's [encoding/binary] the program uses

    Fixed-width big- and little-endian integers and the unsigned and zigzag
    variable-length integers, over [list byte].  [internal/broker] and
    [pkg/prompb] are built on these. *)
From S2P Require Import Prelude.
Open Scope Z_scope.

(** ** Fixed width *)

(** [binary.BigEndian.PutUintN] and [binary.BigEndian.UintN], [n] in bytes. *)
Definition be_put (n : nat) (v : Z) : bytes := rev (le_split n v).
Definition be_get (b : bytes) : Z := le_combine (rev b).

(** [binary.BigEndian.UintN(b)] reads the first [n] bytes of a slice and
    panics on a shorter one. *)
Definition be_uint (n : nat) (b : bytes) : outcome Z :=
  if (n <=? length b)%nat then Ok (be_get (take n b)) else Panic PanicIndex.

Lemma be_put_length n v : length (be_put n v) = n.
Proof. unfold be_put. rewrite length_rev. apply length_le_split. Qed.

Lemma be_put_len n v : len (be_put n v) = Z.of_nat n.
Proof. unfold len. now rewrite be_put_length. Qed.

Lemma be_get_put n v : be_get (be_put n v) = wrapU (8 * Z.of_nat n) v.
Proof.
  unfold be_get, be_put, wrapU. rewrite rev_involutive, le_combine_split.
  do 2 f_equal. lia.
Qed.

Lemma be_put_get l : be_put (length l) (be_get l) = l.
Proof.
  unfold be_put, be_get. rewrite <- (length_rev l), split_le_combine. apply rev_involutive.
Qed.

Lemma be_put_wrap n v : be_put n (wrapU (8 * Z.of_nat n) v) = be_put n v.
Proof.
  unfold be_put, wrapU. by rewrite (le_split_mod v n), (Z.mul_comm 8).
Qed.

Lemma be_uint_put n v suf :
  be_uint n (be_put n v ++ suf) = Ok (wrapU (8 * Z.of_nat n) v).
Proof.
  unfold be_uint. rewrite length_app, be_put_length.
  destruct (Nat.leb_spec n (n + length suf)); [|lia].
  rewrite take_app_length' by now rewrite be_put_length. now rewrite be_get_put.
Qed.

Lemma be_get_range b : inU (8 * len b) (be_get b).
Proof.
  unfold inU, be_get, len. rewrite <- (length_rev b). apply le_combine_bound.
Qed.

#[export] Hint Rewrite be_put_length : len.

(** ** Unsigned varints *)

Definition MaxVarintLen64 : Z := 10.

(** The loop of [binary.PutUvarint]: the bytes stored in the 10-byte buffer.
    The fuel is the buffer's length, so running out of it is the index panic a
    longer encoding would cause. *)
Fixpoint put_uvarint_loop (fuel : nat) (x : Z) : bytes :=
  match fuel with
  | O => []
  | S fuel =>
      if x <? 0x80 then [byte.of_Z x]
      else byte.of_Z (Z.lor (wrapU 8 x) 0x80) :: put_uvarint_loop fuel (Z.shiftr x 7)
  end.
Definition PutUvarint (x : Z) : bytes := put_uvarint_loop 10 x.

(** [binary.Uvarint]: the value and the number of bytes read; [n = 0] when the
    buffer ends first, [n < 0] on overflow of 64 bits. *)
Fixpoint uvarint_loop (buf : bytes) (i x s : Z) : Z * Z :=
  match buf with
  | [] => (0, 0)
  | b :: buf =>
      let b := byte.unsigned b in
      if i =? MaxVarintLen64 then (0, -(i + 1))
      else if b <? 0x80 then
        if (i =? MaxVarintLen64 - 1) && (1 <? b) then (0, -(i + 1))
        else (Z.lor x (wrapU 64 (Z.shiftl b s)), i + 1)
      else uvarint_loop buf (i + 1)
             (Z.lor x (wrapU 64 (Z.shiftl (Z.land b 0x7f) s))) (s + 7)
  end.
Definition Uvarint (buf : bytes) : Z * Z := uvarint_loop buf 0 0 0.

(** [binary.PutVarint] / [binary.Varint]: zigzag over the unsigned form. *)
Definition zigzag (x : Z) : Z :=
  let ux := wrapU 64 (Z.shiftl x 1) in
  if x <? 0 then wrapU 64 (Z.lnot ux) else ux.
Definition unzigzag (ux : Z) : Z :=
  let x := Z.shiftr ux 1 in
  if Z.land ux 1 =? 0 then x else Z.lnot x.
Definition PutVarint (x : Z) : bytes := PutUvarint (zigzag x).
Definition Varint (buf : bytes) : Z * Z :=
  let '(ux, n) := Uvarint buf in (unzigzag ux, n).

Example uvarint_300 : PutUvarint 300 = [Byte.xac; Byte.x02].
Proof. reflexivity. Qed.
Example uvarint_300_back : Uvarint (PutUvarint 300 ++ [Byte.xff]) = (300, 2).
Proof. reflexivity. Qed.
Example uvarint_max : Uvarint (PutUvarint (2 ^ 64 - 1)) = (2 ^ 64 - 1, 10).
Proof. reflexivity. Qed.
Example varint_m3 : Varint (PutVarint (-3)) = (-3, 1).
Proof. reflexivity. Qed.

(** ** Round trips *)

Lemma lor_shiftl_add a b s :
  0 <= s → inU s a → 0 <= b → Z.lor a (Z.shiftl b s) = a + b * 2 ^ s.
Proof.
  unfold inU. intros Hs Ha Hb. rewrite <- Z.shiftl_mul_pow2 by lia. symmetry.
  apply Z.add_nocarry_lor, Z.bits_inj'. intros i Hi.
  rewrite Z.land_spec, Z.bits_0. destruct (Z.lt_ge_cases i s).
  - rewrite Z.shiftl_spec_low by lia. apply andb_false_r.
  - rewrite <- (Z.mod_small a (2 ^ s)) by lia.
    now rewrite Z.mod_pow2_bits_high by lia.
Qed.

Lemma byte_low x : inU 7 x → byte.unsigned (byte.of_Z x) = x.
Proof.
  unfold inU. intros H. rewrite byte.unsigned_of_Z. apply Z.mod_small. lia.
Qed.

(** A continuation byte carries the low seven bits and the high bit. *)
Lemma byte_cont x :
  byte.unsigned (byte.of_Z (Z.lor (wrapU 8 x) 0x80)) = x mod 128 + 128.
Proof.
  rewrite byte.unsigned_of_Z. unfold byte.wrap, wrapU.
  assert (Hl : Z.lor (x mod 2 ^ 8) 0x80 = x mod 128 + 128).
  { apply Z.bits_inj'. intros i Hi.
    replace (x mod 128 + 128) with (Z.lor (x mod 2 ^ 7) (Z.shiftl 1 7)).
    2: { rewrite lor_shiftl_add; [reflexivity|lia|apply Z.mod_pos_bound; lia|lia]. }
    change 0x80 with (Z.shiftl 1 7). rewrite !Z.lor_spec.
    destruct (Z.eq_dec i 7) as [->|]; [now rewrite Z.shiftl_spec, !orb_true_r by lia|].
    f_equal. destruct (Z.lt_ge_cases i 7).
    - now rewrite !Z.mod_pow2_bits_low by lia.
    - now rewrite !Z.mod_pow2_bits_high by lia. }
  rewrite Hl. apply Z.mod_small. pose proof (Z.mod_pos_bound x 128). lia.
Qed.

Lemma byte_cont_land x : Z.land (x mod 128 + 128) 0x7f = x mod 128.
Proof.
  change 0x7f with (Z.ones 7). rewrite Z.land_ones by lia.
  rewrite Z.add_mod by lia. change (128 mod 2 ^ 7) with 0.
  rewrite Z.add_0_r, !Z.mod_mod by lia. reflexivity.
Qed.

Lemma wrapU_shiftl x s w :
  0 <= s → 0 <= x → x * 2 ^ s < 2 ^ w → wrapU w (Z.shiftl x s) = Z.shiftl x s.
Proof.
  intros Hs Hx Hb. unfold wrapU. rewrite Z.shiftl_mul_pow2 by lia.
  apply Z.mod_small. split; [|lia]. apply Z.mul_nonneg_nonneg; [lia|].
  apply Z.pow_nonneg; lia.
Qed.

(** The loop invariant: [i] bytes are behind, they carried the low [7 * i]
    bits in [acc], and the remaining value still fits in 64 bits. *)
Lemma uvarint_loop_put fuel : ∀ x i acc suf,
  0 <= i → Z.of_nat fuel + i = MaxVarintLen64 → inU (64 - 7 * i) x → i < 10 →
  inU (7 * i) acc →
  uvarint_loop (put_uvarint_loop fuel x ++ suf) i acc (7 * i) =
    (acc + x * 2 ^ (7 * i), i + len (put_uvarint_loop fuel x)).
Proof.
  unfold MaxVarintLen64.
  induction fuel as [|fuel IH]; intros x i acc suf Hi Hfuel Hx Hi10 Hacc; [lia|].
  assert (Hpow : 2 ^ (64 - 7 * i) * 2 ^ (7 * i) = 2 ^ 64)
    by (rewrite <- Z.pow_add_r by lia; f_equal; lia).
  assert (Hpos : 0 < 2 ^ (7 * i)) by (apply Z.pow_pos_nonneg; lia).
  assert (Hbig : x * 2 ^ (7 * i) < 2 ^ 64) by (unfold inU in Hx; nia).
  cbn [put_uvarint_loop]. destruct (Z.ltb_spec x 0x80) as [Hlt|Hge].
  - cbn [app uvarint_loop]. unfold inU in Hx. rewrite byte_low by (unfold inU; lia).
    unfold MaxVarintLen64. destruct (Z.eqb_spec i 10); [lia|].
    destruct (Z.ltb_spec x 0x80); [|lia].
    replace ((i =? 10 - 1) && (1 <? x)) with false.
    + rewrite wrapU_shiftl, lor_shiftl_add by (assumption || lia). now rewrite len_cons.
    + symmetry. apply andb_false_iff.
      destruct (Z.eqb_spec i (10 - 1)) as [->|]; [right|now left].
      change (2 ^ (64 - 7 * (10 - 1))) with 2 in Hx. apply Z.ltb_ge. lia.
  - cbn [app uvarint_loop]. rewrite byte_cont, byte_cont_land.
    pose proof (Z.mod_pos_bound x 128) as Hmod.
    pose proof (Z.div_mod x 128) as Hdm.
    unfold MaxVarintLen64. destruct (Z.eqb_spec i 10); [lia|].
    destruct (Z.ltb_spec (x mod 128 + 128) 0x80); [lia|].
    assert (Hi9 : i < 9).
    { destruct (Z.eq_dec i 9) as [->|]; [|lia].
      unfold inU in Hx. change (2 ^ (64 - 7 * 9)) with 2 in Hx. lia. }
    rewrite wrapU_shiftl, lor_shiftl_add by (assumption || unfold inU in *; nia).
    replace (7 * i + 7) with (7 * (i + 1)) by lia.
    assert (Hs : 2 ^ (7 * (i + 1)) = 128 * 2 ^ (7 * i))
      by (change 128 with (2 ^ 7); rewrite <- Z.pow_add_r by lia; f_equal; lia).
    rewrite Z.shiftr_div_pow2 by lia. change (2 ^ 7) with 128.
    rewrite IH; [rewrite len_cons, Hs; f_equal; nia|lia|lia| |lia|unfold inU in *; nia].
    unfold inU in *. split; [apply Z.div_pos; lia|].
    apply Z.div_lt_upper_bound; [lia|]. change 128 with (2 ^ 7).
    rewrite <- Z.pow_add_r by lia. replace (7 + (64 - 7 * (i + 1))) with (64 - 7 * i) by lia. lia.
Qed.

Lemma uvarint_put x suf :
  inU 64 x → Uvarint (PutUvarint x ++ suf) = (x, len (PutUvarint x)).
Proof.
  intros Hx. unfold Uvarint, PutUvarint.
  pose proof (uvarint_loop_put 10 x 0 0 suf) as H. change (7 * 0) with 0 in H.
  rewrite H; unfold MaxVarintLen64, inU in *; try lia. f_equal; lia.
Qed.

Lemma put_uvarint_len x : 0 < len (PutUvarint x) <= MaxVarintLen64.
Proof.
  assert (H : ∀ fuel y, len (put_uvarint_loop fuel y) <= Z.of_nat fuel).
  { induction fuel as [|fuel IH]; intros y; cbn [put_uvarint_loop]; [reflexivity|].
    destruct (y <? 0x80); rewrite len_cons; [|pose proof (IH (Z.shiftr y 7))]; len_lia. }
  split; [|apply H]. unfold PutUvarint. cbn [put_uvarint_loop].
  destruct (x <? 0x80); rewrite len_cons; len_lia.
Qed.

(** Zigzag: every [int64] comes back. *)
Lemma shiftl1_parity x : Z.shiftl x 1 = 2 * x.
Proof. rewrite Z.shiftl_mul_pow2 by lia. lia. Qed.

Lemma land1_mod x : Z.land x 1 = x mod 2.
Proof. change 1 with (Z.ones 1) at 1. now rewrite Z.land_ones. Qed.

Lemma zigzag_val x : inS 64 x → zigzag x = if x <? 0 then -2 * x - 1 else 2 * x.
Proof.
  unfold inS, zigzag. intros H. rewrite shiftl1_parity.
  destruct (Z.ltb_spec x 0).
  - replace (wrapU 64 (2 * x)) with (2 * x + 2 ^ 64).
    + unfold wrapU. rewrite <- (Z.mod_unique_pos _ (2 ^ 64) (-1) (-2 * x - 1)); [done|lia|].
      rewrite Z.lnot_eq_pred_opp. lia.
    + unfold wrapU. apply Z.mod_unique_pos with (-1); lia.
  - apply wrapU_small. unfold inU. lia.
Qed.

Lemma zigzag_range x : inS 64 x → inU 64 (zigzag x).
Proof.
  intros H. rewrite zigzag_val by done. unfold inS, inU in *.
  destruct (Z.ltb_spec x 0); lia.
Qed.

Lemma unzigzag_zigzag x : inS 64 x → unzigzag (zigzag x) = x.
Proof.
  intros H. rewrite zigzag_val by done. unfold unzigzag.
  rewrite land1_mod, Z.shiftr_div_pow2 by lia.
  change (2 ^ 1) with 2.
  destruct (Z.ltb_spec x 0), (Z.eqb_spec ((-2 * x - 1) mod 2) 0), (Z.eqb_spec ((2 * x) mod 2) 0);
    rewrite ?Z.lnot_eq_pred_opp; Z.to_euclidean_division_equations; lia.
Qed.

Lemma varint_put x suf :
  inS 64 x → Varint (PutVarint x ++ suf) = (x, len (PutVarint x)).
Proof.
  intros H. unfold Varint, PutVarint.
  rewrite uvarint_put by now apply zigzag_range. now rewrite unzigzag_zigzag.
Qed.

(** ** Bounds on any input *)

Lemma lor_inU w a b : 0 <= w → inU w a → inU w b → inU w (Z.lor a b).
Proof.
  unfold inU. intros Hw Ha Hb. split; [apply Z.lor_nonneg; lia|].
  rewrite <- (Z.mod_small a (2 ^ w)), <- (Z.mod_small b (2 ^ w)) by lia.
  rewrite <- !Z.land_ones, <- Z.land_lor_distr_l, Z.land_ones by lia.
  apply Z.mod_pos_bound. apply Z.pow_pos_nonneg; lia.
Qed.

Lemma uvarint_loop_bounds buf : ∀ i x s v n,
  0 <= i <= MaxVarintLen64 → inU 64 x →
  uvarint_loop buf i x s = (v, n) →
  inU 64 v ∧ n <= MaxVarintLen64 ∧ n <= i + len buf.
Proof.
  unfold MaxVarintLen64. induction buf as [|b buf IH]; intros i x s v n Hi Hx H; cbn in H.
  { simplify_eq. unfold inU, len. lia. }
  rewrite len_cons. pose proof (len_nonneg buf).
  unfold MaxVarintLen64 in H. destruct (Z.eqb_spec i 10).
  { simplify_eq. unfold inU. lia. }
  assert (Hlor : ∀ y, inU 64 (Z.lor x (wrapU 64 y))).
  { intros y. apply lor_inU; [lia|done|apply wrapU_range; lia]. }
  destruct (byte.unsigned b <? 0x80).
  - destruct ((i =? 10 - 1) && (1 <? byte.unsigned b)); simplify_eq.
    + unfold inU. lia.
    + split; [apply Hlor|]. lia.
  - apply IH in H as (? & ? & ?); [|lia|apply Hlor]. split; [done|lia].
Qed.

Lemma Uvarint_bounds buf v n :
  Uvarint buf = (v, n) → inU 64 v ∧ n <= MaxVarintLen64 ∧ n <= len buf.
Proof.
  intros H. apply uvarint_loop_bounds in H as (? & ? & ?);
    [split; [done|lia]|unfold MaxVarintLen64; lia|unfold inU; lia].
Qed.

Lemma Varint_bounds buf v n :
  Varint buf = (v, n) → inS 64 v ∧ n <= MaxVarintLen64 ∧ n <= len buf.
Proof.
  unfold Varint. destruct (Uvarint buf) as [ux m] eqn:E. intros [= <- <-].
  apply Uvarint_bounds in E as (Hu & ?). split; [|done].
  unfold unzigzag, inS, inU in *. rewrite Z.shiftr_div_pow2 by lia.
  change (2 ^ 1) with 2. pose proof (Z.div_mod ux 2). pose proof (Z.mod_pos_bound ux 2).
  destruct (Z.land ux 1 =? 0); [lia|]. rewrite Z.lnot_eq_pred_opp. lia.
Qed.
