(* ===== verification/Wire.v ===== *)
(** * Wire: the binary [reader] and [writer] of internal/broker/broker.go

    [Module Reader] and [Module Writer] hold the methods of the two structs.
    The reader methods run in the state monad [M X] over the reader and an
    extra state [X], so the same methods serve the request handlers (where [X]
    is the broker) and the reference decoders (where it is [unit]).

    The judgement [runs m bs x a x'] says that [m], standing in front of the
    bytes [bs], consumes exactly these and returns [a]; it composes along
    [mbind], and every encode/decode theorem of the development is a
    derivation of it.  [safe m Q] says that [m] cannot panic. *)
From S2P Require Import Prelude Binary.
Open Scope Z_scope.

Record reader := mkReader { rbuf : bytes; rpos : Z }.

Abbreviation M X := (St (reader * X)).

Module Reader.
Section Methods.
Context {X : Type}.

Definition advance (r : reader) (n : Z) : reader :=
  mkReader (rbuf r) (int_add (rpos r) n).

Definition remaining (r : reader) : Z := int_sub (len (rbuf r)) (rpos r).

Definition readInt8 : M X Z := λ '(r, x),
  if len (rbuf r) <=? rpos r then Ok (0, (r, x))
  else if rpos r <? 0 then Panic PanicIndex
  else match rbuf r !! Z.to_nat (rpos r) with
       | Some b => Ok (wrapS 8 (byte.unsigned b), (advance r 1, x))
       | None => Panic PanicIndex
       end.

(** The common body of [readInt16], [readInt32] and [readInt64]. *)
Definition readIntBE (n : nat) : M X Z := λ '(r, x),
  if len (rbuf r) <? int_add (rpos r) (Z.of_nat n) then Ok (0, (r, x))
  else b ← slice_from (rbuf r) (rpos r);
       u ← be_uint n b;
       Ok (wrapS (8 * Z.of_nat n) u, (advance r (Z.of_nat n), x)).

Definition readInt16 : M X Z := readIntBE 2.
Definition readInt32 : M X Z := readIntBE 4.
Definition readInt64 : M X Z := readIntBE 8.

Definition readUvarint : M X Z := λ '(r, x),
  b ← slice_from (rbuf r) (rpos r);
  let '(v, n) := Uvarint b in
  Ok (v, ((if 0 <? n then advance r n else r), x)).

Definition readVarint : M X Z := λ '(r, x),
  b ← slice_from (rbuf r) (rpos r);
  let '(v, n) := Varint b in
  Ok (v, ((if 0 <? n then advance r n else r), x)).

(** [if n < 0 || r.pos+n > len(r.buf) { return zero }] followed by the
    slice [r.buf[r.pos : r.pos+n]]. *)
Definition takeN {A} (zero : A) (f : bytes → outcome A) (n : Z) : M X A := λ '(r, x),
  if (n <? 0) || (len (rbuf r) <? int_add (rpos r) n) then Ok (zero, (r, x))
  else b ← slice (rbuf r) (rpos r) (int_add (rpos r) n);
       a ← f b;
       Ok (a, (advance r n, x)).

Definition readString : M X string :=
  n ← readInt16;
  takeN ""%string (λ b, Ok (String.string_of_list_byte b)) n.

Definition readCompactString : M X string :=
  u ← readUvarint;
  let n := int_sub (wrapS 64 u) 1 in
  takeN ""%string (λ b, Ok (String.string_of_list_byte b)) n.

Definition readCompactNullableString : M X string :=
  u ← readUvarint;
  let n := int_sub (wrapS 64 u) 1 in
  takeN ""%string (λ b, Ok (String.string_of_list_byte b)) n.

(** [make([]byte, n)] comes before the slice expression of the [copy]. *)
Definition makeCopy (n : Z) : M X (option bytes) := λ '(r, x),
  if (n <? 0) || (len (rbuf r) <? int_add (rpos r) n) then Ok (None, (r, x))
  else _ ← makeslice 1 n;
       b ← slice (rbuf r) (rpos r) (int_add (rpos r) n);
       Ok (Some b, (advance r n, x)).

Definition readBytes : M X (option bytes) := n ← readInt32; makeCopy n.
Definition readVarBytes : M X (option bytes) := n ← readVarint; makeCopy n.
End Methods.
End Reader.

(** ** The writer: every method appends to the buffer. *)
Module Writer.
Definition writer := bytes.
Definition new : writer := [].

Definition writeInt8 (v : Z) (w : writer) : writer := w ++ [byte.of_Z v].
Definition writeBool (v : bool) (w : writer) : writer :=
  if v then writeInt8 1 w else writeInt8 0 w.
Definition writeInt16 (v : Z) (w : writer) : writer := w ++ be_put 2 (wrapU 16 v).
Definition writeInt32 (v : Z) (w : writer) : writer := w ++ be_put 4 (wrapU 32 v).
Definition writeInt64 (v : Z) (w : writer) : writer := w ++ be_put 8 (wrapU 64 v).
Definition writeUvarint (v : Z) (w : writer) : writer := w ++ PutUvarint v.
Definition writeRaw (b : bytes) (w : writer) : writer := w ++ b.

(** [len(s)] of a Go string is its number of bytes. *)
Definition slen (s : string) : Z := len (String.list_byte_of_string s).

Definition writeString (s : string) (w : writer) : writer :=
  if decide (s = ""%string) then writeInt16 (-1) w
  else writeInt16 (wrapS 16 (slen s)) w ++ String.list_byte_of_string s.

Definition writeCompactString (s : string) (w : writer) : writer :=
  writeUvarint (wrapU 64 (slen s + 1)) w ++ String.list_byte_of_string s.

Definition writeCompactNullableString (s : string) (w : writer) : writer :=
  if decide (s = ""%string) then writeUvarint 0 w
  else writeUvarint (wrapU 64 (slen s + 1)) w ++ String.list_byte_of_string s.
End Writer.

Declare Scope writer_scope.
Delimit Scope writer_scope with writer.
Notation "w |> f" := (f w) (at level 50, left associativity, only parsing) : writer_scope.

Import Reader.

(** ** The [runs] judgement *)

(** The largest buffer considered: far above the 32 MiB a connection accepts,
    far below the range of [int]. *)
Definition small (b : bytes) : Prop := len b <= 2 ^ 47.

(** The reader standing between [pre] and [suf]. *)
Definition cursor (pre suf : bytes) : reader := mkReader (pre ++ suf) (len pre).

Definition runs {X A} (m : M X A) (bs : bytes) (x : X) (a : A) (x' : X) : Prop :=
  ∀ pre suf, small (pre ++ bs ++ suf) →
    m (cursor pre (bs ++ suf), x) = Ok (a, (cursor (pre ++ bs) suf, x')).

Create HintDb wire discriminated.
#[export] Hint Constants Opaque : wire.

Lemma runs_ret {X A} (a : A) (x : X) : runs (mret a) [] x a x.
Proof. intros pre suf _. rewrite app_nil_r. reflexivity. Qed.

Lemma runs_bind {X A B} (m : M X A) (f : A → M X B) bs1 bs2 x a x1 b x2 :
  runs m bs1 x a x1 → runs (f a) bs2 x1 b x2 → runs (m ≫= f) (bs1 ++ bs2) x b x2.
Proof.
  intros H1 H2 pre suf Hs. rewrite <- app_assoc in Hs |- *.
  erewrite st_bind_ok by (now apply H1).
  rewrite H2 by (now rewrite <- app_assoc). now rewrite <- !app_assoc.
Qed.

(** A last step that consumes nothing: no trailing [++ []] in the bytes. *)
Lemma runs_bind_nil {X A B} (m : M X A) (f : A → M X B) bs x a x1 b x2 :
  runs m bs x a x1 → runs (f a) [] x1 b x2 → runs (m ≫= f) bs x b x2.
Proof. intros H1 H2. rewrite <- (app_nil_r bs). eapply runs_bind; eassumption. Qed.

Lemma runs_ext {X A} (m m' : M X A) bs x a x' :
  (∀ s, m s = m' s) → runs m bs x a x' → runs m' bs x a x'.
Proof. intros He H pre suf Hs. now rewrite <- He, H. Qed.

Lemma cursor_advance pre l suf :
  small (pre ++ l ++ suf) →
  advance (cursor pre (l ++ suf)) (len l) = cursor (pre ++ l) suf.
Proof.
  unfold small, advance, cursor, int_add. intros Hs. cbn [rbuf rpos]. f_equal.
  - now rewrite app_assoc.
  - rewrite wrapS_small, len_app by (try lia; unfold inS; len_lia). done.
Qed.

Lemma cursor_int_add pre l suf :
  small (pre ++ l ++ suf) → int_add (len pre) (len l) = len pre + len l.
Proof. unfold small, int_add. intros. apply wrapS_small; [lia|unfold inS; len_lia]. Qed.

(** Any bytes are read as the integer they spell. *)
Lemma runs_readInt8_raw {X} b (x : X) : runs readInt8 [b] x (wrapS 8 (byte.unsigned b)) x.
Proof.
  intros pre suf Hs. unfold readInt8. cbn [cursor rbuf rpos].
  destruct (Z.leb_spec (len (pre ++ [b] ++ suf)) (len pre)); [len_lia|].
  destruct (Z.ltb_spec (len pre) 0); [len_lia|].
  rewrite lookup_app_r by len_lia. unfold len at 1. rewrite Nat2Z.id, Nat.sub_diag. cbn.
  do 3 f_equal. now apply (cursor_advance pre [b] suf).
Qed.

Lemma runs_readIntBE_raw {X} n l (x : X) :
  length l = n → runs (readIntBE n) l x (wrapS (8 * Z.of_nat n) (be_get l)) x.
Proof.
  intros <- pre suf Hs. unfold readIntBE. cbn [cursor rbuf rpos]. fold (len l).
  rewrite (cursor_int_add _ _ _ Hs).
  destruct (Z.ltb_spec (len (pre ++ l ++ suf)) (len pre + len l)); [len_lia|].
  rewrite slice_from_app. cbn [mbind outcome_bind]. unfold be_uint.
  rewrite length_app, take_app_length.
  destruct (Nat.leb_spec (length l) (length l + length suf)); [|lia].
  cbn [mbind outcome_bind]. do 3 f_equal. apply cursor_advance, Hs.
Qed.

Lemma runs_readInt8 {X} v (x : X) : inS 8 v → runs readInt8 [byte.of_Z v] x v x.
Proof.
  intros Hv. pose proof (runs_readInt8_raw (byte.of_Z v) x) as H.
  rewrite byte.unsigned_of_Z in H. fold (wrapU 8 v) in H.
  now rewrite wrapS_wrapU, wrapS_small in H by (assumption || lia).
Qed.

Lemma runs_readIntBE {X} n v (x : X) :
  (0 < n)%nat → inS (8 * Z.of_nat n) v →
  runs (readIntBE n) (be_put n (wrapU (8 * Z.of_nat n) v)) x v x.
Proof.
  intros Hn Hv.
  pose proof (runs_readIntBE_raw n (be_put n (wrapU (8 * Z.of_nat n) v)) x
    (be_put_length _ _)) as H.
  rewrite be_get_put in H.
  now rewrite !wrapS_wrapU, wrapS_small in H by (assumption || lia).
Qed.

Lemma runs_readUvarint {X} v (x : X) : inU 64 v → runs readUvarint (PutUvarint v) x v x.
Proof.
  intros Hv pre suf Hs. unfold readUvarint. cbn [cursor rbuf rpos].
  rewrite slice_from_app. cbn [mbind outcome_bind]. rewrite uvarint_put by done.
  pose proof (put_uvarint_len v).
  destruct (Z.ltb_spec 0 (len (PutUvarint v))); [|lia].
  do 3 f_equal. apply cursor_advance, Hs.
Qed.

Lemma runs_readVarint {X} v (x : X) : inS 64 v → runs readVarint (PutVarint v) x v x.
Proof.
  intros Hv pre suf Hs. unfold readVarint. cbn [cursor rbuf rpos].
  rewrite slice_from_app. cbn [mbind outcome_bind]. rewrite varint_put by done.
  pose proof (put_uvarint_len (zigzag v)). fold (PutVarint v) in *.
  destruct (Z.ltb_spec 0 (len (PutVarint v))); [|lia].
  do 3 f_equal. apply cursor_advance, Hs.
Qed.

Lemma runs_takeN {X A} (zero : A) f l a (x : X) :
  f l = Ok a → runs (takeN zero f (len l)) l x a x.
Proof.
  intros Hf pre suf Hs. unfold takeN. cbn [cursor rbuf rpos].
  rewrite (cursor_int_add _ _ _ Hs).
  destruct (Z.ltb_spec (len l) 0); [len_lia|].
  destruct (Z.ltb_spec (len (pre ++ l ++ suf)) (len pre + len l)); [len_lia|].
  cbn [orb]. rewrite slice_app. cbn [mbind outcome_bind]. rewrite Hf.
  cbn [mbind outcome_bind]. do 3 f_equal. apply cursor_advance, Hs.
Qed.

Lemma runs_makeCopy {X} l (x : X) :
  len l <= 2 ^ 47 → runs (makeCopy (len l)) l x (Some l) x.
Proof.
  intros Hl pre suf Hs. unfold makeCopy. cbn [cursor rbuf rpos].
  rewrite (cursor_int_add _ _ _ Hs).
  destruct (Z.ltb_spec (len l) 0); [len_lia|].
  destruct (Z.ltb_spec (len (pre ++ l ++ suf)) (len pre + len l)); [len_lia|].
  cbn [orb]. rewrite makeslice_ok by (unfold maxAlloc; len_lia). cbn [mbind outcome_bind].
  rewrite slice_app. cbn [mbind outcome_bind]. do 3 f_equal. apply cursor_advance, Hs.
Qed.

(** A negative length: nothing is taken. *)
Lemma runs_takeN_neg {X A} (zero : A) f n (x : X) : n < 0 → runs (takeN zero f n) [] x zero x.
Proof.
  intros H pre suf _. rewrite app_nil_r. unfold takeN. cbn [app].
  now destruct (Z.ltb_spec n 0); [|lia].
Qed.

Lemma runs_makeCopy_neg {X} n (x : X) : n < 0 → runs (makeCopy n) [] x None x.
Proof.
  intros H pre suf _. rewrite app_nil_r. unfold makeCopy. cbn [app].
  now destruct (Z.ltb_spec n 0); [|lia].
Qed.

Section EncodedFields.
Context {X : Type}.
Implicit Types (x : X) (s : string).

Lemma runs_readInt16 v x : inS 16 v → runs readInt16 (be_put 2 (wrapU 16 v)) x v x.
Proof using Type. intros H. now apply (runs_readIntBE 2); [lia|]. Qed.
Lemma runs_readInt32 v x : inS 32 v → runs readInt32 (be_put 4 (wrapU 32 v)) x v x.
Proof using Type. intros H. now apply (runs_readIntBE 4); [lia|]. Qed.
Lemma runs_readInt64 v x : inS 64 v → runs readInt64 (be_put 8 (wrapU 64 v)) x v x.
Proof using Type. intros H. now apply (runs_readIntBE 8); [lia|]. Qed.

Definition bytes_of (s : string) : bytes := String.list_byte_of_string s.

Lemma runs_take_string s x :
  runs (takeN ""%string (λ b, Ok (String.string_of_list_byte b)) (Writer.slen s))
    (bytes_of s) x s x.
Proof using Type.
  apply runs_takeN. unfold bytes_of. now rewrite String.string_of_list_byte_of_string.
Qed.

(** The empty string is written as the null string; both read back as [""]. *)
Lemma runs_readString s x :
  Writer.slen s < 2 ^ 15 → runs readString (Writer.writeString s []) x s x.
Proof using Type.
  intros Hs. unfold Writer.writeString. case_decide as He.
  - subst. unfold Writer.writeInt16. rewrite app_nil_l.
    eapply runs_bind_nil; [apply runs_readInt16; unfold inS; lia|now apply runs_takeN_neg].
  - unfold Writer.writeInt16. rewrite app_nil_l. unfold Writer.slen in *.
    pose proof (len_nonneg (String.list_byte_of_string s)).
    eapply runs_bind; [apply runs_readInt16, wrapS_range; lia|].
    rewrite wrapS_small by (unfold inS; lia). apply runs_take_string.
Qed.

Lemma compact_len n : 0 <= n < 2 ^ 62 → int_sub (wrapS 64 (wrapU 64 (n + 1))) 1 = n.
Proof using Type.
  intros H. unfold int_sub. rewrite wrapS_wrapU by lia.
  rewrite (wrapS_small 64 eq_refl (n + 1)) by (unfold inS; lia).
  rewrite wrapS_small by (try lia; unfold inS; lia). lia.
Qed.

Lemma runs_readCompactString s x :
  Writer.slen s < 2 ^ 62 → runs readCompactString (Writer.writeCompactString s []) x s x.
Proof using Type.
  intros Hs. unfold Writer.writeCompactString, Writer.writeUvarint, Writer.slen in *.
  rewrite app_nil_l. pose proof (len_nonneg (String.list_byte_of_string s)).
  eapply runs_bind; [apply runs_readUvarint, wrapU_range; lia|].
  cbv zeta. rewrite compact_len by lia. apply runs_take_string.
Qed.

Lemma runs_readCompactNullableString s x :
  Writer.slen s < 2 ^ 62 →
  runs readCompactNullableString (Writer.writeCompactNullableString s []) x s x.
Proof using Type.
  intros Hs. unfold Writer.writeCompactNullableString. case_decide as He.
  - subst. unfold Writer.writeUvarint. rewrite app_nil_l.
    eapply runs_bind_nil; [apply runs_readUvarint; unfold inU; lia|now apply runs_takeN_neg].
  - apply runs_readCompactString; exact Hs.
Qed.

(** Length-prefixed byte slices, as a producer writes them: a null slice is
    announced by length -1. *)
Definition enc_bytes (b : option bytes) : bytes :=
  match b with
  | None => be_put 4 (wrapU 32 (-1))
  | Some b => be_put 4 (wrapU 32 (len b)) ++ b
  end.
Definition enc_varbytes (b : option bytes) : bytes :=
  match b with
  | None => PutVarint (-1)
  | Some b => PutVarint (len b) ++ b
  end.

Lemma runs_readBytes b x :
  from_option len 0 b < 2 ^ 31 → runs readBytes (enc_bytes b) x b x.
Proof using Type.
  destruct b as [b|]; unfold from_option, enc_bytes; intros Hb.
  - pose proof (len_nonneg b). eapply runs_bind; [apply runs_readInt32; unfold inS; lia|].
    apply runs_makeCopy. lia.
  - eapply runs_bind_nil; [apply runs_readInt32; unfold inS; lia|now apply runs_makeCopy_neg].
Qed.

Lemma runs_readVarBytes b x :
  from_option len 0 b < 2 ^ 31 → runs readVarBytes (enc_varbytes b) x b x.
Proof using Type.
  destruct b as [b|]; unfold from_option, enc_varbytes; intros Hb.
  - pose proof (len_nonneg b). eapply runs_bind; [apply runs_readVarint; unfold inS; lia|].
    apply runs_makeCopy. lia.
  - eapply runs_bind_nil; [apply runs_readVarint; unfold inS; lia|now apply runs_makeCopy_neg].
Qed.
End EncodedFields.

#[export] Hint Resolve runs_readInt8 runs_readInt16 runs_readInt32 runs_readInt64
  runs_readUvarint runs_readVarint runs_readString runs_readCompactString
  runs_readCompactNullableString runs_readBytes runs_readVarBytes runs_ret : wire.

(** ** No-panic reasoning *)

Definition wf (r : reader) : Prop := 0 <= rpos r <= len (rbuf r) ∧ small (rbuf r).

(** Reader methods move forward inside an unchanged buffer. *)
Definition forward (r r' : reader) : Prop :=
  rbuf r' = rbuf r ∧ rpos r <= rpos r' ∧ wf r'.

Lemma forward_refl r : wf r → forward r r.
Proof. intros H. split; [done|split; [lia|done]]. Qed.

#[export] Instance forward_trans : Transitive forward.
Proof.
  intros r1 r2 r3 (E1 & L1 & _) (E2 & L2 & W). split; [congruence|split; [lia|done]].
Qed.

Definition safe {X A} (m : M X A) (x : X) (Q : A → X → Prop) : Prop :=
  ∀ r, wf r → ∃ a r' x', m (r, x) = Ok (a, (r', x')) ∧ forward r r' ∧ Q a x'.

(** Postcondition of the methods that leave the extra state alone. *)
Definition pure_post {X A} (x : X) (P : A → Prop) : A → X → Prop := λ a x', x' = x ∧ P a.

Lemma safe_ret {X A} (a : A) (x : X) (Q : A → X → Prop) : Q a x → safe (mret a) x Q.
Proof. intros HQ r Hr. exists a, r, x. split; [done|]. split; [by apply forward_refl|done]. Qed.

Lemma safe_bind {X A B} (m : M X A) (f : A → M X B) x Q Q' :
  safe m x Q → (∀ a x1, Q a x1 → safe (f a) x1 Q') → safe (m ≫= f) x Q'.
Proof.
  intros Hm Hf r Hr. destruct (Hm r Hr) as (a & r1 & x1 & E1 & F1 & Q1).
  destruct (Hf a x1 Q1 r1) as (b & r2 & x2 & E2 & F2 & Q2); [apply F1|].
  exists b, r2, x2. split; [now rewrite (st_bind_ok _ _ _ _ _ E1)|]. split; [by etrans|done].
Qed.

Lemma safe_mono {X A} (m : M X A) x (Q Q' : A → X → Prop) :
  safe m x Q → (∀ a x', Q a x' → Q' a x') → safe m x Q'.
Proof. intros Hm HQ r Hr. destruct (Hm r Hr) as (a & r1 & x1 & ? & ? & ?). naive_solver. Qed.

Lemma wf_int_add r n : wf r → 0 <= n < 2 ^ 62 → int_add (rpos r) n = rpos r + n.
Proof. intros [H1 H2] H. unfold small in *. apply wrapS_small; unfold inS; lia. Qed.

Lemma forward_advance r n :
  wf r → 0 <= n → rpos r + n <= len (rbuf r) → forward r (advance r n).
Proof.
  intros Hr Hn Hb. assert (Ha : rpos (advance r n) = rpos r + n).
  { cbn. apply wf_int_add; [done|]. destruct Hr. unfold small in *. lia. }
  destruct Hr. split; [done|]. rewrite Ha. split; [lia|]. split; [rewrite Ha; cbn; lia|done].
Qed.

Lemma wf_remaining r : wf r → remaining r = len (rbuf r) - rpos r.
Proof. intros [H1 H2]. unfold small in *. apply wrapS_small; unfold inS; lia. Qed.

Lemma wf_slice {A} (b : list A) lo hi :
  0 <= lo <= hi → hi <= len b → ∃ l, slice b lo hi = Ok l ∧ len l = hi - lo.
Proof.
  intros H1 H2. unfold slice.
  destruct (Z.leb_spec 0 lo), (Z.leb_spec lo hi), (Z.leb_spec hi (len b)); try lia.
  eexists. split; [done|]. len_lia.
Qed.

Section Safe.
Context {X : Type}.
Implicit Types (x : X).

Lemma safe_readInt8 x : safe readInt8 x (pure_post x (inS 8)).
Proof using Type.
  intros r Hr. unfold readInt8. destruct (Z.leb_spec (len (rbuf r)) (rpos r)).
  { exists 0, r, x. split; [done|]. split; [now apply forward_refl|].
    split; [done|unfold inS; lia]. }
  pose proof Hr as [Hp _]. destruct (Z.ltb_spec (rpos r) 0); [lia|].
  destruct (lookup_lt_is_Some_2 (rbuf r) (Z.to_nat (rpos r))) as [b ->]; [unfold len in *; lia|].
  do 3 eexists. split; [done|]. split; [apply forward_advance; [done|lia|lia]|].
  split; [done|apply wrapS_range; lia].
Qed.

Lemma safe_readIntBE n x :
  (0 < n < 64)%nat → safe (readIntBE n) x (pure_post x (inS (8 * Z.of_nat n))).
Proof using Type.
  intros Hn r Hr. unfold readIntBE. rewrite wf_int_add by (done || lia).
  destruct (Z.ltb_spec (len (rbuf r)) (rpos r + Z.of_nat n)).
  { exists 0, r, x. split; [done|]. split; [now apply forward_refl|].
    split; [done|]. unfold inS. pose proof (pow_half_pos (8 * Z.of_nat n)). lia. }
  pose proof Hr as [Hp _].
  destruct (wf_slice (rbuf r) (rpos r) (len (rbuf r))) as (l & Hl & Hlen); [lia|lia|].
  unfold slice_from. rewrite Hl. cbn [mbind outcome_bind].
  unfold be_uint. destruct (Nat.leb_spec n (length l)); [|unfold len in *; lia].
  cbn [mbind outcome_bind]. do 3 eexists. split; [done|].
  split; [apply forward_advance; [done|lia|lia]|]. split; [done|apply wrapS_range; lia].
Qed.

Lemma safe_readInt16 x : safe readInt16 x (pure_post x (inS 16)).
Proof using Type. apply (safe_readIntBE 2). lia. Qed.
Lemma safe_readInt32 x : safe readInt32 x (pure_post x (inS 32)).
Proof using Type. apply (safe_readIntBE 4). lia. Qed.
Lemma safe_readInt64 x : safe readInt64 x (pure_post x (inS 64)).
Proof using Type. apply (safe_readIntBE 8). lia. Qed.
End Safe.

(** Length-prefixed reads.  The length check [r.pos+n > len(r.buf)] is made in
    [int] arithmetic: a length within [r.pos] of 2^63 overflows it, passes the
    check, and the slice expression (or [make]) then panics. *)
Definition no_overflow (r : reader) (n : Z) : Prop := n < 2 ^ 63 - rpos r.

Section LengthPrefixed.
Context {X : Type}.
Implicit Types (x : X).

Definition rest (r : reader) : bytes := drop (Z.to_nat (rpos r)) (rbuf r).

Lemma wf_slice_from r : wf r → slice_from (rbuf r) (rpos r) = Ok (rest r).
Proof using Type.
  intros [Hp _]. unfold slice_from, slice, rest.
  destruct (Z.leb_spec 0 (rpos r)), (Z.leb_spec (rpos r) (len (rbuf r))),
    (Z.leb_spec (len (rbuf r)) (len (rbuf r))); try lia. cbn [andb].
  rewrite take_ge; [done|]. rewrite length_drop. unfold len in *. lia.
Qed.

Lemma rest_len r : wf r → len (rest r) = len (rbuf r) - rpos r.
Proof using Type. intros [Hp _]. unfold rest. len_lia. Qed.

(** The reader after a varint of [n] bytes ([n <= 0] when it was malformed). *)
Definition skip_varint (r : reader) (n : Z) : reader := if 0 <? n then advance r n else r.

Lemma skip_varint_forward r n : wf r → n <= len (rest r) → forward r (skip_varint r n).
Proof using Type.
  intros Hr Hn. rewrite rest_len in Hn by done. unfold skip_varint.
  destruct (Z.ltb_spec 0 n); [apply forward_advance; [done|lia|lia]|by apply forward_refl].
Qed.

Lemma skip_varint_pos r n :
  wf r → n <= len (rest r) → rpos (skip_varint r n) = rpos r + Z.max 0 n.
Proof using Type.
  intros Hr Hn. rewrite rest_len in Hn by done. unfold skip_varint.
  destruct (Z.ltb_spec 0 n); [|lia]. destruct (Hr) as [? Hs]. unfold small in Hs.
  cbn. rewrite wf_int_add by (done || lia). lia.
Qed.

Lemma readUvarint_eq r x u n :
  wf r → Uvarint (rest r) = (u, n) → readUvarint (r, x) = Ok (u, (skip_varint r n, x)).
Proof using Type.
  intros Hr Hu. unfold readUvarint. rewrite wf_slice_from by done.
  cbn [mbind outcome_bind]. now rewrite Hu.
Qed.

Lemma readVarint_eq r x u n :
  wf r → Varint (rest r) = (u, n) → readVarint (r, x) = Ok (u, (skip_varint r n, x)).
Proof using Type.
  intros Hr Hu. unfold readVarint. rewrite wf_slice_from by done.
  cbn [mbind outcome_bind]. now rewrite Hu.
Qed.

Lemma safe_readUvarint x : safe readUvarint x (pure_post x (inU 64)).
Proof using Type.
  intros r Hr. destruct (Uvarint (rest r)) as [u n] eqn:E.
  pose proof (Uvarint_bounds _ _ _ E) as (? & ? & ?).
  exists u, (skip_varint r n), x. split; [by apply readUvarint_eq|].
  split; [by apply skip_varint_forward|done].
Qed.

Lemma safe_readVarint x : safe readVarint x (pure_post x (inS 64)).
Proof using Type.
  intros r Hr. destruct (Varint (rest r)) as [u n] eqn:E.
  pose proof (Varint_bounds _ _ _ E) as (? & ? & ?).
  exists u, (skip_varint r n), x. split; [by apply readVarint_eq|].
  split; [by apply skip_varint_forward|done].
Qed.

Lemma takeN_fits {A} (zero : A) f n r x :
  wf r → no_overflow r n → (∀ b, ∃ a, f b = Ok a) →
  ∃ a r', takeN zero f n (r, x) = Ok (a, (r', x)) ∧ forward r r'.
Proof using Type.
  intros Hr Hn Hf. unfold takeN. destruct (Z.ltb_spec n 0); cbn [orb].
  { exists zero, r. split; [done|by apply forward_refl]. }
  assert (Ha : int_add (rpos r) n = rpos r + n).
  { destruct Hr as [? Hs]. unfold no_overflow, small in *. apply wrapS_small; unfold inS; lia. }
  rewrite Ha. destruct (Z.ltb_spec (len (rbuf r)) (rpos r + n)).
  { exists zero, r. split; [done|by apply forward_refl]. }
  destruct (wf_slice (rbuf r) (rpos r) (rpos r + n)) as (l & -> & _); [destruct Hr; lia|lia|].
  destruct (Hf l) as [a Ha']. exists a, (advance r n). cbn [mbind outcome_bind].
  rewrite Ha'. split; [done|apply forward_advance; [done|lia|lia]].
Qed.

Lemma makeCopy_fits n r x :
  wf r → no_overflow r n →
  ∃ a r', makeCopy n (r, x) = Ok (a, (r', x)) ∧ forward r r'.
Proof using Type.
  intros Hr Hn. unfold makeCopy. destruct (Z.ltb_spec n 0); cbn [orb].
  { exists None, r. split; [done|by apply forward_refl]. }
  assert (Ha : int_add (rpos r) n = rpos r + n).
  { destruct Hr as [? Hs]. unfold no_overflow, small in *. apply wrapS_small; unfold inS; lia. }
  rewrite Ha. destruct (Z.ltb_spec (len (rbuf r)) (rpos r + n)).
  { exists None, r. split; [done|by apply forward_refl]. }
  rewrite makeslice_ok by (destruct Hr; unfold small, maxAlloc in *; lia).
  destruct (wf_slice (rbuf r) (rpos r) (rpos r + n)) as (l & Hl & _); [destruct Hr; lia|lia|].
  exists (Some l), (advance r n). cbn [mbind outcome_bind]. rewrite Hl.
  split; [done|apply forward_advance; [done|lia|lia]].
Qed.

Lemma overflow_int_add r n :
  wf r → 2 ^ 63 - rpos r <= n < 2 ^ 63 → int_add (rpos r) n = rpos r + n - 2 ^ 64.
Proof using Type.
  intros [? Hs] Hn. unfold small in *. unfold int_add, wrapS.
  rewrite <- (Z.mod_unique_pos (rpos r + n + 2 ^ (64 - 1)) (2 ^ 64) 1 (rpos r + n - 2 ^ 63)); lia.
Qed.

Lemma takeN_overflow {A} (zero : A) f n r x :
  wf r → 2 ^ 63 - rpos r <= n < 2 ^ 63 → takeN zero f n (r, x) = Panic PanicSliceBounds.
Proof using Type.
  intros Hr Hn. unfold takeN. rewrite overflow_int_add by done.
  destruct Hr as [? Hs]. unfold small in Hs.
  destruct (Z.ltb_spec n 0); [lia|].
  destruct (Z.ltb_spec (len (rbuf r)) (rpos r + n - 2 ^ 64)); [lia|]. cbn [orb].
  unfold slice. destruct (Z.leb_spec (rpos r) (rpos r + n - 2 ^ 64)); [lia|].
  now rewrite andb_false_r.
Qed.

Lemma makeCopy_overflow n r x :
  wf r → 2 ^ 63 - rpos r <= n < 2 ^ 63 → makeCopy n (r, x) = Panic PanicMakeSlice.
Proof using Type.
  intros Hr Hn. unfold makeCopy. rewrite overflow_int_add by done.
  destruct Hr as [? Hs]. unfold small in Hs.
  destruct (Z.ltb_spec n 0); [lia|].
  destruct (Z.ltb_spec (len (rbuf r)) (rpos r + n - 2 ^ 64)); [lia|]. cbn [orb].
  unfold makeslice, maxAlloc. destruct (Z.ltb_spec n 0), (Z.ltb_spec (2 ^ 48) (1 * n)); try lia.
  done.
Qed.
End LengthPrefixed.

Section SafeStrings.
Context {X : Type}.
Implicit Types (x : X).

Lemma takeN_safe_small {A} (zero : A) f n x :
  n < 2 ^ 62 → (∀ b, ∃ a, f b = Ok a) → safe (takeN zero f n) x (pure_post x (λ _, True)).
Proof using Type.
  intros Hn Hf r Hr. destruct (takeN_fits zero f n r x) as (a & r' & H & F); [done| |done|].
  { unfold no_overflow. destruct Hr. unfold small in *. lia. }
  by exists a, r', x.
Qed.

Lemma makeCopy_safe_small n x : n < 2 ^ 62 → safe (makeCopy n) x (pure_post x (λ _, True)).
Proof using Type.
  intros Hn r Hr. destruct (makeCopy_fits n r x) as (a & r' & H & F); [done| |].
  { unfold no_overflow. destruct Hr. unfold small in *. lia. }
  by exists a, r', x.
Qed.

Lemma safe_readString x : safe readString x (pure_post x (λ _, True)).
Proof using Type.
  eapply safe_bind; [apply safe_readInt16|]. intros n x1 [-> Hn].
  apply takeN_safe_small; [unfold inS in Hn; lia|eauto].
Qed.

Lemma safe_readBytes x : safe readBytes x (pure_post x (λ _, True)).
Proof using Type.
  eapply safe_bind; [apply safe_readInt32|]. intros n x1 [-> Hn].
  apply makeCopy_safe_small. unfold inS in Hn. lia.
Qed.

(** [int(u) - 1] for a [uint64] [u]: negative exactly when [u = 0] or
    [u > 2^63]; 2^63 itself wraps to the largest [int]. *)
Lemma compact_length u :
  inU 64 u →
  int_sub (wrapS 64 u) 1 = if u <=? 2 ^ 63 then u - 1 else u - 1 - 2 ^ 64.
Proof using Type.
  unfold inU, int_sub. intros Hu.
  assert (Hw : wrapS 64 u = if u <? 2 ^ 63 then u else u - 2 ^ 64).
  { unfold wrapS. destruct (Z.ltb_spec u (2 ^ 63)).
    - rewrite Z.mod_small by lia. lia.
    - rewrite <- (Z.mod_unique_pos (u + 2 ^ (64 - 1)) (2 ^ 64) 1 (u - 2 ^ 63)); lia. }
  rewrite Hw. destruct (Z.ltb_spec u (2 ^ 63)), (Z.leb_spec u (2 ^ 63)); try lia.
  - apply wrapS_small; unfold inS; lia.
  - replace u with (2 ^ 63) by lia. reflexivity.
  - replace (u - 2 ^ 64 - 1) with (u - 1 - 2 ^ 64) by lia. apply wrapS_small; unfold inS; lia.
Qed.
End SafeStrings.

(** Where [readCompactString] panics: after the length varint the reader
    stands at [p]; lengths (plus one) in (2^63 - p, 2^63] crash. *)
Lemma readCompactString_cases {X} r (x : X) u n :
  wf r → Uvarint (rest r) = (u, n) →
  let p := rpos r + Z.max 0 n in
  (2 ^ 63 - p < u <= 2 ^ 63 ∧ readCompactString (r, x) = Panic PanicSliceBounds) ∨
  (¬ 2 ^ 63 - p < u <= 2 ^ 63 ∧
   ∃ s r', readCompactString (r, x) = Ok (s, (r', x)) ∧ forward r r').
Proof.
  intros Hr HU p. pose proof (Uvarint_bounds _ _ _ HU) as (Hu & _ & Hn).
  pose proof (skip_varint_forward r n Hr Hn) as HF. destruct (HF) as (_ & _ & Hwf).
  pose proof (skip_varint_pos r n Hr Hn : _ = p) as Hp.
  assert (E : readCompactString (r, x) =
    takeN ""%string (λ b, Ok (String.string_of_list_byte b))
      (int_sub (wrapS 64 u) 1) (skip_varint r n, x)).
  { unfold readCompactString. now rewrite (st_bind_ok _ _ _ _ _ (readUvarint_eq r x u n Hr HU)). }
  rewrite E, compact_length by done. clear E. unfold inU in Hu.
  assert (Hpl : 0 <= p <= 2 ^ 47)
    by (rewrite <- Hp; destruct Hwf as [? Hs]; unfold small in Hs; lia).
  destruct (Z.leb_spec u (2 ^ 63)), (Z.lt_ge_cases (2 ^ 63 - p) u); [left|right|right|lia].
  - split; [lia|]. apply takeN_overflow; [done|]. lia.
  - split; [lia|].
    destruct (takeN_fits (X:=X) ""%string (λ b, Ok (String.string_of_list_byte b)) (u - 1)
      (skip_varint r n) x) as (s & r' & ? & ?); [done|unfold no_overflow; lia|eauto|].
    exists s, r'. split; [done|]. by etrans.
  - split; [lia|].
    destruct (takeN_fits (X:=X) ""%string (λ b, Ok (String.string_of_list_byte b)) (u - 1 - 2 ^ 64)
      (skip_varint r n) x) as (s & r' & ? & ?); [done|unfold no_overflow; lia|eauto|].
    exists s, r'. split; [done|]. by etrans.
Qed.

Lemma readVarBytes_cases {X} r (x : X) v n :
  wf r → Varint (rest r) = (v, n) →
  let p := rpos r + Z.max 0 n in
  (2 ^ 63 - p <= v ∧ readVarBytes (r, x) = Panic PanicMakeSlice) ∨
  (v < 2 ^ 63 - p ∧ ∃ b r', readVarBytes (r, x) = Ok (b, (r', x)) ∧ forward r r').
Proof.
  intros Hr HV p. pose proof (Varint_bounds _ _ _ HV) as (Hv & _ & Hn).
  pose proof (skip_varint_forward r n Hr Hn) as HF. destruct (HF) as (_ & _ & Hwf).
  pose proof (skip_varint_pos r n Hr Hn : _ = p) as Hp.
  assert (E : readVarBytes (r, x) = makeCopy v (skip_varint r n, x)).
  { unfold readVarBytes. now rewrite (st_bind_ok _ _ _ _ _ (readVarint_eq r x v n Hr HV)). }
  rewrite E. clear E. unfold inS in Hv.
  destruct (Z.lt_ge_cases v (2 ^ 63 - p)); [right|left].
  - split; [done|]. destruct (makeCopy_fits (X:=X) v (skip_varint r n) x) as (b & r' & ? & ?);
      [done|unfold no_overflow; lia|]. exists b, r'. split; [done|]. by etrans.
  - split; [done|]. apply makeCopy_overflow; [done|]. lia.
Qed.

#[export] Hint Extern 1 (inS _ _) => (assumption || (unfold inS in *; lia)) : wire.
#[export] Hint Extern 0 (inU _ (wrapU _ _)) => (apply wrapU_range; lia) : wire.
#[export] Hint Extern 0 (inS _ (wrapS _ _)) => (apply wrapS_range; lia) : wire.
#[export] Hint Extern 1 (inU _ _) => (assumption || (unfold inU in *; lia)) : wire.

(** One step of a [runs] derivation: the next read against the next field. *)
Ltac run_step :=
  lazymatch goal with
  | |- runs (mret _) [] _ _ _ => apply runs_ret
  | |- runs (_ ≫= _) (_ ++ _) _ _ _ => eapply runs_bind; [solve [eauto with wire]|]
  | |- runs (_ ≫= _) _ _ _ _ => eapply runs_bind_nil; [solve [eauto with wire]|]
  end; cbv beta zeta.

(** The crash counterpart of [runs]: in front of [bs], [m] panics. *)
Definition panics {X A} (m : M X A) (bs : bytes) (x : X) (p : go_panic) : Prop :=
  ∀ pre suf, small (pre ++ bs ++ suf) → m (cursor pre (bs ++ suf), x) = Panic p.

Lemma panics_bind {X A B} (m : M X A) (f : A → M X B) bs1 bs2 x a x1 p :
  runs m bs1 x a x1 → panics (f a) bs2 x1 p → panics (m ≫= f) (bs1 ++ bs2) x p.
Proof.
  intros H1 H2 pre suf Hs. rewrite <- app_assoc in Hs |- *.
  erewrite st_bind_ok by (now apply H1).
  apply H2. now rewrite <- app_assoc.
Qed.

Lemma panics_bind_here {X A B} (m : M X A) (f : A → M X B) bs x p :
  panics m bs x p → panics (m ≫= f) bs x p.
Proof. intros H pre suf Hs. unfold mbind, st_bind. now rewrite H. Qed.

Lemma panics_app {X A} (m : M X A) bs bs' x p : panics m bs x p → panics m (bs ++ bs') x p.
Proof. intros H pre suf Hs. rewrite <- app_assoc in *. now apply H. Qed.

(** Reading a component of the state consumes nothing. *)
Lemma runs_get {X A B} (g : reader * X → A) (f : A → M X B) bs x b x' :
  (∀ a, runs (f a) bs x b x') → runs (st_get g ≫= f) bs x b x'.
Proof. intros H pre suf Hs. now apply H. Qed.

Lemma panics_get {X A B} (g : reader * X → A) (f : A → M X B) bs x p :
  (∀ a, panics (f a) bs x p) → panics (st_get g ≫= f) bs x p.
Proof. intros H pre suf Hs. now apply H. Qed.

(** With enough bytes left a fixed-width read advances by its width. *)
Lemma readIntBE_exact {X} n r (x : X) :
  wf r → (0 < n < 64)%nat → Z.of_nat n <= remaining r →
  ∃ v, readIntBE n (r, x) = Ok (v, (advance r (Z.of_nat n), x)).
Proof.
  intros Hr Hn Hrem. rewrite wf_remaining in Hrem by done. unfold readIntBE.
  rewrite wf_int_add by (done || lia).
  destruct (Z.ltb_spec (len (rbuf r)) (rpos r + Z.of_nat n)); [lia|].
  rewrite wf_slice_from by done. cbn [mbind outcome_bind]. unfold be_uint.
  pose proof (rest_len r Hr). destruct (Nat.leb_spec n (length (rest r))); [|unfold len in *; lia].
  cbn [mbind outcome_bind]. eauto.
Qed.

Lemma forward_remaining r r' : wf r → forward r r' → remaining r' <= remaining r.
Proof. intros H (E & L & W). rewrite !wf_remaining, E by done. lia. Qed.

Lemma advance_remaining r n :
  wf r → 0 <= n → n <= remaining r → remaining (advance r n) = remaining r - n.
Proof.
  intros H Hn Hl. rewrite wf_remaining in Hl by done.
  pose proof (forward_advance r n H Hn) as F. specialize (F ltac:(lia)).
  rewrite !wf_remaining by (done || apply F). cbn.
  rewrite wf_int_add; [lia|done|]. destruct H as [? Hs]. unfold small in Hs. lia.
Qed.

(** [runs] for a computation that takes everything to the end of the buffer
    and whose result may depend on where it started. *)
Definition finishes {X A} (pre : bytes) (m : M X A) (bs : bytes) (x : X) (a : A) (x' : X) : Prop :=
  small (pre ++ bs) → m (cursor pre bs, x) = Ok (a, (cursor (pre ++ bs) [], x')).

Lemma finishes_bind {X A B} pre (m : M X A) (f : A → M X B) bs1 bs2 x a x1 b x2 :
  runs m bs1 x a x1 → finishes (pre ++ bs1) (f a) bs2 x1 b x2 →
  finishes pre (m ≫= f) (bs1 ++ bs2) x b x2.
Proof.
  intros H1 H2 Hs. erewrite st_bind_ok by (apply H1; exact Hs).
  rewrite H2 by (by rewrite <- app_assoc). by rewrite <- app_assoc.
Qed.

Lemma finishes_bind_end {X A B} pre (m : M X A) (f : A → M X B) bs x a x1 b x2 :
  finishes pre m bs x a x1 → runs (f a) [] x1 b x2 → finishes pre (m ≫= f) bs x b x2.
Proof.
  intros H1 H2 Hs. erewrite st_bind_ok by (apply H1; exact Hs).
  specialize (H2 (pre ++ bs) []). rewrite !app_nil_r in H2. by apply H2.
Qed.
