(* ===== verification/Float.v ===== *)
(** * Float: Go's [float64]

    A [float64] is its IEEE 754 bit pattern, which is what [math.Float64bits]
    returns and what the remote_write encoder puts on the wire.  Conversion
    from integers goes through the Standard Library's [spec_float] with the
    parameters of binary64 (53-bit precision, exponents up to 1024). *)
From S2P Require Import Prelude.
From Stdlib Require Import Floats.SpecFloat.
Open Scope Z_scope.

Definition float64 : Type := Z.
Definition Float64bits (f : float64) : Z := f.

Definition sign_bit (s : bool) : Z := if s then 2 ^ 63 else 0.

(** The bit pattern of a binary64 number. *)
Definition bits_of_spec (f : spec_float) : float64 :=
  match f with
  | S754_zero s => sign_bit s
  | S754_infinity s => sign_bit s + 2047 * 2 ^ 52
  | S754_nan => 0x7FF8000000000001
  | S754_finite s m e =>
      if Z.pos m <? 2 ^ 52 then sign_bit s + Z.pos m
      else sign_bit s + (e + 1075) * 2 ^ 52 + (Z.pos m - 2 ^ 52)
  end.

(** The integer a bit pattern denotes, when it denotes one. *)
Definition int_of_bits (f : float64) : option Z :=
  let neg := Z.testbit f 63 in
  let ex := Z.land (Z.shiftr f 52) 2047 in
  let fr := Z.land f (2 ^ 52 - 1) in
  let sg (z : Z) := if neg then - z else z in
  if ex =? 2047 then None
  else
    let m := if ex =? 0 then fr else 2 ^ 52 + fr in
    let e := if ex =? 0 then -1074 else ex - 1075 in
    if 0 <=? e then Some (sg (m * 2 ^ e))
    else if m mod 2 ^ (- e) =? 0 then Some (sg (m / 2 ^ (- e))) else None.

(** [float64(n)] for an integer [n]: round to nearest, ties to even. *)
Definition float64_of_int (n : Z) : float64 := bits_of_spec (binary_normalize 53 1024 n 0 false).

Example float64_1000 : float64_of_int 1000 = 0x408F400000000000.
Proof. reflexivity. Qed.
Example float64_neg : float64_of_int (-3) = 0xC008000000000000.
Proof. reflexivity. Qed.
(** 2^53 + 1 is the first integer that rounds. *)
Example float64_rounds : float64_of_int (2 ^ 53 + 1) = float64_of_int (2 ^ 53).
Proof. reflexivity. Qed.
Example float64_back : int_of_bits (float64_of_int (-1000)) = Some (-1000).
Proof. reflexivity. Qed.

(** ** Integers below 2^53 are represented exactly *)

Lemma digits2_bounds p : 2 ^ (Z.pos (digits2_pos p) - 1) <= Z.pos p < 2 ^ Z.pos (digits2_pos p).
Proof.
  induction p as [p IH|p IH|]; cbn [digits2_pos]; [..|cbn; lia];
    rewrite Pos2Z.inj_succ; replace (Z.succ (Z.pos (digits2_pos p)) - 1)
      with (Z.succ (Z.pos (digits2_pos p) - 1)) by lia;
    rewrite !Z.pow_succ_r by lia; lia.
Qed.

Lemma digits2_unique p d : 0 < d → 2 ^ (d - 1) <= Z.pos p < 2 ^ d → Z.pos (digits2_pos p) = d.
Proof.
  intros Hd H. pose proof (digits2_bounds p) as Hp. set (d' := Z.pos (digits2_pos p)) in *.
  assert (Hlt : ∀ a b, 0 < a → 2 ^ (a - 1) < 2 ^ b → a <= b).
  { intros a b Ha Hab. destruct (Z.le_gt_cases a b); [done|].
    pose proof (Z.pow_le_mono_r 2 b (a - 1)). lia. }
  apply Z.le_antisymm; apply Hlt; lia.
Qed.

Lemma iter_xO p n : Z.pos (Pos.iter xO p n) = Z.pos p * 2 ^ Z.pos n.
Proof.
  induction n as [|n IH] using Pos.peano_ind.
  - cbn. lia.
  - rewrite Pos.iter_succ. rewrite Pos2Z.inj_xO, IH, Pos2Z.inj_succ, Z.pow_succ_r by lia. lia.
Qed.

(** The mantissa, shifted to 53 digits, and its exponent. *)
Lemma binary_round_exact s p : Z.pos p < 2 ^ 53 →
  ∃ m d, binary_round 53 1024 s p 0 = S754_finite s m (d - 53) ∧ 0 < d <= 53 ∧
    Z.pos m = Z.pos p * 2 ^ (53 - d) ∧ 2 ^ 52 <= Z.pos m < 2 ^ 53.
Proof.
  intros Hp. pose proof (digits2_bounds p) as Hd. set (d := Z.pos (digits2_pos p)) in *.
  assert (Hd53 : d <= 53).
  { destruct (Z.le_gt_cases d 53); [done|]. pose proof (Z.pow_le_mono_r 2 53 (d - 1)). lia. }
  assert (Hf : ∀ x, 0 < x <= 53 → fexp 53 1024 x = x - 53) by (intros; unfold fexp, emin; lia).
  assert (Hs : ∃ m, shl_align p 0 (d - 53) = (m, d - 53) ∧ Z.pos m = Z.pos p * 2 ^ (53 - d)).
  { unfold shl_align. rewrite Z.sub_0_r. destruct (d - 53) as [|k|k] eqn:E; [|lia|].
    - exists p. replace (53 - d) with 0 by lia. split; [done|lia].
    - eexists. split; [done|]. rewrite iter_xO. do 2 f_equal. lia. }
  destruct Hs as (m & Hshl & Hm). exists m, d.
  assert (Hm53 : 2 ^ 52 <= Z.pos m < 2 ^ 53).
  { rewrite Hm. replace 53 with (d + (53 - d)) at 3 by lia.
    replace 52 with ((d - 1) + (53 - d)) by lia. rewrite !Z.pow_add_r by lia.
    assert (0 < 2 ^ (53 - d)) by (apply Z.pow_pos_nonneg; lia). nia. }
  assert (Hdig : Z.pos (digits2_pos m) = 53) by (apply digits2_unique; lia).
  split; [|split; [lia|done]].
  assert (Hshr : shr_fexp 53 1024 (Z.pos m) (d - 53) loc_Exact =
    ({| shr_m := Z.pos m; shr_r := false; shr_s := false |}, d - 53)).
  { unfold shr_fexp, Zdigits2. rewrite Hdig. replace (53 + (d - 53)) with d by lia.
    rewrite Hf by lia. by rewrite Z.sub_diag. }
  unfold binary_round. fold d. rewrite Z.add_0_r, Hf by lia. rewrite Hshl.
  unfold binary_round_aux. rewrite Hshr. cbn [shr_m loc_of_shr_record round_nearest_even].
  rewrite Hshr. cbn [shr_m]. destruct (Z.leb_spec (d - 53) (1024 - 53)); [done|lia].
Qed.

Lemma int_of_bits_finite s m d : 0 < d <= 53 → 2 ^ 52 <= Z.pos m < 2 ^ 53 →
  Z.pos m mod 2 ^ (53 - d) = 0 →
  int_of_bits (bits_of_spec (S754_finite s m (d - 53))) =
    Some (let z := Z.pos m / 2 ^ (53 - d) in if s then - z else z).
Proof.
  intros Hd Hm Hmod. unfold bits_of_spec. destruct (Z.ltb_spec (Z.pos m) (2 ^ 52)); [lia|].
  set (f := sign_bit s + (d - 53 + 1075) * 2 ^ 52 + (Z.pos m - 2 ^ 52)).
  set (b := if s then 1 else 0).
  assert (Hfv : f = b * 2 ^ 63 + (d + 1022) * 2 ^ 52 + (Z.pos m - 2 ^ 52)).
  { unfold f, b, sign_bit. destruct s; lia. }
  assert (Hb : 0 <= b <= 1) by (unfold b; destruct s; lia). clearbody f.
  assert (H63 : Z.testbit f 63 = s).
  { rewrite Z.testbit_odd, Z.shiftr_div_pow2 by lia.
    replace (f / 2 ^ 63) with b; [unfold b; by destruct s|].
    apply Z.div_unique with (f - b * 2 ^ 63); lia. }
  assert (Hex : Z.land (Z.shiftr f 52) 2047 = d + 1022).
  { change 2047 with (Z.ones 11). rewrite Z.land_ones, Z.shiftr_div_pow2 by lia.
    replace (f / 2 ^ 52) with (b * 2 ^ 11 + (d + 1022)).
    - symmetry. apply Z.mod_unique_pos with b; lia.
    - apply Z.div_unique with (Z.pos m - 2 ^ 52); lia. }
  assert (Hfr : Z.land f (2 ^ 52 - 1) = Z.pos m - 2 ^ 52).
  { change (2 ^ 52 - 1) with (Z.ones 52). rewrite Z.land_ones by lia.
    symmetry. apply Z.mod_unique_pos with (b * 2 ^ 11 + (d + 1022)); lia. }
  unfold int_of_bits. rewrite H63, Hex, Hfr.
  destruct (Z.eqb_spec (d + 1022) 2047); [lia|]. destruct (Z.eqb_spec (d + 1022) 0); [lia|].
  replace (2 ^ 52 + (Z.pos m - 2 ^ 52)) with (Z.pos m) by lia.
  replace (d + 1022 - 1075) with (d - 53) by lia. replace (- (d - 53)) with (53 - d) by lia.
  rewrite Hmod. destruct (Z.leb_spec 0 (d - 53)); [|by rewrite Z.eqb_refl].
  replace d with 53 by lia. cbn [Z.sub Z.pow]. by rewrite Z.mul_1_r, Z.div_1_r.
Qed.

Lemma float64_of_int_exact n : Z.abs n < 2 ^ 53 → int_of_bits (float64_of_int n) = Some n.
Proof.
  intros Hn. destruct n as [|p|p]; [done|..]; unfold float64_of_int, binary_normalize.
  - destruct (binary_round_exact false p Hn) as (m & d & -> & Hd & Hm & Hm53).
    assert (0 < 2 ^ (53 - d)) by (apply Z.pow_pos_nonneg; lia).
    rewrite int_of_bits_finite, Hm, ?Z.div_mul by (rewrite ?Hm, ?Z.mod_mul; lia). done.
  - destruct (binary_round_exact true p Hn) as (m & d & -> & Hd & Hm & Hm53).
    assert (0 < 2 ^ (53 - d)) by (apply Z.pow_pos_nonneg; lia).
    rewrite int_of_bits_finite, Hm, ?Z.div_mul by (rewrite ?Hm, ?Z.mod_mul; lia). done.
Qed.

(** ** Rounding yields a bit pattern of 64 bits *)

Lemma shr_1_m mrs : 0 <= shr_m mrs → shr_m (shr_1 mrs) = shr_m mrs / 2.
Proof.
  destruct mrs as [[|[p|p|]|p] r s]; cbn -[Z.div]; intros H; try done; Z.to_euclidean_division_equations; lia.
Qed.

Lemma iter_shr_1 p : ∀ mrs, 0 <= shr_m mrs → shr_m (iter_pos shr_1 p mrs) = shr_m mrs / 2 ^ Z.pos p.
Proof.
  assert (Hpos : ∀ a b, 0 <= a → 0 <= a / 2 ^ b) by (intros a b Ha; apply Z_div_nonneg_nonneg; lia).
  induction p as [p IH|p IH|]; intros mrs H; cbn [iter_pos].
  - pose proof (Hpos _ 1 H). rewrite !IH, shr_1_m by (rewrite ?IH, ?shr_1_m by (rewrite ?shr_1_m; done); auto).
    rewrite !Z.div_div by lia. f_equal. rewrite (Pos2Z.inj_xI p).
    replace (2 * Z.pos p + 1) with (1 + (Z.pos p + Z.pos p)) by lia. rewrite !Z.pow_add_r by lia. lia.
  - rewrite !IH by (rewrite ?IH; auto). rewrite Z.div_div by lia. f_equal. rewrite (Pos2Z.inj_xO p).
    replace (2 * Z.pos p) with (Z.pos p + Z.pos p) by lia. by rewrite Z.pow_add_r by lia.
  - by rewrite shr_1_m.
Qed.

Lemma iter_shr_1_neg p : ∀ mrs, shr_m mrs <= 0 → shr_m (iter_pos shr_1 p mrs) <= 0.
Proof.
  induction p as [p IH|p IH|]; intros mrs H; cbn [iter_pos]; repeat apply IH; try done;
    by destruct mrs as [[|q|[q|q|]] r s].
Qed.

(** After the last shift the mantissa fits and the exponent is not too small. *)
Lemma shr_fexp_fits M e p e'' : (let '(mrs, e'') := shr_fexp 53 1024 M e loc_Exact in (shr_m mrs, e'')) = (Z.pos p, e'') →
  Z.pos p < 2 ^ 53 ∧ -1074 <= e''.
Proof.
  unfold shr_fexp. cbn [shr_record_of_loc].
  destruct M as [|q|q].
  - set (n := fexp 53 1024 _ - e). destruct n as [|n|n]; cbn; intros [= H1 H2].
    pose proof (iter_shr_1_neg n (Build_shr_record 0 false false)). cbn in *. lia.
  - cbn [Zdigits2]. pose proof (digits2_bounds q) as Hq. set (d := Z.pos (digits2_pos q)) in *.
    unfold fexp. change (emin 53 1024) with (-1074).
    assert (Hn : ∀ n, 0 <= n → d - n <= 53 → Z.pos q / 2 ^ n < 2 ^ 53).
    { intros n Hn Hd. apply Z.div_lt_upper_bound; [lia|].
      rewrite <- Z.pow_add_r by lia. pose proof (Z.pow_le_mono_r 2 d (n + 53)). lia. }
    destruct (Z.max (d + e - 53) (-1074) - e) as [|n|n] eqn:En; cbn [shr]; intros [= H1 H2].
    + specialize (Hn 0). rewrite Z.div_1_r in Hn. lia.
    + rewrite (iter_shr_1 n (Build_shr_record (Z.pos q) false false)) in H1 by done.
      rewrite <- H1. split; [apply Hn; lia|lia].
    + specialize (Hn 0). rewrite Z.div_1_r in Hn. lia.
  - set (n := fexp 53 1024 _ - e). destruct n as [|n|n]; cbn; intros [= H1 H2].
    pose proof (iter_shr_1_neg n (Build_shr_record (Z.neg q) false false)). cbn in *. lia.
Qed.

Lemma binary_round_aux_U64 s mx e l : inU 64 (bits_of_spec (binary_round_aux 53 1024 s mx e l)).
Proof.
  unfold binary_round_aux. destruct (shr_fexp 53 1024 mx e l) as [mrs' e'].
  set (M := round_nearest_even _ _). pose proof (shr_fexp_fits M e') as Hf.
  destruct (shr_fexp 53 1024 M e' loc_Exact) as [mrs e''].
  destruct (shr_m mrs) as [|p|p]; [by destruct s| |done].
  destruct (Hf p e'' eq_refl) as [H1 H2]. change (1024 - 53) with 971.
  destruct (Z.leb_spec e'' 971); [|by destruct s].
  cbn [bits_of_spec]. unfold inU, sign_bit. destruct (Z.ltb_spec (Z.pos p) (2 ^ 52)), s; lia.
Qed.
