(* ===== verification/GoLib.v ===== *)
(** * GoLib: the parts of Go's language and standard library the data path uses

    UTF-8 iteration over strings, the functions of [strings] and [sort] that
    the source calls, and iteration over maps, whose order Go leaves open: a
    [range] over a map takes the order of visits as an argument, and theorems
    quantify over every order the language allows. *)
From S2P Require Import Prelude.
From Stdlib Require Import Strings.Ascii.
Open Scope Z_scope.

(** ** Bytes and strings

    A Go string is a byte string. *)
Definition to_bytes (s : string) : bytes := String.list_byte_of_string s.
Definition of_bytes (b : bytes) : string := String.string_of_list_byte b.

Lemma of_to_bytes s : of_bytes (to_bytes s) = s.
Proof. apply String.string_of_list_byte_of_string. Qed.
Lemma to_of_bytes b : to_bytes (of_bytes b) = b.
Proof. apply String.list_byte_of_string_of_list_byte. Qed.

Lemma to_bytes_app s t : to_bytes (s +:+ t) = to_bytes s ++ to_bytes t.
Proof.
  induction s as [|c s IH]; [done|].
  change (to_bytes (String c (s +:+ t)) = Ascii.byte_of_ascii c :: to_bytes s ++ to_bytes t).
  by rewrite <- IH.
Qed.

Definition in_range (lo hi x : Z) : bool := (lo <=? x) && (x <=? hi).

(** ** UTF-8 *)

Definition RuneError : Z := 0xFFFD.
Definition cont (b : Z) : Z := Z.land b 0x3F.

(** [utf8.DecodeRuneInString]: the rune and its width; a byte that starts no
    well-formed sequence is [RuneError] of width 1. *)
Definition DecodeRune (b : bytes) : Z * nat :=
  match map byte.unsigned (take 4 b) with
  | [] => (RuneError, 0%nat)
  | b0 :: t =>
      if b0 <? 0x80 then (b0, 1%nat)
      else match t with
      | b1 :: t1 =>
          if in_range 0xC2 0xDF b0 && in_range 0x80 0xBF b1 then
            (Z.lor (Z.shiftl (Z.land b0 0x1F) 6) (cont b1), 2%nat)
          else match t1 with
          | b2 :: t2 =>
              if in_range 0xE0 0xEF b0
                && in_range (if b0 =? 0xE0 then 0xA0 else 0x80)
                            (if b0 =? 0xED then 0x9F else 0xBF) b1
                && in_range 0x80 0xBF b2 then
                (Z.lor (Z.shiftl (Z.land b0 0x0F) 12) (Z.lor (Z.shiftl (cont b1) 6) (cont b2)), 3%nat)
              else match t2 with
              | b3 :: _ =>
                  if in_range 0xF0 0xF4 b0
                    && in_range (if b0 =? 0xF0 then 0x90 else 0x80)
                                (if b0 =? 0xF4 then 0x8F else 0xBF) b1
                    && in_range 0x80 0xBF b2 && in_range 0x80 0xBF b3 then
                    (Z.lor (Z.shiftl (Z.land b0 0x07) 18) (Z.lor (Z.shiftl (cont b1) 12)
                       (Z.lor (Z.shiftl (cont b2) 6) (cont b3))), 4%nat)
                  else (RuneError, 1%nat)
              | [] => (RuneError, 1%nat)
              end
          | [] => (RuneError, 1%nat)
          end
      | [] => (RuneError, 1%nat)
      end
  end.

(** [utf8.EncodeRune], also [strings.Builder.WriteRune]. *)
Definition EncodeRune (r : Z) : bytes :=
  let c n := Z.lor 0x80 (Z.land (Z.shiftr r n) 0x3F) in
  let enc := map byte.of_Z in
  if in_range 0 0x7F r then enc [r]
  else if in_range 0x80 0x7FF r then enc [Z.lor 0xC0 (Z.shiftr r 6); c 0]
  else if in_range 0xD800 0xDFFF r || negb (in_range 0 0x10FFFF r) then
    enc [0xEF; 0xBF; 0xBD]
  else if r <=? 0xFFFF then enc [Z.lor 0xE0 (Z.shiftr r 12); c 6; c 0]
  else enc [Z.lor 0xF0 (Z.shiftr r 18); c 12; c 6; c 0].

(** [for i, r := range s]: byte index, rune, and the bytes it was read from.
    Every rune takes at least one byte, so the length is enough fuel. *)
Fixpoint runes_loop (fuel : nat) (i : Z) (b : bytes) : list (Z * Z * bytes) :=
  match fuel, b with
  | S fuel, _ :: _ =>
      let '(r, w) := DecodeRune b in
      (i, r, take w b) :: runes_loop fuel (i + Z.of_nat w) (drop w b)
  | _, _ => []
  end.
Definition runes (s : string) : list (Z * Z * bytes) :=
  runes_loop (length (to_bytes s)) 0 (to_bytes s).

(** ** package strings *)

Definition ascii_ToLower (r : Z) : Z := if in_range 65 90 r then r + 32 else r.
Definition isASCII (s : string) : bool := forallb (λ b, byte.unsigned b <? 0x80) (to_bytes s).

Section Unicode.
(** [unicode.ToLower] above ASCII is a table of the Unicode version Go ships. *)
Context (unicode_ToLower : Z → Z).

Definition ToLower_rune (r : Z) : Z := if r <? 0x80 then ascii_ToLower r else unicode_ToLower r.

(** [strings.ToLower]: byte by byte on ASCII, otherwise [strings.Map]. *)
Definition ToLower (s : string) : string :=
  of_bytes (if isASCII s
    then map (λ b, byte.of_Z (ascii_ToLower (byte.unsigned b))) (to_bytes s)
    else concat (map (λ '(_, r, _), EncodeRune (ToLower_rune r)) (runes s))).
End Unicode.

(** [unicode.IsSpace]: the White_Space property. *)
Definition IsSpace (r : Z) : bool :=
  in_range 0x09 0x0D r || (r =? 0x20) || (r =? 0x85) || (r =? 0xA0) || (r =? 0x1680)
  || in_range 0x2000 0x200A r || (r =? 0x2028) || (r =? 0x2029) || (r =? 0x202F)
  || (r =? 0x205F) || (r =? 0x3000).

Fixpoint drop_spaces (l : list (Z * Z * bytes)) : list (Z * Z * bytes) :=
  match l with
  | (i, r, raw) :: l' => if IsSpace r then drop_spaces l' else l
  | [] => []
  end.

Definition raw_of (l : list (Z * Z * bytes)) : string := of_bytes (concat (map snd l)).

(** [strings.TrimSpace] *)
Definition TrimSpace (s : string) : string :=
  raw_of (rev (drop_spaces (rev (drop_spaces (runes s))))).

(** [strings.Fields]: the maximal runs of non-space runes. *)
Fixpoint fields_loop (cur : list (Z * Z * bytes)) (l : list (Z * Z * bytes)) : list string :=
  match l with
  | [] => match cur with [] => [] | _ => [raw_of (rev cur)] end
  | (i, r, raw) :: l =>
      if IsSpace r
      then match cur with [] => fields_loop [] l | _ => raw_of (rev cur) :: fields_loop [] l end
      else fields_loop ((i, r, raw) :: cur) l
  end.
Definition Fields (s : string) : list string := fields_loop [] (runes s).

(** [strings.SplitN(s, sep, 2)] for a one-byte separator. *)
Fixpoint cut (sep : Ascii.ascii) (s : string) : option (string * string) :=
  match s with
  | EmptyString => None
  | String c s =>
      if decide (c = sep) then Some (""%string, s)
      else match cut sep s with Some (a, b) => Some (String c a, b) | None => None end
  end.
Definition SplitN2 (s : string) (sep : Ascii.ascii) : list string :=
  match cut sep s with Some (a, b) => [a; b] | None => [s] end.

(** [strings.Join] *)
Definition Join (parts : list string) (sep : string) : string := String.concat sep parts.

Example ToLower_ascii : ToLower id "LabelMap"%string = "labelmap"%string.
Proof. reflexivity. Qed.
Example TrimSpace_ends : TrimSpace "  ome.health	 "%string = "ome.health"%string.
Proof. reflexivity. Qed.
Example Fields_watts : Fields " 42  W "%string = ["42"; "W"]%string.
Proof. reflexivity. Qed.
Example SplitN_first : SplitN2 "dc1.ome.health"%string "."%char = ["dc1"; "ome.health"]%string.
Proof. reflexivity. Qed.
Example rune_two_bytes :
  runes (of_bytes [Byte.xc3; Byte.xa9]) = [(0, 0xE9, [Byte.xc3; Byte.xa9])].
Proof. reflexivity. Qed.

Lemma cut_Some sep s a b : cut sep s = Some (a, b) → s = (a +:+ String sep b)%string.
Proof.
  revert a. induction s as [|c s IH]; intros a; cbn; [done|].
  case_decide as Hc; [intros; by simplify_eq|].
  destruct (cut sep s) as [[a' b']|]; [|done]. intros. simplify_eq. by rewrite (IH _ eq_refl) at 1.
Qed.

(** [sep] does not occur in [s]. *)
Definition no_char (sep : Ascii.ascii) (s : string) : Prop := cut sep s = None.

Lemma cut_app sep a b : no_char sep a → cut sep (a +:+ String sep b)%string = Some (a, b).
Proof.
  unfold no_char. induction a as [|c a IH]; intros Ha.
  { change (cut sep (String sep b) = Some (EmptyString, b)). cbn [cut]. by rewrite decide_True. }
  change (cut sep (String c (a +:+ String sep b)) = Some (String c a, b)). cbn [cut] in *.
  case_decide; [done|]. destruct (cut sep a) as [[? ?]|]; [done|]. by rewrite IH.
Qed.

(** ** sort.Strings *)
Definition sort_Strings (l : list string) : list string := merge_sort String.le l.

Lemma sort_Strings_sorted l : Sorted String.le (sort_Strings l).
Proof. apply Sorted_merge_sort, _. Qed.
Lemma sort_Strings_perm l : sort_Strings l ≡ₚ l.
Proof. apply merge_sort_Permutation. Qed.

(** Sorting forgets the order of its input. *)
Lemma sort_Strings_unique l1 l2 : l1 ≡ₚ l2 → sort_Strings l1 = sort_Strings l2.
Proof.
  intros H. apply (Sorted_unique String.le); [apply sort_Strings_sorted..|].
  by rewrite !sort_Strings_perm.
Qed.

(** ** Maps and their iteration order

    [for k, v := range m { body }] visits the keys of [m] in an order the
    language does not specify.  Deleting a key that has not been reached means
    it is not visited; a key added during the loop may be visited or not.  An
    [order] is a list of keys without duplicates that covers the keys present
    when the loop starts; the loop visits those still present when their turn
    comes. *)

Section Range.
Context {V : Type}.

Definition valid_order (m : gmap string V) (order : list string) : Prop :=
  NoDup order ∧ ∀ k, is_Some (m !! k) → k ∈ order.

Definition range_map {A} (keys : A → gmap string V) (body : string → V → A → A)
    (order : list string) (a : A) : A :=
  fold_left (λ a k, match keys a !! k with Some v => body k v a | None => a end) order a.

(** An order that is always valid. *)
Definition some_order (m : gmap string V) : list string := (map_to_list m).*1.

Lemma some_order_valid m : valid_order m (some_order m).
Proof.
  split; [apply NoDup_fst_map_to_list|].
  intros k [v Hv]. apply list_elem_of_fmap. exists (k, v). by rewrite elem_of_map_to_list.
Qed.

(** The entries a loop that does not touch [m] reads, in visiting order. *)
Definition entries (m : gmap string V) (order : list string) : list (string * V) :=
  omap (λ k, (λ v, (k, v)) <$> m !! k) order.

Lemma entries_elem m order k v : (k, v) ∈ entries m order ↔ k ∈ order ∧ m !! k = Some v.
Proof.
  unfold entries. rewrite list_elem_of_omap. split.
  - intros (k' & Hk' & He). destruct (m !! k') eqn:E; naive_solver.
  - intros [Hk Hv]. exists k. by rewrite Hv.
Qed.

Lemma entries_NoDup m order : NoDup order → NoDup (entries m order).*1.
Proof.
  unfold entries. induction 1 as [|k order Hk _ IH]; [constructor|]. cbn.
  destruct (m !! k) as [v|] eqn:E; cbn; [|done]. constructor; [|done].
  intros ([k' v'] & -> & Hin)%list_elem_of_fmap. apply entries_elem in Hin. naive_solver.
Qed.

(** Whatever the order, the entries are those of the map. *)
Lemma entries_perm m order : valid_order m order → entries m order ≡ₚ map_to_list m.
Proof.
  intros [Hnd Hcov]. apply NoDup_Permutation.
  - eapply NoDup_fmap_1, entries_NoDup, Hnd.
  - apply NoDup_map_to_list.
  - intros [k v]. rewrite entries_elem, elem_of_map_to_list. naive_solver.
Qed.

Lemma entries_map_list m order : valid_order m order → list_to_map (entries m order) = m.
Proof.
  intros H. rewrite <- (list_to_map_to_list m) at 2.
  apply list_to_map_proper; [apply entries_NoDup, H|by apply entries_perm].
Qed.
End Range.
