(* ===== verification/Protocol.v ===== *)
(** * Protocol: Kafka responses as a client reads them

    The parts of the Kafka protocol a client decodes the broker's answers with,
    written from the protocol's message schemas rather than from the broker: the
    primitive types, and the ApiVersions, Metadata and Produce responses, field
    by field with the versions that have the field.  [Replies] is about what the
    bytes of internal/broker/broker.go mean to such a client. *)
From S2P Require Import Prelude Binary GoLib.
Open Scope Z_scope.

(** ** Reading *)

(** A value and what is left of the message; [None] when it is malformed. *)
Definition parser (A : Type) : Type := bytes → option (A * bytes).
#[export] Instance parser_ret : MRet parser := λ A a b, Some (a, b).
#[export] Instance parser_bind : MBind parser := λ A B f p b, '(a, b) ← p b; f a b.

(** The big-endian number a sequence of bytes stands for, and its two's
    complement. *)
Definition be_value (b : bytes) : Z := foldl (λ v c, 256 * v + byte.unsigned c) 0 b.
Definition signed (w u : Z) : Z := if u <? 2 ^ (w - 1) then u else u - 2 ^ w.

Definition raw (n : Z) : parser bytes := λ b,
  if (0 <=? n) && (n <=? len b) then Some (take (Z.to_nat n) b, drop (Z.to_nat n) b) else None.
Definition int (n : nat) : parser Z :=
  b ← raw (Z.of_nat n); mret (signed (8 * Z.of_nat n) (be_value b)).
Definition int8 : parser Z := int 1.
Definition int16 : parser Z := int 2.
Definition int32 : parser Z := int 4.
Definition int64 : parser Z := int 8.
Definition boolean : parser bool := n ← int8; mret (negb (n =? 0)).

(** UNSIGNED_VARINT: seven bits a byte, the least first. *)
Fixpoint uvarint (b : bytes) : option (Z * bytes) :=
  match b with
  | [] => None
  | c :: b =>
      let n := byte.unsigned c in
      if n <? 128 then Some (n, b) else '(v, b) ← uvarint b; Some (n - 128 + 128 * v, b)
  end.

(** Strings and arrays have a length in front, in a flexible version one more
    than it and as a varint; a null one has -1 or 0. *)
Definition length_prefix (flexible : bool) (plain : parser Z) : parser Z :=
  if flexible then n ← (uvarint : parser Z); mret (n - 1) else plain.
Definition nullable_str (flexible : bool) : parser (option string) :=
  n ← length_prefix flexible int16;
  if n =? -1 then mret None else b ← raw n; mret (Some (of_bytes b)).
Definition str (flexible : bool) : parser string :=
  n ← length_prefix flexible int16; b ← raw n; mret (of_bytes b).

Fixpoint repeated {A} (n : nat) (p : parser A) : parser (list A) :=
  match n with
  | O => mret []
  | S n => a ← p; l ← repeated n p; mret (a :: l)
  end.
Definition array {A} (flexible : bool) (p : parser A) : parser (list A) :=
  n ← length_prefix flexible int32; repeated (Z.to_nat n) p.

(** The tagged fields of a flexible version, passed over. *)
Definition tagged_field : parser unit :=
  _ ← (uvarint : parser Z); n ← (uvarint : parser Z); _ ← raw n; mret tt.
Definition tags (flexible : bool) : parser unit :=
  if flexible then n ← (uvarint : parser Z); _ ← repeated (Z.to_nat n) tagged_field; mret tt else mret tt.

(** A field some versions have. *)
Definition since {A} (present : bool) (absent : A) (p : parser A) : parser A :=
  if present then p else mret absent.

(** ** The responses *)

(** ApiVersions, versions 0 to 3.  Its header has no tagged fields. *)
Record apiKey := mkApiKey { ak_key : Z; ak_min : Z; ak_max : Z }.
Record apiVersionsReply := mkApiVersionsReply {
  av_corr : Z; av_error : Z; av_keys : list apiKey; av_throttle : Z }.

Definition apiVersions_reply (version : Z) : parser apiVersionsReply :=
  let flexible := 3 <=? version in
  corr ← int32;
  err ← int16;
  keys ← array flexible (k ← int16; lo ← int16; hi ← int16; _ ← tags flexible; mret (mkApiKey k lo hi));
  throttle ← since (1 <=? version) 0 int32;
  _ ← tags flexible;
  mret (mkApiVersionsReply corr err keys throttle).

(** Metadata, versions 0 to 9. *)
Record nodeReply := mkNodeReply { n_id : Z; n_host : string; n_port : Z; n_rack : option string }.
Record partitionReply := mkPartitionReply {
  pt_error : Z; pt_index : Z; pt_leader : Z; pt_replicas : list Z; pt_isr : list Z; pt_offline : list Z }.
Record topicReply := mkTopicReply {
  tp_error : Z; tp_name : string; tp_internal : bool; tp_partitions : list partitionReply }.
Record metadataReply := mkMetadataReply {
  md_corr : Z; md_throttle : Z; md_brokers : list nodeReply; md_cluster : option string;
  md_controller : Z; md_topics : list topicReply }.

Definition node_reply (version : Z) : parser nodeReply :=
  let flexible := 9 <=? version in
  id ← int32; host ← str flexible; port ← int32;
  rack ← since (1 <=? version) None (nullable_str flexible);
  _ ← tags flexible;
  mret (mkNodeReply id host port rack).

Definition partition_reply (version : Z) : parser partitionReply :=
  let flexible := 9 <=? version in
  err ← int16; index ← int32; leader ← int32;
  _ ← since (7 <=? version) 0 int32; (* leader epoch *)
  replicas ← array flexible int32; isr ← array flexible int32;
  offline ← since (5 <=? version) [] (array flexible int32);
  _ ← tags flexible;
  mret (mkPartitionReply err index leader replicas isr offline).

Definition topic_reply (version : Z) : parser topicReply :=
  let flexible := 9 <=? version in
  err ← int16; name ← str flexible;
  internal ← since (1 <=? version) false boolean;
  partitions ← array flexible (partition_reply version);
  _ ← since (8 <=? version) 0 int32; (* authorized operations *)
  _ ← tags flexible;
  mret (mkTopicReply err name internal partitions).

Definition metadata_reply (version : Z) : parser metadataReply :=
  let flexible := 9 <=? version in
  corr ← int32; _ ← tags flexible;
  throttle ← since (3 <=? version) 0 int32;
  brokers ← array flexible (node_reply version);
  cluster ← since (2 <=? version) None (nullable_str flexible);
  controller ← since (1 <=? version) (-1) int32;
  topics ← array flexible (topic_reply version);
  _ ← since (8 <=? version) 0 int32; (* authorized operations *)
  _ ← tags flexible;
  mret (mkMetadataReply corr throttle brokers cluster controller topics).

(** Produce, versions 0 to 8: for each partition its index, error and base
    offset. *)
Record producedPartition := mkProducedPartition { pp_index : Z; pp_error : Z; pp_offset : Z }.
Record produceReply := mkProduceReply {
  pr_corr : Z; pr_topics : list (string * list producedPartition); pr_throttle : Z }.

Definition produced_partition (version : Z) : parser producedPartition :=
  index ← int32; err ← int16; offset ← int64;
  _ ← since (2 <=? version) 0 int64; (* log append time *)
  _ ← since (5 <=? version) 0 int64; (* log start offset *)
  _ ← since (8 <=? version) [] (array false (n ← int32; _ ← nullable_str false; mret n));
  _ ← since (8 <=? version) None (nullable_str false);
  mret (mkProducedPartition index err offset).

Definition produce_reply (version : Z) : parser produceReply :=
  corr ← int32;
  topics ← array false (t ← str false; ps ← array false (produced_partition version); mret (t, ps));
  throttle ← since (1 <=? version) 0 int32;
  mret (mkProduceReply corr topics throttle).

(** ** Facts *)

(** [p] reads [bs] as [a], whatever follows. *)
Definition reads {A} (p : parser A) (bs : bytes) (a : A) : Prop := ∀ rest, p (bs ++ rest) = Some (a, rest).

Lemma reads_ret {A} (a : A) : reads (mret a) [] a.
Proof. done. Qed.

Lemma reads_bind {A B} (p : parser A) (f : A → parser B) b1 b2 a c :
  reads p b1 a → reads (f a) b2 c → reads (p ≫= f) (b1 ++ b2) c.
Proof.
  intros H1 H2 rest. change ((p ≫= f) ((b1 ++ b2) ++ rest)) with ('(a, b) ← p ((b1 ++ b2) ++ rest); f a b).
  rewrite <- app_assoc, H1. apply H2.
Qed.

Lemma reads_bind_nil {A B} (p : parser A) (f : A → parser B) b a c :
  reads p b a → reads (f a) [] c → reads (p ≫= f) b c.
Proof. intros H1 H2. rewrite <- (app_nil_r b). by eapply reads_bind. Qed.

Lemma reads_raw b : reads (raw (len b)) b b.
Proof.
  intros rest. unfold raw. rewrite len_app. pose proof (len_nonneg b). pose proof (len_nonneg rest).
  rewrite !(proj2 (Z.leb_le _ _)) by lia. cbn [andb]. unfold len. rewrite Nat2Z.id.
  by rewrite take_app_length, drop_app_length.
Qed.

Lemma be_value_get b : be_value b = be_get b.
Proof.
  unfold be_value, be_get. induction b as [|c b IH] using rev_ind; [done|].
  rewrite foldl_app, rev_app_distr. cbn [foldl rev app].
  change (le_combine (c :: rev b)) with (Z.lor (byte.unsigned c) (Z.shiftl (le_combine (rev b)) 8)). rewrite IH.
  pose proof (byte.unsigned_range c) as Hc. pose proof (le_combine_bound (rev b)) as Hb.
  rewrite lor_shiftl_add; [lia|lia|exact Hc|lia].
Qed.

Lemma signed_wrap w v : 0 < w → inS w v → signed w (wrapU w v) = v.
Proof.
  unfold inS, signed, wrapU. intros Hw Hv.
  assert (Hp : 2 ^ w = 2 * 2 ^ (w - 1)) by (rewrite <- Z.pow_succ_r by lia; f_equal; lia).
  destruct (Z.ltb_spec v 0).
  - replace (v mod 2 ^ w) with (v + 2 ^ w) by (apply Z.mod_unique_pos with (-1); lia).
    destruct (Z.ltb_spec (v + 2 ^ w) (2 ^ (w - 1))); lia.
  - rewrite Z.mod_small by lia. destruct (Z.ltb_spec v (2 ^ (w - 1))); lia.
Qed.

Lemma reads_int n v : (0 < n)%nat → inS (8 * Z.of_nat n) v →
  reads (int n) (be_put n (wrapU (8 * Z.of_nat n) v)) v.
Proof.
  intros Hn Hv. unfold int. eapply reads_bind_nil.
  - pose proof (reads_raw (be_put n (wrapU (8 * Z.of_nat n) v))) as H. rewrite be_put_len in H. exact H.
  - rewrite be_value_get, be_put_wrap, be_get_put, signed_wrap by (lia || done). apply reads_ret.
Qed.

Lemma reads_int16 v : inS 16 v → reads int16 (be_put 2 (wrapU 16 v)) v.
Proof. apply (reads_int 2). lia. Qed.
Lemma reads_int32 v : inS 32 v → reads int32 (be_put 4 (wrapU 32 v)) v.
Proof. apply (reads_int 4). lia. Qed.

Lemma put_uvarint_S fuel x : put_uvarint_loop (S fuel) x =
  if x <? 0x80 then [byte.of_Z x] else byte.of_Z (Z.lor (wrapU 8 x) 0x80) :: put_uvarint_loop fuel (Z.shiftr x 7).
Proof. done. Qed.

Lemma uvarint_put_loop fuel : ∀ x rest, 0 <= x < 2 ^ (7 * Z.of_nat (S fuel)) →
  uvarint (put_uvarint_loop (S fuel) x ++ rest) = Some (x, rest).
Proof.
  induction fuel as [|fuel IH]; intros x rest Hx; rewrite put_uvarint_S;
    (destruct (Z.ltb_spec x 0x80) as [Hlt|Hge]; [cbn [app uvarint]; rewrite byte_low by (unfold inU; lia);
      by destruct (Z.ltb_spec x 128); [|lia]|]).
  - change (2 ^ (7 * Z.of_nat 1)) with 128 in Hx. lia.
  - cbn [app uvarint]. rewrite byte_cont. pose proof (Z.mod_pos_bound x 128 ltac:(lia)).
    destruct (Z.ltb_spec (x mod 128 + 128) 128); [lia|].
    rewrite IH; rewrite Z.shiftr_div_pow2 by lia; change (2 ^ 7) with 128.
    + cbn. do 2 f_equal. pose proof (Z.div_mod x 128). lia.
    + split; [apply Z.div_pos; lia|]. apply Z.div_lt_upper_bound; [lia|].
      replace (7 * Z.of_nat (S (S fuel))) with (7 + 7 * Z.of_nat (S fuel)) in Hx by lia.
      rewrite Z.pow_add_r in Hx by lia. change (2 ^ 7) with 128 in Hx. lia.
Qed.

Lemma reads_uvarint x : inU 64 x → reads uvarint (PutUvarint x) x.
Proof. intros Hx rest. apply uvarint_put_loop. unfold inU in Hx. cbn. lia. Qed.

Lemma reads_since_true {A} (a0 : A) p bs a : reads p bs a → reads (since true a0 p) bs a.
Proof. done. Qed.
Lemma reads_since_false {A} (a0 : A) p : reads (since false a0 p) [] a0.
Proof. apply reads_ret. Qed.
Lemma reads_tags_false : reads (tags false) [] tt.
Proof. apply reads_ret. Qed.
Lemma reads_tags_true : reads (tags true) (PutUvarint 0) tt.
Proof. by intros rest. Qed.

Lemma reads_repeated {A B} (p : parser A) (enc : B → bytes) (val : B → A) (l : list B) :
  (∀ x, x ∈ l → reads p (enc x) (val x)) → reads (repeated (length l) p) (concat (map enc l)) (map val l).
Proof.
  induction l as [|x l IH]; intros H; cbn [length repeated concat map]; [apply reads_ret|].
  eapply reads_bind; [apply H; left|]. eapply reads_bind_nil; [apply IH; intros; apply H; by right|apply reads_ret].
Qed.

Lemma reads_length_prefix_flexible plain n : inU 64 n → reads (length_prefix true plain) (PutUvarint n) (n - 1).
Proof. intros H. eapply reads_bind_nil; [by apply reads_uvarint|apply reads_ret]. Qed.
