(* ===== verification/Strconv.v ===== *)
(** * Strconv: numbers as text

    The parts of packages strconv and fmt the program uses: [ParseInt] and
    [ParseFloat], the ["%f"] verb of [Sscanf], and the shortest decimal that
    encoding/json writes for a [float64].  A float literal is evaluated exactly
    and rounded once, to nearest even, by the Standard Library's [spec_float]. *)
From S2P Require Import Prelude Float GoLib.
From Stdlib Require Import Floats.SpecFloat.
From stdpp Require Import pretty.
Open Scope Z_scope.

(** ** Integers *)

Definition digit (c : byte) : option Z :=
  let x := byte.unsigned c in if in_range 48 57 x then Some (x - 48) else None.

Fixpoint digits (acc : Z) (b : bytes) : option Z :=
  match b with
  | [] => Some acc
  | c :: b => d ← digit c; digits (10 * acc + d) b
  end.

(** [strconv.ParseInt(lit, 10, 64)] on the literals JSON allows. *)
Definition ParseInt (lit : string) : option Z :=
  n ← match to_bytes lit with
      | [] => None
      | c :: b =>
          if byte.unsigned c =? 45
          then match b with [] => None | _ => Z.opp <$> digits 0 b end
          else digits 0 (c :: b)
      end;
  if bool_decide (- 2 ^ 63 <= n < 2 ^ 63) then Some n else None.

Example ParseInt_neg : ParseInt "-4000" = Some (-4000).
Proof. reflexivity. Qed.
Example ParseInt_frac : ParseInt "1.0" = None.
Proof. reflexivity. Qed.
Example ParseInt_range : ParseInt "9223372036854775808" = None.
Proof. reflexivity. Qed.

(** A decimal digit. *)
Definition is_decimal (c : byte) : bool := bool_decide (is_Some (digit c)).

(** ** Floats from text *)

(** [lower] of strconv: [c | 0x20]. *)
Definition lower (c : byte) : Z := Z.lor (byte.unsigned c) 0x20.
Definition isb (x : Z) (c : byte) : bool := byte.unsigned c =? x.

Definition digit_base (hex : bool) (c : byte) : option Z :=
  match digit c with
  | Some d => Some d
  | None => if hex && in_range 97 102 (lower c) then Some (lower c - 87) else None
  end.

(** The mantissa of a literal: its digits as an integer, the number of digits
    after the point, whether there was a digit and an underscore, the rest. *)
Record mantissa := mkMantissa {
  mt_value : Z; mt_frac : Z; mt_digits : bool; mt_underscore : bool; mt_rest : bytes }.

Fixpoint float_mantissa (hex sawdot sawdigits underscore : bool) (m frac : Z) (b : bytes) : mantissa :=
  match b with
  | c :: b' =>
      if isb 95 c then float_mantissa hex sawdot sawdigits true m frac b'
      else if isb 46 c
      then if sawdot then mkMantissa m frac sawdigits underscore b
           else float_mantissa hex true sawdigits underscore m frac b'
      else match digit_base hex c with
      | Some d => float_mantissa hex sawdot true underscore ((if hex then 16 else 10) * m + d)
                    (if sawdot then frac + 1 else frac) b'
      | None => mkMantissa m frac sawdigits underscore b
      end
  | [] => mkMantissa m frac sawdigits underscore []
  end.

(** The digits of an exponent; its value stops growing at five digits. *)
Fixpoint exp_digits (e : Z) (underscore : bool) (b : bytes) : Z * bool * bytes :=
  match b with
  | c :: b' =>
      if isb 95 c then exp_digits e true b'
      else match digit c with
      | Some d => exp_digits (if e <? 10000 then 10 * e + d else e) underscore b'
      | None => (e, underscore, b)
      end
  | [] => (e, underscore, [])
  end.

Definition strip_sign (b : bytes) : bool * bytes :=
  match b with
  | c :: b' => if isb 43 c then (false, b') else if isb 45 c then (true, b') else (false, b)
  | [] => (false, [])
  end.

(** [underscoreOK]: underscores only between digits (a base prefix counts as
    one).  [saw] is the kind of the last character. *)
Inductive saw := SawStart | SawDigit | SawUnderscore | SawOther.
Fixpoint underscore_loop (hex : bool) (s : saw) (b : bytes) : bool :=
  match b with
  | [] => match s with SawUnderscore => false | _ => true end
  | c :: b =>
      match digit_base hex c with
      | Some _ => underscore_loop hex SawDigit b
      | None =>
          if isb 95 c
          then match s with SawDigit => underscore_loop hex SawUnderscore b | _ => false end
          else match s with SawUnderscore => false | _ => underscore_loop hex SawOther b end
      end
  end.
Definition underscoreOK (b : bytes) : bool :=
  match (strip_sign b).2 with
  | z :: x :: b' =>
      if isb 48 z && ((lower x =? 98) || (lower x =? 111) || (lower x =? 120))
      then underscore_loop (lower x =? 120) SawDigit b'
      else underscore_loop false SawStart (z :: x :: b')
  | b' => underscore_loop false SawStart b'
  end.

(** [readFloat], for a literal that is the whole of [s]: the number is
    [(-1)^neg * m * 10^exp], or [2^exp] in hexadecimal. *)
Record literal := mkLiteral { lit_neg : bool; lit_hex : bool; lit_m : Z; lit_exp : Z }.

Definition readFloat (s : bytes) : option literal :=
  let '(neg, b) := strip_sign s in
  let '(hex, b) := match b with
    | z :: x :: _ :: _ => if isb 48 z && (lower x =? 120) then (true, drop 2 b) else (false, b)
    | _ => (false, b)
    end in
  let m := float_mantissa hex false false false 0 0 b in
  let frac := if hex then 4 * mt_frac m else mt_frac m in
  let finish (e : Z) (underscore : bool) (rest : bytes) :=
    match rest with
    | [] => if underscore && negb (underscoreOK s) then None
            else Some (mkLiteral neg hex (mt_value m) (e - frac))
    | _ => None
    end in
  if negb (mt_digits m) then None
  else match mt_rest m with
  | c :: b =>
      if lower c =? (if hex then 112 else 101) then
        let '(eneg, b) := strip_sign b in
        match b with
        | d :: _ =>
            match digit d with
            | Some _ =>
                let '(e, u, rest) := exp_digits 0 (mt_underscore m) b in
                finish (if eneg then - e else e) u rest
            | None => None
            end
        | [] => None
        end
      else if hex then None else finish 0 (mt_underscore m) (mt_rest m)
  | [] => if hex then None else finish 0 (mt_underscore m) []
  end.

(** The double nearest to [m * base^exp], ties to even. *)
Definition round_scaled (neg : bool) (m base exp : Z) : spec_float :=
  match m with
  | Z.pos p =>
      if 0 <=? exp
      then match m * base ^ exp with Z.pos q => binary_round 53 1024 neg q 0 | _ => S754_nan end
      else match base ^ (- exp) with
           | Z.pos q => SFdiv 53 1024 (S754_finite neg p 0) (S754_finite false q 0)
           | _ => S754_nan
           end
  | _ => S754_zero neg
  end.

Definition infinite (f : spec_float) : bool :=
  match f with S754_infinity _ => true | _ => false end.

(** ["inf"], ["infinity"] and ["nan"], whatever the case. *)
Definition special (s : bytes) : option spec_float :=
  let '(neg, b) := strip_sign s in
  let low := of_bytes (map (λ c, byte.of_Z (ascii_ToLower (byte.unsigned c))) b) in
  if decide (low = "inf" ∨ low = "infinity")%string then Some (S754_infinity neg)
  else if decide (low = "nan"%string) then (if decide (b = s) then Some S754_nan else None) else None.

(** [strconv.ParseFloat(s, 64)]; the error is the [Err] of the [NumError]. *)
Definition ParseFloat (s : string) : float64 + error :=
  match special (to_bytes s) with
  | Some f => inl (bits_of_spec f)
  | None =>
      match readFloat (to_bytes s) with
      | None => inr "invalid syntax"%string
      | Some l =>
          let f := round_scaled (lit_neg l) (lit_m l) (if lit_hex l then 2 else 10) (lit_exp l) in
          if infinite f then inr "value out of range"%string else inl (bits_of_spec f)
      end
  end.

Example ParseFloat_tenth : ParseFloat "0.1" = inl 0x3FB999999999999A.
Proof. vm_compute. reflexivity. Qed.
Example ParseFloat_denormal : ParseFloat "-4.9e-324" = inl 0x8000000000000001.
Proof. vm_compute. reflexivity. Qed.
Example ParseFloat_hard : ParseFloat "2.2250738585072011e-308" = inl 0x000FFFFFFFFFFFFF.
Proof. vm_compute. reflexivity. Qed.
Example ParseFloat_tie : ParseFloat "9007199254740993" = inl 0x4340000000000000.
Proof. vm_compute. reflexivity. Qed.
Example ParseFloat_over : ParseFloat "1.8e308" = inr "value out of range"%string.
Proof. vm_compute. reflexivity. Qed.
Example ParseFloat_hex : ParseFloat "0x1.8p-1" = inl 0x3FE8000000000000.
Proof. vm_compute. reflexivity. Qed.
Example ParseFloat_underscores : ParseFloat "1_23.50_0_0e+1_2" = ParseFloat "1.235e+14".
Proof. vm_compute. reflexivity. Qed.
Example ParseFloat_bad : map ParseFloat ["1._5"; "1e"; "--1"; "12 "; "0x1.8"; "+nan"; "."]%string =
  repeat (inr "invalid syntax"%string) 7.
Proof. vm_compute. reflexivity. Qed.

(** ** [fmt.Sscanf(s, "%f", &f)] *)

(** [accept]: consume one character of a class, or nothing. *)
Definition accept (p : byte → bool) (b : bytes) : option (byte * bytes) :=
  match b with c :: b' => if p c then Some (c, b') else None | [] => None end.
Fixpoint accept_run (p : byte → bool) (b : bytes) : bytes * bytes :=
  match b with
  | c :: b' => if p c then let '(t, r) := accept_run p b' in (c :: t, r) else ([], b)
  | [] => ([], [])
  end.

(** A chain of [accept]s joined by [&&]: what it consumed, and whether all of
    them matched. *)
Fixpoint accept_all (ps : list (byte → bool)) (b : bytes) : bytes * bool * bytes :=
  match ps with
  | [] => ([], true, b)
  | p :: ps =>
      match accept p b with
      | Some (c, b) => let '(t, ok, r) := accept_all ps b in (c :: t, ok, r)
      | None => ([], false, b)
      end
  end.

Definition letter (x : Z) (c : byte) : bool := (byte.unsigned c =? x) || (byte.unsigned c =? x - 32).
Definition is_sign (c : byte) : bool := isb 43 c || isb 45 c.
Definition is_digit_us (hex : bool) (c : byte) : bool :=
  isb 95 c || bool_decide (is_Some (digit_base hex c)).

(** [floatToken] *)
Definition floatToken (b : bytes) : bytes :=
  let '(t0, nan, b) := accept_all [letter 110; letter 97; letter 110] b in
  if nan then t0
  else
    let '(t1, b) := match accept is_sign b with Some (c, b) => ([c], b) | None => ([], b) end in
    let '(t2, inf, b) := accept_all [letter 105; letter 110; letter 102] b in
    if inf then t0 ++ t1 ++ t2
    else
      let '(t3, hex, b) := accept_all [isb 48; letter 120] b in
      let '(t4, b) := accept_run (is_digit_us hex) b in
      let '(t5, b) := match accept (isb 46) b with
        | Some (c, b) => let '(t, b) := accept_run (is_digit_us hex) b in (c :: t, b)
        | None => ([], b)
        end in
      let t6 := match accept (λ c, letter 112 c || (negb hex && letter 101 c)) b with
        | Some (c, b) =>
            let '(s, b) := match accept is_sign b with Some (c, b) => ([c], b) | None => ([], b) end in
            c :: s ++ (accept_run (is_digit_us false) b).1
        | None => []
        end in
      t0 ++ t1 ++ t2 ++ t3 ++ t4 ++ t5 ++ t6.

Fixpoint cut_p (b : bytes) : option (bytes * bytes) :=
  match b with
  | [] => None
  | c :: b => if isb 112 c then Some ([], b) else '(x, y) ← cut_p b; Some (c :: x, y)
  end.
Definition hasX (b : bytes) : bool := existsb (letter 120) b.

(** [strconv.Atoi]: an optional sign, then decimal digits, within [int]. *)
Definition Atoi (b : bytes) : option Z :=
  let '(neg, d) := strip_sign b in
  match d with
  | [] => None
  | _ => n ← digits 0 d;
         let n := if neg then - n else n in
         if bool_decide (- 2 ^ 63 <= n < 2 ^ 63) then Some n else None
  end.

(** The number behind a bit pattern. *)
Definition spec_of_bits (f : float64) : spec_float :=
  let neg := Z.testbit f 63 in
  let ex := Z.land (Z.shiftr f 52) 2047 in
  let fr := Z.land f (2 ^ 52 - 1) in
  if ex =? 2047 then (if fr =? 0 then S754_infinity neg else S754_nan)
  else match (if ex =? 0 then fr else 2 ^ 52 + fr) with
       | Z.pos m => S754_finite neg m (if ex =? 0 then -1074 else ex - 1075)
       | _ => S754_zero neg
       end.

(** [math.Ldexp(f, e)]: the exponent sum is an [int] and may wrap. *)
Definition Ldexp (f : float64) (e : Z) : float64 :=
  match spec_of_bits f with
  | S754_finite s m ex =>
      let d := Z.pos (digits2_pos m) - 1 in
      let exp := wrapS 64 (e + (ex + d)) in
      bits_of_spec
        (if exp <? -1075 then S754_zero s
         else if 1023 <? exp then S754_infinity s
         else binary_round 53 1024 s m (exp - d))
  | _ => f
  end.

(** [convertFloat]: decimal digits with a binary exponent ("1.5p3") are
    [ParseFloat] followed by [math.Ldexp]. *)
Definition Sscanf_f (s : string) : float64 + error :=
  let tok := floatToken (to_bytes s) in
  match (if hasX tok then None else cut_p tok) with
  | Some (m, e) =>
      match ParseFloat (of_bytes m) with
      | inl f => match Atoi e with Some n => inl (Ldexp f n) | None => inr "invalid syntax"%string end
      | inr err => inr err
      end
  | None => ParseFloat (of_bytes tok)
  end.

Example Sscanf_watts : Sscanf_f "42W" = inl (float64_of_int 42).
Proof. vm_compute. reflexivity. Qed.
Example Sscanf_celsius : Sscanf_f "-3.5e1C" = inl (float64_of_int (-35)).
Proof. vm_compute. reflexivity. Qed.
Example Sscanf_binary : Sscanf_f "1.5p3" = inl (float64_of_int 12).
Proof. vm_compute. reflexivity. Qed.
(** A token that stops inside an exponent is not a number: "3east" is not 3. *)
Example Sscanf_exponent : Sscanf_f "3east" = inr "invalid syntax"%string.
Proof. vm_compute. reflexivity. Qed.
Example Sscanf_word : Sscanf_f "OK" = inr "invalid syntax"%string.
Proof. vm_compute. reflexivity. Qed.

(** ** Decimal integers: printing and parsing *)

Lemma digit_char d : (d < 10)%N → digit (Ascii.byte_of_ascii (pretty_N_char d)) = Some (Z.of_N d).
Proof.
  intros H. destruct d as [|p]; [done|].
  do 4 (destruct p as [p|p|]; [..|done]); vm_compute in H; discriminate.
Qed.

Lemma to_bytes_cons c s : to_bytes (String c s) = Ascii.byte_of_ascii c :: to_bytes s.
Proof. reflexivity. Qed.

Lemma digits_pretty x s :
  digits 0 (to_bytes (pretty_N_go x s)) = digits (Z.of_N x) (to_bytes s).
Proof.
  revert s. induction (N.lt_wf_0 x) as [x _ IH]; intros s.
  destruct (decide (x = 0)%N) as [->|Hx]; [done|].
  rewrite pretty_N_go_step by lia. rewrite IH by (apply N.div_lt; lia).
  rewrite to_bytes_cons. cbn [digits]. rewrite digit_char by (apply N.mod_lt; lia). cbn.
  f_equal. rewrite N2Z.inj_div, N2Z.inj_mod. pose proof (Z.div_mod (Z.of_N x) 10). lia.
Qed.

Lemma digits_first c b v acc : digits acc (c :: b) = Some v → byte.unsigned c ≠ 45.
Proof.
  cbn [digits]. unfold digit, in_range.
  destruct (Z.leb_spec 48 (byte.unsigned c)); [lia|done].
Qed.

Lemma ParseInt_pretty n : inS 64 n → ParseInt (pretty n) = Some n.
Proof.
  intros Hn. unfold ParseInt. unfold inS in Hn.
  assert (Hpos : ∀ p, digits 0 (to_bytes (pretty (N.pos p))) = Some (Z.pos p)).
  { intros p. unfold pretty, pretty_N. rewrite decide_False by done. by rewrite digits_pretty. }
  destruct n as [|p|p].
  - vm_compute. done.
  - change (pretty (Z.pos p)) with (pretty (N.pos p)). specialize (Hpos p).
    destruct (to_bytes (pretty (N.pos p))) as [|c b] eqn:E; [done|].
    pose proof (digits_first _ _ _ _ Hpos). destruct (Z.eqb_spec (byte.unsigned c) 45); [done|].
    rewrite Hpos. cbn [mbind option_bind]. by rewrite bool_decide_true.
  - change (to_bytes (pretty (Z.neg p))) with (Byte.x2d :: to_bytes (pretty (N.pos p))).
    specialize (Hpos p). cbn [byte.unsigned Z.eqb]. 
    destruct (to_bytes (pretty (N.pos p))) as [|c b] eqn:E; [done|].
    change (byte.unsigned Byte.x2d =? 45) with true. cbv iota. rewrite Hpos.
    cbn [fmap option_fmap option_map mbind option_bind].
    by rewrite bool_decide_true.
Qed.

(** An unmarshalled integer is an [int64]. *)
Lemma ParseInt_range_ok lit n : ParseInt lit = Some n → inS 64 n.
Proof.
  unfold ParseInt, inS. intros H. apply bind_Some in H as (m & _ & H).
  case_bool_decide; by simplify_eq.
Qed.


(** ** Reading a decimal literal *)

Lemma digit_Some c d : digit c = Some d → 48 <= byte.unsigned c <= 57 ∧ d = byte.unsigned c - 48.
Proof.
  unfold digit, in_range.
  destruct (Z.leb_spec 48 (byte.unsigned c)), (Z.leb_spec (byte.unsigned c) 57); cbn; try done.
  intros [= <-]. lia.
Qed.

Lemma isb_digit x c d : digit c = Some d → (x < 48 ∨ 57 < x) → isb x c = false.
Proof. intros H%digit_Some Hx. unfold isb. apply Z.eqb_neq. lia. Qed.

(** The sixteen letters a digit is not, whatever its case. *)
Lemma lower_digit x c d : digit c = Some d → 57 < x → (lower c =? x) = false.
Proof.
  intros H%digit_Some Hx. apply Z.eqb_neq. unfold lower. intros He.
  assert (Hl : Z.lor (byte.unsigned c) 0x20 = byte.unsigned c); [|lia].
  destruct H as [H _]. revert H. generalize (byte.unsigned c). intros z Hz.
  assert (Hc : z ∈ (seqZ 48 10)) by (apply elem_of_seqZ; lia).
  clear Hz. revert z Hc. apply Forall_forall. vm_compute. repeat constructor.
Qed.

Lemma digits_app m b1 b2 : digits m (b1 ++ b2) = v ← digits m b1; digits v b2.
Proof.
  revert m. induction b1 as [|c b1 IH]; intros m; [done|]. cbn.
  destruct (digit c); [apply IH|done].
Qed.

Lemma digits_mono m b v : 0 <= m → digits m b = Some v → m <= v.
Proof.
  revert m. induction b as [|c b IH]; intros m Hm; cbn; [by intros [= ->]|].
  destruct (digit c) as [d|] eqn:E; [|done]. apply digit_Some in E. cbn.
  intros H%IH; lia.
Qed.

(** A run of digits of the mantissa. *)
Lemma float_mantissa_run b : ∀ m v dot sd us frac rest, digits m b = Some v →
  float_mantissa false dot sd us m frac (b ++ rest) =
  float_mantissa false dot (sd || negb (bool_decide (b = []))) us v
    (if dot then frac + len b else frac) rest.
Proof.
  induction b as [|c b IH]; intros m v dot sd us frac rest Hv.
  { cbn in Hv. injection Hv as <-. rewrite orb_false_r. destruct dot; [|done].
    unfold len. cbn [length app]. by rewrite Z.add_0_r. }
  cbn [digits] in Hv. destruct (digit c) as [d|] eqn:E; [|done]. cbn in Hv.
  cbn [app float_mantissa]. rewrite !(isb_digit _ _ _ E) by lia. unfold digit_base. rewrite E.
  rewrite (IH _ _ _ _ _ _ _ Hv). rewrite orb_true_l. cbn [bool_decide].
  rewrite bool_decide_false by done. rewrite orb_true_r. destruct dot; [|done].
  f_equal. rewrite len_cons. lia.
Qed.

(** What may follow a number: nothing, or a character that ends the mantissa. *)
Definition ends_mantissa (rest : bytes) : Prop :=
  match rest with [] => True | c :: _ => digit c = None ∧ isb 95 c = false ∧ isb 46 c = false end.

Lemma float_mantissa_end dot sd us m frac rest : ends_mantissa rest →
  float_mantissa false dot sd us m frac rest = mkMantissa m frac sd us rest.
Proof.
  destruct rest as [|c rest]; [done|]. intros (H1 & H2 & H3). cbn.
  rewrite H2, H3. unfold digit_base. by rewrite H1.
Qed.

Lemma exp_digits_run b : ∀ e us v, 0 <= e → digits e b = Some v → v < 100000 →
  exp_digits e us b = (v, us, []).
Proof.
  induction b as [|c b IH]; intros e us v He Hv Hb; cbn in *; [by injection Hv as <-|].
  destruct (digit c) as [d|] eqn:E; [|done]. cbn in Hv.
  rewrite (isb_digit _ _ _ E) by lia. apply digit_Some in E.
  assert (Hm : 0 <= 10 * e + d) by lia. pose proof (digits_mono _ _ _ Hm Hv).
  destruct (Z.ltb_spec e 10000); [|lia]. apply IH; [lia|done|done].
Qed.

(** The text of a decimal literal: sign, digits, optional fraction, optional
    exponent with its sign. *)
Definition sign_text (neg : bool) : bytes := if neg then [Byte.x2d] else [].
Definition frac_text (fp : bytes) : bytes := match fp with [] => [] | _ => Byte.x2e :: fp end.
Definition exp_text (ex : option (bool * bytes)) : bytes :=
  match ex with
  | None => []
  | Some (eneg, b) => Byte.x65 :: (if eneg then Byte.x2d else Byte.x2b) :: b
  end.
Definition exp_value (ex : option (bool * bytes)) : option Z :=
  match ex with
  | None => Some 0
  | Some (_, []) => None
  | Some (eneg, b) => e ← digits 0 b; if e <? 100000 then Some (if eneg then - e else e) else None
  end.
Definition decimal_text (neg : bool) (ip fp : bytes) (ex : option (bool * bytes)) : bytes :=
  sign_text neg ++ ip ++ frac_text fp ++ exp_text ex.

Lemma strip_sign_text neg c d b : digit c = Some d →
  strip_sign (sign_text neg ++ c :: b) = (neg, c :: b).
Proof.
  intros E. destruct neg; [done|]. cbn. by rewrite !(isb_digit _ _ _ E) by lia.
Qed.

Lemma float_mantissa_text ip fp ex i v : digits 0 ip = Some i → digits i fp = Some v → ip ≠ [] →
  float_mantissa false false false false 0 0 (ip ++ frac_text fp ++ exp_text ex) =
    mkMantissa v (len fp) true false (exp_text ex).
Proof.
  intros Hi Hv Hne. rewrite (float_mantissa_run _ _ _ _ _ _ _ _ Hi).
  rewrite bool_decide_false by done. cbn [orb negb].
  assert (Hend : ends_mantissa (exp_text ex)) by (destruct ex as [[[] ?]|]; done).
  destruct fp as [|c fp].
  - injection Hv as <-. by apply float_mantissa_end.
  - change (float_mantissa false true true false i 0 ((c :: fp) ++ exp_text ex) =
      mkMantissa v (len (c :: fp)) true false (exp_text ex)).
    rewrite (float_mantissa_run _ _ _ _ _ _ _ _ Hv), float_mantissa_end by done. done.
Qed.

Lemma ends_exp_text ex : exp_text ex = [] ∨ ∃ c b, exp_text ex = c :: b ∧ lower c = 101.
Proof. destruct ex as [[eneg b]|]; [right; by eexists _, _|by left]. Qed.

(** A decimal literal is read as it is written. *)
Lemma readFloat_text neg ip fp ex i v e :
  digits 0 ip = Some i → digits i fp = Some v → ip ≠ [] → exp_value ex = Some e →
  readFloat (decimal_text neg ip fp ex) = Some (mkLiteral neg false v (e - len fp)).
Proof.
  intros Hi Hv Hne He. unfold decimal_text, readFloat.
  pose proof (float_mantissa_text ip fp ex i v Hi Hv Hne) as Hm.
  destruct ip as [|c ip]; [done|]. cbn [digits] in Hi.
  destruct (digit c) as [d|] eqn:Ec; [|done]. cbn [app] in *.
  rewrite (strip_sign_text _ _ _ _ Ec).
  set (t := ip ++ frac_text fp ++ exp_text ex) in *.
  assert (Hx : match c :: t with
      | z :: x :: _ :: _ => if isb 48 z && (lower x =? 120) then (true, drop 2 (c :: t)) else (false, c :: t)
      | _ => (false, c :: t) end = (false, c :: t)).
  { destruct t as [|x [|y t']] eqn:Et; [done..|].
    replace (lower x =? 120) with false; [by rewrite andb_false_r|].
    unfold t in Et. destruct ip as [|x' ip'].
    - destruct fp as [|? ?]; cbn in Et.
      + destruct (ends_exp_text ex) as [Hn|(c' & b & Hn & Hl)]; rewrite Hn in Et; [done|].
        injection Et as -> _. by rewrite Hl.
      + by injection Et as <- _.
    - injection Et as -> _. cbn [digits mbind option_bind] in Hi.
      destruct (digit x) as [dx|] eqn:Edx; [|done]. symmetry. by apply (lower_digit _ _ _ Edx). }
  rewrite Hx. clear Hx. rewrite Hm. cbn [mt_digits mt_rest mt_frac mt_value mt_underscore negb].
  destruct ex as [[eneg b]|]; cbn [exp_text exp_value] in *.
  - change (lower Byte.x65 =? 101) with true. cbv iota.
    destruct b as [|c1 b]; [done|]. cbn in He.
    apply bind_Some in He as (e1 & Hd1 & He). destruct (Z.ltb_spec e1 100000); [|done].
    assert (Hs : strip_sign ((if eneg then Byte.x2d else Byte.x2b) :: c1 :: b) = (eneg, c1 :: b)) by by destruct eneg.
    rewrite Hs. change (digits 0 (c1 :: b) = Some e1) in Hd1.
    rewrite (exp_digits_run (c1 :: b) 0 false e1) by (lia || done).
    cbn [digits] in Hd1. destruct (digit c1); [|done]. by injection He as <-.
  - by injection He as <-.
Qed.

(** ... and is none of the special names. *)
Lemma special_text neg c d b : digit c = Some d → special (sign_text neg ++ c :: b) = None.
Proof.
  intros E. unfold special. rewrite (strip_sign_text _ _ _ _ E). cbn [map].
  pose proof (digit_Some _ _ E) as [Hc _].
  assert (Hl : ascii_ToLower (byte.unsigned c) = byte.unsigned c).
  { unfold ascii_ToLower, in_range. destruct (Z.leb_spec 65 (byte.unsigned c)); [lia|done]. }
  rewrite Hl, byte.of_Z_unsigned.
  assert (Hf : ∀ x s, 57 < byte.unsigned (Ascii.byte_of_ascii x) →
    of_bytes (c :: map (λ c, byte.of_Z (ascii_ToLower (byte.unsigned c))) b) ≠ String x s).
  { intros x s Hx He. apply (f_equal to_bytes) in He. rewrite to_of_bytes in He.
    change (to_bytes (String x s)) with (Ascii.byte_of_ascii x :: to_bytes s) in He.
    injection He as -> _. lia. }
  rewrite decide_False by (intros [H|H]; revert H; apply Hf; reflexivity).
  rewrite decide_False by (apply Hf; reflexivity). done.
Qed.

(** [ParseFloat] on a decimal literal is the nearest double, unless it is out
    of range. *)
Lemma ParseFloat_text neg ip fp ex i v e f :
  digits 0 ip = Some i → digits i fp = Some v → ip ≠ [] → exp_value ex = Some e →
  f = round_scaled neg v 10 (e - len fp) → infinite f = false →
  ParseFloat (of_bytes (decimal_text neg ip fp ex)) = inl (bits_of_spec f).
Proof.
  intros Hi Hv Hne He -> Hf. unfold ParseFloat. rewrite to_of_bytes.
  rewrite (readFloat_text _ _ _ _ _ _ _ Hi Hv Hne He).
  destruct ip as [|c ip]; [done|]. cbn [digits] in Hi.
  destruct (digit c) as [d|] eqn:Ec; [|done].
  unfold decimal_text. cbn [app]. rewrite (special_text _ _ _ _ Ec).
  cbn [lit_neg lit_m lit_hex lit_exp]. by rewrite Hf.
Qed.

(** ** Shortest decimals

    [strconv.AppendFloat(f, _, -1, 64)] writes the shortest decimal that parses
    back to [f], the one nearest to [f] when there are several.  Found here by
    trying one to seventeen digits. *)

(** [floor (num / den / 10^k)] *)
Definition floor_scaled (num den k : Z) : Z :=
  if 0 <=? k then num / (den * 10 ^ k) else num * 10 ^ (- k) / den.

(** [num / den] against [c * 10^k]. *)
Definition compare_scaled (num den c k : Z) : comparison :=
  if 0 <=? k then num ?= c * (den * 10 ^ k) else num * 10 ^ (- k) ?= c * den.

(** The least [k >= k0] with [num / den < 10^k]. *)
Fixpoint decimal_exponent (fuel : nat) (num den k : Z) : Z :=
  match fuel with
  | O => k
  | S fuel => if floor_scaled num den k =? 0 then k else decimal_exponent fuel num den (k + 1)
  end.

(** The number without trailing zeros. *)
Fixpoint strip_zeros (fuel : nat) (c k : Z) : Z * Z :=
  match fuel with
  | O => (c, k)
  | S fuel => if c mod 10 =? 0 then strip_zeros fuel (c / 10) (k + 1) else (c, k)
  end.

(** Format ['f'] of [c * 10^k]. *)
Definition zeros (n : Z) : bytes := repeat Byte.x30 (Z.to_nat n).

Definition format_f (neg : bool) (c k : Z) : bytes :=
  let ds := to_bytes (pretty c) in
  let dp := len ds + k in
  if dp <=? 0 then decimal_text neg [Byte.x30] (zeros (- dp) ++ ds) None
  else if len ds <=? dp then decimal_text neg (ds ++ zeros (dp - len ds)) [] None
  else decimal_text neg (take (Z.to_nat dp) ds) (drop (Z.to_nat dp) ds) None.

(** Format ['e'], with encoding/json's clean-up of [e-09] to [e-9]. *)
Definition format_e (neg : bool) (c k : Z) : bytes :=
  let ds := to_bytes (pretty c) in
  let x := len ds + k - 1 in
  decimal_text neg (take 1 ds) (drop 1 ds) (Some (x <? 0, to_bytes (pretty (Z.abs x)))).

(** encoding/json writes exponents below 1e-6 and from 1e21. *)
Definition format_float (neg : bool) (ck : Z * Z) : bytes :=
  let '(c, k) := ck in
  let x := len (to_bytes (pretty c)) + k - 1 in
  if (x <? -6) || (21 <=? x) then format_e neg c k else format_f neg c k.

(** Does the decimal read back as [f]? *)
Definition reads_as (neg : bool) (f : float64) (ck : Z * Z) : bool :=
  (0 <? ck.1) && bool_decide (ParseFloat (of_bytes (format_float neg ck)) = inl f).

(** [c * 10^k], the last digit of [c] not 0, for the least number of digits. *)
Fixpoint shortest_loop (fuel : nat) (neg : bool) (f : float64) (num den k : Z) : option (Z * Z) :=
  match fuel with
  | O => None
  | S fuel =>
      let c := floor_scaled num den k in
      let lo := strip_zeros 17 c k in
      let hi := strip_zeros 17 (c + 1) k in
      match reads_as neg f lo, reads_as neg f hi with
      | true, false => Some lo
      | false, true => Some hi
      | true, true =>
          match compare_scaled (2 * num) den (2 * c + 1) k with
          | Lt => Some lo
          | Eq => Some (if Z.even c then lo else hi)
          | Gt => Some hi
          end
      | false, false => shortest_loop fuel neg f num den (k - 1)
      end
  end.

Definition shortest (neg : bool) (f : float64) (m : positive) (e : Z) : option (Z * Z) :=
  let num := if 0 <=? e then Z.pos m * 2 ^ e else Z.pos m in
  let den := if 0 <=? e then 1 else 2 ^ (- e) in
  let k := (Z.log2 num - Z.log2 den) * 30103 / 100000 - 1 in
  let k := decimal_exponent 4 num den k in
  shortest_loop 17 neg f num den (k - 1).

(** What encoding/json writes for a [float64]; [None] for infinities and NaN,
    which it refuses. *)
Definition json_float (f : float64) : option string :=
  match spec_of_bits f with
  | S754_zero neg => Some (if neg then "-0" else "0")%string
  | S754_finite neg m e => (λ ck, of_bytes (format_float neg ck)) <$> shortest neg f m e
  | _ => None
  end.

Example json_float_plain : (λ s, match ParseFloat s with inl f => json_float f | inr _ => None end) <$>
    ["0.1"; "100"; "23.5"; "-0.0"; "1e21"; "1e20"; "1e-6"; "9.5e-7"; "1.7976931348623157e308"; "5e-324"; "5.684341886080801e-14"; "1234567890.125"]%string =
  Some <$> ["0.1"; "100"; "23.5"; "-0"; "1e+21"; "100000000000000000000"; "0.000001"; "9.5e-7"; "1.7976931348623157e+308"; "5e-324"; "5.684341886080801e-14"; "1234567890.125"]%string.
Proof. vm_compute. reflexivity. Qed.


(** ** Integers as floats *)

Lemma digits_pretty_N (n : N) : digits 0 (to_bytes (pretty n)) = Some (Z.of_N n).
Proof.
  unfold pretty, pretty_N. case_decide as H; [by subst|]. by rewrite digits_pretty.
Qed.

Lemma pretty_N_bytes_ne (n : N) : to_bytes (pretty n) ≠ [].
Proof.
  intros H. pose proof (digits_pretty_N n) as Hd. rewrite H in Hd. injection Hd as Hd.
  assert (n = 0%N) as -> by lia. by vm_compute in H.
Qed.

Definition abs_N (n : Z) : N := Z.to_N (Z.abs n).

Lemma pretty_Z_text (n : Z) : to_bytes (pretty n) = decimal_text (n <? 0) (to_bytes (pretty (abs_N n))) [] None.
Proof. unfold decimal_text. cbn. rewrite app_nil_r. by destruct n. Qed.

Lemma pretty_Z_text' (n : Z) : pretty n = of_bytes (decimal_text (n <? 0) (to_bytes (pretty (abs_N n))) [] None).
Proof. by rewrite <- pretty_Z_text, of_to_bytes. Qed.

Lemma round_scaled_pos neg p : round_scaled neg (Z.pos p) 10 0 = binary_round 53 1024 neg p 0.
Proof. unfold round_scaled. by replace (Z.pos p * 10 ^ 0) with (Z.pos p) by lia. Qed.

Lemma round_scaled_int n : bits_of_spec (round_scaled (n <? 0) (Z.abs n) 10 0) = float64_of_int n.
Proof.
  destruct n as [|p|p]; [done|..]; cbv [Z.abs Z.ltb Z.compare]; by rewrite round_scaled_pos.
Qed.

(** Below 2^53 nothing is rounded. *)
Lemma round_scaled_exact neg v : 0 <= v → v < 2 ^ 53 →
  infinite (round_scaled neg v 10 0) = false ∧
  int_of_bits (bits_of_spec (round_scaled neg v 10 0)) = Some (if neg then - v else v).
Proof.
  intros H0 Hv. destruct v as [|p|p]; [by destruct neg| |lia]. split.
  - rewrite round_scaled_pos. by destruct (binary_round_exact neg p) as (m & d & -> & _).
  - destruct neg.
    + change (- Z.pos p) with (Z.neg p). rewrite <- float64_of_int_exact by done. by rewrite <- round_scaled_int.
    + rewrite <- float64_of_int_exact by done. by rewrite <- round_scaled_int.
Qed.

(** An integer literal below 2^53 is that integer as a double. *)
Lemma ParseFloat_pretty (n : Z) : Z.abs n < 2 ^ 53 → ParseFloat (pretty n) = inl (float64_of_int n).
Proof.
  intros Hn. rewrite pretty_Z_text', <- round_scaled_int.
  apply ParseFloat_text with (Z.abs n) (Z.abs n) 0; [|done|apply pretty_N_bytes_ne|done..|].
  - rewrite digits_pretty_N. f_equal. unfold abs_N. lia.
  - apply round_scaled_exact; lia.
Qed.

(** What may follow the number in a string like "42W": a character that does
    not continue it. *)
Definition ends_float (rest : bytes) : Prop :=
  match rest with
  | [] => True
  | c :: _ => is_digit_us false c = false ∧ isb 46 c = false ∧ letter 101 c = false ∧
              letter 112 c = false ∧ letter 120 c = false
  end.

Lemma accept_run_digits b m v rest : digits m b = Some v →
  match rest with [] => True | c :: _ => is_digit_us false c = false end →
  accept_run (is_digit_us false) (b ++ rest) = (b, rest).
Proof.
  intros Hv Hr. revert m Hv. induction b as [|c b IH]; intros m Hv.
  { destruct rest as [|c rest]; [done|]. cbn in *. by rewrite Hr. }
  cbn [digits] in Hv. destruct (digit c) as [d|] eqn:E; [|done]. cbn in Hv.
  cbn [app accept_run]. replace (is_digit_us false c) with true; [by rewrite (IH _ Hv)|].
  unfold is_digit_us, digit_base. rewrite E. by destruct (isb 95 c).
Qed.

Lemma letter_digit x c d : digit c = Some d → 96 < x → letter x c = false.
Proof.
  intros H%digit_Some Hx. unfold letter.
  destruct (Z.eqb_spec (byte.unsigned c) x), (Z.eqb_spec (byte.unsigned c) (x - 32)); lia || done.
Qed.

(** Digits and a fraction, up to the unit. *)
Lemma accept_run_fraction fp m v rest : digits m fp = Some v → ends_float rest →
  match accept (isb 46) (frac_text fp ++ rest) with
  | Some (c, b) => let '(t, b) := accept_run (is_digit_us false) b in (c :: t, b)
  | None => ([], frac_text fp ++ rest)
  end = (frac_text fp, rest).
Proof.
  intros Hv Hr. destruct fp as [|c fp]; cbn [frac_text app].
  - destruct rest as [|x rest]; [done|]. destruct Hr as (_ & H & _). cbn. by rewrite H.
  - change (accept (isb 46) (Byte.x2e :: c :: fp ++ rest)) with (Some (Byte.x2e, (c :: fp) ++ rest)). cbv iota.
    rewrite (accept_run_digits (c :: fp) m v rest Hv); [done|]. destruct rest; [done|apply Hr].
Qed.

Lemma accept_run_whole b fp m v w rest : digits m b = Some v → ends_float rest → digits v fp = Some w →
  accept_run (is_digit_us false) (b ++ frac_text fp ++ rest) = (b, frac_text fp ++ rest).
Proof.
  intros Hv Hr Hw. eapply accept_run_digits; [exact Hv|]. destruct fp; [|done].
  destruct rest; [done|apply Hr].
Qed.

(** No [x] follows the first digit. *)
Lemma no_hex_prefix c b fp m v w rest : digits m b = Some v → digits v fp = Some w → ends_float rest →
  accept_all [isb 48; letter 120] (c :: b ++ frac_text fp ++ rest) =
    if isb 48 c then ([c], false, b ++ frac_text fp ++ rest) else ([], false, c :: b ++ frac_text fp ++ rest).
Proof.
  intros Hv Hw Hr. cbn. destruct (isb 48 c); [|done].
  destruct b as [|x b].
  - destruct fp as [|y fp]; [|done]. destruct rest as [|x rest]; [done|]. cbn.
    destruct Hr as (_ & _ & _ & _ & Hx). by rewrite Hx.
  - cbn in Hv |- *. destruct (digit x) eqn:E; [|done]. by rewrite (letter_digit _ _ _ E).
Qed.

(** The token of a decimal followed by its unit. *)
Lemma floatToken_text neg c b fp v w rest :
  digits 0 (c :: b) = Some v → digits v fp = Some w → ends_float rest →
  floatToken (sign_text neg ++ (c :: b) ++ frac_text fp ++ rest) = sign_text neg ++ (c :: b) ++ frac_text fp.
Proof.
  intros Hv Hw Hr. cbn [digits] in Hv. destruct (digit c) as [d|] eqn:Hd; [|done].
  cbn [mbind option_bind] in Hv. unfold floatToken. cbn [app].
  set (t := b ++ frac_text fp ++ rest).
  assert (Hn : accept_all [letter 110; letter 97; letter 110] (sign_text neg ++ c :: t) =
    ([], false, sign_text neg ++ c :: t)).
  { destruct neg; [done|]. cbn. by rewrite (letter_digit _ _ _ Hd). }
  assert (Hs : match accept is_sign (sign_text neg ++ c :: t) with Some (c, b) => ([c], b)
    | None => ([], sign_text neg ++ c :: t) end = (sign_text neg, c :: t)).
  { destruct neg; [done|]. cbn. unfold is_sign. by rewrite !(isb_digit _ _ _ Hd) by lia. }
  assert (Hinf : accept_all [letter 105; letter 110; letter 102] (c :: t) = ([], false, c :: t)).
  { cbn. by rewrite (letter_digit _ _ _ Hd). }
  rewrite Hn, Hs, Hinf. unfold t. rewrite (no_hex_prefix c b fp _ v w) by done.
  assert (Hexp : accept (λ c, letter 112 c || (negb false && letter 101 c)) rest = None).
  { destruct rest as [|x rest]; [done|]. destruct Hr as (_ & _ & H2 & H3 & _). cbn. by rewrite H2, H3. }
  pose proof (accept_run_fraction fp v w rest Hw Hr) as Hf.
  destruct (isb 48 c) eqn:E0.
  - rewrite (accept_run_whole b fp _ v w rest Hv Hr Hw), Hf, Hexp. cbn. by rewrite ?app_nil_r.
  - assert (Hv' : digits 0 (c :: b) = Some v) by (cbn [digits]; by rewrite Hd).
    pose proof (accept_run_whole (c :: b) fp _ v w rest Hv' Hr Hw) as Hrun. cbn [app] in Hrun.
    rewrite Hrun, Hf, Hexp. cbn. by rewrite ?app_nil_r.
Qed.

Lemma digits_all b : ∀ m v, digits m b = Some v → Forall (λ c, 48 <= byte.unsigned c <= 57) b.
Proof.
  induction b as [|c b IH]; intros m v; cbn [digits]; [by constructor|].
  destruct (digit c) as [d|] eqn:E; [|done]. cbn [mbind option_bind]. intros H.
  constructor; [by apply digit_Some in E as [? _]|by eapply IH].
Qed.

(** Digits, a sign and a point. *)
Lemma decimal_text_chars neg ip fp m i v : digits m ip = Some i → digits i fp = Some v →
  Forall (λ c, 45 <= byte.unsigned c <= 57) (decimal_text neg ip fp None).
Proof.
  intros Hi Hv. unfold decimal_text. cbn [exp_text]. rewrite app_nil_r.
  assert (Hd : ∀ b m v, digits m b = Some v → Forall (λ c, 45 <= byte.unsigned c <= 57) b).
  { intros b m' v' H. eapply Forall_impl; [by eapply digits_all|]. cbn. lia. }
  apply Forall_app; split; [|apply Forall_app; split; [by eapply Hd|]].
  - destruct neg; [|constructor]. apply Forall_cons_2; [cbn; lia|constructor].
  - destruct fp as [|c fp]; cbn [frac_text]; [constructor|]. apply Forall_cons_2; [cbn; lia|by eapply Hd].
Qed.

(** A printed integer has no leading zero. *)
Lemma pretty_N_go_first x : ∀ s, x ≠ 0%N → ∃ c t,
  to_bytes (pretty_N_go x s) = c :: t ∧ isb 48 c = false.
Proof.
  induction (N.lt_wf_0 x) as [x _ IH]; intros s Hx. rewrite pretty_N_go_step by lia.
  destruct (decide (x / 10 = 0)%N) as [H0|H0].
  - rewrite H0. eexists _, _. split; [reflexivity|].
    rewrite N.mod_small by (apply N.div_small_iff; lia).
    apply N.div_small_iff in H0; [|lia]. unfold isb. apply Z.eqb_neq. intros He.
    pose proof (digit_char x H0) as Hd. apply digit_Some in Hd. lia.
  - apply IH; [apply N.div_lt; lia|done].
Qed.

Lemma pretty_N_first (n : N) c b : to_bytes (pretty n) = c :: b → b = [] ∨ isb 48 c = false.
Proof.
  unfold pretty, pretty_N. case_decide as H; [intros [= _ <-]; by left|].
  destruct (pretty_N_go_first n "" H) as (c' & t & -> & Hc). intros [= <- _]. by right.
Qed.

Lemma chars_no_letter (b : bytes) x : 57 < x → Forall (λ c, 45 <= byte.unsigned c <= 57) b →
  Forall (λ c, isb x c = false) b.
Proof.
  intros Hx Hb. eapply Forall_impl; [exact Hb|]. intros c Hc. unfold isb. apply Z.eqb_neq. cbn in Hc. lia.
Qed.

(** A string metric: a decimal with its unit glued to it. *)
Lemma Sscanf_decimal neg ip fp i v (unit : string) :
  digits 0 ip = Some i → digits i fp = Some v → ip ≠ [] → ends_float (to_bytes unit) →
  Sscanf_f (of_bytes (decimal_text neg ip fp None) +:+ unit) =
    ParseFloat (of_bytes (decimal_text neg ip fp None)).
Proof.
  intros Hi Hv Hne Hu. pose proof (decimal_text_chars neg ip fp _ i v Hi Hv) as Hc. unfold Sscanf_f.
  assert (Ht : floatToken (to_bytes (of_bytes (decimal_text neg ip fp None) +:+ unit)) = decimal_text neg ip fp None).
  { rewrite to_bytes_app, to_of_bytes. unfold decimal_text. cbn [exp_text]. rewrite app_nil_r.
    destruct ip as [|c b]; [done|]. rewrite <- !app_assoc. by eapply floatToken_text. }
  rewrite Ht. generalize dependent (decimal_text neg ip fp None). intros t Hc _.
  assert (Hx : hasX t = false).
  { unfold hasX. apply not_true_is_false. rewrite existsb_exists. intros (c & Hin%list_elem_of_In & Hl).
    unfold letter in Hl.
    pose proof (chars_no_letter t 120 ltac:(lia) Hc) as H1. pose proof (chars_no_letter t 88 ltac:(lia) Hc) as H2.
    rewrite Forall_forall in H1, H2. specialize (H1 c Hin). specialize (H2 c Hin).
    unfold isb in *. change (120 - 32) with 88 in Hl. by rewrite H1, H2 in Hl. }
  assert (Hp : cut_p t = None).
  { clear Hx. apply (chars_no_letter t 112 ltac:(lia)) in Hc. induction Hc as [|c b H _ IH]; [done|]. cbn.
    by rewrite H, IH. }
  by rewrite Hx, Hp.
Qed.

(** ** What is written reads back *)

Lemma shortest_loop_reads fuel neg f num den k ck :
  shortest_loop fuel neg f num den k = Some ck → reads_as neg f ck = true.
Proof.
  revert k. induction fuel as [|fuel IH]; intros k; cbn -[strip_zeros]; [done|].
  destruct (reads_as neg f (strip_zeros _ (floor_scaled num den k) k)) eqn:E1,
    (reads_as neg f (strip_zeros _ (floor_scaled num den k + 1) k)) eqn:E2; cbn -[strip_zeros].
  - destruct (compare_scaled _ _ _ _); intros; simplify_eq; repeat case_match; congruence.
  - by intros [= <-].
  - by intros [= <-].
  - apply IH.
Qed.

Lemma spec_of_bits_zero f neg : inU 64 f → spec_of_bits f = S754_zero neg → f = sign_bit neg.
Proof.
  unfold inU, spec_of_bits. intros Hf.
  assert (Hfr : Z.land f (2 ^ 52 - 1) = f mod 2 ^ 52) by (apply (Z.land_ones f 52); lia).
  assert (Hex : Z.land (Z.shiftr f 52) 2047 = (f / 2 ^ 52) mod 2 ^ 11).
  { rewrite Z.shiftr_div_pow2 by lia. apply (Z.land_ones _ 11). lia. }
  rewrite Hfr, Hex. pose proof (Z.mod_pos_bound f (2 ^ 52) ltac:(lia)) as Hb.
  destruct (Z.eqb_spec ((f / 2 ^ 52) mod 2 ^ 11) 2047); [by case_match|].
  destruct (Z.eqb_spec ((f / 2 ^ 52) mod 2 ^ 11) 0) as [H0|].
  2: { destruct (2 ^ 52 + f mod 2 ^ 52) eqn:E; [lia|done|lia]. }
  destruct (f mod 2 ^ 52) eqn:E; [|done|lia].
  generalize (Z.testbit_odd f 63). generalize (Z.testbit f 63). intros t Ht [= <-]. subst t.
  pose proof (Z.div_mod f (2 ^ 52) ltac:(lia)) as Hd.
  pose proof (Z.div_mod (f / 2 ^ 52) (2 ^ 11) ltac:(lia)) as Hd2.
  rewrite E in Hd. rewrite H0 in Hd2. 
  assert (Hs : f / 2 ^ 52 / 2 ^ 11 = f / 2 ^ 63) by (rewrite Z.div_div by lia; done).
  rewrite Hs in Hd2. rewrite Z.shiftr_div_pow2 by lia.
  assert (H2 : 0 <= f / 2 ^ 63 < 2) by (split; [apply Z.div_pos; lia|apply Z.div_lt_upper_bound; lia]).
  assert (f / 2 ^ 63 = 0 ∨ f / 2 ^ 63 = 1) as [Hq|Hq] by lia; rewrite Hq in *; cbn -[Z.pow]; lia.
Qed.

Lemma ParseFloat_U64 s f : ParseFloat s = inl f → inU 64 f.
Proof.
  unfold ParseFloat. destruct (special (to_bytes s)) as [x|] eqn:E.
  - intros [= <-]. unfold special in E. destruct (strip_sign _) as [neg b].
    repeat case_decide; simplify_eq; [by destruct neg|done].
  - destruct (readFloat _) as [l|]; [|done]. destruct (infinite _); [done|]. intros [= <-].
    unfold round_scaled, binary_round, SFdiv.
    repeat case_match; simplify_eq; first [apply binary_round_aux_U64|done|by destruct (lit_neg l)].
Qed.

(** The decimal encoding/json writes for a double parses back to it. *)
Lemma json_float_reads f s : inU 64 f → json_float f = Some s → ParseFloat s = inl f.
Proof.
  intros Hf. unfold json_float. destruct (spec_of_bits f) as [neg| | |neg m e] eqn:E; try done.
  - intros [= <-]. rewrite (spec_of_bits_zero _ _ Hf E). by destruct neg.
  - intros (ck & Hs & ->)%fmap_Some. apply shortest_loop_reads in Hs.
    unfold reads_as in Hs. apply andb_true_iff in Hs as [_ Hs]. by apply bool_decide_eq_true in Hs.
Qed.
