(* ===== verification/Rounding.v ===== *)
(** * Rounding: seventeen digits name a double

    [SpecFloat]'s rounding, on the exact value of a decimal: a value close
    enough to a double rounds to it.  The seventeen-digit decimal nearest to a
    double is that close, so the search for the shortest decimal always ends
    with one, and every finite value can be written as JSON. *)
From S2P Require Import Prelude Float GoLib Strconv.
From stdpp Require Import pretty.
From Stdlib Require Import Floats.SpecFloat.
Open Scope Z_scope.

Local Abbreviation fexp := (fexp 53 1024).
Local Abbreviation shr_fexp := (shr_fexp 53 1024).

(** ** Where a quotient lies between two integers *)

Definition loc_ok (P Q m : Z) (l : location) : Prop :=
  match l with
  | loc_Exact => P = m * Q
  | loc_Inexact Lt => m * Q < P ∧ 2 * (P - m * Q) < Q
  | loc_Inexact Eq => 2 * (P - m * Q) = Q
  | loc_Inexact Gt => Q < 2 * (P - m * Q)
  end.

(** [m] is the floor of [P / Q], and [l] the place of [P / Q] above it. *)
Definition located (P Q m : Z) (l : location) : Prop :=
  0 < Q ∧ 0 <= m ∧ m * Q <= P < (m + 1) * Q ∧ loc_ok P Q m l.

Lemma located_scale P Q m l c : 0 < c → located P Q m l → located (P * c) (Q * c) m l.
Proof.
  intros Hc (HQ & Hm & HP & Hl). split; [nia|]. split; [done|]. split; [nia|].
  destruct l as [|[]]; cbn in *; nia.
Qed.

Definition record_at (P Q : Z) (r : shr_record) : Prop := located P Q (shr_m r) (loc_of_shr_record r).

Lemma shr_1_at P Q r : record_at P Q r → record_at P (Q * 2) (shr_1 r).
Proof.
  destruct r as [m r s]. intros (HQ & Hm & HP & Hl). cbn [shr_m] in *.
  destruct m as [|[p|p|]|p], r, s; cbn in *; try lia; (split; [|split; [|split]]); cbn; lia.
Qed.

Lemma iter_shr_1_at p : ∀ P Q r, record_at P Q r → record_at P (Q * 2 ^ Z.pos p) (iter_pos shr_1 p r).
Proof.
  induction p as [p IH|p IH|]; intros P Q r H; cbn [iter_pos].
  - replace (Q * 2 ^ Z.pos p~1) with (Q * 2 * 2 ^ Z.pos p * 2 ^ Z.pos p); [by apply IH, IH, shr_1_at|].
    rewrite Pos2Z.inj_xI. replace (2 * Z.pos p + 1) with (1 + (Z.pos p + Z.pos p)) by lia.
    rewrite !Z.pow_add_r by lia. lia.
  - replace (Q * 2 ^ Z.pos p~0) with (Q * 2 ^ Z.pos p * 2 ^ Z.pos p); [by apply IH, IH|].
    rewrite (Pos2Z.inj_xO p), <- (Z.add_diag (Z.pos p)), Z.pow_add_r by lia. lia.
  - by apply shr_1_at.
Qed.

Lemma record_of_loc P Q m l : located P Q m l → record_at P Q (shr_record_of_loc m l).
Proof. by destruct l as [|[]]. Qed.

(** Shifting to the exponent the format asks for. *)
Lemma shr_fexp_at P Q m e l : located P Q m l → e <= fexp (Zdigits2 m + e) →
  ∃ r, shr_fexp m e l = (r, fexp (Zdigits2 m + e)) ∧ record_at P (Q * 2 ^ (fexp (Zdigits2 m + e) - e)) r.
Proof.
  intros H He. unfold SpecFloat.shr_fexp. set (e' := fexp _) in *.
  destruct (e' - e) as [|n|n] eqn:En; [| |lia]; cbn [shr].
  - exists (shr_record_of_loc m l). replace e' with e by lia. split; [done|]. rewrite Z.pow_0_r, Z.mul_1_r.
    by apply record_of_loc.
  - eexists. split; [f_equal; lia|]. by apply iter_shr_1_at, record_of_loc.
Qed.

(** ** Rounding to a double *)

(** The finite doubles. *)
Definition canonical (m e : Z) : Prop :=
  0 < m < 2 ^ 53 ∧ -1074 <= e <= 971 ∧ (2 ^ 52 <= m ∨ e = -1074).

(** In units of [2^-1074]: [V / W] is nearer to [m * 2^e] than the middle of the
    way to its neighbours; the lower one is half as far at a power of two. *)
Definition near (V W m e : Z) : Prop :=
  let U := W * 2 ^ (e + 1074) in
  2 * (V - m * U) < U ∧ 2 * (m * U - V) < U ∧ (m = 2 ^ 52 → -1074 < e → 4 * (m * U - V) < U).

Lemma Zdigits2_bounds m : 0 < m → 2 ^ (Zdigits2 m - 1) <= m < 2 ^ Zdigits2 m ∧ 0 < Zdigits2 m.
Proof. destruct m as [|p|p]; [lia| |lia]. intros _. cbn [Zdigits2]. pose proof (digits2_bounds p). lia. Qed.

Lemma pow2_lt_inv a b : 0 <= b → 2 ^ a < 2 ^ b → a < b.
Proof. intros Hb H. destruct (Z.lt_ge_cases a b); [done|]. pose proof (Z.pow_le_mono_r 2 b a). lia. Qed.

(** The magnitude a located value has at its exponent. *)
Lemma located_magnitude V W m ex l d : 0 < W → -1074 <= ex → located V (W * 2 ^ (ex + 1074)) m l → 0 < m →
  d = Zdigits2 m + ex → W * 2 ^ (d - 1 + 1074) <= V < W * 2 ^ (d + 1074).
Proof.
  intros HW Hex (_ & _ & HV & _) Hm ->. destruct (Zdigits2_bounds m Hm) as [Hd Hd0].
  assert (Hpow : ∀ a, 0 <= a → 2 ^ (a + ex + 1074) = 2 ^ a * 2 ^ (ex + 1074))
    by (intros a Ha; rewrite <- Z.pow_add_r by lia; f_equal; lia).
  replace (Zdigits2 m + ex - 1 + 1074) with (Zdigits2 m - 1 + ex + 1074) by lia.
  rewrite !Hpow by lia. assert (0 < W * 2 ^ (ex + 1074)) by (apply Z.mul_pos_pos; [lia|apply Z.pow_pos_nonneg; lia]).
  nia.
Qed.

Lemma fexp_val x : fexp x = Z.max (x - 53) (-1074).
Proof. reflexivity. Qed.

(** The last step: an exact mantissa of the format is kept. *)
Lemma shr_fexp_canonical m e : canonical m e → shr_fexp m e loc_Exact = (shr_record_of_loc m loc_Exact, e).
Proof.
  intros (Hm & He & Hc). unfold SpecFloat.shr_fexp.
  destruct (Zdigits2_bounds m) as [Hd Hd0]; [lia|].
  assert (Zdigits2 m <= 53).
  { assert (Zdigits2 m - 1 < 53); [|lia]. apply pow2_lt_inv; lia. }
  replace (fexp (Zdigits2 m + e) - e) with 0; [done|]. rewrite fexp_val. destruct Hc as [Hc| ->]; [|lia].
  assert (52 < Zdigits2 m); [|lia]. apply pow2_lt_inv; lia.
Qed.

Lemma round_exactly s m e mrs : canonical m e →
  round_nearest_even (shr_m mrs) (loc_of_shr_record mrs) = m →
  (let '(mrs'', e'') := shr_fexp (round_nearest_even (shr_m mrs) (loc_of_shr_record mrs)) e loc_Exact in
   match shr_m mrs'' with
   | Z0 => S754_zero s
   | Z.pos m => if e'' <=? 971 then S754_finite s m e'' else S754_infinity s
   | _ => S754_nan
   end) = match m with Z.pos p => S754_finite s p e | _ => S754_nan end.
Proof.
  intros Hc ->. rewrite shr_fexp_canonical by done. cbn [shr_m shr_record_of_loc].
  destruct Hc as (Hm & He & _). destruct m as [|p|p]; try lia. by destruct (Z.leb_spec e 971); [|lia].
Qed.

Lemma round_located P Q m' l m : located P Q m' l → 2 * (P - m * Q) < Q → 2 * (m * Q - P) < Q →
  round_nearest_even m' l = m.
Proof.
  intros (HQ & Hm & HP & Hl) H1 H2.
  assert (Hcase : m' = m ∨ m' = m - 1).
  { assert (m - 1 <= m') by nia. assert (m' <= m) by nia. lia. }
  destruct Hcase as [->| ->], l as [|[]]; cbn in *; lia.
Qed.

Lemma shr_fexp_carry e : -1074 < e → shr_fexp (2 ^ 53) (e - 1) loc_Exact = (shr_record_of_loc (2 ^ 52) loc_Exact, e).
Proof.
  intros He. unfold SpecFloat.shr_fexp. change (Zdigits2 (2 ^ 53)) with 54.
  replace (fexp (54 + (e - 1)) - (e - 1)) with 1 by (rewrite fexp_val; lia).
  cbn [shr iter_pos]. change (shr_1 (shr_record_of_loc (2 ^ 53) loc_Exact)) with (shr_record_of_loc (2 ^ 52) loc_Exact).
  f_equal. lia.
Qed.

(** The exponent the value is rounded at: that of the double, or one less when
    the value is below a power of two. *)
Lemma near_exponent V W mx ex lx m e :
  0 < W → -1074 <= ex → located V (W * 2 ^ (ex + 1074)) mx lx → ex <= fexp (Zdigits2 mx + ex) →
  canonical m e → near V W m e →
  fexp (Zdigits2 mx + ex) = e ∨
  (fexp (Zdigits2 mx + ex) = e - 1 ∧ m = 2 ^ 52 ∧ -1074 < e ∧ V < m * (W * 2 ^ (e + 1074))).
Proof.
  intros HW Hex HL Hfe (Hm & He & Hn) (N1 & N2 & N3). set (U := W * 2 ^ (e + 1074)) in *.
  assert (HU : W <= U) by (unfold U; pose proof (Z.pow_pos_nonneg 2 (e + 1074)); nia).
  assert (Hup : ∀ k, 0 <= k → W * 2 ^ (k + e + 1074) = 2 ^ k * U).
  { intros k Hk. unfold U. replace (k + e + 1074) with (k + (e + 1074)) by lia. rewrite Z.pow_add_r by lia. lia. }
  assert (Hlt : ∀ a b, 0 <= b → W * 2 ^ a < W * 2 ^ b → a < b).
  { intros a b Hb H. apply (pow2_lt_inv a b Hb). nia. }
  destruct (Z.eq_dec mx 0) as [->|Hne].
  - cbn [Zdigits2] in *. rewrite Z.add_0_l, fexp_val in *. replace ex with (-1074) in * by lia.
    destruct HL as (_ & _ & HV & _). cbn [Z.add Z.pow] in HV. left.
    destruct (Z.eq_dec e (-1074)) as [->|Hgt]; [lia|exfalso].
    assert (2 * W <= U); [|nia]. unfold U. replace (e + 1074) with (1 + (e + 1073)) by lia.
    rewrite Z.pow_add_r by lia. pose proof (Z.pow_pos_nonneg 2 (e + 1073)). nia.
  - assert (Hpos : 0 < mx) by (destruct HL as (_ & ? & _); lia).
    set (d := Zdigits2 mx + ex) in *. pose proof (Zdigits2_bounds mx Hpos) as [_ Hd0].
    pose proof (located_magnitude V W mx ex lx d HW Hex HL Hpos eq_refl) as [HV1 HV2].
    assert (Hd1 : d <= e + 53).
    { assert (d - 1 + 1074 < 53 + e + 1074); [|lia]. apply Hlt; [lia|]. rewrite Hup by lia. nia. }
    assert (Hd2 : ∀ k, 0 <= k → 2 ^ k * U <= V → k + e < d).
    { intros k Hk HkV. assert (k + e + 1074 < d + 1074); [|lia]. apply Hlt; [lia|]. rewrite Hup by lia. lia. }
    rewrite !fexp_val. destruct (Z.eq_dec e (-1074)) as [->|Hgt]; [left; lia|].
    destruct Hn as [Hn|]; [|lia]. destruct (Z.lt_ge_cases V (2 ^ 52 * U)) as [Hlow|Hhigh].
    + right. assert (m = 2 ^ 52) as -> by nia. specialize (N3 eq_refl). 
      assert (51 + e < d) by (apply Hd2; [lia|change (2 ^ 52) with (2 * 2 ^ 51) in *; nia]).
      assert (d - 1 + 1074 < 52 + e + 1074) by (apply Hlt; [lia|]; rewrite Hup by lia; lia).
      split; [lia|]. split; [done|]. split; [lia|done].
    + left. assert (52 + e < d) by (apply Hd2; lia). lia.
Qed.

Lemma round_near s V W mx ex lx m e :
  0 < W → -1074 <= ex → located V (W * 2 ^ (ex + 1074)) mx lx → ex <= fexp (Zdigits2 mx + ex) →
  canonical m e → near V W m e →
  binary_round_aux 53 1024 s mx ex lx = match m with Z.pos p => S754_finite s p e | _ => S754_nan end.
Proof.
  intros HW Hex HL Hfe Hc Hnear.
  pose proof (near_exponent V W mx ex lx m e HW Hex HL Hfe Hc Hnear) as Hexp.
  destruct Hnear as (N1 & N2 & N3). unfold binary_round_aux.
  destruct (shr_fexp_at _ _ _ _ _ HL Hfe) as (r & -> & Hr).
  replace (W * 2 ^ (ex + 1074) * 2 ^ (fexp (Zdigits2 mx + ex) - ex))
    with (W * 2 ^ (fexp (Zdigits2 mx + ex) + 1074)) in Hr.
  2: { rewrite <- Z.mul_assoc, <- Z.pow_add_r by lia. do 2 f_equal. lia. }
  destruct Hexp as [He|(He & Hm & Hgt & Hlow)]; rewrite He in *.
  - apply round_exactly; [done|]. by eapply round_located.
  - specialize (N3 Hm Hgt). assert (Hround : round_nearest_even (shr_m r) (loc_of_shr_record r) = 2 ^ 53).
    { assert (Hpow : 2 ^ (e + 1074) = 2 * 2 ^ (e - 1 + 1074)).
      { rewrite <- Z.pow_succ_r by lia. f_equal. lia. }
      rewrite Hpow in *. change (2 ^ 53) with (2 * 2 ^ 52). rewrite <- Hm.
      eapply round_located; [exact Hr|lia|lia]. }
    rewrite Hround, shr_fexp_carry, Hm by done. cbn [shr_m shr_record_of_loc].
    change (1024 - 53) with 971. destruct Hc as (_ & [_ ?] & _). by destruct (Z.leb_spec e 971); [|lia].
Qed.

(** ** Integers and quotients of integers *)

Definition finite (s : bool) (m e : Z) : spec_float :=
  match m with Z.pos p => S754_finite s p e | _ => S754_nan end.

Lemma located_exact Q m : 0 < Q → 0 <= m → located (m * Q) Q m loc_Exact.
Proof. intros HQ Hm. split; [done|]. split; [done|]. split; [nia|done]. Qed.

Lemma fexp_mono a b : a <= b → fexp a <= fexp b.
Proof. rewrite !fexp_val. lia. Qed.

Lemma binary_round_near s q m e : canonical m e → near (Z.pos q * 2 ^ 1074) 1 m e →
  binary_round 53 1024 s q 0 = finite s m e.
Proof.
  intros Hc Hn. unfold binary_round, shl_align. rewrite Z.add_0_r, Z.sub_0_r.
  destruct (Zdigits2_bounds (Z.pos q)) as [Hd Hd0]; [lia|]. cbn [Zdigits2] in *.
  set (d := Z.pos (digits2_pos q)) in *.
  assert (Hq : ∀ k, 0 <= k → Zdigits2 (Z.pos q * 2 ^ k) = d + k).
  { intros k Hk. destruct (Z.pos q * 2 ^ k) as [|p|p] eqn:E; [nia| |nia]. cbn [Zdigits2].
    apply digits2_unique; [lia|]. rewrite <- E, !Z.pow_add_r by lia.
    replace (d + k - 1) with (d - 1 + k) by lia. rewrite Z.pow_add_r by lia. nia. }
  pose proof (fexp_val d) as Hf.
  destruct (fexp d) as [|n|n] eqn:Ef.
  - apply (round_near s (Z.pos q * 2 ^ 1074) 1); try done; cbn [Zdigits2]; fold d; [|rewrite Z.add_0_r; lia].
    rewrite Z.mul_1_l. by apply (located_exact (2 ^ 1074)).
  - apply (round_near s (Z.pos q * 2 ^ 1074) 1); try done; cbn [Zdigits2]; fold d; [|rewrite Z.add_0_r; lia].
    rewrite Z.mul_1_l. by apply (located_exact (2 ^ 1074)).
  - assert (Hz : Z.pos (Pos.iter xO q n) = Z.pos q * 2 ^ Z.pos n) by apply iter_xO.
    apply (round_near s (Z.pos q * 2 ^ 1074) 1); try done; rewrite ?Hz.
    + lia.
    + replace (Z.pos q * 2 ^ 1074) with (Z.pos q * 2 ^ Z.pos n * 2 ^ (Z.neg n + 1074)).
      * rewrite Z.mul_1_l. apply located_exact; [apply Z.pow_pos_nonneg; lia|nia].
      * rewrite <- Z.mul_assoc, <- Z.pow_add_r by lia. do 2 f_equal. lia.
    + rewrite Hq by lia. replace (d + Z.pos n + Z.neg n) with d by lia. lia.
Qed.

Lemma new_location_ok P Q : 0 < Q → 0 <= P → located P Q (P / Q) (new_location Q (P mod Q)).
Proof.
  intros HQ HP. pose proof (Z.div_mod P Q). pose proof (Z.mod_pos_bound P Q HQ).
  split; [done|]. split; [apply Z.div_pos; lia|]. split; [lia|].
  unfold new_location, new_location_even, new_location_odd. pose proof (Z.even_spec Q) as He.
  destruct (Z.even Q).
  - destruct (Z.eqb_spec (P mod Q) 0); cbn [loc_ok]; [lia|].
    destruct (Z.compare_spec (2 * (P mod Q)) Q); cbn [loc_ok]; lia.
  - assert (Hodd : 2 * (P mod Q) ≠ Q).
    { intros Heq. destruct He as [_ He]. discriminate He. by exists (P mod Q). }
    destruct (Z.eqb_spec (P mod Q) 0); cbn [loc_ok]; [lia|].
    destruct (Z.compare_spec (2 * (P mod Q) + 1) Q); cbn [loc_ok]; lia.
Qed.

Lemma SFdiv_near s p q m e : canonical m e → near (Z.pos p * 2 ^ 1074) (Z.pos q) m e →
  SFdiv 53 1024 (S754_finite s p 0) (S754_finite false q 0) = finite s m e.
Proof.
  intros Hc Hn. unfold SFdiv, SFdiv_core_binary. rewrite !Z.add_0_r, Z.sub_0_r.
  destruct (Zdigits2_bounds (Z.pos p)) as [Hp Hp0]; [lia|]. destruct (Zdigits2_bounds (Z.pos q)) as [Hq Hq0]; [lia|].
  set (d1 := Zdigits2 (Z.pos p)) in *. set (d2 := Zdigits2 (Z.pos q)) in *.
  set (ez := Z.min (fexp (d1 - d2)) 0). rewrite Z.sub_0_l.
  assert (Hez : -1074 <= ez <= 0) by (unfold ez; rewrite fexp_val; lia).
  set (P := match - ez with Z0 => Z.pos p | Z.pos _ => Z.shiftl (Z.pos p) (- ez) | Z.neg _ => 0 end).
  assert (HP : P = Z.pos p * 2 ^ (- ez)).
  { unfold P. destruct (- ez) eqn:E; [lia| |lia]. by rewrite Z.shiftl_mul_pow2 by lia. }
  clearbody P. assert (HP0 : 0 < 2 ^ (- ez)) by (apply Z.pow_pos_nonneg; lia).
  destruct (Z.div_eucl P (Z.pos q)) as [mz rz] eqn:Ediv.
  assert (mz = P / Z.pos q ∧ rz = P mod Z.pos q) as [-> ->] by (unfold Z.div, Z.modulo; by rewrite Ediv).
  pose proof (new_location_ok P (Z.pos q) ltac:(lia) ltac:(nia)) as HL.
  rewrite xorb_false_r. apply (round_near s (Z.pos p * 2 ^ 1074) (Z.pos q)); try done; [lia| |].
  - replace (Z.pos p * 2 ^ 1074) with (P * 2 ^ (ez + 1074)).
    + apply located_scale; [apply Z.pow_pos_nonneg; lia|done].
    + rewrite HP, <- Z.mul_assoc, <- Z.pow_add_r by lia. do 2 f_equal. lia.
  - destruct HL as (_ & Hmz & HV & _). set (mz := P / Z.pos q) in *.
    transitivity (fexp (d1 - d2)); [unfold ez; lia|].
    destruct (Z.eq_dec mz 0) as [Hz|Hz].
    + (* less than one unit: the exponent is the least there is *)
      assert (d1 - 1 - ez < d2).
      { apply pow2_lt_inv; [lia|]. replace (d1 - 1 - ez) with (d1 - 1 + - ez) by lia.
        rewrite Z.pow_add_r by lia. rewrite Hz in HV. nia. }
      rewrite Hz. cbn [Zdigits2]. rewrite Z.add_0_l.
      assert (ez = -1074); [|rewrite !fexp_val; lia]. unfold ez in *. rewrite !fexp_val in *. lia.
    + apply fexp_mono. destruct (Zdigits2_bounds mz) as [Hm Hm0]; [lia|].
      destruct (Z.le_gt_cases (d1 - d2) ez); [lia|].
      assert (d1 - d2 - 1 - ez < Zdigits2 mz); [|lia]. apply pow2_lt_inv; [lia|].
      apply (Z.mul_lt_mono_pos_r (Z.pos q)); [lia|].
      assert (H1 : 2 ^ (d1 - d2 - 1 - ez) * 2 ^ d2 = 2 ^ (d1 - 1) * 2 ^ (- ez))
        by (rewrite <- !Z.pow_add_r by lia; f_equal; lia).
      assert (0 < 2 ^ (d1 - d2 - 1 - ez)) by (apply Z.pow_pos_nonneg; lia). nia.
Qed.

(** A decimal close to a double is read as the double. *)
Lemma round_scaled_near s M E m e : 0 < M → canonical m e →
  near (if 0 <=? E then M * 10 ^ E * 2 ^ 1074 else M * 2 ^ 1074) (if 0 <=? E then 1 else 10 ^ (- E)) m e →
  round_scaled s M 10 E = finite s m e.
Proof.
  intros HM Hc. unfold round_scaled. destruct M as [|p|p]; try lia. destruct (Z.leb_spec 0 E) as [HE|HE].
  - assert (Hpos : 0 < Z.pos p * 10 ^ E) by (apply Z.mul_pos_pos; [lia|apply Z.pow_pos_nonneg; lia]).
    destruct (Z.pos p * 10 ^ E) as [|q|q]; try lia. apply binary_round_near; done.
  - assert (Hpos : 0 < 10 ^ (- E)) by (apply Z.pow_pos_nonneg; lia).
    destruct (10 ^ (- E)) as [|q|q]; try lia. apply SFdiv_near; done.
Qed.

Lemma near_positive V W m e : 0 < W → canonical m e → near V W m e → 0 < V.
Proof.
  intros HW (Hm & He & _) (_ & Hn & _).
  assert (0 < W * 2 ^ (e + 1074)) by (apply Z.mul_pos_pos; [done|apply Z.pow_pos_nonneg; lia]). nia.
Qed.

(** [v] with the point before its last [n] digits. *)
Lemma round_scaled_decimal s v n m e : 0 <= n → canonical m e → near (v * 2 ^ 1074) (10 ^ n) m e →
  round_scaled s v 10 (- n) = finite s m e.
Proof.
  intros Hn Hc Hv. assert (0 < 10 ^ n) by (apply Z.pow_pos_nonneg; lia).
  pose proof (near_positive _ _ _ _ ltac:(done) Hc Hv). apply round_scaled_near; [lia|done|].
  destruct (Z.leb_spec 0 (- n)).
  - replace n with 0 in * by lia. rewrite Z.pow_0_r in Hv. change (10 ^ (- 0)) with 1. by rewrite Z.mul_1_r.
  - by rewrite Z.opp_involutive.
Qed.

(** ** The double behind a bit pattern *)

Lemma bits_split f : inU 64 f → ∃ b ex fr, f = b * 2 ^ 63 + ex * 2 ^ 52 + fr ∧
  (b = 0 ∨ b = 1) ∧ 0 <= ex < 2 ^ 11 ∧ 0 <= fr < 2 ^ 52 ∧
  Z.testbit f 63 = (b =? 1) ∧ Z.land (Z.shiftr f 52) 2047 = ex ∧ Z.land f (2 ^ 52 - 1) = fr.
Proof.
  unfold inU. intros Hf. exists (f / 2 ^ 63), ((f / 2 ^ 52) mod 2 ^ 11), (f mod 2 ^ 52).
  assert (Hb : f / 2 ^ 63 = 0 ∨ f / 2 ^ 63 = 1).
  { assert (0 <= f / 2 ^ 63 < 2) by (split; [apply Z.div_pos; lia|apply Z.div_lt_upper_bound; lia]). lia. }
  assert (H63 : f / 2 ^ 52 / 2 ^ 11 = f / 2 ^ 63) by (rewrite Z.div_div by lia; done).
  pose proof (Z.div_mod f (2 ^ 52) ltac:(lia)). pose proof (Z.div_mod (f / 2 ^ 52) (2 ^ 11) ltac:(lia)).
  split_and!; try (apply Z.mod_pos_bound; lia); [lia|done| | |].
  - rewrite Z.testbit_odd, Z.shiftr_div_pow2 by lia. by destruct Hb as [-> | ->].
  - rewrite Z.shiftr_div_pow2 by lia. apply (Z.land_ones _ 11). lia.
  - apply (Z.land_ones f 52). lia.
Qed.

Lemma spec_of_bits_finite f s p e : inU 64 f → spec_of_bits f = S754_finite s p e →
  canonical (Z.pos p) e ∧ bits_of_spec (S754_finite s p e) = f.
Proof.
  intros (b & ex & fr & Hf & Hb & Hex & Hfr & H1 & H2 & H3)%bits_split.
  unfold spec_of_bits. rewrite H1, H2, H3. destruct (Z.eqb_spec ex 2047); [by case_match|].
  assert (Hs : sign_bit (b =? 1) = b * 2 ^ 63) by by destruct Hb as [-> | ->].
  destruct (Z.eqb_spec ex 0) as [->|Hne].
  - destruct fr as [|q|q] eqn:E; [done| |lia]. intros [= <- <- <-].
    split; [split; [lia|split; [lia|by right]]|]. cbn [bits_of_spec]. destruct (Z.ltb_spec (Z.pos q) (2 ^ 52)); lia.
  - destruct (2 ^ 52 + fr) as [|q|q] eqn:E; [lia| |lia]. intros [= <- <- <-].
    split; [split; [lia|split; [lia|left; lia]]|]. cbn [bits_of_spec]. destruct (Z.ltb_spec (Z.pos q) (2 ^ 52)); lia.
Qed.

(** ** Decimals *)

(** The decimal [c * 10^k] as a quotient. *)
Definition dec_unit (k : Z) : Z := if 0 <=? k then 10 ^ k * 2 ^ 1074 else 2 ^ 1074.
Definition dec_den (k : Z) : Z := if 0 <=? k then 1 else 10 ^ (- k).
Definition dec_near (c k m e : Z) : Prop := near (c * dec_unit k) (dec_den k) m e.

Lemma dec_den_pos k : 0 < dec_den k.
Proof. unfold dec_den. destruct (Z.leb_spec 0 k); [done|]. apply Z.pow_pos_nonneg; lia. Qed.

Lemma near_cancel V W t m e : 0 < t → near (V * t) (W * t) m e → near V W m e.
Proof.
  intros Ht (N1 & N2 & N3). unfold near. set (pw := 2 ^ (e + 1074)) in *.
  split; [|split]; [apply (Z.mul_lt_mono_pos_r t); [done|]; lia..|].
  intros Hm He. specialize (N3 Hm He). apply (Z.mul_lt_mono_pos_r t); [done|]. lia.
Qed.

Lemma dec_near_strip c k m e : dec_near (10 * c) k m e → dec_near c (k + 1) m e.
Proof.
  unfold dec_near, dec_unit, dec_den. intros H.
  destruct (Z.leb_spec 0 k), (Z.leb_spec 0 (k + 1)); try lia.
  - rewrite Z.pow_add_r by lia. by replace (c * (10 ^ k * 10 ^ 1 * 2 ^ 1074)) with (10 * c * (10 ^ k * 2 ^ 1074)) by lia.
  - replace k with (-1) in * by lia. apply near_cancel with 10; [lia|].
    replace (c * (10 ^ (-1 + 1) * 2 ^ 1074) * 10) with (10 * c * 2 ^ 1074) by (change (10 ^ (-1 + 1)) with 1; lia). done.
  - apply near_cancel with 10; [lia|].
    replace (c * 2 ^ 1074 * 10) with (10 * c * 2 ^ 1074) by lia.
    replace (10 ^ (- (k + 1)) * 10) with (10 ^ (- k)); [done|].
    replace (- k) with (- (k + 1) + 1) by lia. by rewrite Z.pow_add_r by lia.
Qed.

Lemma strip_zeros_near fuel : ∀ c k m e, 0 < c → dec_near c k m e →
  let '(c', k') := strip_zeros fuel c k in
  0 < c' <= c ∧ k <= k' <= k + Z.of_nat fuel ∧ dec_near c' k' m e.
Proof.
  induction fuel as [|fuel IH]; intros c k m e Hc H; cbn -[Z.of_nat]; [split; [lia|split; [lia|done]]|].
  destruct (Z.eqb_spec (c mod 10) 0) as [Hm|]; [|split; [lia|split; [lia|done]]].
  pose proof (Z.div_mod c 10 ltac:(lia)) as Hd. rewrite Hm, Z.add_0_r in Hd.
  rewrite Hd in H. apply dec_near_strip in H. specialize (IH (c / 10) (k + 1) m e ltac:(lia) H).
  destruct (strip_zeros _ _ _) as [c' k']. destruct IH as (? & ? & ?). split; [lia|]. split; [lia|done].
Qed.

(** Texts: the digits of a number are no longer than the number is large. *)
Lemma digits_lower b : ∀ m v, 0 <= m → digits m b = Some v → m * 10 ^ len b <= v.
Proof.
  induction b as [|c b IH]; intros m v Hm; cbn [digits]; [intros [= ->]; change (len []) with 0; lia|].
  destruct (digit c) as [d|] eqn:E; [|done]. apply digit_Some in E as [Hc ->]. intros H%IH; [|lia].
  rewrite len_cons, Z.pow_add_r by (lia || apply len_nonneg). 
  assert (0 < 10 ^ len b) by (apply Z.pow_pos_nonneg; [lia|apply len_nonneg]). nia.
Qed.

Lemma digits_take_drop k m b v : digits m b = Some v →
  ∃ i, digits m (take k b) = Some i ∧ digits i (drop k b) = Some v.
Proof.
  rewrite <- (take_drop k b) at 1. rewrite digits_app. intros (i & H1 & H2)%bind_Some. eauto.
Qed.

Lemma digits_zeros k m : digits m (repeat Byte.x30 k) = Some (m * 10 ^ Z.of_nat k).
Proof.
  revert m. induction k as [|k IH]; intros m; [cbn; f_equal; lia|].
  cbn [repeat digits]. change (digit Byte.x30) with (Some 0). cbn [mbind option_bind].
  rewrite IH, Nat2Z.inj_succ, Z.pow_succ_r by lia. f_equal. lia.
Qed.

Lemma pretty_nonneg (c : Z) : 0 <= c → pretty c = pretty (Z.to_N c).
Proof. intros H. destruct c; done || lia. Qed.

Lemma pretty_pos_bytes c : 0 < c →
  ∃ x b, to_bytes (pretty c) = x :: b ∧ isb 48 x = false ∧ digits 0 (x :: b) = Some c.
Proof.
  intros Hc. pose proof (digits_pretty_N (Z.to_N c)) as Hd.
  rewrite pretty_nonneg by lia.
  destruct (to_bytes (pretty (Z.to_N c))) as [|x b] eqn:E; [by apply pretty_N_bytes_ne in E|].
  exists x, b. rewrite Hd, Z2N.id by lia. split; [done|]. split; [|done].
  destruct (pretty_N_first _ _ _ E) as [->|]; [|done]. unfold isb. apply Z.eqb_neq. intros Hx.
  cbn in Hd. unfold digit in Hd. rewrite Hx in Hd. cbn in Hd. injection Hd. lia.
Qed.

(** What [format_float] writes: a decimal literal for the same number. *)
Lemma format_float_text neg c k : 0 < c → Z.abs k + Z.log2 c < 50000 →
  ∃ ip fp ex i v e, format_float neg (c, k) = decimal_text neg ip fp ex ∧
    digits 0 ip = Some i ∧ digits i fp = Some v ∧ ip ≠ [] ∧ exp_value ex = Some e ∧ 0 < v ∧
    ((v = c ∧ e - len fp = k) ∨ (0 <= k ∧ v = c * 10 ^ k ∧ e - len fp = 0)).
Proof.
  intros Hc Hk. destruct (pretty_pos_bytes c Hc) as (x & b & Hds & Hx & Hd).
  pose proof (len_nonneg b) as Hb0.
  assert (Hlen : len b <= Z.log2 c).
  { cbn [digits] in Hd. destruct (digit x) as [dx|] eqn:Ex; [|done]. cbn [mbind option_bind] in Hd.
    assert (Hx1 : 1 <= dx).
    { apply digit_Some in Ex as [Hr ->]. unfold isb in Hx. apply Z.eqb_neq in Hx. lia. }
    apply digits_lower in Hd; [|lia]. apply Z.log2_le_pow2; [lia|].
    transitivity (10 ^ len b); [apply Z.pow_le_mono_l; lia|].
    assert (0 < 10 ^ len b) by (apply Z.pow_pos_nonneg; lia). nia. }
  unfold format_float. rewrite Hds. destruct (_ || _).
  - unfold format_e. rewrite Hds. cbn [take drop firstn skipn].
    set (y := len (x :: b) + k - 1). assert (Hy : Z.abs y < 100000) by (unfold y; rewrite len_cons; lia).
    pose proof (digits_pretty_N (Z.to_N (Z.abs y))) as Hdy.
    assert (Hpy : pretty (Z.abs y) = pretty (Z.to_N (Z.abs y))) by (apply pretty_nonneg; lia).
    cbn [digits] in Hd. destruct (digit x) as [dx|] eqn:Ex; [|done]. cbn [mbind option_bind] in Hd.
    exists [x], b, (Some (y <? 0, to_bytes (pretty (Z.abs y)))), dx, c, y. split; [done|].
    split; [cbn; by rewrite Ex|]. split; [done|]. split; [done|]. split; [|split; [done|left; split; [done|]]].
    + cbn [exp_value]. rewrite Hpy. destruct (to_bytes (pretty (Z.to_N (Z.abs y)))) eqn:E; [by apply pretty_N_bytes_ne in E|].
      rewrite Hdy, Z2N.id by lia. cbn [mbind option_bind]. destruct (Z.ltb_spec (Z.abs y) 100000); [|lia].
      f_equal. destruct (Z.ltb_spec y 0); lia.
    + unfold y. rewrite len_cons. lia.
  - unfold format_f. rewrite Hds. set (dp := len (x :: b) + k). destruct (Z.leb_spec dp 0).
    + exists [Byte.x30], (zeros (- dp) ++ x :: b), None, 0, c, 0. split; [done|]. split; [done|].
      split; [unfold zeros; rewrite digits_app, digits_zeros; cbn [mbind option_bind]; rewrite Z.mul_0_l; exact Hd|].
      split; [done|]. split; [done|]. split; [done|]. left. split; [done|]. rewrite len_app. unfold zeros, len at 1.
      rewrite repeat_length. unfold dp in *. lia.
    + destruct (Z.leb_spec (len (x :: b)) dp).
      * eexists _, [], None, _, _, 0. split; [done|]. rewrite digits_app, Hd. cbn [mbind option_bind].
        split; [apply digits_zeros|]. split; [done|]. split; [done|]. split; [done|].
        rewrite Z2Nat.id by lia. replace (dp - len (x :: b)) with k by (unfold dp; lia).
        assert (0 <= k) by (unfold dp in *; lia). assert (0 < 10 ^ k) by (apply Z.pow_pos_nonneg; lia).
        split; [nia|]. right. done.
      * destruct (digits_take_drop (Z.to_nat dp) 0 (x :: b) c Hd) as (i & H1 & H2).
        eexists _, _, None, i, c, 0. split; [done|]. split; [done|]. split; [done|].
        split; [by destruct (Z.to_nat dp) eqn:En; [lia|]|]. split; [done|]. split; [done|]. left. split; [done|].
        unfold len at 1. rewrite length_drop. unfold dp, len in *. lia.
Qed.

(** A decimal near a double is read as the double. *)
Lemma format_float_reads s c k m e f : 0 < c → Z.abs k + Z.log2 c < 50000 →
  canonical m e → dec_near c k m e → bits_of_spec (finite s m e) = f →
  reads_as s f (c, k) = true.
Proof.
  intros Hc Hk Hcan Hn Hf. unfold reads_as. cbn [fst]. apply andb_true_iff. split; [by apply Z.ltb_lt|].
  apply bool_decide_eq_true.
  destruct (format_float_text s c k Hc Hk) as (ip & fp & ex & i & v & x & -> & H1 & H2 & H3 & H4 & H5 & H6).
  rewrite <- Hf. eapply ParseFloat_text; try done.
  - symmetry. apply round_scaled_near; [done|done|]. unfold dec_near, dec_unit, dec_den in Hn.
    destruct H6 as [[-> ->]|(Hk0 & -> & ->)].
    + destruct (0 <=? k); [by rewrite <- Z.mul_assoc|done].
    + destruct (Z.leb_spec 0 k); [|lia]. change (0 <=? 0) with true. cbv iota.
      by rewrite Z.pow_0_r, Z.mul_1_r, <- Z.mul_assoc.
  - destruct Hcan as (Hm & _). by destruct m.
Qed.

(** ** Seventeen digits *)

Definition at_least (num den d k : Z) : Prop :=
  if 0 <=? k then d * (den * 10 ^ k) <= num else d * den <= num * 10 ^ (- k).

Lemma floor_at_least num den d k : 0 < den → d <= floor_scaled num den k ↔ at_least num den d k.
Proof.
  intros Hden. unfold floor_scaled, at_least. destruct (Z.leb_spec 0 k).
  - assert (0 < den * 10 ^ k) by (apply Z.mul_pos_pos; [done|apply Z.pow_pos_nonneg; lia]).
    split; [|intros; apply Z.div_le_lower_bound; lia]. intros H1.
    pose proof (Z.mul_div_le num (den * 10 ^ k)). nia.
  - split; [|intros; apply Z.div_le_lower_bound; lia]. intros H1.
    pose proof (Z.mul_div_le (num * 10 ^ (- k)) den). nia.
Qed.

Lemma at_least_digits num den k : 0 < den → at_least num den 1 k → at_least num den (10 ^ 16) (k - 16).
Proof.
  intros Hden. unfold at_least. destruct (Z.leb_spec 0 k), (Z.leb_spec 0 (k - 16)); try lia.
  - intros H1. replace k with (16 + (k - 16)) in H1 by lia. rewrite Z.pow_add_r in H1 by lia. lia.
  - intros H1. assert (0 < 10 ^ (- (k - 16))) by (apply Z.pow_pos_nonneg; lia).
    assert (Hp : 10 ^ k * 10 ^ (- (k - 16)) = 10 ^ 16) by (rewrite <- Z.pow_add_r by lia; f_equal; lia). nia.
  - intros H1. replace (- (k - 16)) with (16 + - k) by lia. rewrite Z.pow_add_r by lia. lia.
Qed.

(** One of the two seventeen-digit decimals around a double is near it. *)
Lemma nearest_decimal num den c k m e : 0 < den → canonical m e →
  num * 2 ^ 1074 = den * (m * 2 ^ (e + 1074)) → c = floor_scaled num den k → 10 ^ 16 <= c →
  dec_near c k m e ∨ dec_near (c + 1) k m e.
Proof.
  intros Hden (Hm & He & Hn) Hx Hc H16.
  set (U := dec_den k * 2 ^ (e + 1074)). set (T := dec_unit k).
  assert (HU : 0 < U) by (apply Z.mul_pos_pos; [apply dec_den_pos|apply Z.pow_pos_nonneg; lia]).
  assert (Hb : c * T <= m * U < (c + 1) * T).
  { unfold floor_scaled in Hc. unfold T, U, dec_unit, dec_den. destruct (Z.leb_spec 0 k).
    - assert (Hp : 0 < 10 ^ k) by (apply Z.pow_pos_nonneg; lia).
      pose proof (Z.div_mod num (den * 10 ^ k) ltac:(nia)). pose proof (Z.mod_pos_bound num (den * 10 ^ k) ltac:(nia)).
      rewrite <- Hc in *. split; [apply (Z.mul_le_mono_pos_l _ _ den Hden)|apply (Z.mul_lt_mono_pos_l den); [done|]]; nia.
    - assert (Hp : 0 < 10 ^ (- k)) by (apply Z.pow_pos_nonneg; lia).
      pose proof (Z.div_mod (num * 10 ^ (- k)) den ltac:(lia)). pose proof (Z.mod_pos_bound (num * 10 ^ (- k)) den ltac:(nia)).
      rewrite <- Hc in *. split; [apply (Z.mul_le_mono_pos_l _ _ den Hden)|apply (Z.mul_lt_mono_pos_l den); [done|]]; nia. }
  assert (HT : 10 ^ 16 * T <= m * U) by nia.
  assert (Hm2 : m = 2 ^ 52 → 2 * T < U) by (intros ->; lia).
  assert (HTU : T < U) by nia.
  unfold dec_near, near. fold T U.
  destruct (Z.le_gt_cases (2 * (m * U - c * T)) T); [left|right]; (split; [|split]); try lia;
    intros Hm3 _; specialize (Hm2 Hm3); lia.
Qed.

Lemma decimal_exponent_low fuel num den : ∀ k, 0 < den → at_least num den 1 (k - 1) →
  let k' := decimal_exponent fuel num den k in k <= k' <= k + Z.of_nat fuel ∧ at_least num den 1 (k' - 1).
Proof.
  induction fuel as [|fuel IH]; intros k Hden Hk; cbn -[Z.of_nat]; [split; [lia|done]|].
  destruct (Z.eqb_spec (floor_scaled num den k) 0) as [|Hne]; [split; [lia|done]|].
  assert (Hk1 : at_least num den 1 (k + 1 - 1)).
  { replace (k + 1 - 1) with k by lia. apply floor_at_least; [done|].
    assert (0 <= floor_scaled num den k); [|lia]. apply floor_at_least; [done|].
    unfold at_least in *. destruct (Z.leb_spec 0 (k - 1)), (Z.leb_spec 0 k); try lia; apply Z.mul_nonneg_nonneg;
      try (apply Z.pow_nonneg; lia); assert (0 < 10 ^ (- (k - 1))) by (apply Z.pow_pos_nonneg; lia); nia. }
  destruct (IH (k + 1) Hden Hk1) as [H1 H2]. split; [lia|done].
Qed.

(** The first guess of the exponent is at most one too large, whatever the
    binary exponent: checked for each of them. *)
Definition guess_ok (L : Z) : bool :=
  let k := L * 30103 / 100000 - 2 in
  if 0 <=? k then (1 <=? L) && (10 ^ k <=? 2 ^ (L - 1)) else (1 <=? L) || (2 ^ (1 - L) <=? 10 ^ (- k)).
Lemma guesses_ok : forallb guess_ok (seqZ (-1076) 2106) = true.
Proof. vm_compute. reflexivity. Qed.

Lemma guess_at_least num den : 0 < num → 0 < den → -1076 <= Z.log2 num - Z.log2 den < 1030 →
  at_least num den 1 ((Z.log2 num - Z.log2 den) * 30103 / 100000 - 1 - 1).
Proof.
  intros Hnum Hden HL. pose proof (Z.log2_spec num Hnum) as [Hn _]. pose proof (Z.log2_spec den Hden) as [_ Hd].
  pose proof (Z.log2_nonneg num). pose proof (Z.log2_nonneg den).
  set (ln := Z.log2 num) in *. set (ld := Z.log2 den) in *. set (L := ln - ld) in *.
  assert (Hg : guess_ok L = true).
  { pose proof guesses_ok as Hall. rewrite forallb_forall in Hall. apply Hall, list_elem_of_In, elem_of_seqZ. lia. }
  unfold guess_ok in Hg. replace (L * 30103 / 100000 - 1 - 1) with (L * 30103 / 100000 - 2) by lia.
  set (k := L * 30103 / 100000 - 2) in *. unfold at_least. rewrite Z.mul_1_l. destruct (Z.leb_spec 0 k).
  - apply andb_true_iff in Hg as [G1 G2]. apply Z.leb_le in G1, G2.
    assert (Hp : 2 ^ Z.succ ld * 2 ^ (L - 1) = 2 ^ ln) by (rewrite <- Z.pow_add_r by lia; f_equal; unfold L; lia).
    assert (0 < 10 ^ k) by (apply Z.pow_pos_nonneg; lia). nia.
  - assert (0 < 10 ^ (- k)) by (apply Z.pow_pos_nonneg; lia). rewrite Z.mul_1_l.
    apply orb_true_iff in Hg as [G1|G1]; apply Z.leb_le in G1.
    + assert (2 ^ Z.succ ld <= 2 ^ ln) by (apply Z.pow_le_mono_r; unfold L in *; lia). nia.
    + destruct (Z.le_gt_cases 1 L).
      * assert (2 ^ Z.succ ld <= 2 ^ ln) by (apply Z.pow_le_mono_r; unfold L in *; lia). nia.
      * assert (Hp : 2 ^ ln * 2 ^ (1 - L) = 2 ^ Z.succ ld) by (rewrite <- Z.pow_add_r by lia; f_equal; unfold L; lia).
        assert (0 < 2 ^ ln) by (apply Z.pow_pos_nonneg; lia). nia.
Qed.

(** The search succeeds when the decimals at its last exponent do. *)
Lemma shortest_loop_some fuel neg f num den : ∀ k,
  (∃ d, (d = 0 ∨ d = 1) ∧
    reads_as neg f (strip_zeros 17 (floor_scaled num den (k - Z.of_nat fuel) + d) (k - Z.of_nat fuel)) = true) →
  is_Some (shortest_loop (S fuel) neg f num den k).
Proof.
  induction fuel as [|fuel IH]; intros k H.
  - cbn -[strip_zeros reads_as]. rewrite Z.sub_0_r in H. destruct H as (d & Hd & H).
    destruct Hd as [-> | ->]; rewrite ?Z.add_0_r in H; rewrite H; repeat case_match; by eexists.
  - change (is_Some (shortest_loop (S (S fuel)) neg f num den k)) with
      (is_Some (let c := floor_scaled num den k in
        match reads_as neg f (strip_zeros 17 c k), reads_as neg f (strip_zeros 17 (c + 1) k) with
        | true, false => Some (strip_zeros 17 c k)
        | false, true => Some (strip_zeros 17 (c + 1) k)
        | true, true =>
            match compare_scaled (2 * num) den (2 * c + 1) k with
            | Lt => Some (strip_zeros 17 c k)
            | Eq => Some (if Z.even c then strip_zeros 17 c k else strip_zeros 17 (c + 1) k)
            | Gt => Some (strip_zeros 17 (c + 1) k)
            end
        | false, false => shortest_loop (S fuel) neg f num den (k - 1)
        end)).
    cbv zeta. destruct (reads_as _ _ _), (reads_as _ _ _); [by destruct (compare_scaled _ _ _ _)|done|done|].
    apply IH. replace (k - 1 - Z.of_nat fuel) with (k - Z.of_nat (S fuel)) by lia. done.
Qed.

Lemma floor_scaled_bound num den k : 0 < num → 0 < den → -400 <= k → floor_scaled num den k <= num * 10 ^ 400.
Proof.
  intros Hn Hd Hk. assert (H10 : 1 <= 10 ^ 400) by done. unfold floor_scaled. destruct (Z.leb_spec 0 k).
  - assert (0 < 10 ^ k) by (apply Z.pow_pos_nonneg; lia). transitivity num; [|revert H10; generalize (10 ^ 400); nia].
    assert (1 <= den * 10 ^ k) by nia. apply Z.div_le_upper_bound; nia.
  - assert (Hp : 10 ^ (- k) <= 10 ^ 400) by (apply Z.pow_le_mono_r; lia). revert H10 Hp. generalize (10 ^ 400). intros B H10 Hp.
    apply Z.div_le_upper_bound; [done|]. transitivity (num * B); [nia|]. nia.
Qed.

(** Every finite double has a shortest decimal. *)
Lemma shortest_total neg f p e : inU 64 f → spec_of_bits f = S754_finite neg p e → is_Some (shortest neg f p e).
Proof.
  intros Hf Hs. destruct (spec_of_bits_finite _ _ _ _ Hf Hs) as [Hcan Hbits]. pose proof Hcan as (Hm & He & _).
  unfold shortest. set (num := if 0 <=? e then _ else _). set (den := if 0 <=? e then 1 else _).
  assert (Hnd : 0 < num < 2 ^ 1024 ∧ 0 < den <= 2 ^ 1074 ∧ num * 2 ^ 1074 = den * (Z.pos p * 2 ^ (e + 1074))).
  { unfold num, den. destruct (Z.leb_spec 0 e).
    - assert (0 < 2 ^ e) by (apply Z.pow_pos_nonneg; lia).
      assert (2 ^ e <= 2 ^ 971) by (apply Z.pow_le_mono_r; lia).
      split; [split; [lia|]|split; [done|rewrite Z.pow_add_r by lia; lia]].
      change (2 ^ 1024) with (2 ^ 53 * 2 ^ 971). nia.
    - assert (0 < 2 ^ (- e)) by (apply Z.pow_pos_nonneg; lia).
      split; [split; [lia|]|split; [split; [done|apply Z.pow_le_mono_r; lia]|]].
      + assert (2 ^ 53 < 2 ^ 1024) by done. lia.
      + replace (2 ^ 1074) with (2 ^ (- e) * 2 ^ (e + 1074)); [lia|].
        rewrite <- Z.pow_add_r by lia. f_equal. lia. }
  clearbody num den. destruct Hnd as ([Hn0 Hn1] & [Hd0 Hd1] & Hx). cbv zeta.
  assert (HLn : Z.log2 num < 1024) by (by apply Z.log2_lt_pow2).
  assert (HLd : Z.log2 den <= 1074) by (rewrite <- (Z.log2_pow2 1074) by lia; by apply Z.log2_le_mono).
  pose proof (Z.log2_nonneg num). pose proof (Z.log2_nonneg den).
  pose proof (guess_at_least num den Hn0 Hd0 ltac:(lia)) as Hg.
  set (k0 := (Z.log2 num - Z.log2 den) * 30103 / 100000 - 1) in *.
  assert (Hk0 : -326 <= k0 <= 320) by (unfold k0; Z.to_euclidean_division_equations; lia). clearbody k0.
  destruct (decimal_exponent_low 4 num den k0 Hd0 Hg) as [Hk1 Hk2]. cbv zeta in Hk1, Hk2.
  set (k1 := decimal_exponent 4 num den k0) in *. clearbody k1.
  apply (shortest_loop_some 16). change (Z.of_nat 16) with 16. set (k := k1 - 1 - 16) in *.
  pose proof (at_least_digits _ _ _ Hd0 Hk2) as H16. fold k in H16. apply floor_at_least in H16; [|done].
  assert (Hlog : Z.log2 (floor_scaled num den k + 1) < 3000).
  { apply Z.log2_lt_pow2; [lia|]. pose proof (floor_scaled_bound num den k Hn0 Hd0 ltac:(lia)) as Hfl.
    assert (Hbig : 2 ^ 1024 * 10 ^ 400 + 1 < 2 ^ 3000) by done. assert (H10 : 0 < 10 ^ 400) by done.
    revert Hfl Hbig H10 Hn1. generalize (10 ^ 400) (2 ^ 1024) (2 ^ 3000). clear. intros B A C. nia. }
  pose proof (Z.log2_le_mono (floor_scaled num den k) (floor_scaled num den k + 1) ltac:(lia)) as Hlog1.
  destruct (nearest_decimal num den _ k _ e Hd0 Hcan Hx eq_refl H16) as [Hnear|Hnear]; [exists 0|exists 1];
    (split; [auto|]); rewrite ?Z.add_0_r;
    (apply (strip_zeros_near 17) in Hnear; [|lia]); destruct (strip_zeros 17 _ k) as [c' k'];
    destruct Hnear as (Hc' & Hk' & Hnear'); pose proof (Z.log2_le_mono c' _ (proj2 Hc'));
    apply format_float_reads with (Z.pos p) e; (done || lia).
Qed.

Definition is_finite (f : float64) : Prop :=
  match spec_of_bits f with S754_zero _ | S754_finite _ _ _ => True | _ => False end.
#[export] Instance is_finite_dec f : Decision (is_finite f).
Proof. unfold is_finite. destruct (spec_of_bits f); apply _. Defined.

(** ** What is parsed from digits is finite *)

(** The results of rounding, NaN left out. *)
Definition rounded (f : spec_float) : Prop :=
  match f with
  | S754_finite _ m e => Z.pos m < 2 ^ 53 ∧ -1074 <= e <= 971
  | S754_nan => False
  | _ => True
  end.

Lemma rounded_finite f : rounded f → infinite f = false → is_finite (bits_of_spec f).
Proof.
  destruct f as [s|s| |s m e]; [intros _ _; by destruct s|intros _ [=]|intros []|]. intros [Hm He] _.
  set (f := bits_of_spec (S754_finite s m e)).
  assert (Hf : ∃ b ex fr, f = b * 2 ^ 63 + ex * 2 ^ 52 + fr ∧ (b = 0 ∨ b = 1) ∧ 0 <= ex < 2047 ∧ 0 <= fr < 2 ^ 52).
  { exists (if s then 1 else 0). unfold f, bits_of_spec. destruct (Z.ltb_spec (Z.pos m) (2 ^ 52)).
    - exists 0, (Z.pos m). destruct s; unfold sign_bit; lia.
    - exists (e + 1075), (Z.pos m - 2 ^ 52). destruct s; unfold sign_bit; lia. }
  clearbody f. destruct Hf as (b & ex & fr & Hf & Hb & Hex & Hfr).
  destruct (bits_split f) as (b' & ex' & fr' & Hf' & Hb' & Hex' & Hfr' & _ & H2 & _); [unfold inU; lia|].
  assert (ex' ≠ 2047) by lia. unfold is_finite, spec_of_bits. rewrite H2.
  destruct (Z.eqb_spec ex' 2047); [done|]. by destruct (if _ =? 0 then _ else _).
Qed.

Lemma shr_fexp_nonneg m e l : 0 <= m → 0 <= shr_m (shr_fexp m e l).1.
Proof.
  intros Hm. unfold SpecFloat.shr_fexp, shr.
  assert (Hr : shr_m (shr_record_of_loc m l) = m) by by destruct l as [|[]].
  destruct (_ - e) as [|n|n]; cbn [fst]; rewrite ?Hr; try done.
  rewrite iter_shr_1 by (by rewrite Hr). rewrite Hr. apply Z_div_nonneg_nonneg; [done|apply Z.pow_nonneg; lia].
Qed.

Lemma binary_round_aux_rounded s m e l : 0 <= m → rounded (binary_round_aux 53 1024 s m e l).
Proof.
  intros Hm. unfold binary_round_aux. pose proof (shr_fexp_nonneg m e l Hm) as H1.
  destruct (shr_fexp m e l) as [mrs' e']. cbn [fst] in H1.
  set (M := round_nearest_even _ _).
  assert (HM : 0 <= M) by (unfold M, round_nearest_even; repeat case_match; lia).
  pose proof (shr_fexp_nonneg M e' loc_Exact HM) as H2. pose proof (shr_fexp_fits M e') as Hf.
  destruct (shr_fexp M e' loc_Exact) as [mrs e'']. cbn [fst] in H2.
  destruct (shr_m mrs) as [|p|p]; [done| |lia]. destruct (Hf p e'' eq_refl) as [H3 H4].
  change (1024 - 53) with 971. by destruct (Z.leb_spec e'' 971).
Qed.

Lemma round_scaled_rounded s m base exp : 0 < base → rounded (round_scaled s m base exp).
Proof.
  intros Hb. unfold round_scaled. destruct m as [|p|p]; [done| |done].
  assert (Hp : ∀ k, 0 <= k → 0 < base ^ k) by (intros; by apply Z.pow_pos_nonneg).
  destruct (Z.leb_spec 0 exp) as [He|He].
  - specialize (Hp exp He). destruct (Z.pos p * base ^ exp) as [|q|q] eqn:E; try nia.
    unfold binary_round. destruct (shl_align _ _ _). by apply binary_round_aux_rounded.
  - specialize (Hp (- exp) ltac:(lia)). destruct (base ^ (- exp)) as [|q|q] eqn:E; try lia.
    unfold SFdiv, SFdiv_core_binary. set (P := match _ with Z0 => _ | Z.pos _ => _ | Z.neg _ => 0 end).
    assert (HP : 0 <= P) by (unfold P; repeat case_match; try lia; by apply Z.shiftl_nonneg).
    pose proof (Z.div_pos P (Z.pos q) HP ltac:(lia)) as Hq. unfold Z.div in Hq.
    destruct (Z.div_eucl P (Z.pos q)). by apply binary_round_aux_rounded.
Qed.

(** Only the special names are read as infinities or NaN. *)
Lemma ParseFloat_finite s f : special (to_bytes s) = None → ParseFloat s = inl f → is_finite f.
Proof.
  unfold ParseFloat. intros ->. destruct (readFloat _) as [l|]; intros H; [|discriminate H].
  destruct (infinite _) eqn:Ei in H; [discriminate H|]. injection H as <-. apply rounded_finite; [|exact Ei].
  apply round_scaled_rounded. by destruct (lit_hex l).
Qed.

Lemma json_float_refuses f : ¬ is_finite f → json_float f = None.
Proof. unfold is_finite, json_float. by destruct (spec_of_bits f). Qed.

(** encoding/json writes every finite double, and what it writes reads back as
    the same bits; infinities and NaN it refuses. *)
Theorem json_float_total f : inU 64 f →
  (is_finite f → ∃ s, json_float f = Some s ∧ ParseFloat s = inl f) ∧
  (¬ is_finite f → json_float f = None).
Proof.
  intros Hf. split.
  - unfold is_finite. intros H. assert (Hs : is_Some (json_float f)).
    { unfold json_float. destruct (spec_of_bits f) as [neg| | |neg m e] eqn:E; try done.
      apply fmap_is_Some. by apply shortest_total. }
    destruct Hs as [s Hs]. exists s. split; [done|]. by apply json_float_reads.
  - apply json_float_refuses.
Qed.

(** Tactics must not unfold it: the shift of an unknown pattern is a huge term. *)
#[global] Opaque is_finite.
