(* ===== verification/GoDuration.v ===== *)
(** * GoDuration: [time.ParseDuration]

    Every interval, timeout and age of the configuration file is a text such as
    "30s" or "1h30m".  This file translates the parser package time has for
    them -- its uint64 arithmetic and overflow checks included -- and shows
    that a sum of whole units is read as that sum.  A [time.Duration] is an
    int64 count of nanoseconds. *)
From S2P Require Import Prelude Float GoLib Strconv.
From Stdlib Require Import Floats.SpecFloat.
From stdpp Require Import pretty.
Open Scope Z_scope.

(** ** The parser *)

Definition lowerhex (n : Z) : byte := byte.of_Z (if n <? 10 then 48 + n else 87 + n).

(** [quote] of package time: bytes that are not printable ASCII are written in
    hexadecimal, one by one. *)
Definition quote_byte (c : byte) : bytes :=
  let x := byte.unsigned c in
  if (0x80 <=? x) || (x <? 32) then [Byte.x5c; Byte.x78; lowerhex (x / 16); lowerhex (x mod 16)]
  else if isb 34 c || isb 92 c then [Byte.x5c; c] else [c].

Definition quote (s : string) : string :=
  of_bytes ([Byte.x22] ++ concat (map quote_byte (to_bytes s)) ++ [Byte.x22]).

(** [unitMap]; the two spellings of the microsecond sign are U+00B5 and U+03BC. *)
Definition unitMap : list (string * Z) :=
  [("ns", 1); ("us", 1000); ("µs", 1000); ("μs", 1000); ("ms", 1000000);
   ("s", 1000000000); ("m", 60 * 1000000000); ("h", 3600 * 1000000000)]%string.

Definition unit_ns (u : string) : option Z :=
  '(_, (_, n)) ← list_find (λ x, x.1 = u) unitMap; Some n.

(** [leadingInt]: [None] is its error, overflow. *)
Fixpoint leadingInt (x : Z) (b : bytes) : option (Z * bytes) :=
  match b with
  | c :: b' =>
      match digit c with
      | None => Some (x, b)
      | Some d =>
          if 2 ^ 63 / 10 <? x then None
          else let x := wrapU 64 (x * 10 + d) in
               if 2 ^ 63 <? x then None else leadingInt x b'
      end
  | [] => Some (x, [])
  end.

Definition float_of_uint (n : Z) : spec_float := binary_normalize 53 1024 n 0 false.

(** [leadingFraction]: digits beyond what a uint64 holds are dropped. *)
Fixpoint leadingFraction (x : Z) (scale : spec_float) (overflow : bool) (b : bytes) : Z * spec_float * bytes :=
  match b with
  | c :: b' =>
      match digit c with
      | None => (x, scale, b)
      | Some d =>
          if overflow then leadingFraction x scale true b'
          else if (2 ^ 63 - 1) / 10 <? x then leadingFraction x scale true b'
          else let y := wrapU 64 (x * 10 + d) in
               if 2 ^ 63 <? y then leadingFraction x scale true b'
               else leadingFraction y (SFmul 53 1024 scale (float_of_uint 10)) false b'
      end
  | [] => (x, scale, [])
  end.

(** [uint64(f)] truncates; a fraction of a unit is never negative and below 2^64. *)
Definition uint64_of (f : spec_float) : Z :=
  match f with
  | S754_finite false m e => wrapU 64 (Z.shiftl (Z.pos m) e)
  | _ => 0
  end.

(** A unit runs to the next digit or period. *)
Definition in_unit (c : byte) : bool := negb (isb 46 c || is_decimal c).

Section Parse.
Context (orig : string).

Definition invalid : error := "time: invalid duration " +:+ quote orig.

(** One round of the loop: a number, a unit, and what is left. *)
Definition duration_component (b : bytes) : (Z * bytes) + error :=
  match b with
  | [] => inr invalid
  | c0 :: _ =>
      if negb (isb 46 c0 || is_decimal c0) then inr invalid
      else match leadingInt 0 b with
      | None => inr invalid
      | Some (v, b1) =>
          let pre := negb (length b =? length b1)%nat in
          let '(f, scale, post, b3) :=
            match b1 with
            | c :: b2 =>
                if isb 46 c
                then let '(f, scale, b3) := leadingFraction 0 (float_of_uint 1) false b2 in
                     (f, scale, negb (length b2 =? length b3)%nat, b3)
                else (0, float_of_uint 1, false, b1)
            | [] => (0, float_of_uint 1, false, b1)
            end in
          if negb pre && negb post then inr invalid
          else
            let '(u, rest) := accept_run in_unit b3 in
            if (length u =? 0)%nat then inr ("time: missing unit in duration " +:+ quote orig)
            else match unit_ns (of_bytes u) with
            | None => inr ("time: unknown unit " +:+ quote (of_bytes u) +:+ " in duration " +:+ quote orig)
            | Some unit =>
                if 2 ^ 63 / unit <? v then inr invalid
                else
                  let v := wrapU 64 (v * unit) in
                  if 0 <? f
                  then
                    let v := wrapU 64 (v + uint64_of (SFmul 53 1024 (float_of_uint f)
                                          (SFdiv 53 1024 (float_of_uint unit) scale))) in
                    if 2 ^ 63 <? v then inr invalid else inl (v, rest)
                  else inl (v, rest)
            end
      end
  end.

(** [for s != "" { ... }] *)
Fixpoint duration_loop (fuel : nat) (d : Z) (b : bytes) : outcome (Z + error) :=
  match b with
  | [] => Ok (inl d)
  | _ =>
      match fuel with
      | O => OutOfFuel
      | S fuel =>
          match duration_component b with
          | inr err => Ok (inr err)
          | inl (v, rest) =>
              let d := wrapU 64 (d + v) in
              if 2 ^ 63 <? d then Ok (inr invalid) else duration_loop fuel d rest
          end
      end
  end.
End Parse.

(** [time.ParseDuration].  Every round consumes at least one byte. *)
Definition ParseDuration (s : string) : outcome (Z + error) :=
  let '(neg, b) := strip_sign (to_bytes s) in
  if bool_decide (b = [Byte.x30]) then Ok (inl 0)
  else if (length b =? 0)%nat then Ok (inr (invalid s))
  else
    r ← duration_loop s (length b) 0 b;
    Ok match r with
       | inr err => inr err
       | inl d =>
           if (neg : bool) then inl (wrapS 64 (- wrapS 64 d))
           else if 2 ^ 63 - 1 <? d then inr (invalid s) else inl d
       end.

Example ParseDuration_ok : map ParseDuration ["30s"; "1h30m"; "-1.5h"; "0"; "+5µs"; ".5s"; "1.9ns"]%string =
  map (λ d, Ok (inl d)) [30000000000; 5400000000000; -5400000000000; 0; 5000; 500000000; 1].
Proof. vm_compute. reflexivity. Qed.
Example ParseDuration_bad : map (λ s, match ParseDuration s with Ok (inr e) => e | _ => EmptyString end)
    [""; "3"; "-s"; "1d"; "9223372036854775808ns"; "1 s"]%string =
  map (λ '(e, q, f, r), e +:+ of_bytes [Byte.x22] +:+ q +:+ of_bytes [Byte.x22] +:+ f +:+ r)
    [("time: invalid duration ", "", "", ""); ("time: missing unit in duration ", "3", "", "");
     ("time: invalid duration ", "-s", "", "");
     ("time: unknown unit ", "d", " in duration ", quote "1d");
     ("time: invalid duration ", "9223372036854775808ns", "", "");
     ("time: unknown unit ", " s", " in duration ", quote "1 s")]%string.
Proof. vm_compute. reflexivity. Qed.
(** Two maximal terms add up to 2^64, which wraps to nothing. *)
Example ParseDuration_wraps : ParseDuration "9223372036854775808ns9223372036854775808ns" = Ok (inl 0).
Proof. vm_compute. reflexivity. Qed.

(** ** The loop ends, within int64 *)

Lemma leadingInt_shorter b : ∀ x v r, leadingInt x b = Some (v, r) →
  (length r <= length b)%nat ∧ (0 <= x → 0 <= v).
Proof.
  induction b as [|c b IH]; intros x v r; cbn; [intros [= -> <-]; auto|].
  destruct (digit c) as [d|]; [|intros [= -> <-]; auto].
  destruct (_ <? x); [done|]. destruct (2 ^ 63 <? _); [done|].
  intros (H1 & H2)%IH. split; [lia|]. intros _. apply H2. apply wrapU_range. lia.
Qed.

Lemma leadingFraction_shorter b : ∀ x sc o y sc' r, leadingFraction x sc o b = (y, sc', r) →
  (length r <= length b)%nat.
Proof.
  induction b as [|c b IH]; intros x sc o y sc' r; cbn; [by intros [= <- <- <-]|].
  destruct (digit c) as [d|]; [|by intros [= <- <- <-]].
  repeat case_match; intros ?%IH; lia.
Qed.

Lemma accept_run_length p b t r : accept_run p b = (t, r) → length b = (length t + length r)%nat.
Proof.
  revert t r. induction b as [|c b IH]; intros t r; cbn; [by intros [= <- <-]|].
  destruct (p c); [|by intros [= <- <-]]. destruct (accept_run p b) as [t' r'] eqn:E.
  intros [= <- <-]. cbn. by rewrite (IH _ _ eq_refl).
Qed.

Lemma duration_component_shorter orig b v r : duration_component orig b = inl (v, r) →
  (length r < length b)%nat ∧ 0 <= v.
Proof.
  unfold duration_component. destruct b as [|c0 b0]; [done|]. set (b := c0 :: b0).
  destruct (negb _); [done|]. destruct (leadingInt 0 b) as [[n b1]|] eqn:E1; [|done].
  apply leadingInt_shorter in E1 as [E1 _].
  set (m := match b1 with [] => _ | _ => _ end).
  assert (Hm : (length m.2 <= length b1)%nat).
  { unfold m. destruct b1 as [|c b2]; [done|]. destruct (isb 46 c); [|done].
    destruct (leadingFraction _ _ _ b2) as [[f sc] b3] eqn:E2. apply leadingFraction_shorter in E2.
    cbn in *. lia. }
  destruct m as [[[f sc] post] b3]. cbn in Hm. destruct (_ && _); [done|].
  destruct (accept_run in_unit b3) as [u rest] eqn:E3. apply accept_run_length in E3.
  destruct (Nat.eqb_spec (length u) 0); [done|]. destruct (unit_ns _) as [unit|]; [|done].
  pose proof (wrapU_range 64 ltac:(done)) as Hr. unfold inU in Hr.
  repeat case_match; intros [= <- <-]; (split; [lia|apply Hr]).
Qed.

Lemma duration_loop_ends orig fuel : ∀ d b, (length b <= fuel)%nat → 0 <= d <= 2 ^ 63 →
  ∃ r, duration_loop orig fuel d b = Ok r ∧ ∀ d', r = inl d' → 0 <= d' <= 2 ^ 63.
Proof.
  induction fuel as [|fuel IH]; intros d [|c b] Hb Hd; cbn [length] in *; try lia;
    try (eexists; split; [done|]; by intros ? [= <-]).
  cbn [duration_loop]. destruct (duration_component orig (c :: b)) as [[v r]|e] eqn:E;
    [|eexists; split; [done|]; by intros ? [=]].
  apply duration_component_shorter in E as [E _]. cbn in E.
  destruct (Z.ltb_spec (2 ^ 63) (wrapU 64 (d + v))); [eexists; split; [done|]; by intros ? [=]|].
  apply IH; [lia|]. pose proof (wrapU_range 64 ltac:(done) (d + v)). unfold inU in *. lia.
Qed.

(** Parsing ends on every text, and a duration it returns is an int64. *)
Lemma ParseDuration_total s : ∃ r, ParseDuration s = Ok r ∧ ∀ d, r = inl d → inS 64 d.
Proof.
  unfold ParseDuration. destruct (strip_sign (to_bytes s)) as [neg b].
  case_bool_decide; [eexists; split; [done|]; intros ? [= <-]; unfold inS; lia|].
  destruct (length b =? 0)%nat; [eexists; split; [done|]; by intros ? [=]|].
  destruct (duration_loop_ends s (length b) 0 b) as (r & -> & Hr); [lia..|].
  eexists. split; [reflexivity|]. destruct r as [d|]; [|by intros ? [=]].
  specialize (Hr d eq_refl). destruct neg.
  - intros ? [= <-]. by apply wrapS_range.
  - destruct (Z.ltb_spec (2 ^ 63 - 1) d); [done|]. intros ? [= <-]. unfold inS. lia.
Qed.

(** ** Sums of whole units *)

Definition part_text (p : N * string) : bytes := to_bytes (pretty p.1) ++ to_bytes p.2.
Definition part_value (p : N * string) : Z := Z.of_N p.1 * default 0 (unit_ns p.2).
Definition parts_text (l : list (N * string)) : bytes := concat (map part_text l).
Definition parts_value (l : list (N * string)) : Z := foldr Z.add 0 (map part_value l).
Definition is_unit (p : N * string) : Prop := p.2 ∈ map fst unitMap.

Lemma leadingInt_digits b : ∀ x v rest, 0 <= x → digits x b = Some v → v <= 2 ^ 63 →
  (∀ c r, rest = c :: r → digit c = None) → leadingInt x (b ++ rest) = Some (v, rest).
Proof.
  induction b as [|c b IH]; intros x v rest Hx; cbn [digits app leadingInt].
  - intros [= ->] _ Hr. destruct rest as [|c r]; [done|]. cbn [leadingInt]. by rewrite (Hr c r).
  - destruct (digit c) as [d|] eqn:E; [|done]. intros Hd Hv Hr. cbn [mbind option_bind] in Hd.
    apply digit_Some in E as [Hc Hdv]. pose proof (digits_mono (10 * x + d) b v ltac:(lia) Hd).
    destruct (Z.ltb_spec (2 ^ 63 / 10) x) as [Hlt|]; [exfalso; change (2 ^ 63 / 10) with 922337203685477580 in *; lia|].
    rewrite wrapU_small by (unfold inU; lia). replace (x * 10 + d) with (10 * x + d) by lia.
    destruct (Z.ltb_spec (2 ^ 63) (10 * x + d)); [lia|]. apply IH; auto; lia.
Qed.

Lemma accept_run_all p t rest : Forall (λ c, p c = true) t →
  (∀ c r, rest = c :: r → p c = false) → accept_run p (t ++ rest) = (t, rest).
Proof.
  induction 1 as [|c t Hc Ht IH]; intros Hr; cbn.
  - destruct rest as [|c r]; [done|]. cbn. by rewrite (Hr c r).
  - by rewrite Hc, IH.
Qed.

(** What the eight units have in common. *)
Lemma unit_facts u : u ∈ map fst unitMap → ∃ n c t, unit_ns u = Some n ∧ 0 < n ∧ to_bytes u = c :: t ∧
  isb 46 c = false ∧ Forall (λ c, in_unit c = true) (c :: t).
Proof.
  intros Hu. cbn in Hu.
  repeat (apply elem_of_cons in Hu as [->|Hu];
    [do 3 eexists; split_and!; [reflexivity|lia|reflexivity|reflexivity|repeat constructor]|]).
  by apply elem_of_nil in Hu.
Qed.

Lemma in_unit_digit c : in_unit c = true → digit c = None.
Proof.
  unfold in_unit, is_decimal. destruct (digit c); [|done].
  by rewrite bool_decide_true, orb_true_r by eauto.
Qed.

(** The text of a number starts with a digit. *)
Lemma pretty_N_head (n : N) : ∃ c t d, to_bytes (pretty n) = c :: t ∧ digit c = Some d.
Proof.
  pose proof (pretty_N_bytes_ne n). pose proof (digits_pretty_N n) as Hd.
  destruct (to_bytes (pretty n)) as [|c t]; [done|]. cbn in Hd.
  destruct (digit c) as [d|] eqn:E; [eauto|done].
Qed.

Lemma part_value_nonneg p : is_unit p → 0 <= part_value p.
Proof. intros (n & c & t & Hn & Hp & _)%unit_facts. unfold part_value. rewrite Hn. cbn [default from_option id]. nia. Qed.

Lemma duration_component_part orig p rest : is_unit p → part_value p <= 2 ^ 63 →
  (∀ c r, rest = c :: r → in_unit c = false) →
  duration_component orig (part_text p ++ rest) = inl (part_value p, rest).
Proof.
  destruct p as [x u]. intros Hu Hv Hr. pose proof (part_value_nonneg _ Hu) as Hnn.
  destruct (unit_facts _ Hu) as (n & c & t & Hn & Hpos & Ht & Hdot & Hall).
  unfold part_text, part_value in *. cbn [fst snd] in *. rewrite Hn in *. cbn [default from_option id] in *.
  destruct (pretty_N_head x) as (c0 & t0 & d0 & Hp & Hd0).
  assert (Hx : Z.of_N x <= 2 ^ 63) by nia.
  assert (HI : leadingInt 0 (to_bytes (pretty x) ++ (c :: t) ++ rest) = Some (Z.of_N x, (c :: t) ++ rest)).
  { apply leadingInt_digits; [lia|apply digits_pretty_N|done|]. intros c' r' [= <- _].
    apply in_unit_digit. by apply Forall_cons in Hall as [? _]. }
  rewrite Ht, <- app_assoc. unfold duration_component. rewrite Hp in *. cbn [app] in *.
  replace (is_decimal c0) with true by (unfold is_decimal; by rewrite Hd0).
  rewrite orb_true_r. cbn [negb]. rewrite HI. rewrite Hdot.
  destruct (Nat.eqb_spec (length (c0 :: t0 ++ c :: t ++ rest)) (length (c :: t ++ rest))) as [Hl|_].
  { cbn [length] in Hl. rewrite (length_app t0) in Hl. cbn [length] in Hl. lia. }
  cbn [negb andb]. change (c :: t ++ rest) with ((c :: t) ++ rest).
  rewrite accept_run_all by done. cbn [length Nat.eqb]. rewrite <- Ht, of_to_bytes, Hn.
  destruct (Z.ltb_spec (2 ^ 63 / n) (Z.of_N x)) as [Hlt|_].
  { pose proof (Z.div_le_lower_bound (2 ^ 63) n (Z.of_N x) Hpos ltac:(lia)). lia. }
  cbv beta iota zeta. change (0 <? 0) with false. cbv iota. rewrite wrapU_small; [done|unfold inU; lia].
Qed.

Lemma part_text_head p : ∃ c t, part_text p = c :: t ∧ in_unit c = false ∧ isb 43 c = false ∧ isb 45 c = false.
Proof.
  unfold part_text. destruct (pretty_N_head p.1) as (c & t & d & -> & Hd).
  exists c, (t ++ to_bytes p.2). rewrite !(isb_digit _ _ _ Hd) by lia. split_and!; try done.
  unfold in_unit, is_decimal. rewrite Hd. by rewrite bool_decide_true, orb_true_r by eauto.
Qed.

Lemma parts_value_nonneg l : Forall is_unit l → 0 <= parts_value l.
Proof.
  induction 1 as [|p l Hp Hl IH]; [done|]. apply part_value_nonneg in Hp.
  unfold parts_value in *. cbn [map foldr]. lia.
Qed.

Lemma duration_loop_parts orig l : ∀ fuel d, (length (parts_text l) <= fuel)%nat → Forall is_unit l →
  0 <= d → d + parts_value l <= 2 ^ 63 →
  duration_loop orig fuel d (parts_text l) = Ok (inl (d + parts_value l)).
Proof.
  induction l as [|p l IH]; intros fuel d Hf Hu Hd Hv.
  { replace (d + parts_value []) with d by (unfold parts_value; cbn; lia). by destruct fuel. }
  apply Forall_cons in Hu as [Hp Hl]. pose proof (part_value_nonneg _ Hp).
  pose proof (parts_value_nonneg _ Hl) as Hnn.
  assert (Hpv : parts_value (p :: l) = part_value p + parts_value l) by done. rewrite Hpv in *.
  change (parts_text (p :: l)) with (part_text p ++ parts_text l) in *.
  assert (Hstep : duration_component orig (part_text p ++ parts_text l) = inl (part_value p, parts_text l)).
  { apply duration_component_part; [done|lia|]. intros c r Hc. destruct l as [|q l]; [done|].
    change (parts_text (q :: l)) with (part_text q ++ parts_text l) in Hc.
    destruct (part_text_head q) as (c' & t & Ht & Hin & _). rewrite Ht in Hc. by injection Hc as <- _. }
  pose proof (duration_component_shorter _ _ _ _ Hstep) as [Hlen _].
  destruct fuel as [|fuel]; [lia|]. cbn [duration_loop]. rewrite Hstep.
  destruct (part_text p ++ parts_text l) as [|c r] eqn:E; [cbn in Hlen; lia|].
  rewrite wrapU_small by (unfold inU; lia).
  destruct (Z.ltb_spec (2 ^ 63) (d + part_value p)); [lia|]. rewrite IH by (done || lia).
  do 2 f_equal. lia.
Qed.

(** A signed sum of whole units within int64 is read as that sum. *)
Lemma ParseDuration_parts (neg : bool) l : l ≠ [] → Forall is_unit l →
  inS 64 (if neg then - parts_value l else parts_value l) →
  ParseDuration (of_bytes (sign_text neg ++ parts_text l)) =
    Ok (inl (if neg then - parts_value l else parts_value l)).
Proof.
  intros Hne Hu Hin. pose proof (parts_value_nonneg _ Hu).
  assert (Hmax : parts_value l <= 2 ^ 63) by (unfold inS in Hin; destruct neg; lia).
  unfold ParseDuration. rewrite to_of_bytes. destruct l as [|p l]; [done|].
  destruct (part_text_head p) as (c & t & Ht & _ & H43 & H45).
  assert (Htext : parts_text (p :: l) = c :: t ++ parts_text l).
  { change (part_text p ++ parts_text l = c :: t ++ parts_text l). by rewrite Ht. }
  assert (Hs : strip_sign (sign_text neg ++ parts_text (p :: l)) = (neg, parts_text (p :: l))).
  { rewrite Htext. destruct neg; [done|]. cbn [sign_text app strip_sign]. by rewrite H43, H45. }
  rewrite Hs. rewrite bool_decide_false.
  - rewrite (duration_loop_parts _ (p :: l)) by (done || lia). rewrite Htext. cbn [length Nat.eqb].
    rewrite Z.add_0_l. cbn [mbind outcome_bind]. destruct neg.
    + do 2 f_equal. destruct (decide (parts_value (p :: l) = 2 ^ 63)) as [->|]; [done|].
      rewrite (wrapS_small 64 ltac:(done) (parts_value _)) by (unfold inS; lia). by apply wrapS_small.
    + unfold inS in Hin. destruct (Z.ltb_spec (2 ^ 63 - 1) (parts_value (p :: l))); [lia|done].
  - (* a number alone is not a part: units are not empty *)
    intros E. apply Forall_cons in Hu as [Hp _].
    destruct (unit_facts _ Hp) as (_ & uc & ut & _ & _ & Hut & _).
    apply (f_equal length) in E. change (parts_text (p :: l)) with (part_text p ++ parts_text l) in E.
    unfold part_text in E. rewrite Hut in E. pose proof (pretty_N_bytes_ne p.1) as Hpn.
    destruct (to_bytes (pretty p.1)); [done|]. rewrite !length_app in E. cbn in E. lia.
Qed.
