(* ===== verification/Config.v ===== *)
(** * Config: internal/config/config.go

    The configuration structs, [applyDefaults], [validate], [Load] and the
    durations a file may contain.  Reading the file, the YAML decoder and the
    quoting of [%q] are arguments. *)
From S2P Require Import Prelude GoLib Strconv GoDuration.
From stdpp Require Import pretty.
Open Scope Z_scope.

(** A [time.Duration] is an [int64] count of nanoseconds. *)
Definition Second : Z := 1000000000.
Definition Hour : Z := 3600 * Second.

Record KafkaConfig := mkKafkaConfig {
  ListenAddr : string; OMEIdentifier : string; AdvertisedHost : string;
  AdvertisedPort : Z; Topics : list string; AutoCreateTopics : bool;
  NumPartitions : Z; ReplicationFactor : Z }.

Record TLSConfig := mkTLSConfig {
  InsecureSkipVerify : bool; CAFile : string; CertFile : string; KeyFile : string }.

Record RemoteWriteConfig := mkRemoteWriteConfig {
  rw_URL : string; rw_Timeout : Z; rw_Username : string; rw_Password : string;
  rw_TLS : TLSConfig; rw_BatchSize : Z; rw_FlushInterval : Z }.

Record LokiConfig := mkLokiConfig {
  lk_URL : string; lk_Timeout : Z; lk_TLS : TLSConfig; lk_BatchSize : Z;
  lk_FlushInterval : Z }.

Record CacheConfig := mkCacheConfig {
  c_Enabled : bool; c_Dir : string; c_MaxSizeMB : Z; c_RetryInterval : Z; c_MaxAge : Z }.

Record RelabelConfig := mkRelabelConfig {
  SourceLabels : list string; Separator : string; TargetLabel : string;
  Regex : string; Replacement : string; Action : string }.

Record TopicRoutingConfig := mkTopicRoutingConfig {
  MetricsTopics : list string; LogTopics : list string }.

Record LogConfig := mkLogConfig { log_Level : string; log_Format : string }.

Record Config := mkConfig {
  Kafka : KafkaConfig; RemoteWrite : RemoteWriteConfig; Loki : LokiConfig;
  Cache : CacheConfig; ExtraLabels : gmap string string;
  RelabelConfigs : list RelabelConfig; LogRelabelCfgs : list RelabelConfig;
  TopicRouting : TopicRoutingConfig; api_ListenAddr : string; Log : LogConfig }.

#[export] Instance TLSConfig_eq_dec : EqDecision TLSConfig.
Proof. solve_decision. Defined.
#[export] Instance RelabelConfig_eq_dec : EqDecision RelabelConfig.
Proof. solve_decision. Defined.

(** [if x == zero { x = d }] *)
Definition str_default (s d : string) : string := if decide (s = ""%string) then d else s.
Definition num_default (n d : Z) : Z := if n =? 0 then d else n.
Definition list_default {A} (l d : list A) : list A := if len l =? 0 then d else l.

Definition applyDefaults (c : Config) : Config :=
  let k := Kafka c in
  let id := str_default (OMEIdentifier k) "ome" in
  {| Kafka := {|
       ListenAddr := str_default (ListenAddr k) "0.0.0.0:9092";
       OMEIdentifier := id;
       AdvertisedHost := AdvertisedHost k;
       AdvertisedPort := AdvertisedPort k;
       Topics := Topics k;
       AutoCreateTopics := AutoCreateTopics k;
       NumPartitions := num_default (NumPartitions k) 1;
       ReplicationFactor := num_default (ReplicationFactor k) 1 |};
     RemoteWrite :=
       let r := RemoteWrite c in
       {| rw_URL := rw_URL r; rw_Timeout := rw_Timeout r; rw_Username := rw_Username r;
          rw_Password := rw_Password r; rw_TLS := rw_TLS r;
          rw_BatchSize := num_default (rw_BatchSize r) 500;
          rw_FlushInterval := num_default (rw_FlushInterval r) (10 * Second) |};
     Loki :=
       let l := Loki c in
       {| lk_URL := lk_URL l; lk_Timeout := lk_Timeout l; lk_TLS := lk_TLS l;
          lk_BatchSize := num_default (lk_BatchSize l) 100;
          lk_FlushInterval := num_default (lk_FlushInterval l) (5 * Second) |};
     Cache :=
       let d := Cache c in
       {| c_Enabled := c_Enabled d;
          c_Dir := str_default (c_Dir d) "/var/lib/ome-kafka-bridge/cache";
          c_MaxSizeMB := num_default (c_MaxSizeMB d) 512;
          c_RetryInterval := num_default (c_RetryInterval d) (30 * Second);
          c_MaxAge := num_default (c_MaxAge d) (24 * Hour) |};
     ExtraLabels := ExtraLabels c;
     RelabelConfigs := RelabelConfigs c;
     LogRelabelCfgs := LogRelabelCfgs c;
     TopicRouting := {|
       MetricsTopics := list_default (MetricsTopics (TopicRouting c))
         [id +:+ ".telemetry"; id +:+ ".health"];
       LogTopics := list_default (LogTopics (TopicRouting c))
         [id +:+ ".alerts"; id +:+ ".auditlogs"; id +:+ ".inventory"] |};
     api_ListenAddr := str_default (api_ListenAddr c) "0.0.0.0:8080";
     Log := {| log_Level := str_default (log_Level (Log c)) "info";
               log_Format := str_default (log_Format (Log c)) "json" |} |}.

Definition validate (c : Config) : option error :=
  if decide (rw_URL (RemoteWrite c) = ""%string) then Some "remote_write.url is required"%string
  else if decide (lk_URL (Loki c) = ""%string) then Some "loki.url is required"%string
  else None.

Section Load.
(** [os.ReadFile], [yaml.Unmarshal] (third party) and the quoting of [%q]. *)
Context (ReadFile : string → bytes + error)
  (yamlUnmarshal : bytes → Config + error) (Quote : string → string).

(** The pair Go returns: a config may come with an error. *)
Definition Load (path : string) : option Config * option error :=
  match ReadFile path with
  | inr err => (None, Some ("reading config file: " +:+ err))
  | inl data =>
      match yamlUnmarshal data with
      | inr err => (None, Some ("parsing config: " +:+ err))
      | inl cfg => let cfg := applyDefaults cfg in (Some cfg, validate cfg)
      end
  end.

(** The method on [*Duration]: what is stored, and the error. *)
Definition UnmarshalYAML (d : Z) (value : string) : outcome (Z * option error) :=
  r ← ParseDuration value;
  Ok match r with
     | inr err => (d, Some ("invalid duration " +:+ Quote value +:+ ": " +:+ err))
     | inl dur => (dur, None)
     end.
End Load.

(** ** What a loaded configuration guarantees *)

(** Every field the rest of the program relies on being set is set. *)
Record complete (c : Config) : Prop := {
  complete_listen : ListenAddr (Kafka c) ≠ ""%string;
  complete_id : OMEIdentifier (Kafka c) ≠ ""%string;
  complete_batch : rw_BatchSize (RemoteWrite c) ≠ 0 ∧ lk_BatchSize (Loki c) ≠ 0;
  complete_flush : rw_FlushInterval (RemoteWrite c) ≠ 0 ∧ lk_FlushInterval (Loki c) ≠ 0;
  complete_cache : c_Dir (Cache c) ≠ ""%string ∧ c_MaxSizeMB (Cache c) ≠ 0 ∧
    c_RetryInterval (Cache c) ≠ 0 ∧ c_MaxAge (Cache c) ≠ 0;
  complete_partitions : NumPartitions (Kafka c) ≠ 0 ∧ ReplicationFactor (Kafka c) ≠ 0;
  complete_routes : MetricsTopics (TopicRouting c) ≠ [] ∧ LogTopics (TopicRouting c) ≠ [];
  complete_api : api_ListenAddr c ≠ ""%string ∧ log_Level (Log c) ≠ ""%string ∧
    log_Format (Log c) ≠ ""%string }.

Lemma str_default_ne s d : d ≠ ""%string → str_default s d ≠ ""%string.
Proof. unfold str_default. case_decide; done. Qed.
Lemma num_default_ne n d : d ≠ 0 → num_default n d ≠ 0.
Proof. unfold num_default. destruct (Z.eqb_spec n 0); done. Qed.
Lemma list_default_ne {A} (l d : list A) : d ≠ [] → list_default l d ≠ [].
Proof. unfold list_default. destruct l; done. Qed.

Lemma str_default_id s d : s ≠ ""%string → str_default s d = s.
Proof. unfold str_default. by case_decide. Qed.
Lemma num_default_id n d : n ≠ 0 → num_default n d = n.
Proof. unfold num_default. by destruct (Z.eqb_spec n 0). Qed.
Lemma list_default_id {A} (l d : list A) : l ≠ [] → list_default l d = l.
Proof. unfold list_default. by destruct l. Qed.

Create HintDb config.
#[export] Hint Resolve str_default_ne num_default_ne list_default_ne : config.

Lemma applyDefaults_complete c : complete (applyDefaults c).
Proof. split; cbn; split_and?; auto with config. Qed.

(** Defaults never overwrite what the file sets. *)
Lemma applyDefaults_fix c : complete c → applyDefaults c = c.
Proof.
  intros []. destruct_and?. destruct c as [[] [] [] [] ? ? ? [] ? []]. unfold applyDefaults.
  cbn in *. by rewrite !str_default_id, !num_default_id, !list_default_id.
Qed.

(** ** Properties *)

(** A configuration that loads is usable: the URLs of both backends are set,
    every field the program relies on has a non-zero value, and it is a fixed
    point of the defaults -- filling them in again would change nothing. *)
Theorem Load_accepts (ReadFile : string → bytes + error) (yamlUnmarshal : bytes → Config + error)
    (path : string) (cfg : Config) :
  Load ReadFile yamlUnmarshal path = (Some cfg, None) →
  complete cfg ∧ rw_URL (RemoteWrite cfg) ≠ ""%string ∧ lk_URL (Loki cfg) ≠ ""%string ∧
  applyDefaults cfg = cfg.
Proof.
  unfold Load. destruct (ReadFile path) as [data|]; [|done].
  destruct (yamlUnmarshal data) as [c|]; [|done]. intros [= <- Hv].
  pose proof (applyDefaults_complete c) as Hc. unfold validate in Hv.
  repeat case_decide; try done. auto using applyDefaults_fix.
Qed.

(** Defaults are filled in once and for all, and never override what the file
    sets: on a configuration with every such field set they are the identity. *)
Theorem applyDefaults_idempotent (c : Config) :
  complete (applyDefaults c) ∧ applyDefaults (applyDefaults c) = applyDefaults c ∧
  (complete c → applyDefaults c = c).
Proof.
  pose proof (applyDefaults_complete c). auto using applyDefaults_fix.
Qed.

Definition url_config : Config :=
  mkConfig (mkKafkaConfig "" "" "" 0 [] true 0 0)
    (mkRemoteWriteConfig "http://vm:8428/api/v1/write" 0 "" "" (mkTLSConfig false "" "" "") 0 0)
    (mkLokiConfig "http://loki:3100" 0 (mkTLSConfig false "" "" "") 0 0)
    (mkCacheConfig true "" 0 0 0) ∅ [] [] (mkTopicRoutingConfig [] []) "" (mkLogConfig "" "").

Lemma Load_accepts_witness : ∃ cfg,
  Load (λ _, inl []) (λ _, inl url_config) "config.yaml" = (Some cfg, None) ∧ complete cfg ∧ applyDefaults cfg = cfg.
Proof.
  eexists. split; [reflexivity|].
  destruct (Load_accepts (λ _, inl []) (λ _, inl url_config) "config.yaml" _ eq_refl) as (H1 & _ & _ & H2).
  split; [exact H1|exact H2].
Defined.

(** C38. A duration of the configuration file that is a signed sum of whole units
    ("30s", "1h30m", "-5s") within the range of int64 is stored as exactly that
    many nanoseconds; on any text the parser ends and leaves either an int64 and
    no error, or the old value and an error that quotes the text. *)
Theorem duration_values (Quote : string → string) (d : Z) (value : string) (neg : bool) (l : list (N * string)) :
  (∃ d' e, UnmarshalYAML Quote d value = Ok (d', e) ∧
    (e = None → inS 64 d') ∧
    (e ≠ None → d' = d ∧ ∃ err, e = Some ("invalid duration " +:+ Quote value +:+ ": " +:+ err))) ∧
  (l ≠ [] → Forall is_unit l →
    inS 64 (if neg then - parts_value l else parts_value l) →
    UnmarshalYAML Quote d (of_bytes (sign_text neg ++ parts_text l)) =
      Ok (if neg then - parts_value l else parts_value l, None)).
Proof.
  unfold UnmarshalYAML. split.
  - destruct (ParseDuration_total value) as (r & -> & Hr). cbn [mbind outcome_bind].
    destruct r as [d'|err]; do 2 eexists; (split; [reflexivity|]); split; try done; eauto.
  - intros. by rewrite ParseDuration_parts.
Qed.

Lemma duration_values_witness :
  parts_text [(1%N, "h"%string); (30%N, "m"%string)] = to_bytes "1h30m" ∧
  UnmarshalYAML id 0 (of_bytes (sign_text false ++ parts_text [(1%N, "h"%string); (30%N, "m"%string)])) =
    Ok (5400 * Second, None).
Proof.
  split; [vm_compute; reflexivity|].
  refine (proj2 (duration_values id 0 "" false [(1%N, "h"%string); (30%N, "m"%string)]) _ _ _);
    [done| |vm_compute; split; congruence].
  repeat constructor; by_decision.
Defined.
