(* ===== verification/Records.v ===== *)
(** * Records: the record decoders of internal/broker/broker.go

    [decodeRecordBatch] and the two formats it tells apart by the magic byte,
    run against the reader of [Wire]. *)
From S2P Require Import Prelude Binary Wire.
Import Reader.
Open Scope Z_scope.

(** A fully decoded record; a nil [[]byte] is [None]. *)
Record Message := mkMessage {
  Topic : string; Partition : Z; Key : option bytes; Value : option bytes;
  Timestamp : time }.

#[export] Instance Message_eq_dec : EqDecision Message.
Proof. solve_decision. Defined.

Definition MessageSize : Z := 96.

Section Decoders.
Context {X : Type}.
(** [time.Now()], read while the reader stands at the given offset. *)
Context (now : Z → time).

Definition get_remaining : M X Z := st_get (λ s, remaining s.1).

Definition make_messages (n : Z) : M X unit :=
  λ s, _ ← makeslice MessageSize n; Ok (tt, s).

(** *** Record batches, magic 2 *)

Definition readRecordV2 (topic : string) (partition baseTimestamp : Z) : M X Message :=
  _ ← readVarint;
  _ ← readInt8;
  _ ← readVarint;
  _ ← readVarint;
  key ← readVarBytes;
  value ← readVarBytes;
  nH ← readVarint;
  _ ← for_n (Z.to_nat nH) (_ ← readVarBytes; _ ← readVarBytes; mret tt);
  mret (mkMessage topic partition key value (time_UnixMilli baseTimestamp)).

(** [for i := int32(0); i < nRecords && r.remaining() > 0; i++] *)
Fixpoint recordsV2_loop (n : nat) (topic : string) (partition baseTimestamp : Z)
    : M X (list Message) :=
  match n with
  | O => mret []
  | S n =>
      rem ← get_remaining;
      if 0 <? rem then
        m ← readRecordV2 topic partition baseTimestamp;
        ms ← recordsV2_loop n topic partition baseTimestamp;
        mret (m :: ms)
      else mret []
  end.

Definition decodeRecordBatchV2 (topic : string) (partition : Z)
    : M X (list Message * option error) :=
  _ ← readInt16;
  _ ← readInt32;
  baseTimestamp ← readInt64;
  _ ← readInt64;
  _ ← readInt64;
  _ ← readInt16;
  _ ← readInt32;
  nRecords ← readInt32;
  _ ← make_messages nRecords;
  msgs ← recordsV2_loop (Z.to_nat nRecords) topic partition baseTimestamp;
  mret (msgs, None).

(** *** Legacy message sets *)

Definition readLegacyMessage (topic : string) (partition : Z) : M X Message :=
  _ ← readInt32;
  _ ← readInt8;
  _ ← readInt8;
  key ← readBytes;
  value ← readBytes;
  t ← st_get (λ s, now (rpos s.1));
  mret (mkMessage topic partition key value t).

(** [for r.remaining() >= 12]: every round that goes on consumes at least
    twelve bytes, so the bytes that remain bound the rounds. *)
Fixpoint legacy_loop (fuel : nat) (topic : string) (partition : Z) : M X (list Message) :=
  match fuel with
  | O => λ _, OutOfFuel
  | S fuel =>
      rem ← get_remaining;
      if rem <? 12 then mret []
      else
        _ ← readInt64;
        size ← readInt32;
        rem' ← get_remaining;
        if (size <=? 0) || (rem' <? size) then mret []
        else
          m ← readLegacyMessage topic partition;
          ms ← legacy_loop fuel topic partition;
          mret (m :: ms)
  end.

Definition legacy_fuel (r : reader) : nat := S (Z.to_nat (remaining r)).

Definition decodeLegacyMessageSet (topic : string) (partition : Z)
    : M X (list Message * option error) :=
  fuel ← st_get (λ s, legacy_fuel s.1);
  msgs ← legacy_loop fuel topic partition;
  mret (msgs, None).

Definition set_pos (p : Z) : M X unit := λ '(r, x), Ok (tt, (mkReader (rbuf r) p, x)).

Definition decodeRecordBatch (topic : string) (partition : Z)
    : M X (list Message * option error) :=
  rem ← get_remaining;
  if rem <? 17 then mret ([], None)
  else
    pos ← st_get (λ s, rpos s.1);
    _ ← readInt64;
    _ ← readInt32;
    _ ← readInt32;
    magic ← readInt8;
    if magic =? 2 then decodeRecordBatchV2 topic partition
    else _ ← set_pos pos; decodeLegacyMessageSet topic partition.
End Decoders.

(** ** What a producer sends *)

(** A record of a magic-2 batch. *)
Record rec := mkRec {
  r_attributes : Z; r_timestampDelta : Z; r_offsetDelta : Z;
  r_key : option bytes; r_value : option bytes;
  r_headers : list (option bytes * option bytes) }.

Definition enc_headers (hs : list (option bytes * option bytes)) : bytes :=
  concat (map (λ '(k, v), enc_varbytes k ++ enc_varbytes v) hs).

Definition enc_rec_body (r : rec) : bytes :=
  [byte.of_Z (r_attributes r)] ++ PutVarint (r_timestampDelta r) ++
  PutVarint (r_offsetDelta r) ++ enc_varbytes (r_key r) ++ enc_varbytes (r_value r) ++
  PutVarint (len (r_headers r)) ++ enc_headers (r_headers r).

Definition enc_rec (r : rec) : bytes := PutVarint (len (enc_rec_body r)) ++ enc_rec_body r.

(** The fixed fields of a batch. *)
Record batch_header := mkBatchHeader {
  baseOffset : Z; batchLength : Z; leaderEpoch : Z; attributes : Z; lastOffsetDelta : Z;
  baseTimestamp : Z; maxTimestamp : Z; producerId : Z; producerEpoch : Z; baseSequence : Z }.

(** A batch with the given bytes in the place of the checksum: Kafka's layout
    has four of them ([crc: uint32] between [magic] and [attributes]). *)
Definition enc_batch (crc : bytes) (h : batch_header) (rs : list rec) : bytes :=
  be_put 8 (wrapU 64 (baseOffset h)) ++ be_put 4 (wrapU 32 (batchLength h)) ++
  be_put 4 (wrapU 32 (leaderEpoch h)) ++ [byte.of_Z 2] ++ crc ++
  be_put 2 (wrapU 16 (attributes h)) ++ be_put 4 (wrapU 32 (lastOffsetDelta h)) ++
  be_put 8 (wrapU 64 (baseTimestamp h)) ++ be_put 8 (wrapU 64 (maxTimestamp h)) ++
  be_put 8 (wrapU 64 (producerId h)) ++ be_put 2 (wrapU 16 (producerEpoch h)) ++
  be_put 4 (wrapU 32 (baseSequence h)) ++
  be_put 4 (wrapU 32 (len rs)) ++ concat (map enc_rec rs).

Definition short (b : option bytes) : Prop := from_option len 0 b < 2 ^ 31.

Record rec_ok (r : rec) : Prop := {
  rec_ok_attr : inS 8 (r_attributes r);
  rec_ok_td : inS 64 (r_timestampDelta r);
  rec_ok_od : inS 64 (r_offsetDelta r);
  rec_ok_key : short (r_key r);
  rec_ok_value : short (r_value r);
  rec_ok_headers : Forall (λ h, short h.1 ∧ short h.2) (r_headers r);
  rec_ok_nheaders : len (r_headers r) < 2 ^ 31;
  rec_ok_len : len (enc_rec_body r) < 2 ^ 31 }.

Record header_ok (h : batch_header) : Prop := {
  header_ok_bo : inS 64 (baseOffset h); header_ok_bl : inS 32 (batchLength h);
  header_ok_le : inS 32 (leaderEpoch h); header_ok_at : inS 16 (attributes h);
  header_ok_lo : inS 32 (lastOffsetDelta h); header_ok_bt : inS 64 (baseTimestamp h);
  header_ok_mt : inS 64 (maxTimestamp h); header_ok_pi : inS 64 (producerId h);
  header_ok_pe : inS 16 (producerEpoch h); header_ok_bs : inS 32 (baseSequence h) }.

Definition message_of (topic : string) (partition baseTs : Z) (r : rec) : Message :=
  mkMessage topic partition (r_key r) (r_value r) (time_UnixMilli baseTs).

Section V2.
Context {X : Type} (now : Z → time).
Implicit Types (x : X).

Lemma runs_headers hs x :
  Forall (λ h, short h.1 ∧ short h.2) hs →
  runs (for_n (length hs) (_ ← readVarBytes; _ ← readVarBytes; mret tt)) (enc_headers hs) x tt x.
Proof using Type.
  induction hs as [|[k v] hs IH]; intros Hs; [apply runs_ret|].
  apply Forall_cons in Hs as [[Hk Hv] Hs]. cbn [fst snd] in *.
  unfold enc_headers. cbn [map concat length for_n].
  eapply runs_bind; [|now apply IH].
  eapply runs_bind; [by apply runs_readVarBytes|].
  eapply runs_bind_nil; [by apply runs_readVarBytes|apply runs_ret].
Qed.

Lemma runs_readRecordV2 topic partition baseTs r x :
  rec_ok r →
  runs (readRecordV2 topic partition baseTs) (enc_rec r) x (message_of topic partition baseTs r) x.
Proof using Type.
  intros []. unfold short in *. unfold enc_rec, readRecordV2.
  pose proof (len_nonneg (enc_rec_body r)). pose proof (len_nonneg (r_headers r)).
  generalize dependent (len (enc_rec_body r)). intros. unfold enc_rec_body.
  do 7 (eapply runs_bind; [solve [eauto with wire]|]).
  eapply runs_bind_nil; [|apply runs_ret].
  unfold len. rewrite Nat2Z.id. by apply runs_headers.
Qed.

Lemma enc_rec_len r : 0 < len (enc_rec r).
Proof using Type.
  unfold enc_rec, PutVarint. rewrite len_app.
  pose proof (put_uvarint_len (zigzag (len (enc_rec_body r)))).
  pose proof (len_nonneg (enc_rec_body r)). lia.
Qed.

Lemma cursor_remaining pre suf : small (pre ++ suf) → remaining (cursor pre suf) = len suf.
Proof using Type.
  intros Hs. rewrite wf_remaining; cbn; [len_lia|].
  split; [cbn; len_lia|done].
Qed.

(** A branch on the bytes that remain, all of [bs] at least. *)
Lemma runs_remaining {A} (f : Z → M X A) bs x a x' :
  (∀ rem, len bs <= rem → runs (f rem) bs x a x') → runs (get_remaining ≫= f) bs x a x'.
Proof using Type.
  intros H pre suf Hs.
  rewrite (st_bind_ok _ _ _ (len (bs ++ suf)) (cursor pre (bs ++ suf), x)).
  - apply H; [len_lia|done].
  - unfold get_remaining, st_get. cbn [fst]. now rewrite cursor_remaining.
Qed.

Lemma runs_recordsV2_loop topic partition baseTs rs x :
  Forall rec_ok rs →
  runs (recordsV2_loop (length rs) topic partition baseTs) (concat (map enc_rec rs)) x
    (map (message_of topic partition baseTs) rs) x.
Proof using Type.
  induction rs as [|r rs IH]; intros Hrs; [apply runs_ret|].
  apply Forall_cons in Hrs as [Hr Hrs]. cbn [map concat length recordsV2_loop].
  apply runs_remaining. intros rem Hrem. rewrite len_app in Hrem.
  pose proof (enc_rec_len r). pose proof (len_nonneg (concat (map enc_rec rs))).
  destruct (Z.ltb_spec 0 rem); [|lia].
  eapply runs_bind; [by apply runs_readRecordV2|].
  eapply runs_bind_nil; [by apply IH|apply runs_ret].
Qed.

Lemma runs_make_messages n x : inS 32 n → 0 <= n → runs (make_messages n) [] x tt x.
Proof using Type.
  intros Hn H0 pre suf _. unfold make_messages. rewrite app_nil_r.
  rewrite makeslice_ok; [done|done|]. unfold inS, MessageSize, maxAlloc in *. lia.
Qed.
End V2.

Section Batches.
Context {X : Type} (now : Z → time).
Implicit Types (x : X).

Lemma panics_remaining {A} (f : Z → M X A) bs x p :
  (∀ rem, len bs <= rem → panics (f rem) bs x p) → panics (get_remaining ≫= f) bs x p.
Proof using Type.
  intros H pre suf Hs.
  rewrite (st_bind_ok _ _ _ (len (bs ++ suf)) (cursor pre (bs ++ suf), x)).
  - apply H; [len_lia|done].
  - unfold get_remaining, st_get. cbn [fst]. now rewrite cursor_remaining.
Qed.

(** The batch a decoder without a checksum field expects is decoded exactly. *)
Lemma runs_decodeRecordBatch topic partition h rs x :
  header_ok h → Forall rec_ok rs → len rs < 2 ^ 31 →
  runs (decodeRecordBatch now topic partition) (enc_batch [] h rs) x
    (map (message_of topic partition (baseTimestamp h)) rs, None) x.
Proof using Type.
  intros [] Hrs Hn. apply runs_remaining. intros rem Hrem.
  unfold enc_batch in *. pose proof (len_nonneg rs).
  destruct (Z.ltb_spec rem 17); [len_lia|]. apply runs_get. intros p. rewrite app_nil_l.
  do 4 (eapply runs_bind; [solve [eauto with wire]|]). change (2 =? 2) with true. cbv iota.
  do 8 (eapply runs_bind; [solve [eauto with wire]|]).
  rewrite <- (app_nil_l (concat _)). eapply runs_bind.
  { apply runs_make_messages; [unfold inS|]; lia. }
  eapply runs_bind_nil; [|apply runs_ret].
  unfold len. rewrite Nat2Z.id. by apply runs_recordsV2_loop.
Qed.

Lemma split_length {A} n (l : list A) :
  (n <= length l)%nat → ∃ a b, l = a ++ b ∧ length a = n ∧ length b = (length l - n)%nat.
Proof using Type.
  intros H. exists (take n l), (drop n l). rewrite take_drop, length_take, length_drop.
  split; [done|lia].
Qed.

(** The fixed fields of the decoder, as one read; whatever the 36 bytes in
    front of the record count are, it is the count that follows them. *)
Definition readHeaderV2 : M X (Z * Z) :=
  _ ← readInt16; _ ← readInt32; ts ← readInt64; _ ← readInt64; _ ← readInt64;
  _ ← readInt16; _ ← readInt32; n ← readInt32; mret (ts, n).

Definition readBodyV2 (topic : string) (partition : Z) : Z * Z → M X (list Message * option error) :=
  λ '(ts, n), _ ← make_messages n;
              msgs ← recordsV2_loop (Z.to_nat n) topic partition ts;
              mret (msgs, None).

Lemma decodeRecordBatchV2_split topic partition s :
  (readHeaderV2 ≫= readBodyV2 topic partition) s = decodeRecordBatchV2 topic partition s.
Proof using Type.
  unfold decodeRecordBatchV2, readHeaderV2. bind_cong. reflexivity.
Qed.

Lemma runs_readHeaderV2_raw l n x :
  length l = 36%nat → inS 32 n →
  ∃ ts, runs readHeaderV2 (l ++ be_put 4 (wrapU 32 n)) x (ts, n) x.
Proof using Type.
  intros Hl Hn.
  destruct (split_length 2 l) as (l1 & l' & -> & H1 & Hr1); [lia|].
  destruct (split_length 4 l') as (l2 & l'' & -> & H2 & Hr2); [lia|].
  destruct (split_length 8 l'') as (l3 & l''' & -> & H3 & Hr3); [lia|].
  destruct (split_length 8 l''') as (l4 & m & -> & H4 & Hr4); [lia|].
  destruct (split_length 8 m) as (l5 & m' & -> & H5 & Hr5); [lia|].
  destruct (split_length 2 m') as (l6 & l7 & -> & H6 & Hr6); [lia|].
  eexists. rewrite <- !app_assoc. unfold readHeaderV2, readInt16, readInt32, readInt64.
  do 6 (eapply runs_bind; [by apply runs_readIntBE_raw|]).
  eapply runs_bind; [apply runs_readIntBE_raw; lia|].
  eapply runs_bind_nil; [by apply (runs_readInt32 n)|apply runs_ret].
Qed.

(** The bytes of a Kafka batch after the magic byte, up to the sequence
    number: with the checksum in front they fill the 36 bytes exactly. *)
Definition kafka_header (crc : bytes) (h : batch_header) : bytes :=
  crc ++ be_put 2 (wrapU 16 (attributes h)) ++ be_put 4 (wrapU 32 (lastOffsetDelta h)) ++
  be_put 8 (wrapU 64 (baseTimestamp h)) ++ be_put 8 (wrapU 64 (maxTimestamp h)) ++
  be_put 8 (wrapU 64 (producerId h)) ++ be_put 2 (wrapU 16 (producerEpoch h)).

Lemma kafka_header_length crc h : length crc = 4%nat → length (kafka_header crc h) = 36%nat.
Proof using Type. intros H. unfold kafka_header. rewrite !length_app, !be_put_length. lia. Qed.

Definition enc_preamble (h : batch_header) : bytes :=
  be_put 8 (wrapU 64 (baseOffset h)) ++ be_put 4 (wrapU 32 (batchLength h)) ++
  be_put 4 (wrapU 32 (leaderEpoch h)) ++ [byte.of_Z 2].

Lemma enc_batch_split crc h rs :
  enc_batch crc h rs =
    enc_preamble h ++ (kafka_header crc h ++ be_put 4 (wrapU 32 (baseSequence h))) ++
    be_put 4 (wrapU 32 (len rs)) ++ concat (map enc_rec rs).
Proof using Type. unfold enc_batch, enc_preamble, kafka_header. now rewrite <- !app_assoc. Qed.

Definition readMagic : M X Z := _ ← readInt64; _ ← readInt32; _ ← readInt32; readInt8.

(** The magic byte selects the decoder; the legacy one starts over. *)
Lemma decodeRecordBatch_magic topic partition hd magic bs pre x :
  runs readMagic hd x magic x → 17 <= len (hd ++ bs) → small (pre ++ hd ++ bs) →
  decodeRecordBatch now topic partition (cursor pre (hd ++ bs), x) =
  if magic =? 2 then decodeRecordBatchV2 topic partition (cursor (pre ++ hd) bs, x)
  else decodeLegacyMessageSet now topic partition (cursor pre (hd ++ bs), x).
Proof using Type.
  intros Hm Hlen Hs. unfold decodeRecordBatch.
  rewrite (st_bind_ok get_remaining _ _ (len (hd ++ bs)) (cursor pre (hd ++ bs), x))
    by (unfold get_remaining, st_get; cbn [fst]; by rewrite cursor_remaining).
  destruct (Z.ltb_spec (len (hd ++ bs)) 17) as [|_]; [lia|].
  erewrite (st_bind_ok (st_get _)) by reflexivity. cbn [fst rpos cursor].
  transitivity ((readMagic ≫= λ magic,
    if magic =? 2 then decodeRecordBatchV2 topic partition
    else _ ← set_pos (len pre); decodeLegacyMessageSet now topic partition)
    (cursor pre (hd ++ bs), x)).
  { unfold readMagic. bind_cong. reflexivity. }
  erewrite st_bind_ok by (by apply Hm). destruct (magic =? 2); [done|].
  erewrite (st_bind_ok (set_pos _)) by reflexivity.
  unfold cursor. cbn [rbuf]. by rewrite <- app_assoc.
Qed.

Lemma runs_preamble h x : header_ok h → runs readMagic (enc_preamble h) x 2 x.
Proof using Type.
  intros []. unfold enc_preamble, readMagic. do 3 run_step. apply runs_readInt8. unfold inS. lia.
Qed.

(** Against Kafka's layout the decoder takes the sequence number for the
    record count. *)
Lemma kafka_batch_body crc h rs topic partition pre suf x :
  header_ok h → length crc = 4%nat → small (pre ++ enc_batch crc h rs ++ suf) →
  ∃ ts, decodeRecordBatch now topic partition (cursor pre (enc_batch crc h rs ++ suf), x) =
    readBodyV2 topic partition (ts, baseSequence h)
      (cursor (pre ++ enc_preamble h ++ kafka_header crc h ++
               be_put 4 (wrapU 32 (baseSequence h)))
         (be_put 4 (wrapU 32 (len rs)) ++ concat (map enc_rec rs) ++ suf), x).
Proof using Type.
  intros Hh Hcrc Hs. destruct (Hh).
  destruct (runs_readHeaderV2_raw (kafka_header crc h) (baseSequence h) x) as [ts Hts];
    [by apply kafka_header_length|done|].
  exists ts. rewrite enc_batch_split in Hs |- *.
  rewrite <- !app_assoc in Hs |- *.
  rewrite (decodeRecordBatch_magic _ _ _ 2); [|by apply runs_preamble| |done].
  2: { unfold enc_preamble. rewrite !len_app, !be_put_len, len_cons. len_lia. }
  change (2 =? 2) with true. cbv iota. rewrite <- decodeRecordBatchV2_split.
  erewrite st_bind_ok; [reflexivity|].
  rewrite (app_assoc (kafka_header _ _)).
  rewrite Hts; [|by rewrite <- !app_assoc]. by rewrite <- !app_assoc.
Qed.
End Batches.

(** ** Legacy message sets *)

Record legacy := mkLegacy {
  l_offset : Z; l_crc : Z; l_attributes : Z; l_key : option bytes; l_value : option bytes }.

Definition enc_legacy_body (m : legacy) : bytes :=
  be_put 4 (wrapU 32 (l_crc m)) ++ [byte.of_Z 0] ++ [byte.of_Z (l_attributes m)] ++
  enc_bytes (l_key m) ++ enc_bytes (l_value m).

(** A magic-0 message: offset, size, then the body the size announces. *)
Definition enc_legacy (m : legacy) : bytes :=
  be_put 8 (wrapU 64 (l_offset m)) ++ be_put 4 (wrapU 32 (len (enc_legacy_body m))) ++
  enc_legacy_body m.

Record legacy_ok (m : legacy) : Prop := {
  legacy_ok_off : inS 64 (l_offset m); legacy_ok_crc : inS 32 (l_crc m);
  legacy_ok_attr : inS 8 (l_attributes m); legacy_ok_key : short (l_key m);
  legacy_ok_value : short (l_value m); legacy_ok_len : len (enc_legacy_body m) < 2 ^ 31 }.

Section Legacy.
Context {X : Type} (now : Z → time) (topic : string) (partition : Z).
Implicit Types (x : X).

(** The messages decoded from a set that starts at offset [p]. *)
Fixpoint legacy_messages (p : Z) (ms : list legacy) : list Message :=
  match ms with
  | [] => []
  | m :: ms =>
      let p' := p + len (enc_legacy m) in
      mkMessage topic partition (l_key m) (l_value m) (now p') :: legacy_messages p' ms
  end.

(** *** The loop terminates and cannot panic *)

Lemma safe_readLegacyMessage x :
  safe (readLegacyMessage now topic partition) x (pure_post x (λ _, True)).
Proof using Type.
  eapply safe_bind; [apply safe_readInt32|]. intros ? ? [-> _].
  eapply safe_bind; [apply safe_readInt8|]. intros ? ? [-> _].
  eapply safe_bind; [apply safe_readInt8|]. intros ? ? [-> _].
  eapply safe_bind; [apply safe_readBytes|]. intros ? ? [-> _].
  eapply safe_bind; [apply safe_readBytes|]. intros ? ? [-> _].
  intros r Hr. eexists _, r, x. split; [reflexivity|]. split; [by apply forward_refl|done].
Qed.

Lemma legacy_loop_safe fuel : ∀ r x,
  wf r → remaining r < Z.of_nat fuel →
  ∃ ms r', legacy_loop now fuel topic partition (r, x) = Ok (ms, (r', x)) ∧ forward r r'.
Proof using Type.
  induction fuel as [|fuel IH]; intros r x Hr Hfuel.
  { rewrite wf_remaining in Hfuel by done. destruct Hr. lia. }
  assert (Hret : ∀ r', forward r r' → ∃ ms r'', (mret [] : M X (list Message)) (r', x) =
    Ok (ms, (r'', x)) ∧ forward r r'') by (intros r' ?; by eexists [], r').
  cbn [legacy_loop]. rewrite (st_bind_ok get_remaining _ _ (remaining r) (r, x)) by done.
  destruct (Z.ltb_spec (remaining r) 12); [by apply Hret, forward_refl|].
  destruct (readIntBE_exact 8 r x) as [v E1]; [done|lia|lia|].
  unfold readInt64. rewrite (st_bind_ok _ _ _ _ _ E1). clear E1. change (Z.of_nat 8) with 8.
  assert (F1 : forward r (advance r 8)).
  { rewrite wf_remaining in * by done. apply forward_advance; [done|lia|lia]. }
  pose proof (advance_remaining r 8 Hr ltac:(lia) ltac:(lia)) as Hr1.
  destruct (safe_readInt32 x (advance r 8)) as (size & r2 & ? & E2 & F2 & [-> _]); [apply F1|].
  rewrite (st_bind_ok _ _ _ _ _ E2), (st_bind_ok get_remaining _ _ (remaining r2) (r2, x)) by done.
  destruct ((size <=? 0) || (remaining r2 <? size)); [apply Hret; by etrans|].
  destruct (safe_readLegacyMessage x r2) as (m & r3 & ? & E3 & F3 & [-> _]); [apply F2|].
  rewrite (st_bind_ok _ _ _ _ _ E3).
  pose proof (forward_remaining _ _ (proj2 (proj2 F1)) F2).
  pose proof (forward_remaining _ _ (proj2 (proj2 F2)) F3).
  destruct (IH r3 x) as (ms & r4 & E4 & F4); [apply F3|lia|].
  rewrite (st_bind_ok _ _ _ _ _ E4). eexists _, r4. split; [reflexivity|].
  etrans; [exact F1|]. etrans; [exact F2|]. by etrans.
Qed.

Lemma safe_decodeLegacyMessageSet x :
  safe (decodeLegacyMessageSet now topic partition) x (pure_post x (λ r, r.2 = None)).
Proof using Type.
  intros r Hr. unfold decodeLegacyMessageSet.
  erewrite (st_bind_ok (st_get _)) by reflexivity. cbn [fst].
  destruct (legacy_loop_safe (legacy_fuel r) r x) as (ms & r' & E & F); [done| |].
  { unfold legacy_fuel. pose proof Hr as [Hp _]. rewrite wf_remaining by done. lia. }
  rewrite (st_bind_ok _ _ _ _ _ E). by eexists _, r', x.
Qed.
End Legacy.

Section LegacyRoundTrip.
Context {X : Type} (now : Z → time) (topic : string) (partition : Z).
Implicit Types (x : X).

Lemma enc_legacy_len m : 26 <= len (enc_legacy m).
Proof using Type.
  unfold enc_legacy, enc_legacy_body.
  assert (∀ b, 4 <= len (enc_bytes b)).
  { intros [b|]; cbn [enc_bytes]; rewrite ?len_app, be_put_len; [pose proof (len_nonneg b)|]; lia. }
  pose proof (H (l_key m)). pose proof (H (l_value m)).
  rewrite !len_app, !be_put_len, !len_cons. change (len []) with 0. lia.
Qed.

(** One message: the body is read back and stamped with the clock. *)
Lemma read_legacy_body m pre suf x :
  legacy_ok m → small (pre ++ enc_legacy_body m ++ suf) →
  readLegacyMessage now topic partition (cursor pre (enc_legacy_body m ++ suf), x) =
  Ok (mkMessage topic partition (l_key m) (l_value m) (now (len (pre ++ enc_legacy_body m))),
      (cursor (pre ++ enc_legacy_body m) suf, x)).
Proof using Type.
  intros [] Hs. unfold short in *.
  assert (Hr : runs (_ ← readInt32; _ ← readInt8; _ ← readInt8; key ← readBytes;
                     value ← readBytes; mret (key, value))
                (enc_legacy_body m) x (l_key m, l_value m) x).
  { unfold enc_legacy_body.
    do 4 (eapply runs_bind; [solve [eauto with wire]|]). repeat run_step. }
  specialize (Hr pre suf Hs).
  assert (Heq : ∀ s, readLegacyMessage now topic partition s =
    ((_ ← readInt32; _ ← readInt8; _ ← readInt8; key ← readBytes;
      value ← readBytes; mret (key, value)) ≫= λ '(key, value),
      t ← st_get (λ s : reader * X, now (rpos s.1)); mret (mkMessage topic partition key value t)) s).
  { intros s. unfold readLegacyMessage. bind_cong. reflexivity. }
  rewrite Heq. clear Heq. by rewrite (st_bind_ok _ _ _ _ _ Hr).
Qed.

Lemma legacy_loop_roundtrip ms : ∀ fuel pre suf x,
  Forall legacy_ok ms → (length ms < fuel)%nat → len suf < 12 →
  small (pre ++ concat (map enc_legacy ms) ++ suf) →
  legacy_loop now fuel topic partition (cursor pre (concat (map enc_legacy ms) ++ suf), x) =
  Ok (legacy_messages now topic partition (len pre) ms,
      (cursor (pre ++ concat (map enc_legacy ms)) suf, x)).
Proof using Type.
  induction ms as [|m ms IH]; intros fuel pre suf x Hms Hfuel Hsuf Hs; cbn [length] in Hfuel;
    (destruct fuel as [|fuel]; [lia|]); cbn [legacy_loop map concat] in *.
  { rewrite (st_bind_ok get_remaining _ _ (len suf) (cursor pre suf, x))
      by (unfold get_remaining, st_get; cbn [fst]; by rewrite cursor_remaining).
    destruct (Z.ltb_spec (len suf) 12); [|lia]. by rewrite app_nil_r. }
  apply Forall_cons in Hms as [Hm Hms]. pose proof (enc_legacy_len m) as Hl.
  set (tl := concat (map enc_legacy ms) ++ suf).
  rewrite <- app_assoc in Hs |- *. fold tl in Hs |- *.
  rewrite (st_bind_ok get_remaining _ _ (len (enc_legacy m ++ tl))
    (cursor pre (enc_legacy m ++ tl), x))
    by (unfold get_remaining, st_get; cbn [fst]; by rewrite cursor_remaining).
  destruct (Z.ltb_spec (len (enc_legacy m ++ tl)) 12); [rewrite len_app in *; pose proof (len_nonneg tl); lia|].
  destruct (Hm). unfold enc_legacy in Hs, Hl |- *. rewrite <- !app_assoc in Hs |- *.
  erewrite st_bind_ok by (apply runs_readInt64; done).
  rewrite app_assoc in Hs.
  pose proof (len_nonneg (enc_legacy_body m)).
  erewrite st_bind_ok by (apply runs_readInt32; [unfold inS; lia|done]).
  rewrite app_assoc in Hs.
  erewrite (st_bind_ok get_remaining)
    by (unfold get_remaining, st_get; cbn [fst]; by rewrite cursor_remaining).
  rewrite !len_app, !be_put_len in Hl.
  destruct (Z.leb_spec (len (enc_legacy_body m)) 0).
  { unfold enc_legacy_body in *. rewrite !len_app, be_put_len in *. len_lia. }
  destruct (Z.ltb_spec (len (enc_legacy_body m ++ tl)) (len (enc_legacy_body m)));
    [rewrite len_app in *; pose proof (len_nonneg tl); lia|]. cbn [orb].
  erewrite st_bind_ok by (apply read_legacy_body; done). subst tl.
  rewrite app_assoc in Hs.
  erewrite st_bind_ok by (apply IH; [done|lia|done|done]).
  cbn [legacy_messages]. unfold mret, st_ret. unfold enc_legacy.
  rewrite <- !app_assoc, !len_app, !Z.add_assoc. reflexivity.
Qed.

Lemma decodeRecordBatch_legacy ms pre suf x :
  Forall legacy_ok ms → ms ≠ [] → len suf < 12 →
  small (pre ++ concat (map enc_legacy ms) ++ suf) →
  decodeRecordBatch now topic partition (cursor pre (concat (map enc_legacy ms) ++ suf), x) =
  Ok ((legacy_messages now topic partition (len pre) ms, None),
      (cursor (pre ++ concat (map enc_legacy ms)) suf, x)).
Proof using Type.
  intros Hms Hne Hsuf Hs. destruct ms as [|m ms]; [done|].
  set (bs := concat (map enc_legacy (m :: ms))) in *.
  assert (Hlen : (26 * length (m :: ms) <= length bs)%nat).
  { subst bs. clear -now. induction (m :: ms) as [|m' l IH]; [cbn; lia|].
    cbn [map concat length]. rewrite length_app. pose proof (enc_legacy_len m').
    unfold len in *. lia. }
  apply Forall_cons in Hms as Hms'. destruct Hms' as [Hm _].
  assert (Hmagic : ∃ hd tl, bs = hd ++ tl ∧ runs readMagic hd x 0 x).
  { exists (be_put 8 (wrapU 64 (l_offset m)) ++ be_put 4 (wrapU 32 (len (enc_legacy_body m))) ++
      be_put 4 (wrapU 32 (l_crc m)) ++ [byte.of_Z 0]). eexists. split.
    - subst bs. cbn [map concat]. unfold enc_legacy, enc_legacy_body at 2.
      rewrite <- !app_assoc. reflexivity.
    - destruct Hm. pose proof (len_nonneg (enc_legacy_body m)). unfold readMagic.
      do 3 run_step. apply runs_readInt8. unfold inS. lia. }
  destruct Hmagic as (hd & tl & Htl & Hmagic).
  assert (Hbs : bs ++ suf = hd ++ tl ++ suf) by (by rewrite Htl, <- app_assoc).
  rewrite Hbs, (decodeRecordBatch_magic _ _ _ _ 0), <- Hbs;
    [|done|rewrite <- Hbs; cbn [length] in Hlen; len_lia|by rewrite <- Hbs].
  change (0 =? 2) with false. cbv iota. unfold decodeLegacyMessageSet.
  erewrite (st_bind_ok (st_get _)) by reflexivity. cbn [fst].
  erewrite st_bind_ok; [reflexivity|]. apply legacy_loop_roundtrip; try done.
  unfold legacy_fuel. rewrite cursor_remaining by done. unfold len.
  rewrite length_app. lia.
Qed.
End LegacyRoundTrip.

(** ** Kafka's own layout *)

(** A batch as a producer without idempotence sends it. *)
Definition plain_header (ts : Z) : batch_header :=
  mkBatchHeader 0 0 0 0 0 ts ts (-1) (-1) (-1).

Lemma plain_header_ok ts : inS 64 ts → header_ok (plain_header ts).
Proof. intros H. split; cbn; solve [done | unfold inS; lia]. Qed.

Lemma readBodyV2_negative {X} topic partition ts n r (x : X) :
  n < 0 → readBodyV2 topic partition (ts, n) (r, x) = Panic PanicMakeSlice.
Proof.
  intros Hn. unfold readBodyV2, make_messages, makeslice, mbind, st_bind, outcome_bind.
  destruct (Z.ltb_spec n 0); [done|lia].
Qed.

(** C22. Kafka's magic-2 layout puts a four-byte checksum between the magic
    byte and the attributes; [decodeRecordBatchV2] does not read it, so every
    later field is read four bytes early and the record count is taken from
    the base sequence.  A batch of a producer without idempotence (base
    sequence -1) makes the decoder panic in [make([]Message, 0, -1)], which
    takes the process down; the first batch of an idempotent producer (base
    sequence 0) yields no message at all, whatever records it holds. *)
Theorem kafka_batch_misread {X} now topic partition crc h rs pre suf (x : X) :
  header_ok h → length crc = 4%nat → small (pre ++ enc_batch crc h rs ++ suf) →
  (baseSequence h < 0 →
   decodeRecordBatch now topic partition (cursor pre (enc_batch crc h rs ++ suf), x) =
     Panic PanicMakeSlice) ∧
  (baseSequence h = 0 →
   ∃ r', decodeRecordBatch now topic partition (cursor pre (enc_batch crc h rs ++ suf), x) =
     Ok (([], None), (r', x))).
Proof.
  intros Hh Hcrc Hs.
  destruct (kafka_batch_body now crc h rs topic partition pre suf x Hh Hcrc Hs) as [ts ->].
  split; [by apply readBodyV2_negative|]. intros ->. by eexists.
Qed.

Definition sample_rec : rec := mkRec 0 0 0 None (Some (bytes_of "{}")) [].

Lemma kafka_batch_misread_witness :
  decodeRecordBatch (X:=unit) (λ _, 0) "ome.alerts" 0
    (mkReader (enc_batch (be_put 4 0) (plain_header 1700000000000) [sample_rec]) 0, tt) =
  Panic PanicMakeSlice.
Proof.
  pose proof (kafka_batch_misread (X:=unit) (λ _, 0) "ome.alerts" 0 (be_put 4 0)
    (plain_header 1700000000000) [sample_rec] [] [] tt) as H.
  rewrite app_nil_r in H. apply H.
  - apply plain_header_ok. unfold inS. lia.
  - reflexivity.
  - unfold small. vm_compute. discriminate.
  - reflexivity.
Defined.
