(* ===== verification/Broker.v ===== *)
(** * Broker: the request handlers of internal/broker/broker.go

    The [Broker] struct with its topic set and message channel, and one
    definition per handler, dispatched by [handleRequest].  Handlers run in the
    reader monad of [Wire] with the broker as the extra state. *)
From S2P Require Import Prelude Binary Wire Config Records.
Import Reader Writer.
Open Scope Z_scope.

(** The listener and the mutex are left out: [handleRequest] runs the locked
    sections in sequence.  [msgCh] is the contents of the buffered channel. *)
Record Broker := mkBroker {
  cfg : KafkaConfig; topicSet : gmap string bool; msgCh : list Message; done_ : bool }.

(** [make(chan Message, 4096)] *)
Definition chanCap : Z := 4096.

(** [m[k]] on a [map[string]bool]: absent keys read [false]. *)
Definition bool_lookup (m : gmap string bool) (k : string) : bool := default false (m !! k).

Definition New (c : KafkaConfig) : Broker :=
  mkBroker c (foldl (λ ts t, <[t := true]> ts) ∅ (Topics c)) [] false.

Definition set_topicSet (ts : gmap string bool) (b : Broker) : Broker :=
  mkBroker (cfg b) ts (msgCh b) (done_ b).

(** [close(b.done)]: closing twice panics. *)
Definition Close (b : Broker) : outcome Broker :=
  if done_ b then Panic PanicCloseClosed
  else Ok (mkBroker (cfg b) (topicSet b) (msgCh b) true).

(** What a handler returns in Go: [([]byte, error)]. *)
Definition go_ret : Type := option bytes * option error.
Definition ret_bytes (w : writer) : go_ret := (Some w, None).

Open Scope writer_scope.

(** [if b { f } else { g }] and [if b { f }] on the writer. *)
Definition either (b : bool) (f g : writer → writer) (w : writer) : writer :=
  if b then f w else g w.
Definition when (b : bool) (f : writer → writer) (w : writer) : writer :=
  if b then f w else w.

Definition isFlexibleVersion (apiKey apiVersion : Z) : bool :=
  if apiKey =? 18 then 3 <=? apiVersion
  else if apiKey =? 3 then 9 <=? apiVersion
  else if apiKey =? 0 then 9 <=? apiVersion
  else 6 <=? apiVersion.

(** ** ApiVersions *)

Record apiEntry := mkApiEntry { key : Z; min : Z; max : Z }.

Definition supported : list apiEntry :=
  [mkApiEntry 0 0 8; mkApiEntry 3 0 9; mkApiEntry 18 0 3; mkApiEntry 17 0 1; mkApiEntry 36 0 2].

Definition write_entry (flexible : bool) (w : writer) (e : apiEntry) : writer :=
  w |> writeInt16 (key e) |> writeInt16 (min e) |> writeInt16 (max e)
    |> when flexible (writeUvarint 0).

Definition apiVersions_response (corrID version : Z) : writer :=
  let w := new |> writeInt32 corrID |> writeInt16 0 in
  if 3 <=? version then
    let w := w |> writeUvarint (wrapU 64 (len supported + 1)) in
    let w := foldl (write_entry true) w supported in
    w |> writeInt32 0 |> writeUvarint 0
  else
    let w := w |> writeInt32 (wrapS 32 (len supported)) in
    let w := foldl (write_entry false) w supported in
    w |> writeInt32 0.

Definition handleAPIVersions (corrID version : Z) : M Broker go_ret :=
  mret (ret_bytes (apiVersions_response corrID version)).

(** ** Metadata *)

Definition readRequestedTopics {X} (flexible : bool) : M X (list string) :=
  if flexible then
    u ← readUvarint;
    let n := int_sub (wrapS 64 u) 1 in
    ts ← for_collect (Z.to_nat n) (t ← readCompactString; _ ← readUvarint; mret t);
    _ ← readUvarint;
    mret ts
  else
    n ← readInt32;
    for_collect (Z.to_nat n) readString.

(** The body of the auto-create loop. *)
Definition autoCreate (ts : gmap string bool) (t : string) : gmap string bool :=
  if negb (bool_decide (t = ""%string)) && negb (bool_lookup ts t)
  then <[t := true]> ts else ts.

Definition autoCreateTopics (requested : list string) (b : Broker) : Broker :=
  if AutoCreateTopics (cfg b) then set_topicSet (foldl autoCreate (topicSet b) requested) b else b.

Definition advertised_host (c : KafkaConfig) : string :=
  if decide (AdvertisedHost c = ""%string) then "localhost" else AdvertisedHost c.
Definition advertised_port (c : KafkaConfig) : Z :=
  if AdvertisedPort c =? 0 then 9092 else AdvertisedPort c.

Definition zero_uuid : bytes := replicate 16 Byte.x00.

Definition write_topic (version : Z) (w : writer) (t : string) : writer :=
  let flexible := 9 <=? version in
  w |> writeInt16 0
    |> either flexible (writeCompactString t) (writeString t)
    |> when (9 <=? version) (writeRaw zero_uuid)
    |> when (1 <=? version) (writeBool false)
    |> either flexible (writeUvarint 2) (writeInt32 1)
    |> writeInt16 0
    |> writeInt32 0
    |> writeInt32 1
    |> when (7 <=? version) (writeInt32 0)
    |> either flexible (writeUvarint 2) (writeInt32 1)
    |> writeInt32 1
    |> either flexible (writeUvarint 2) (writeInt32 1)
    |> writeInt32 1
    |> when (5 <=? version) (either flexible (writeUvarint 1) (writeInt32 0))
    |> when flexible (writeUvarint 0)
    |> when (8 <=? version) (writeInt32 (-2147483648))
    |> when flexible (writeUvarint 0).

Definition metadata_response (corrID version : Z) (host : string) (port : Z)
    (topics : list string) : writer :=
  let flexible := 9 <=? version in
  let w := new
    |> writeInt32 corrID
    |> when flexible (writeUvarint 0)
    |> writeInt32 0
    |> either flexible (writeUvarint 2) (writeInt32 1)
    |> writeInt32 1
    |> either flexible (writeCompactString host) (writeString host)
    |> writeInt32 (wrapS 32 port)
    |> either flexible (λ w, w |> writeUvarint 0 |> writeUvarint 0) (writeInt16 (-1))
    |> when (2 <=? version) (either flexible (writeUvarint 0) (writeInt16 (-1)))
    |> when (1 <=? version) (writeInt32 1)
    |> either flexible (writeUvarint (wrapU 64 (len topics + 1)))
                       (writeInt32 (wrapS 32 (len topics))) in
  let w := foldl (write_topic version) w topics in
  w |> when (8 <=? version) (writeInt32 0) |> when flexible (writeUvarint 0).

Section Handlers.
(** [order ts] is the order in which [for t := range b.topicSet] visits the
    map; [now] the clock while the reader stands at an offset. *)
Context (order : gmap string bool → list string) (now : Z → time).

Definition handleMetadata (corrID version : Z) : M Broker go_ret :=
  let flexible := 9 <=? version in
  requestedTopics ← readRequestedTopics flexible;
  _ ← st_modify (λ '(r, b), (r, autoCreateTopics requestedTopics b));
  b ← st_get (λ s : reader * Broker, s.2);
  let topics := order (topicSet b) in
  mret (ret_bytes (metadata_response corrID version
    (advertised_host (cfg b)) (advertised_port (cfg b)) topics)).

(** ** Produce *)

(** [select { case b.msgCh <- m: default: }]: a full channel drops. *)
Definition send_msg (b : Broker) (m : Message) : Broker :=
  if len (msgCh b) <? chanCap
  then mkBroker (cfg b) (topicSet b) (msgCh b ++ [m]) (done_ b) else b.

Definition send_all (msgs : list Message) : M Broker unit :=
  st_modify (λ '(r, b), (r, foldl send_msg b msgs)).

Definition skip_when (flexible : bool) : M Broker unit :=
  if flexible then _ ← readUvarint; mret tt else mret tt.

Definition readCount (flexible : bool) : M Broker Z :=
  if flexible then u ← readUvarint; mret (wrapS 32 (wrapS 32 u - 1)) else readInt32.

Definition producePartition (flexible : bool) (topic : string) : M Broker unit :=
  partition ← readInt32;
  _ ← readInt32;
  '(msgs, err) ← decodeRecordBatch now topic partition;
  match err with
  | Some _ => mret tt
  | None => _ ← send_all msgs; skip_when flexible
  end.

Definition produceTopic (flexible : bool) : M Broker unit :=
  topic ← if flexible then readCompactString else readString;
  nPartitions ← readCount flexible;
  _ ← for_n (Z.to_nat nPartitions) (producePartition flexible topic);
  skip_when flexible.

Definition produce_response (corrID : Z) (flexible : bool) : writer :=
  new |> writeInt32 corrID
      |> when flexible (writeUvarint 0)
      |> writeInt32 0
      |> either flexible (λ w, w |> writeUvarint 1 |> writeUvarint 0) (writeInt32 0).

Definition handleProduce (corrID apiVersion : Z) : M Broker go_ret :=
  let flexible := 9 <=? apiVersion in
  _ ← if flexible then readCompactNullableString else readString;
  _ ← readInt16;
  _ ← readInt32;
  nTopics ← readCount flexible;
  _ ← for_n (Z.to_nat nTopics) (produceTopic flexible);
  _ ← skip_when flexible;
  mret (ret_bytes (produce_response corrID flexible)).

(** ** SASL and errors *)

Definition saslHandshake_response (corrID : Z) : writer :=
  new |> writeInt32 corrID |> writeInt16 33 |> writeInt32 0.
Definition handleSaslHandshake (corrID : Z) : M Broker go_ret :=
  mret (ret_bytes (saslHandshake_response corrID)).

Definition saslAuthenticate_response (corrID : Z) : writer :=
  new |> writeInt32 corrID |> writeInt16 58 |> writeInt16 (-1) |> writeInt32 (-1).
Definition handleSaslAuthenticate (corrID : Z) : M Broker go_ret :=
  mret (ret_bytes (saslAuthenticate_response corrID)).

Definition buildErrorResponse (corrID errCode : Z) : writer :=
  new |> writeInt32 corrID |> writeInt16 errCode.

(** ** Dispatch *)

Definition readClientID (flexible : bool) : M Broker unit :=
  if flexible then _ ← readCompactString; _ ← readUvarint; mret tt
  else _ ← readString; mret tt.

Definition dispatch (apiKey apiVersion correlationID : Z) : M Broker go_ret :=
  if apiKey =? 18 then handleAPIVersions correlationID apiVersion
  else if apiKey =? 3 then handleMetadata correlationID apiVersion
  else if apiKey =? 0 then handleProduce correlationID apiVersion
  else if apiKey =? 17 then handleSaslHandshake correlationID
  else if apiKey =? 36 then handleSaslAuthenticate correlationID
  else mret (ret_bytes (buildErrorResponse correlationID 35)).

Definition request : M Broker go_ret :=
  apiKey ← readInt16;
  apiVersion ← readInt16;
  correlationID ← readInt32;
  _ ← readClientID (isFlexibleVersion apiKey apiVersion);
  dispatch apiKey apiVersion correlationID.

Definition handleRequest (body : bytes) (b : Broker) : outcome (go_ret * Broker) :=
  if len body <? 4 then Ok ((None, Some "request too short"%string), b)
  else match request (mkReader body 0, b) with
       | Ok (res, (_, b')) => Ok (res, b')
       | Panic p => Panic p
       | OutOfFuel => OutOfFuel
       end.
End Handlers.

Close Scope writer_scope.

(** ** The writer as concatenation *)

Definition enc_string (s : string) : bytes := writeString s [].
Definition enc_cstring (s : string) : bytes := writeCompactString s [].

Section Append.
Implicit Types (w : writer).

Lemma writeInt8_eq v w : writeInt8 v w = w ++ [byte.of_Z v].
Proof. done. Qed.
Lemma writeInt16_eq v w : writeInt16 v w = w ++ be_put 2 (wrapU 16 v).
Proof. done. Qed.
Lemma writeInt32_eq v w : writeInt32 v w = w ++ be_put 4 (wrapU 32 v).
Proof. done. Qed.
Lemma writeUvarint_eq v w : writeUvarint v w = w ++ PutUvarint v.
Proof. done. Qed.
Lemma writeRaw_eq l w : writeRaw l w = w ++ l.
Proof. done. Qed.
Lemma writeBool_false_eq w : writeBool false w = w ++ [byte.of_Z 0].
Proof. done. Qed.
Lemma writeString_eq s w : writeString s w = w ++ enc_string s.
Proof.
  unfold enc_string, writeString, writeInt16. case_decide; [done|].
  by rewrite app_nil_l, app_assoc.
Qed.
Lemma writeCompactString_eq s w : writeCompactString s w = w ++ enc_cstring s.
Proof.
  unfold enc_cstring, writeCompactString, writeUvarint. by rewrite app_nil_l, app_assoc.
Qed.

(** A loop of appending steps appends the pieces in order. *)
Lemma foldl_append {A} (f : writer → A → writer) l w :
  (∀ w a, f w a = w ++ f [] a) → foldl f w l = w ++ concat (map (f []) l).
Proof.
  intros Hf. revert w. induction l as [|a l IH]; intros w; cbn; [by rewrite app_nil_r|].
  by rewrite IH, Hf, app_assoc.
Qed.
End Append.

Create Rewrite HintDb writer.
#[export] Hint Rewrite writeInt8_eq writeInt16_eq writeInt32_eq writeUvarint_eq writeRaw_eq
  writeBool_false_eq writeString_eq writeCompactString_eq : writer.

Ltac writer_simp := unfold either, when, new in *; autorewrite with writer; rewrite ?app_nil_l.

Lemma runs_enc_string {X} s (x : X) : slen s < 2 ^ 15 → runs readString (enc_string s) x s x.
Proof. apply runs_readString. Qed.
Lemma runs_enc_cstring {X} s (x : X) :
  slen s < 2 ^ 62 → runs readCompactString (enc_cstring s) x s x.
Proof. apply runs_readCompactString. Qed.
#[export] Hint Resolve runs_enc_string runs_enc_cstring : wire.

Lemma runs_for_collect {X A B} (m : M X A) (enc : B → bytes) (val : B → A) (l : list B) (x : X) :
  (∀ a, a ∈ l → runs m (enc a) x (val a) x) →
  runs (for_collect (length l) m) (concat (map enc l)) x (map val l) x.
Proof.
  induction l as [|a l IH]; intros H; cbn [length for_collect map concat]; [apply runs_ret|].
  eapply runs_bind; [apply H; left|].
  eapply runs_bind_nil; [apply IH; intros; apply H; by right|apply runs_ret].
Qed.

(** Decide every version test of the goal. *)
Ltac version_tests :=
  repeat match goal with
  | |- context [?k <=? ?v] =>
      first [ replace (k <=? v) with true by (symmetry; apply Z.leb_le; lia)
            | replace (k <=? v) with false by (symmetry; apply Z.leb_gt; lia) ]
  end.

Lemma write_entry_append flexible w e : write_entry flexible w e = w ++ write_entry flexible [] e.
Proof. unfold write_entry. destruct flexible; writer_simp; by rewrite <- ?app_assoc. Qed.

Lemma write_topic_append version w t : write_topic version w t = w ++ write_topic version [] t.
Proof.
  unfold write_topic, either, when.
  repeat case_match; autorewrite with writer; by rewrite <- ?app_assoc.
Qed.

(** ** Whole requests *)

Definition map_keys {A} (m : gmap string A) : list string := (map_to_list m).*1.

(** Ranging over a map visits every key once, in an order the runtime picks. *)
Definition range_order (order : gmap string bool → list string) : Prop :=
  ∀ ts, order ts ≡ₚ map_keys ts.

Lemma elem_of_map_keys {A} (m : gmap string A) k : k ∈ map_keys m ↔ is_Some (m !! k).
Proof.
  unfold map_keys. rewrite list_elem_of_fmap. split.
  - intros ([k' a] & -> & H%elem_of_map_to_list). by eexists.
  - intros [a H]. exists (k, a). split; [done|]. by apply elem_of_map_to_list.
Qed.

Lemma map_keys_NoDup {A} (m : gmap string A) : NoDup (map_keys m).
Proof. apply NoDup_fst_map_to_list. Qed.

Lemma map_keys_order : range_order map_keys.
Proof. by intros ts. Qed.

Definition enc_header (apiKey version corrID : Z) (clientID : string) : bytes :=
  be_put 2 (wrapU 16 apiKey) ++ be_put 2 (wrapU 16 version) ++ be_put 4 (wrapU 32 corrID) ++
  if isFlexibleVersion apiKey version then enc_cstring clientID ++ PutUvarint 0
  else enc_string clientID.

(** What follows the part of a request its handler reads is not looked at. *)
Lemma handleRequest_prefix order now body rest b resp b' :
  runs (request order now) body b (resp, None) b' → 4 <= len body → small (body ++ rest) →
  handleRequest order now (body ++ rest) b = Ok ((resp, None), b').
Proof.
  intros Hr Hl Hs. unfold handleRequest. pose proof (len_nonneg rest).
  destruct (Z.ltb_spec (len (body ++ rest)) 4); [rewrite len_app in *; lia|].
  specialize (Hr [] rest). rewrite app_nil_l in Hr.
  change (mkReader (body ++ rest) 0) with (cursor [] (body ++ rest)). by rewrite Hr.
Qed.

Lemma handleRequest_runs order now body b resp b' :
  runs (request order now) body b (resp, None) b' → 4 <= len body → small body →
  handleRequest order now body b = Ok ((resp, None), b').
Proof. intros Hr Hl Hs. rewrite <- (app_nil_r body) in *. by eapply handleRequest_prefix; rewrite ?app_nil_r in *. Qed.

Lemma enc_header_len apiKey version corrID clientID :
  8 <= len (enc_header apiKey version corrID clientID).
Proof. unfold enc_header. rewrite !len_app, !be_put_len. destruct (isFlexibleVersion _ _); len_lia. Qed.

(** The header in front of a request body is consumed and dispatched. *)
Lemma runs_request order now apiKey version corrID clientID bs b res b' :
  inS 16 apiKey → inS 16 version → inS 32 corrID → slen clientID < 2 ^ 15 →
  runs (dispatch order now apiKey version corrID) bs b res b' →
  runs (request order now) (enc_header apiKey version corrID clientID ++ bs) b res b'.
Proof.
  intros Hk Hv Hc Hs Hd. assert (slen clientID < 2 ^ 62) by lia.
  unfold request, enc_header. rewrite <- !app_assoc. do 3 run_step.
  eapply runs_bind; [|exact Hd]. unfold readClientID.
  destruct (isFlexibleVersion apiKey version); repeat run_step.
Qed.

Lemma runs_modify {X} (f : X → X) (x : X) :
  runs (st_modify (λ '(r, x), (r, f x))) [] x tt (f x).
Proof. intros pre suf _. by rewrite app_nil_r. Qed.

Lemma runs_get_extra {X} (x : X) : runs (st_get (λ s : reader * X, s.2)) [] x x x.
Proof. intros pre suf _. by rewrite app_nil_r. Qed.

(** ** Metadata requests *)

Definition enc_topics (flexible : bool) (topics : list string) : bytes :=
  if flexible then
    PutUvarint (wrapU 64 (len topics + 1)) ++
    concat (map (λ t, enc_cstring t ++ PutUvarint 0) topics) ++ PutUvarint 0
  else be_put 4 (wrapU 32 (len topics)) ++ concat (map enc_string topics).

Lemma runs_readRequestedTopics {X} flexible topics (x : X) :
  Forall (λ t, slen t < 2 ^ 15) topics → len topics < 2 ^ 31 →
  runs (readRequestedTopics flexible) (enc_topics flexible topics) x topics x.
Proof.
  intros Ht Hn. pose proof (len_nonneg topics). rewrite Forall_forall in Ht.
  rewrite <- (map_id topics) at 2.
  unfold readRequestedTopics, enc_topics. destruct flexible.
  - run_step. rewrite compact_len by lia.
    replace (Z.to_nat (len topics)) with (length topics) by (unfold len; lia).
    eapply runs_bind; [apply (runs_for_collect _ _ id)|repeat run_step].
    intros t Hin%Ht. cbv beta. assert (slen t < 2 ^ 62) by lia. repeat run_step.
  - run_step. replace (Z.to_nat (len topics)) with (length topics) by (unfold len; lia).
    apply (runs_for_collect _ _ id). intros t Hin%Ht. by apply runs_enc_string.
Qed.

Lemma autoCreate_step ts t' t :
  is_Some (autoCreate ts t' !! t) ↔ is_Some (ts !! t) ∨ (t = t' ∧ t ≠ ""%string).
Proof.
  unfold autoCreate, bool_lookup.
  case_bool_decide as Hne; cbn [negb andb]; [naive_solver|].
  destruct (decide (t = t')) as [->|Hnt].
  - destruct (ts !! t') as [[]|] eqn:E; cbn; rewrite ?E, ?lookup_insert_eq; naive_solver.
  - destruct (ts !! t') as [[]|]; cbn; rewrite ?lookup_insert_ne by done; naive_solver.
Qed.

Lemma autoCreate_lookup req : ∀ ts t,
  is_Some (foldl autoCreate ts req !! t) ↔ is_Some (ts !! t) ∨ (t ∈ req ∧ t ≠ ""%string).
Proof.
  induction req as [|t' req IH]; intros ts t; cbn [foldl].
  - split; [by left|]. intros [H|[H%not_elem_of_nil _]]; done.
  - rewrite IH, autoCreate_step, elem_of_cons. naive_solver.
Qed.

Lemma advertised_host_short c : slen (AdvertisedHost c) < 2 ^ 15 → slen (advertised_host c) < 2 ^ 15.
Proof. unfold advertised_host. case_decide; [done|done]. Qed.
Lemma advertised_port_range c : inS 32 (AdvertisedPort c) → inS 32 (advertised_port c).
Proof. unfold advertised_port. destruct (_ =? 0); [unfold inS; lia|done]. Qed.

Lemma runs_handleMetadata order now version corrID topics b :
  inS 32 corrID → Forall (λ t, slen t < 2 ^ 15) topics → len topics < 2 ^ 31 →
  runs (dispatch order now 3 version corrID) (enc_topics (9 <=? version) topics) b
    (ret_bytes (metadata_response corrID version (advertised_host (cfg b)) (advertised_port (cfg b))
       (order (topicSet (autoCreateTopics topics b))))) (autoCreateTopics topics b).
Proof.
  intros Hc Ht Hn. unfold dispatch. change (3 =? 18) with false. change (3 =? 3) with true. cbv iota.
  unfold handleMetadata. cbv zeta.
  eapply runs_bind_nil; [by apply runs_readRequestedTopics|].
  rewrite <- (app_nil_l []). eapply runs_bind; [apply runs_modify|].
  eapply runs_bind_nil; [apply runs_get_extra|].
  assert (Hcfg : cfg (autoCreateTopics topics b) = cfg b)
    by (unfold autoCreateTopics; by destruct (AutoCreateTopics (cfg b))).
  rewrite Hcfg. apply runs_ret.
Qed.

(** The configuration the metadata encoder can represent. *)
Record config_ok (c : KafkaConfig) : Prop := {
  config_ok_host : slen (AdvertisedHost c) < 2 ^ 15;
  config_ok_port : inS 32 (AdvertisedPort c) }.

(** ** Produce requests *)

Lemma runs_for_n {X A} (m : M X unit) (enc : A → bytes) (f : X → A → X) (l : list A) :
  (∀ a x, a ∈ l → runs m (enc a) x tt (f x a)) →
  ∀ x, runs (for_n (length l) m) (concat (map enc l)) x tt (foldl f x l).
Proof.
  induction l as [|a l IH]; intros H x; cbn [length for_n map concat foldl]; [apply runs_ret|].
  eapply runs_bind; [apply H; left|]. apply IH. intros. apply H. by right.
Qed.

Lemma foldl_concat {A B C} (f : A → B → A) (g : C → list B) l a :
  foldl (λ a c, foldl f a (g c)) a l = foldl f a (concat (map g l)).
Proof. revert a. induction l as [|c l IH]; intros a; cbn; [done|]. by rewrite foldl_app, IH. Qed.

(** The records for one partition: its index, the size announced for them (not
    used by the decoder) and the batch. *)
Record part := mkPart { p_index : Z; p_size : Z; p_header : batch_header; p_recs : list rec }.

Definition enc_part (p : part) : bytes :=
  be_put 4 (wrapU 32 (p_index p)) ++ be_put 4 (wrapU 32 (p_size p)) ++
  enc_batch [] (p_header p) (p_recs p).

Definition enc_topic (t : string * list part) : bytes :=
  enc_string t.1 ++ be_put 4 (wrapU 32 (len t.2)) ++ concat (map enc_part t.2).

Definition enc_produce (txid : string) (acks timeout : Z) (ts : list (string * list part)) : bytes :=
  enc_string txid ++ be_put 2 (wrapU 16 acks) ++ be_put 4 (wrapU 32 timeout) ++
  be_put 4 (wrapU 32 (len ts)) ++ concat (map enc_topic ts).

(** The messages the records stand for, in the order they are sent. *)
Definition part_messages (topic : string) (p : part) : list Message :=
  map (message_of topic (p_index p) (baseTimestamp (p_header p))) (p_recs p).
Definition topic_messages (t : string * list part) : list Message :=
  concat (map (part_messages t.1) t.2).
Definition produced (ts : list (string * list part)) : list Message :=
  concat (map topic_messages ts).

Record part_ok (p : part) : Prop := {
  part_ok_index : inS 32 (p_index p); part_ok_size : inS 32 (p_size p);
  part_ok_header : header_ok (p_header p); part_ok_recs : Forall rec_ok (p_recs p);
  part_ok_count : len (p_recs p) < 2 ^ 31 }.

Definition topic_ok (t : string * list part) : Prop :=
  slen t.1 < 2 ^ 15 ∧ Forall part_ok t.2 ∧ len t.2 < 2 ^ 31.

Section Produce.
Context (now : Z → time).

Lemma runs_producePartition topic p b :
  part_ok p →
  runs (producePartition now false topic) (enc_part p) b tt
    (foldl send_msg b (part_messages topic p)).
Proof using Type.
  intros []. unfold producePartition, enc_part. do 2 run_step.
  eapply runs_bind_nil; [by apply runs_decodeRecordBatch|]. cbv beta iota.
  eapply runs_bind_nil; [apply runs_modify|]. apply runs_ret.
Qed.

Lemma runs_produceTopic t b :
  topic_ok t →
  runs (produceTopic now false) (enc_topic t) b tt (foldl send_msg b (topic_messages t)).
Proof using Type.
  destruct t as [t ps]. intros (Ht & Hps & Hn). cbn [fst snd] in *.
  pose proof (len_nonneg ps). unfold produceTopic, enc_topic. cbn [fst snd].
  run_step. unfold readCount. run_step. unfold topic_messages. cbn [fst snd].
  replace (Z.to_nat (len ps)) with (length ps) by (unfold len; lia).
  rewrite <- foldl_concat. eapply runs_bind_nil; [|apply runs_ret].
  apply runs_for_n. intros p b' Hin. apply runs_producePartition.
  rewrite Forall_forall in Hps. by apply Hps.
Qed.

Lemma runs_handleProduce version corrID txid acks timeout ts b :
  version < 9 → slen txid < 2 ^ 15 → inS 16 acks → inS 32 timeout →
  Forall topic_ok ts → len ts < 2 ^ 31 →
  runs (handleProduce now corrID version) (enc_produce txid acks timeout ts) b
    (ret_bytes (produce_response corrID false)) (foldl send_msg b (produced ts)).
Proof using Type.
  intros Hv Ht Ha Hto Hts Hn. pose proof (len_nonneg ts).
  unfold handleProduce, enc_produce. version_tests. cbv zeta iota.
  do 3 run_step. unfold readCount. run_step. unfold produced.
  replace (Z.to_nat (len ts)) with (length ts) by (unfold len; lia).
  rewrite <- foldl_concat. eapply runs_bind_nil.
  - apply runs_for_n. intros t b' Hin. apply runs_produceTopic.
    rewrite Forall_forall in Hts. by apply Hts.
  - eapply runs_bind_nil; [apply runs_ret|]. apply runs_ret.
Qed.
End Produce.

Lemma handleRequest_produce order now version corrID clientID txid acks timeout ts b :
  0 <= version < 9 → inS 32 corrID → slen clientID < 2 ^ 15 →
  slen txid < 2 ^ 15 → inS 16 acks → inS 32 timeout → Forall topic_ok ts → len ts < 2 ^ 31 →
  small (enc_header 0 version corrID clientID ++ enc_produce txid acks timeout ts) →
  handleRequest order now (enc_header 0 version corrID clientID ++ enc_produce txid acks timeout ts) b =
    Ok ((Some (produce_response corrID false), None), foldl send_msg b (produced ts)).
Proof.
  intros Hv Hc Hid Ht Ha Hto Hts Hn Hs. apply handleRequest_runs; [| |done].
  - apply runs_request; [unfold inS; lia|unfold inS; lia|done|done|].
    unfold dispatch. change (0 =? 18) with false. change (0 =? 3) with false.
    change (0 =? 0) with true. cbv iota. apply runs_handleProduce; (done || lia).
  - pose proof (enc_header_len 0 version corrID clientID). len_lia.
Qed.

(** What sending does to the channel: it takes what fits. *)
Lemma send_all_channel ms : ∀ b,
  foldl send_msg b ms = mkBroker (cfg b) (topicSet b)
    (msgCh b ++ take (Z.to_nat (chanCap - len (msgCh b))) ms) (done_ b).
Proof.
  induction ms as [|m ms IH]; intros b; cbn [foldl].
  { rewrite take_nil, app_nil_r. by destruct b. }
  rewrite IH. unfold send_msg. destruct (Z.ltb_spec (len (msgCh b)) chanCap) as [Hlt|Hge].
  - cbn [cfg topicSet msgCh done_]. rewrite <- app_assoc. do 2 f_equal.
    replace (Z.to_nat (chanCap - len (msgCh b))) with (S (Z.to_nat (chanCap - len (msgCh b ++ [m])))) by len_lia.
    done.
  - replace (Z.to_nat (chanCap - len (msgCh b))) with 0%nat by lia. by rewrite !take_0.
Qed.

(** ** Produce requests with a legacy message set *)

Definition enc_legacy_produce (txid : string) (acks timeout : Z) (topic : string)
    (partition size : Z) (ms : list legacy) : bytes :=
  enc_string txid ++ be_put 2 (wrapU 16 acks) ++ be_put 4 (wrapU 32 timeout) ++
  be_put 4 (wrapU 32 1) ++ enc_string topic ++ be_put 4 (wrapU 32 1) ++
  be_put 4 (wrapU 32 partition) ++ be_put 4 (wrapU 32 size) ++ concat (map enc_legacy ms).

Lemma finishes_legacy_produce now version corrID pre txid acks timeout topic partition size ms b :
  version < 9 → slen txid < 2 ^ 15 → inS 16 acks → inS 32 timeout → slen topic < 2 ^ 15 →
  inS 32 partition → inS 32 size → Forall legacy_ok ms → ms ≠ [] →
  let n := len (pre ++ enc_legacy_produce txid acks timeout topic partition size []) in
  finishes pre (handleProduce now corrID version)
    (enc_legacy_produce txid acks timeout topic partition size ms) b
    (ret_bytes (produce_response corrID false))
    (foldl send_msg b (legacy_messages now topic partition n ms)).
Proof.
  intros Hv Ht Ha Hto Htp Hp Hsz Hms Hne n. unfold handleProduce, enc_legacy_produce.
  version_tests. cbv zeta iota.
  do 3 (eapply finishes_bind; [solve [eauto with wire]|]; cbv beta).
  unfold readCount. eapply finishes_bind; [apply runs_readInt32; unfold inS; lia|].
  change (Z.to_nat 1) with 1%nat. cbn [for_n].
  eapply finishes_bind_end; [|eapply runs_bind_nil; [apply runs_ret|apply runs_ret]].
  eapply finishes_bind_end; [|apply runs_ret].
  unfold produceTopic. eapply finishes_bind; [solve [eauto with wire]|].
  unfold readCount. eapply finishes_bind; [apply runs_readInt32; unfold inS; lia|].
  change (Z.to_nat 1) with 1%nat. cbn [for_n].
  eapply finishes_bind_end; [|apply runs_ret].
  eapply finishes_bind_end; [|apply runs_ret].
  unfold producePartition. do 2 (eapply finishes_bind; [solve [eauto with wire]|]; cbv beta).
  eapply finishes_bind_end.
  - intros Hs. pose proof (decodeRecordBatch_legacy (X:=Broker) now topic partition ms) as H.
    erewrite <- (app_nil_r (concat (map enc_legacy ms))) at 1.
    rewrite H; [reflexivity|done|done|reflexivity|by rewrite app_nil_r].
  - cbv beta iota. eapply runs_bind_nil; [apply runs_modify|].
    replace (len _) with n; [apply runs_ret|].
    unfold n, enc_legacy_produce. cbn [map concat]. by rewrite app_nil_r, <- !app_assoc.
Qed.

Lemma handleRequest_legacy order now version corrID clientID txid acks timeout topic
    partition size ms b :
  0 <= version < 9 → inS 32 corrID → slen clientID < 2 ^ 15 → slen txid < 2 ^ 15 →
  inS 16 acks → inS 32 timeout → slen topic < 2 ^ 15 → inS 32 partition → inS 32 size →
  Forall legacy_ok ms → ms ≠ [] →
  let header := enc_header 0 version corrID clientID in
  let body := header ++ enc_legacy_produce txid acks timeout topic partition size ms in
  let start := len (header ++ enc_legacy_produce txid acks timeout topic partition size []) in
  small body →
  handleRequest order now body b =
    Ok ((Some (produce_response corrID false), None),
        foldl send_msg b (legacy_messages now topic partition start ms)).
Proof.
  intros Hv Hc Hid Ht Ha Hto Htp Hp Hsz Hms Hne header body start Hs.
  pose proof (enc_header_len 0 version corrID clientID) as Hl.
  unfold handleRequest. destruct (Z.ltb_spec (len body) 4); [subst body header; len_lia|].
  change (mkReader body 0) with (cursor [] body).
  assert (F : finishes [] (request order now) body b (ret_bytes (produce_response corrID false))
    (foldl send_msg b (legacy_messages now topic partition start ms))); [|by rewrite F].
  unfold request, body, header, enc_header. rewrite <- !app_assoc.
  do 3 (eapply finishes_bind; [solve [eauto with wire]|]; cbv beta).
  assert (Hfl : isFlexibleVersion 0 version = false).
  { unfold isFlexibleVersion. change (0 =? 18) with false. change (0 =? 3) with false.
    change (0 =? 0) with true. by version_tests. }
  rewrite Hfl. eapply finishes_bind; [unfold readClientID; repeat run_step|].
  unfold dispatch. change (0 =? 18) with false. change (0 =? 3) with false.
  change (0 =? 0) with true. cbv iota.
  match goal with |- finishes ?pre _ _ _ _ _ => assert (Hpre : pre = header) end.
  { subst header. unfold enc_header. rewrite Hfl. cbn [app]. by rewrite <- !app_assoc. }
  rewrite Hpre. apply finishes_legacy_produce; (done || lia).
Qed.

(** ** Samples *)

Definition sample_config : KafkaConfig :=
  mkKafkaConfig "0.0.0.0:9092" "ome" "bridge" 9092 ["ome.alerts"] true 1 1.

Definition sample_part : part := mkPart 0 0 (plain_header 1700000000000) [sample_rec].

Lemma sample_rec_ok : rec_ok sample_rec.
Proof.
  split; [unfold inS; cbn [r_attributes sample_rec]; lia
         |unfold inS; cbn [r_timestampDelta sample_rec]; lia
         |unfold inS; cbn [r_offsetDelta sample_rec]; lia
         |reflexivity|reflexivity|apply Forall_nil_2|reflexivity|vm_compute; reflexivity].
Qed.
