(* ===== verification/Replies.v ===== *)
(** * Replies: what internal/broker/broker.go tells a Kafka client

    The handlers' answers read with the schemas of [Protocol], which are the
    protocol's own: in which versions they say what they should, and what a
    client makes of them in the others.  With it, what a Produce or Metadata
    request does to the broker. *)
From S2P Require Import Prelude Binary GoLib Wire Config Records Protocol Broker.
Import Reader Writer.
Open Scope Z_scope.

(** ** Reading what the writer wrote *)

Create HintDb protocol discriminated.
#[export] Hint Constants Opaque : protocol.

Lemma reads_str s : s ≠ ""%string → slen s < 2 ^ 15 → reads (str false) (enc_string s) s.
Proof.
  intros Hne Hs. unfold enc_string, writeString. rewrite decide_False by done.
  unfold writeInt16. rewrite app_nil_l. unfold slen in *. set (b := String.list_byte_of_string s) in *.
  pose proof (len_nonneg b). rewrite wrapS_small by (done || (unfold inS; lia)).
  eapply reads_bind; [apply reads_int16; unfold inS; lia|]. cbv beta.
  eapply reads_bind_nil; [apply reads_raw|]. unfold b. rewrite <- (of_to_bytes s) at 2. apply reads_ret.
Qed.

Lemma reads_cstr s : slen s < 2 ^ 62 → reads (str true) (enc_cstring s) s.
Proof.
  intros Hs. unfold enc_cstring, writeCompactString, writeUvarint. rewrite app_nil_l. unfold slen in *.
  set (b := String.list_byte_of_string s) in *. pose proof (len_nonneg b).
  rewrite (wrapU_small 64) by (unfold inU; lia).
  eapply reads_bind; [apply reads_length_prefix_flexible; unfold inU; lia|]. cbv beta.
  replace (len b + 1 - 1) with (len b) by lia.
  eapply reads_bind_nil; [apply reads_raw|]. unfold b. rewrite <- (of_to_bytes s) at 2. apply reads_ret.
Qed.

Lemma reads_null_str : reads (nullable_str false) (be_put 2 (wrapU 16 (-1))) None.
Proof. eapply reads_bind_nil; [apply reads_int16; unfold inS; lia|apply reads_ret]. Qed.

Lemma reads_null_cstr : reads (nullable_str true) (PutUvarint 0) None.
Proof. eapply reads_bind_nil; [apply reads_length_prefix_flexible; unfold inU; lia|apply reads_ret]. Qed.

Lemma reads_false : reads boolean [byte.of_Z 0] false.
Proof.
  change [byte.of_Z 0] with (be_put 1 (wrapU (8 * Z.of_nat 1) 0)).
  eapply reads_bind_nil; [apply reads_int; [lia|unfold inS; cbn; lia]|apply reads_ret].
Qed.

Lemma reads_assoc {A B C} (p : parser A) (f : A → parser B) (g : B → parser C) bs c :
  reads (p ≫= λ a, f a ≫= g) bs c → reads ((p ≫= f) ≫= g) bs c.
Proof.
  intros H rest. rewrite <- (H rest). unfold mbind, parser_bind, option_bind.
  by destruct (p (bs ++ rest)) as [[a b]|].
Qed.

Lemma reads_ret_bind {A B} (a : A) (f : A → parser B) bs c : reads (f a) bs c → reads (mret a ≫= f) bs c.
Proof. done. Qed.

#[export] Hint Resolve reads_int16 reads_int32 reads_str reads_cstr reads_null_str reads_null_cstr reads_false
  reads_tags_true reads_uvarint reads_ret : protocol.
#[export] Hint Extern 1 (inS _ _) => (unfold inS; lia) : protocol.
#[export] Hint Extern 1 (inU _ _) => (unfold inU; lia) : protocol.

(** One read, of an array its length and then its items one by one. *)
Ltac read_step :=
  lazymatch goal with
  | |- reads (mret _) [] _ => apply reads_ret
  | |- reads ((_ ≫= _) ≫= _) _ _ => apply reads_assoc
  | |- reads (mret _ ≫= _) _ _ => apply reads_ret_bind
  | |- reads (tags false ≫= _) _ _ => apply reads_ret_bind
  | |- reads (since _ _ _ ≫= _) _ _ => unfold since at 1; cbv iota
  | |- reads (array _ _ ≫= _) _ _ => unfold array at 1, length_prefix at 1; cbv iota
  | |- reads (repeated (Z.to_nat 1) _ ≫= _) _ _ => change (Z.to_nat 1) with 1%nat; cbn [repeated]
  | |- reads (repeated (Z.to_nat 0) _ ≫= _) _ _ => change (Z.to_nat 0) with 0%nat; cbn [repeated]
  | |- reads (repeated (Z.to_nat (0 - 1)) _ ≫= _) _ _ => change (Z.to_nat (0 - 1)) with 0%nat; cbn [repeated]
  | |- reads (_ ≫= _) (_ ++ _) _ => eapply reads_bind; [solve [auto with protocol]|]
  | |- reads (_ ≫= _) _ _ => eapply reads_bind_nil; [solve [auto with protocol]|]
  end; cbv beta zeta.

(** A client with a smaller or another schema: one step of its reading. *)
Lemma bind_reads {A B} (p : parser A) (f : A → parser B) bs rest a :
  reads p bs a → (p ≫= f) (bs ++ rest) = f a rest.
Proof.
  intros H. change ((p ≫= f) (bs ++ rest)) with ('(a, b) ← p (bs ++ rest); f a b). by rewrite H.
Qed.

Lemma parser_bind_Some {A B} (p : parser A) (f : A → parser B) b c t :
  (p ≫= f) b = Some (c, t) → ∃ a u, p b = Some (a, u) ∧ f a u = Some (c, t).
Proof. intros ([a u] & H1 & H2)%bind_Some. eauto. Qed.

(** ** ApiVersions *)

(** The table the broker announces. *)
Definition announced_keys : list apiKey :=
  [mkApiKey 0 0 8; mkApiKey 3 0 9; mkApiKey 18 0 3; mkApiKey 17 0 1; mkApiKey 36 0 2].

Lemma reads_entry flexible e : e ∈ supported →
  reads (k ← int16; lo ← int16; hi ← int16; _ ← tags flexible; mret (mkApiKey k lo hi))
    (write_entry flexible [] e) (mkApiKey (key e) (min e) (max e)).
Proof.
  intros He.
  assert (Hr : inS 16 (key e) ∧ inS 16 (min e) ∧ inS 16 (max e)).
  { repeat (apply elem_of_cons in He as [->|He]); [..|by apply not_elem_of_nil in He]; unfold inS; cbn; lia. }
  destruct Hr as (H1 & H2 & H3). unfold write_entry. destruct flexible; writer_simp; rewrite <- ?app_assoc;
    repeat read_step.
Qed.

Lemma reads_entries flexible :
  reads (repeated 5 (k ← int16; lo ← int16; hi ← int16; _ ← tags flexible; mret (mkApiKey k lo hi)))
    (concat (map (write_entry flexible []) supported)) announced_keys.
Proof. apply (reads_repeated _ _ (λ e, mkApiKey (key e) (min e) (max e)) supported). apply reads_entry. Qed.

(** The throttle time the broker writes in version 0 too, which has none. *)
Definition throttle_extra (version : Z) : bytes := if version =? 0 then be_put 4 (wrapU 32 0) else [].

(** What a client of version 1 to 3 reads; one of version 0 leaves four bytes. *)
Lemma reads_apiVersions corrID version : inS 32 corrID → 0 <= version →
  ∃ bs, apiVersions_response corrID version = bs ++ throttle_extra version ∧
    reads (apiVersions_reply version) bs (mkApiVersionsReply corrID 0 announced_keys 0).
Proof.
  intros Hc Hv. unfold apiVersions_response, apiVersions_reply, throttle_extra. cbv zeta.
  change (wrapS 32 (len supported)) with 5. change (wrapU 64 (len supported + 1)) with 6.
  assert (Hcase : version = 0 ∨ 1 <= version < 3 ∨ 3 <= version) by lia.
  destruct Hcase as [->|[Hv1|Hv3]]; version_tests; try (replace (version =? 0) with false by lia);
    rewrite foldl_append by apply write_entry_append; writer_simp.
  - eexists. split; [reflexivity|]. rewrite <- ?app_assoc. do 2 read_step.
    unfold array, length_prefix. do 2 read_step.
    eapply reads_bind_nil; [apply (reads_entries false)|]. repeat read_step.
  - eexists. split; [symmetry; apply app_nil_r|]. rewrite <- ?app_assoc. do 2 read_step.
    unfold array, length_prefix. do 2 read_step.
    eapply reads_bind; [apply (reads_entries false)|]. repeat read_step.
  - eexists. split; [symmetry; apply app_nil_r|]. rewrite <- ?app_assoc. do 2 read_step.
    unfold array, length_prefix. do 4 read_step.
    eapply reads_bind; [apply (reads_entries true)|]. repeat read_step.
Qed.

(** ** Metadata *)

(** A topic as the broker presents it, and the cluster. *)
Definition served (t : string) : topicReply :=
  mkTopicReply 0 t false [mkPartitionReply 0 0 1 [1] [1] []].
Definition cluster (corrID : Z) (host : string) (port : Z) (names : list string) : metadataReply :=
  mkMetadataReply corrID 0 [mkNodeReply 1 host port None] None 1 (map served names).

Definition name_ok (t : string) : Prop := t ≠ ""%string ∧ slen t < 2 ^ 15.

Lemma version_cases v : 3 <= v <= 8 → 3 <= v < 5 ∨ 5 <= v < 7 ∨ v = 7 ∨ v = 8.
Proof. lia. Qed.

Lemma reads_topic version t : 3 <= version <= 8 → name_ok t →
  reads (topic_reply version) (write_topic version [] t) (served t).
Proof.
  intros Hv [Hne Ht]. unfold write_topic, topic_reply, partition_reply. cbv zeta.
  destruct (version_cases version Hv) as [|[|[|]]]; version_tests; writer_simp;
    rewrite <- ?app_assoc; repeat read_step.
Qed.

Lemma reads_metadata corrID version host port topics : 3 <= version <= 8 →
  inS 32 corrID → inS 32 port → name_ok host → Forall name_ok topics → len topics < 2 ^ 31 →
  reads (metadata_reply version) (metadata_response corrID version host port topics)
    (cluster corrID host port topics).
Proof.
  intros Hv Hc Hp [Hh1 Hh2] Ht Hn. pose proof (len_nonneg topics).
  assert (HT : reads (repeated (Z.to_nat (len topics)) (topic_reply version))
    (concat (map (write_topic version []) topics)) (map served topics)).
  { unfold len. rewrite Nat2Z.id. apply reads_repeated. intros t Hin. rewrite Forall_forall in Ht.
    by apply reads_topic, Ht. }
  unfold metadata_response, metadata_reply, node_reply. cbv zeta.
  rewrite foldl_append by apply write_topic_append. rewrite (wrapS_small 32 eq_refl port) by done.
  rewrite (wrapS_small 32 eq_refl (len topics)) by (unfold inS; lia).
  destruct (version_cases version Hv) as [|[|[|]]]; version_tests; writer_simp;
    rewrite <- ?app_assoc; repeat read_step;
    first [eapply reads_bind; [exact HT|] | eapply reads_bind_nil; [exact HT|]]; repeat read_step.
Qed.

(** *** Clients whose schema the broker does not follow *)

Lemma bind_assoc_at {A B C} (p : parser A) (f : A → parser B) (g : B → parser C) b :
  ((p ≫= f) ≫= g) b = (p ≫= λ a, f a ≫= g) b.
Proof. unfold mbind, parser_bind, option_bind. by destruct (p b) as [[a u]|]. Qed.

Lemma bind_ret_at {A B} (a : A) (f : A → parser B) b : (mret a ≫= f) b = f a b.
Proof. done. Qed.

(** The same steps on what a client has read. *)
Ltac client_step H :=
  lazymatch type of H with
  | ((_ ≫= _) ≫= _) _ = _ => rewrite bind_assoc_at in H
  | (mret _ ≫= _) _ = _ => rewrite bind_ret_at in H
  | (tags false ≫= _) _ = _ => unfold tags at 1 in H; cbv iota in H
  | (since _ _ _ ≫= _) _ = _ => unfold since at 1 in H; cbv iota in H
  | (array _ _ ≫= _) _ = _ => unfold array at 1, length_prefix at 1 in H; cbv iota in H
  | (repeated (Z.to_nat 0) _ ≫= _) _ = _ => change (Z.to_nat 0) with 0%nat in H; cbn [repeated] in H
  | (repeated (Z.to_nat (0 - 1)) _ ≫= _) _ = _ => change (Z.to_nat (0 - 1)) with 0%nat in H; cbn [repeated] in H
  | (repeated (Z.to_nat (2 - 1)) _ ≫= _) _ = _ => change (Z.to_nat (2 - 1)) with 1%nat in H; cbn [repeated] in H
  | (_ ≫= _) (_ ++ _) = _ => erewrite bind_reads in H by (solve [auto with protocol])
  end; cbv beta zeta in H.

(** Whatever else a client finds in the rest. *)
Ltac client_rest H :=
  repeat lazymatch type of H with
  | (mret _ ≫= _) _ = _ => rewrite bind_ret_at in H; cbv beta zeta in H
  | (_ ≫= _) _ = Some _ =>
      let H' := fresh in
      destruct (parser_bind_Some _ _ _ _ _ H) as (? & ? & _ & H'); clear H; rename H' into H; cbv beta zeta in H
  end.

(** Before version 3 there is no throttle time: its four zero bytes are read as
    the number of brokers. *)
Lemma old_client_no_broker corrID version host port topics m rest : version < 3 → inS 32 corrID →
  metadata_reply version (metadata_response corrID version host port topics) = Some (m, rest) → md_brokers m = [].
Proof.
  intros Hv Hc. unfold metadata_response, metadata_reply. cbv zeta.
  rewrite foldl_append by apply write_topic_append.
  assert (Hcase : version < 1 ∨ version = 1 ∨ version = 2) by lia.
  destruct Hcase as [|[|]]; version_tests; writer_simp; rewrite <- !app_assoc; intros Hm;
    repeat client_step Hm; client_rest Hm; cbv [mret parser_ret] in Hm; by simplify_eq.
Qed.

(** In version 9 there is no topic id yet: a topic's sixteen zero bytes begin
    with a flag and a null list of partitions. *)
Lemma topic_without_partitions t : slen t < 2 ^ 15 → ∃ bs more, write_topic 9 [] t = bs ++ more ∧
  reads (topic_reply 9) bs (mkTopicReply 0 t false []).
Proof.
  intros Ht. assert (slen t < 2 ^ 62) by lia. unfold write_topic. version_tests. writer_simp.
  change zero_uuid with ([byte.of_Z 0] ++ PutUvarint 0 ++ be_put 4 (wrapU 32 0) ++ PutUvarint 0 ++ replicate 9 Byte.x00).
  eexists (be_put 2 (wrapU 16 0) ++ enc_cstring t ++ [byte.of_Z 0] ++ PutUvarint 0 ++ be_put 4 (wrapU 32 0) ++ PutUvarint 0), _.
  split; [rewrite <- !app_assoc; reflexivity|]. unfold topic_reply. cbv zeta. version_tests. repeat read_step.
Qed.

Lemma flexible_client_no_partition corrID host port t topics m rest :
  inS 32 corrID → inS 32 port → slen host < 2 ^ 15 → slen t < 2 ^ 15 → len topics < 2 ^ 31 →
  metadata_reply 9 (metadata_response corrID 9 host port (t :: topics)) = Some (m, rest) →
  ∃ l, md_topics m = mkTopicReply 0 t false [] :: l.
Proof.
  intros Hc Hp Hh Ht Hn. pose proof (len_nonneg topics). assert (slen host < 2 ^ 62) by lia.
  destruct (topic_without_partitions t Ht) as (bs & more & Et & Hbs).
  unfold metadata_response, metadata_reply, node_reply. cbv zeta.
  rewrite foldl_append by apply write_topic_append. cbn [map concat]. rewrite Et.
  rewrite (wrapU_small 64 (len (t :: topics) + 1)) by (unfold inU; rewrite len_cons; lia).
  rewrite (wrapS_small 32 eq_refl port) by done.
  version_tests. writer_simp. rewrite <- !app_assoc. intros Hm. repeat client_step Hm.
  erewrite bind_reads in Hm by (apply reads_uvarint; unfold inU; rewrite len_cons; lia). cbv beta in Hm.
  rewrite bind_ret_at in Hm. cbv beta in Hm.
  replace (Z.to_nat (len (t :: topics) + 1 - 1)) with (S (length topics)) in Hm by (rewrite len_cons; unfold len; lia).
  change (repeated (S (length topics)) (topic_reply 9)) with
    (x ← topic_reply 9; l ← repeated (length topics) (topic_reply 9); mret (x :: l)) in Hm.
  rewrite bind_assoc_at in Hm. erewrite bind_reads in Hm by exact Hbs. cbv beta in Hm.
  rewrite bind_assoc_at in Hm. client_rest Hm. unfold mret, parser_ret in Hm. simplify_eq. cbn [md_topics]. eauto.
Qed.

(** ** Requests *)

(** A request header as a client writes it: the client id has a 16-bit length
    in every version, and tagged fields follow it in a flexible one. *)
Definition client_header (apiKey version corrID : Z) (clientID : string) : bytes :=
  be_put 2 (wrapU 16 apiKey) ++ be_put 2 (wrapU 16 version) ++ be_put 4 (wrapU 32 corrID) ++
  enc_string clientID ++ (if isFlexibleVersion apiKey version then PutUvarint 0 else []).

(** [readClientID] takes the client id of a flexible version for a compact
    string.  The first byte of a short id's length is then an empty string, the
    second the number of tagged fields, and the id itself is left unread. *)
Lemma runs_flexible_clientID {X} s (x : X) : s ≠ ""%string → slen s < 128 →
  ∃ bs more, enc_string s = bs ++ more ∧ len bs = 2 ∧
    runs (_ ← readCompactString; _ ← readUvarint; mret ()) bs x () x.
Proof.
  intros Hne Hs. unfold slen in *. pose proof (len_nonneg (String.list_byte_of_string s)).
  exists (PutUvarint 0 ++ PutUvarint (slen s)), (bytes_of s). unfold slen.
  assert (E : be_put 2 (wrapU 16 (slen s)) = PutUvarint 0 ++ PutUvarint (slen s)).
  { unfold slen. rewrite wrapU_small by (unfold inU; lia). unfold PutUvarint. cbn [put_uvarint_loop].
    destruct (Z.ltb_spec (len (String.list_byte_of_string s)) 0x80); [|lia].
    unfold be_put, le_split. rewrite Z.shiftr_div_pow2, Z.div_small by lia. done. }
  unfold slen in E. split_and!.
  - unfold enc_string, writeString. rewrite decide_False by done. unfold writeInt16. rewrite app_nil_l.
    unfold slen. rewrite wrapS_small by (done || (unfold inS; lia)). by rewrite E.
  - by rewrite <- E, be_put_len.
  - eapply runs_bind.
    + unfold readCompactString. eapply runs_bind_nil; [apply runs_readUvarint; unfold inU; lia|]. cbv beta zeta. by apply runs_takeN_neg.
    + cbv beta. eapply runs_bind_nil; [apply runs_readUvarint; unfold inU, slen; lia|apply runs_ret].
Qed.

Lemma handleRequest_apiVersions order now version corrID clientID rest b :
  0 <= version <= 3 → inS 32 corrID → clientID ≠ ""%string → slen clientID < 128 →
  let body := client_header 18 version corrID clientID ++ rest in small body →
  ∃ resp, handleRequest order now body b = Ok ((Some resp, None), b) ∧
    apiVersions_reply version resp =
      Some (mkApiVersionsReply corrID 0 announced_keys 0, throttle_extra version).
Proof.
  intros Hv Hc Hne Hid body Hs. exists (apiVersions_response corrID version). split.
  - assert (Hr : ∃ bs more, client_header 18 version corrID clientID = bs ++ more ∧ 4 <= len bs ∧
      runs (request order now) bs b (Some (apiVersions_response corrID version), None) b).
    { unfold client_header, isFlexibleVersion. change (18 =? 18) with true. cbv iota.
      destruct (Z.leb_spec 3 version) as [Hf|Hf].
      - destruct (runs_flexible_clientID clientID b Hne Hid) as (cid & more & -> & Hl & Hcid).
        eexists (be_put 2 (wrapU 16 18) ++ be_put 2 (wrapU 16 version) ++ be_put 4 (wrapU 32 corrID) ++ cid), _.
        split; [rewrite <- !app_assoc; reflexivity|]. split; [rewrite !len_app, !be_put_len; lia|].
        unfold request. do 3 run_step. unfold isFlexibleVersion. change (18 =? 18) with true. cbv iota.
        version_tests. eapply runs_bind_nil; [exact Hcid|]. apply runs_ret.
      - exists (enc_header 18 version corrID clientID ++ []), []. rewrite !app_nil_r. split; [|split].
        + unfold enc_header, isFlexibleVersion. change (18 =? 18) with true. cbv iota. by version_tests.
        + pose proof (enc_header_len 18 version corrID clientID). lia.
        + rewrite <- (app_nil_r (enc_header _ _ _ _)). apply runs_request; try (unfold inS in *; lia). apply runs_ret. }
    destruct Hr as (bs & more & E & Hl & Hr). unfold body in *. rewrite E, <- app_assoc in *.
    by apply handleRequest_prefix.
  - destruct (reads_apiVersions corrID version Hc ltac:(lia)) as (bs & -> & Hbs). apply Hbs.
Qed.

(** C21. An ApiVersions request of versions 0 to 3, in the layout Kafka gives its
    header and with any body: the broker does not change, and what a client of
    that version decodes from the response is the request's correlation id, no
    error, the table of the broker's interfaces and no throttle time.  Every byte
    is used, except in version 0: it has no throttle time, and the four zero
    bytes the broker writes for it are left over. *)
Theorem apiVersions_roundtrip order now version corrID clientID rest b :
  0 <= version <= 3 → inS 32 corrID → clientID ≠ ""%string → slen clientID < 128 →
  let body := client_header 18 version corrID clientID ++ rest in small body →
  ∃ resp, handleRequest order now body b = Ok ((Some resp, None), b) ∧
    apiVersions_reply version resp =
      Some (mkApiVersionsReply corrID 0 announced_keys 0, throttle_extra version).
Proof. apply handleRequest_apiVersions. Qed.

(** *** Produce *)

(** Version 0 has no throttle time; and the response lists no partition. *)
Definition acknowledges (version corrID : Z) (resp : bytes) : Prop :=
  produce_reply version resp = Some (mkProduceReply corrID [] 0, throttle_extra version).

Lemma reads_produce version corrID : 0 <= version < 9 → inS 32 corrID →
  acknowledges version corrID (produce_response corrID false).
Proof.
  intros Hv Hc. unfold acknowledges, produce_response, produce_reply, throttle_extra.
  destruct (Z.eqb_spec version 0) as [->|]; version_tests; writer_simp; rewrite <- ?app_assoc.
  - rewrite !app_assoc. match goal with |- ?p (?b ++ ?r) = Some (?a, _) => enough (reads p b a) as H by apply H end.
    repeat read_step.
  - match goal with |- ?p ?b = Some (?a, _) => enough (reads p b a) as H by (rewrite <- (app_nil_r b); apply H) end.
    repeat read_step.
Qed.

(** C2. A Produce request of a version the broker advertises, laid out as the
    handler reads it: the records of its batches, in request order, each with its
    topic, partition, key and value and the batch's timestamp, go to the end of
    the message channel as far as they fit in its 4096 places; the others are
    dropped.  Nothing else of the broker changes, and the response a client of
    that version decodes is the same in both cases: the request's correlation
    id, no throttle time, and no word about any partition. *)
Theorem produce_request order now version corrID clientID txid acks timeout ts b :
  0 <= version < 9 → inS 32 corrID → slen clientID < 2 ^ 15 →
  slen txid < 2 ^ 15 → inS 16 acks → inS 32 timeout → Forall topic_ok ts → len ts < 2 ^ 31 →
  let body := enc_header 0 version corrID clientID ++ enc_produce txid acks timeout ts in
  small body →
  ∃ resp b', handleRequest order now body b = Ok ((Some resp, None), b') ∧
    produce_reply version resp = Some (mkProduceReply corrID [] 0, throttle_extra version) ∧
    cfg b' = cfg b ∧ topicSet b' = topicSet b ∧ done_ b' = done_ b ∧
    msgCh b' = msgCh b ++ take (Z.to_nat (chanCap - len (msgCh b))) (produced ts).
Proof.
  intros Hv Hc Hid Ht Ha Hto Hts Hn body Hs. do 2 eexists.
  split; [unfold body; by apply handleRequest_produce|]. rewrite send_all_channel.
  split; [by apply reads_produce|done].
Qed.

(** C20. A Produce request that carries a magic-0 message set for one
    partition: each message of the set, in order, with its key and value and
    stamped with the clock at the moment it was decoded, goes to the end of the
    message channel as far as they fit; the others are dropped.  Nothing else
    changes and the response is that of any Produce request. *)
Theorem legacy_produce_request order now version corrID clientID txid acks timeout topic
    partition size ms b :
  0 <= version < 9 → inS 32 corrID → slen clientID < 2 ^ 15 → slen txid < 2 ^ 15 →
  inS 16 acks → inS 32 timeout → slen topic < 2 ^ 15 → inS 32 partition → inS 32 size →
  Forall legacy_ok ms → ms ≠ [] →
  let header := enc_header 0 version corrID clientID in
  let body := header ++ enc_legacy_produce txid acks timeout topic partition size ms in
  let start := len (header ++ enc_legacy_produce txid acks timeout topic partition size []) in
  small body →
  ∃ resp b', handleRequest order now body b = Ok ((Some resp, None), b') ∧
    produce_reply version resp = Some (mkProduceReply corrID [] 0, throttle_extra version) ∧
    cfg b' = cfg b ∧ topicSet b' = topicSet b ∧ done_ b' = done_ b ∧
    msgCh b' = msgCh b ++ take (Z.to_nat (chanCap - len (msgCh b)))
      (legacy_messages now topic partition start ms).
Proof.
  intros Hv Hc Hid Ht Ha Hto Htp Hp Hsz Hms Hne header body start Hs. do 2 eexists.
  split; [unfold body, header; by apply handleRequest_legacy|]. rewrite send_all_channel.
  split; [by apply reads_produce|done].
Qed.

(** *** Metadata *)

Lemma map_keys_length {A} (m : gmap string A) : len (map_keys m) = Z.of_nat (size m).
Proof. unfold map_keys, len. by rewrite length_fmap, length_map_to_list. Qed.

Lemma autoCreate_size req : ∀ ts,
  Z.of_nat (size (foldl autoCreate ts req)) <= Z.of_nat (size ts) + len req.
Proof.
  induction req as [|t req IH]; intros ts; cbn [foldl]; [len_lia|]. etrans; [apply IH|]. rewrite len_cons.
  enough (Z.of_nat (size (autoCreate ts t)) <= Z.of_nat (size ts) + 1) by lia.
  unfold autoCreate. destruct (_ && _); [|lia]. rewrite map_size_insert. destruct (ts !! t); cbn; lia.
Qed.

Lemma advertised_host_ok c : config_ok c → name_ok (advertised_host c).
Proof.
  intros [Hh _]. split; [|by apply advertised_host_short]. unfold advertised_host. by case_decide.
Qed.

(** The topics known after a request. *)
Lemma autoCreateTopics_known topics b t : is_Some (topicSet (autoCreateTopics topics b) !! t) ↔
  is_Some (topicSet b !! t) ∨ (AutoCreateTopics (cfg b) = true ∧ t ∈ topics ∧ t ≠ ""%string).
Proof.
  unfold autoCreateTopics. destruct (AutoCreateTopics (cfg b)); cbn [topicSet set_topicSet].
  - rewrite autoCreate_lookup. naive_solver.
  - naive_solver.
Qed.

Lemma autoCreateTopics_size topics b :
  len (map_keys (topicSet (autoCreateTopics topics b))) <= len (map_keys (topicSet b)) + len topics.
Proof.
  rewrite !map_keys_length. unfold autoCreateTopics. pose proof (len_nonneg topics).
  destruct (AutoCreateTopics (cfg b)); cbn [topicSet set_topicSet]; [apply autoCreate_size|lia].
Qed.

Lemma autoCreateTopics_same topics b : let b' := autoCreateTopics topics b in
  cfg b' = cfg b ∧ msgCh b' = msgCh b ∧ done_ b' = done_ b.
Proof. unfold autoCreateTopics. by destruct (AutoCreateTopics (cfg b)). Qed.

Lemma handleRequest_metadata order now version corrID clientID topics rest b :
  inS 16 version → inS 32 corrID → slen clientID < 2 ^ 15 → Forall (λ t, slen t < 2 ^ 15) topics → len topics < 2 ^ 31 →
  small (enc_header 3 version corrID clientID ++ enc_topics (9 <=? version) topics ++ rest) →
  let b' := autoCreateTopics topics b in
  handleRequest order now (enc_header 3 version corrID clientID ++ enc_topics (9 <=? version) topics ++ rest) b =
    Ok ((Some (metadata_response corrID version (advertised_host (cfg b)) (advertised_port (cfg b))
      (order (topicSet b'))), None), b').
Proof.
  intros Hv Hc Hid Ht Hn Hs b'. rewrite app_assoc in *.
  apply handleRequest_prefix; [|pose proof (enc_header_len 3 version corrID clientID); len_lia|done].
  apply runs_request; [unfold inS; lia|done..|]. by apply runs_handleMetadata.
Qed.


(** ** Witnesses *)

Lemma apiVersions_roundtrip_witness : ∃ resp,
  handleRequest map_keys (λ _, 0) (client_header 18 3 7 "rdkafka" ++ enc_cstring "librdkafka") (New sample_config) =
    Ok ((Some resp, None), New sample_config) ∧
  apiVersions_reply 3 resp = Some (mkApiVersionsReply 7 0 announced_keys 0, []).
Proof.
  apply (apiVersions_roundtrip map_keys (λ _, 0) 3 7 "rdkafka" (enc_cstring "librdkafka") (New sample_config)).
  - lia.
  - unfold inS. lia.
  - discriminate.
  - reflexivity.
  - unfold small. vm_compute. discriminate.
Defined.

Lemma produce_request_witness : ∃ resp b',
  handleRequest map_keys (λ _, 0)
    (enc_header 0 7 1 "ome" ++ enc_produce "" 1 1000 [("ome.health"%string, [sample_part])])
    (New sample_config) = Ok ((Some resp, None), b') ∧
  produce_reply 7 resp = Some (mkProduceReply 1 [] 0, []) ∧
  msgCh b' = [mkMessage "ome.health" 0 (r_key sample_rec) (r_value sample_rec) 1700000000000000000].
Proof.
  destruct (produce_request map_keys (λ _, 0) 7 1 "ome" "" 1 1000 [("ome.health"%string, [sample_part])]
    (New sample_config)) as (resp & b' & H1 & H2 & _ & _ & _ & H3); try (unfold inS; lia); try reflexivity.
  - apply Forall_singleton. split_and!; [reflexivity|apply Forall_singleton|reflexivity].
    split; [unfold inS; cbn [p_index sample_part]; lia|unfold inS; cbn [p_size sample_part]; lia
           |apply plain_header_ok; unfold inS; lia|apply Forall_singleton, sample_rec_ok|reflexivity].
  - unfold small. vm_compute. discriminate.
  - exists resp, b'. split; [exact H1|]. split; [exact H2|]. rewrite H3. vm_compute. reflexivity.
Defined.

Definition sample_legacy : legacy := mkLegacy 0 0 0 (Some (bytes_of "k")) (Some (bytes_of "{}")).

Lemma legacy_produce_request_witness : ∃ resp b',
  handleRequest map_keys (λ p, p)
    (enc_header 0 2 1 "ome" ++ enc_legacy_produce "" 1 1000 "ome.alerts" 0 0 [sample_legacy])
    (New sample_config) = Ok ((Some resp, None), b') ∧
  produce_reply 2 resp = Some (mkProduceReply 1 [] 0, []) ∧
  map Key (msgCh b') = [Some (bytes_of "k")] ∧ map Value (msgCh b') = [Some (bytes_of "{}")].
Proof.
  destruct (legacy_produce_request map_keys (λ p, p) 2 1 "ome" "" 1 1000 "ome.alerts" 0 0
    [sample_legacy] (New sample_config)) as (resp & b' & H1 & H2 & _ & _ & _ & H3);
    try (unfold inS; lia); try reflexivity.
  - apply Forall_singleton.
    split; try reflexivity; unfold inS; cbn [l_offset l_crc l_attributes sample_legacy]; lia.
  - discriminate.
  - unfold small. vm_compute. discriminate.
  - exists resp, b'. split; [exact H1|]. split; [exact H2|]. rewrite H3. vm_compute. auto.
Defined.

