(* ===== verification/BrokerSafety.v ===== *)
(** * BrokerSafety: what every request does to the broker, and which crash it

    Properties of [Broker.handleRequest] over arbitrary request bytes: the
    correlation id is echoed, the broker's invariant and the order of the
    channel are kept, which requests cannot panic, and which do. *)
From S2P Require Import Prelude Binary Wire Config Records Broker.
Import Reader Writer.
Open Scope Z_scope.

(** ** Every response starts with the correlation id *)

Lemma either_prefix b f g w :
  w `prefix_of` f w → w `prefix_of` g w → w `prefix_of` either b f g w.
Proof. by destruct b. Qed.
Lemma when_prefix b f w : w `prefix_of` f w → w `prefix_of` when b f w.
Proof. by destruct b. Qed.

Lemma prefix_writer (f : writer → writer) (l : bytes) w : f w = w ++ l → w `prefix_of` f w.
Proof. intros ->. by exists l. Qed.

Lemma foldl_prefix {A} (f : writer → A → writer) l w :
  (∀ w a, w `prefix_of` f w a) → w `prefix_of` foldl f w l.
Proof. intros H. revert w. induction l as [|a l IH]; intros w; cbn; [done|]. etrans; [apply H|apply IH]. Qed.

(** Peel the writer calls off the right of a pipeline, down to [w0]. *)
Ltac prefix_chain :=
  repeat first [ reflexivity
    | progress cbv beta
    | match goal with
      | |- _ `prefix_of` foldl ?f ?w ?l => transitivity w; [|apply foldl_prefix]
      | |- _ `prefix_of` either ?b ?f ?g ?w => transitivity w; [|apply either_prefix]
      | |- _ `prefix_of` when ?b ?f ?w => transitivity w; [|apply when_prefix]
      | |- _ `prefix_of` writeInt16 ?v ?w => transitivity w; [|eapply prefix_writer, writeInt16_eq]
      | |- _ `prefix_of` writeInt32 ?v ?w => transitivity w; [|eapply prefix_writer, writeInt32_eq]
      | |- _ `prefix_of` writeUvarint ?v ?w => transitivity w; [|eapply prefix_writer, writeUvarint_eq]
      | |- _ `prefix_of` writeString ?v ?w => transitivity w; [|eapply prefix_writer, writeString_eq]
      | |- _ `prefix_of` writeCompactString ?v ?w =>
          transitivity w; [|eapply prefix_writer, writeCompactString_eq]
      end ].

Definition corr_bytes (corrID : Z) : bytes := writeInt32 corrID new.

Lemma apiVersions_prefix corrID version : corr_bytes corrID `prefix_of` apiVersions_response corrID version.
Proof.
  unfold apiVersions_response. cbv zeta. destruct (3 <=? version); prefix_chain;
    intros w a; unfold write_entry; prefix_chain.
Qed.

Lemma metadata_prefix corrID version host port topics :
  corr_bytes corrID `prefix_of` metadata_response corrID version host port topics.
Proof.
  unfold metadata_response. cbv zeta. prefix_chain.
  intros w a. eexists. apply write_topic_append.
Qed.

Lemma produce_prefix corrID flexible : corr_bytes corrID `prefix_of` produce_response corrID flexible.
Proof. unfold produce_response. prefix_chain. Qed.

(** What [dispatch] returns, for every key, version and reader state. *)
Lemma dispatch_prefix order now apiKey version corrID s resp err s' :
  dispatch order now apiKey version corrID s = Ok ((resp, err), s') →
  err = None ∧ ∃ w, resp = Some w ∧ corr_bytes corrID `prefix_of` w.
Proof.
  assert (Hret : ∀ w s0, corr_bytes corrID `prefix_of` w →
    (mret (ret_bytes w) : M Broker go_ret) s0 = Ok ((resp, err), s') →
    err = None ∧ ∃ w, resp = Some w ∧ corr_bytes corrID `prefix_of` w).
  { intros w s0 Hw H. unfold mret, st_ret, ret_bytes in H. simplify_eq. eauto. }
  unfold dispatch. repeat case_match; intros H'.
  - eapply Hret; [|exact H']. apply apiVersions_prefix.
  - repeat (apply st_bind_inv in H' as (? & ? & _ & H')). eapply Hret; [|exact H']. apply metadata_prefix.
  - unfold handleProduce in H'. repeat (apply st_bind_inv in H' as (? & ? & _ & H')).
    eapply Hret; [|exact H']. apply produce_prefix.
  - eapply Hret; [|exact H']. unfold saslHandshake_response. prefix_chain.
  - eapply Hret; [|exact H']. unfold saslAuthenticate_response. prefix_chain.
  - eapply Hret; [|exact H']. unfold buildErrorResponse. prefix_chain.
Qed.

Definition maxRequest : Z := 32 * 1024 * 1024.

Lemma maxRequest_small body : len body <= maxRequest → small body.
Proof. unfold small, maxRequest. lia. Qed.

(** The fixed header fields of any request of eight bytes or more. *)
Definition req_key (body : bytes) : Z := wrapS 16 (be_get (take 2 body)).
Definition req_version (body : bytes) : Z := wrapS 16 (be_get (take 2 (drop 2 body))).
Definition req_corr (body : bytes) : Z := wrapS 32 (be_get (take 4 (drop 4 body))).

Lemma request_header order now body b :
  8 <= len body → len body <= maxRequest →
  request order now (mkReader body 0, b) =
  (_ ← readClientID (isFlexibleVersion (req_key body) (req_version body));
   dispatch order now (req_key body) (req_version body) (req_corr body))
  (cursor (take 8 body) (drop 8 body), b).
Proof.
  intros Hl Hm. apply maxRequest_small in Hm as Hs.
  destruct (split_length 2 body) as (k & t1 & E1 & Hk & Hr1); [unfold len in *; lia|].
  destruct (split_length 2 t1) as (v & t2 & E2 & Hv & Hr2); [unfold len in *; lia|].
  destruct (split_length 4 t2) as (c & t3 & E3 & Hc & Hr3); [unfold len in *; lia|].
  assert (Hb : body = (k ++ v ++ c) ++ t3) by (subst; by rewrite <- !app_assoc).
  assert (Hkey : req_key body = wrapS 16 (be_get k)).
  { unfold req_key. by rewrite Hb, <- !app_assoc, take_app_length'. }
  assert (Hver : req_version body = wrapS 16 (be_get v)).
  { unfold req_version. by rewrite Hb, <- !app_assoc, drop_app_length', take_app_length'. }
  assert (Hcorr : req_corr body = wrapS 32 (be_get c)).
  { unfold req_corr. rewrite Hb, <- !app_assoc, (app_assoc k v), drop_app_length', take_app_length';
      [done|done|rewrite length_app; lia]. }
  rewrite Hkey, Hver, Hcorr.
  assert (Ht8 : take 8 body = k ++ v ++ c).
  { rewrite Hb. apply take_app_length'. rewrite !length_app. lia. }
  assert (Hd8 : drop 8 body = t3).
  { rewrite Hb. apply drop_app_length'. rewrite !length_app. lia. }
  rewrite Ht8, Hd8, Hb in *. clear Hb E1 E2 E3 Ht8 Hd8 Hkey Hver Hcorr.
  rewrite <- !app_assoc in *. unfold request.
  change (mkReader (k ++ v ++ c ++ t3) 0) with (cursor [] (k ++ v ++ c ++ t3)).
  erewrite st_bind_ok by (apply (runs_readIntBE_raw 2); [done|exact Hs]).
  erewrite st_bind_ok by (apply (runs_readIntBE_raw 2); [done|exact Hs]).
  erewrite st_bind_ok by (apply (runs_readIntBE_raw 4); [done|by rewrite <- !app_assoc]).
  by rewrite <- !app_assoc.
Qed.

(** Whatever bytes a client sends: if [handleRequest] answers, the answer
    starts with the correlation id of the request, byte for byte, and no
    error accompanies it. *)
Theorem response_echoes_correlation order now body b resp err b' :
  8 <= len body → len body <= maxRequest →
  handleRequest order now body b = Ok ((resp, err), b') →
  err = None ∧ ∃ w, resp = Some w ∧ take 4 w = take 4 (drop 4 body).
Proof.
  intros Hl Hm H. unfold handleRequest in H. destruct (Z.ltb_spec (len body) 4); [lia|].
  rewrite request_header in H by done.
  destruct (_ ≫= _) as [[res [r b1]]| |] eqn:E in H; simplify_eq.
  apply st_bind_inv in E as (u & s1 & _ & E).
  apply dispatch_prefix in E as (-> & w & -> & [tl Hw]). split; [done|]. exists w. split; [done|].
  rewrite Hw. unfold corr_bytes. rewrite writeInt32_eq. unfold new, req_corr. rewrite app_nil_l.
  rewrite take_app_length' by (by rewrite be_put_length).
  rewrite wrapU_wrapS, (be_put_wrap 4) by lia.
  set (c := take 4 (drop 4 body)). assert (Hc : length c = 4%nat) by (unfold c; len_lia).
  rewrite <- Hc at 1. apply be_put_get.
Qed.

Lemma response_echoes_correlation_witness :
  let body := enc_header 99 0 305419896 "ome" in
  ∃ w, handleRequest map_keys (λ _, 0) body (New sample_config) = Ok ((Some w, None), New sample_config) ∧
       take 4 w = [Byte.x12; Byte.x34; Byte.x56; Byte.x78].
Proof.
  intros body.
  destruct (handleRequest map_keys (λ _, 0) body (New sample_config)) as [[[resp err] b']| |] eqn:E;
    [|vm_compute in E; discriminate..].
  pose proof (response_echoes_correlation map_keys (λ _, 0) body (New sample_config) resp err b')
    as H. destruct H as (-> & w & -> & Hw).
  - vm_compute. discriminate.
  - vm_compute. discriminate.
  - exact E.
  - exists w. split; [|exact Hw]. vm_compute in E. vm_compute. congruence.
Defined.

(** ** What a request may change *)

(** [m] moves the extra state only along [R]. *)
Definition keeps {X A} (R : relation X) (m : M X A) : Prop :=
  ∀ s a s', m s = Ok (a, s') → R s.2 s'.2.

Create HintDb keeps.

Section Keeps.
Context {X : Type} (R : relation X) `{!PreOrder R}.

Lemma keeps_ret {A} (a : A) : keeps R (mret a).
Proof using All. intros s a' s' H. unfold mret, st_ret in H. by simplify_eq. Qed.

Lemma keeps_bind {A B} (m : M X A) (f : A → M X B) :
  keeps R m → (∀ a, keeps R (f a)) → keeps R (m ≫= f).
Proof using All.
  intros Hm Hf s b s' H. apply st_bind_inv in H as (a & s1 & H1 & H2).
  etrans; [by eapply Hm|by eapply Hf].
Qed.

Lemma keeps_get {A} (g : reader * X → A) : keeps R (st_get g).
Proof using All. intros s a s' H. unfold st_get in H. by simplify_eq. Qed.

Lemma keeps_modify (f : X → X) :
  (∀ x, R x (f x)) → keeps R (st_modify (λ '(r, x), (r, f x))).
Proof using Type. intros Hf [r x] a s' H. unfold st_modify in H. simplify_eq. apply Hf. Qed.

(** The primitive reads leave the extra state alone. *)
Ltac keeps_prim :=
  intros [r x] a s' H;
  repeat match type of H with
  | context [mbind _ ?o] => destruct o as [?| |] eqn:?; cbn [mbind outcome_bind] in H
  end; repeat (case_match; simplify_eq/=); reflexivity.

Lemma keeps_readInt8 : keeps R readInt8.
Proof using All. unfold readInt8. keeps_prim. Qed.
Lemma keeps_readIntBE n : keeps R (readIntBE n).
Proof using All.
  unfold readIntBE. intros [r x] a s' H. case_match; simplify_eq/=; [done|].
  destruct (slice_from _ _) as [l| |]; cbn [mbind outcome_bind] in H; try done.
  destruct (be_uint n l); cbn [mbind outcome_bind] in H; by simplify_eq/=.
Qed.
Lemma keeps_readUvarint : keeps R readUvarint.
Proof using All.
  unfold readUvarint. intros [r x] a s' H.
  destruct (slice_from _ _) as [l| |]; cbn [mbind outcome_bind] in H; try done.
  destruct (Uvarint l). by simplify_eq/=.
Qed.
Lemma keeps_readVarint : keeps R readVarint.
Proof using All.
  unfold readVarint. intros [r x] a s' H.
  destruct (slice_from _ _) as [l| |]; cbn [mbind outcome_bind] in H; try done.
  destruct (Varint l). by simplify_eq/=.
Qed.
Lemma keeps_takeN {A} (z : A) f n : keeps R (takeN z f n).
Proof using All.
  unfold takeN. intros [r x] a s' H. case_match; simplify_eq/=; [done|].
  destruct (slice _ _ _) as [l| |]; cbn [mbind outcome_bind] in H; try done.
  destruct (f l); cbn [mbind outcome_bind] in H; by simplify_eq/=.
Qed.
Lemma keeps_makeCopy n : keeps R (makeCopy n).
Proof using All.
  unfold makeCopy. intros [r x] a s' H. case_match; simplify_eq/=; [done|].
  destruct (makeslice _ _); cbn [mbind outcome_bind] in H; try done.
  destruct (slice _ _ _); cbn [mbind outcome_bind] in H; by simplify_eq/=.
Qed.
Lemma keeps_set_pos p : keeps R (set_pos p).
Proof using All. intros [r x] a s' H. unfold set_pos in H. by simplify_eq/=. Qed.
Lemma keeps_make_messages n : keeps R (make_messages n).
Proof using All.
  intros s a s' H. unfold make_messages in H.
  destruct (makeslice _ _); cbn [mbind outcome_bind] in H; by simplify_eq/=.
Qed.

Lemma keeps_for_n n (m : M X unit) : keeps R m → keeps R (for_n n m).
Proof using All.
  intros Hm. induction n as [|n IH]; cbn [for_n]; [apply keeps_ret|by apply keeps_bind].
Qed.
Lemma keeps_for_collect {A} n (m : M X A) : keeps R m → keeps R (for_collect n m).
Proof using All.
  intros Hm. induction n as [|n IH]; cbn [for_collect]; [apply keeps_ret|].
  apply keeps_bind; [done|]. intros a. apply keeps_bind; [done|]. intros. apply keeps_ret.
Qed.
End Keeps.

#[export] Hint Resolve keeps_ret keeps_bind keeps_get keeps_readInt8 keeps_readIntBE
  keeps_readUvarint keeps_readVarint keeps_takeN keeps_makeCopy keeps_set_pos
  keeps_make_messages keeps_for_n keeps_for_collect : keeps.
#[export] Hint Unfold readInt16 readInt32 readInt64 readString readCompactString
  readCompactNullableString readBytes readVarBytes get_remaining : keeps.

(** Walk through a sequence of reads, case by case. *)
Ltac keeps_walk :=
  repeat first
    [ solve [eauto 3 with keeps typeclass_instances]
    | apply keeps_bind; [apply _| |intros]
    | apply keeps_for_n; [apply _|]
    | apply keeps_for_collect; [apply _|]
    | case_match ].

Section Decode.
Context {X : Type} (R : relation X) `{!PreOrder R} (now : Z → time).

Lemma keeps_readRecordV2 t p ts : keeps R (readRecordV2 t p ts).
Proof using PreOrder0. unfold readRecordV2. keeps_walk. Qed.

Lemma keeps_recordsV2_loop n t p ts : keeps R (recordsV2_loop n t p ts).
Proof using PreOrder0.
  induction n as [|n IH]; cbn [recordsV2_loop]; keeps_walk.
Qed.

Lemma keeps_legacy_loop fuel t p : keeps R (legacy_loop now fuel t p).
Proof using All.
  induction fuel as [|fuel IH]; cbn [legacy_loop]; [by intros s a s'|].
  unfold readLegacyMessage. keeps_walk.
Qed.

Lemma keeps_decodeRecordBatch t p : keeps R (decodeRecordBatch now t p).
Proof using All.
  unfold decodeRecordBatch, decodeRecordBatchV2, decodeLegacyMessageSet.
  repeat first [apply keeps_recordsV2_loop | apply keeps_legacy_loop | progress keeps_walk].
Qed.
End Decode.

(** The broker's invariant: the channel never holds more than its capacity
    and the topic set maps every key it has to [true]. *)
Record broker_ok (b : Broker) : Prop := {
  broker_ok_chan : len (msgCh b) <= chanCap;
  broker_ok_topics : map_Forall (λ _ v, v = true) (topicSet b) }.

(** What a request may do to the broker: append to the channel, add topics. *)
Record grows (b b' : Broker) : Prop := {
  grows_cfg : cfg b' = cfg b;
  grows_done : done_ b' = done_ b;
  grows_chan : msgCh b `prefix_of` msgCh b';
  grows_topics : broker_ok b → topicSet b ⊆ topicSet b';
  grows_ok : broker_ok b → broker_ok b' }.

#[export] Instance grows_preorder : PreOrder grows.
Proof.
  split.
  - intros b. by split.
  - intros b1 b2 b3 [] []. split; [congruence|congruence|by etrans| |auto].
    intros H. etrans; auto.
Qed.

Lemma send_msg_grows b m : grows b (send_msg b m).
Proof.
  unfold send_msg. destruct (Z.ltb_spec (len (msgCh b)) chanCap); [|done].
  split; cbn; try done; [by eexists|]. intros [? ?]. split; cbn; [|done]. unfold chanCap in *. len_lia.
Qed.

Lemma send_all_grows ms b : grows b (foldl send_msg b ms).
Proof. revert b. induction ms as [|m ms IH]; intros b; cbn; [done|]. etrans; [apply send_msg_grows|apply IH]. Qed.

Lemma autoCreate_grows ts t :
  map_Forall (λ _ v, v = true) ts →
  ts ⊆ autoCreate ts t ∧ map_Forall (λ _ v, v = true) (autoCreate ts t).
Proof.
  intros H. unfold autoCreate, bool_lookup. destruct (ts !! t) as [v|] eqn:Et.
  - rewrite (H _ _ Et). cbn. by rewrite andb_false_r.
  - case_bool_decide; cbn; [done|]. split; [by apply insert_subseteq|by apply map_Forall_insert_2].
Qed.

Lemma autoCreateTopics_grows req b : grows b (autoCreateTopics req b).
Proof.
  unfold autoCreateTopics. destruct (AutoCreateTopics (cfg b)); [|done].
  assert (H : ∀ ts, map_Forall (λ _ v, v = true) ts →
    ts ⊆ foldl autoCreate ts req ∧ map_Forall (λ _ v, v = true) (foldl autoCreate ts req)).
  { induction req as [|t req IH]; intros ts Hts; cbn; [done|].
    destruct (autoCreate_grows ts t Hts) as [? Hts']. destruct (IH _ Hts'). split; [by etrans|done]. }
  split; cbn; [done|done|done| |]; intros [? Hts]; destruct (H _ Hts); by try split.
Qed.

Lemma request_grows order now : keeps grows (request order now).
Proof.
  assert (Hd : ∀ t p, keeps grows (decodeRecordBatch now t p))
    by (intros; by apply keeps_decodeRecordBatch, _).
  assert (Hsend : ∀ ms, keeps grows (send_all ms))
    by (intros ms; apply keeps_modify; intros; apply send_all_grows).
  assert (Hauto : ∀ req, keeps grows (st_modify (λ '(r, b), (r, autoCreateTopics req b))))
    by (intros req; apply keeps_modify; intros; apply autoCreateTopics_grows).
  unfold request, readClientID, dispatch, handleAPIVersions, handleMetadata, readRequestedTopics,
    handleProduce, produceTopic, producePartition, readCount, skip_when,
    handleSaslHandshake, handleSaslAuthenticate.
  repeat first [apply Hd | apply Hsend | apply Hauto | progress keeps_walk].
Qed.

(** C13. Any request, whatever its bytes, leaves the configuration and the
    shutdown flag alone, only appends to the message channel and never beyond
    its capacity of 4096, never forgets a topic, and keeps the broker's
    invariant. *)
Theorem handleRequest_invariant order now body b res b' :
  broker_ok b → handleRequest order now body b = Ok (res, b') →
  broker_ok b' ∧ cfg b' = cfg b ∧ done_ b' = done_ b ∧
  msgCh b `prefix_of` msgCh b' ∧ topicSet b ⊆ topicSet b'.
Proof.
  intros Hb H. assert (G : grows b b').
  { unfold handleRequest in H. destruct (len body <? 4); [by simplify_eq|].
    destruct (request order now (mkReader body 0, b)) as [[r [rd b1]]| |] eqn:E; simplify_eq.
    by apply request_grows in E. }
  destruct G. split_and!; auto.
Qed.

Lemma New_ok c : broker_ok (New c).
Proof.
  split; [by vm_compute|]. unfold New. cbn.
  assert (H : ∀ ts : gmap string bool, map_Forall (λ _ v, v = true) ts →
    map_Forall (λ _ v, v = true) (foldl (λ ts t, <[t := true]> ts) ts (Topics c))).
  { induction (Topics c) as [|t l IH]; intros ts Hts; cbn; [done|].
    apply IH. by apply map_Forall_insert_2. }
  apply H, map_Forall_empty.
Qed.

Lemma handleRequest_invariant_witness :
  ∃ res b', handleRequest map_keys (λ _, 0) (enc_header 3 1 7 "ome" ++ enc_topics false ["new"])
      (New sample_config) = Ok (res, b') ∧ broker_ok b'.
Proof.
  destruct (handleRequest map_keys (λ _, 0) (enc_header 3 1 7 "ome" ++ enc_topics false ["new"])
    (New sample_config)) as [[res b']| |] eqn:E; [|vm_compute in E; discriminate..].
  exists res, b'. split; [reflexivity|].
  apply (handleRequest_invariant _ _ _ _ _ _ (New_ok sample_config) E).
Defined.

(** ** Termination *)

(** [m] ends inside the buffer or panics; it never runs out of fuel. *)
Definition ends {X A} (m : M X A) : Prop :=
  ∀ r x, wf r → match m (r, x) with
                | Ok (_, (r', _)) => forward r r'
                | Panic _ => True
                | OutOfFuel => False
                end.

Create HintDb ends.

Section Ends.
Context {X : Type}.

Lemma ends_safe {A} (m : M X A) Q : (∀ x, safe m x (Q x)) → ends m.
Proof using Type. intros H r x Hr. by destruct (H x r Hr) as (a & r' & x' & -> & F & _). Qed.

Lemma ends_ret {A} (a : A) : ends (X:=X) (mret a).
Proof using Type. intros r x Hr. by apply forward_refl. Qed.

Lemma ends_bind {A B} (m : M X A) (f : A → M X B) : ends m → (∀ a, ends (f a)) → ends (m ≫= f).
Proof using Type.
  intros Hm Hf r x Hr. specialize (Hm r x Hr). unfold mbind, st_bind.
  destruct (m (r, x)) as [[a [r1 x1]]| |]; [|done|done].
  specialize (Hf a r1 x1 (proj2 (proj2 Hm))). destruct (f a (r1, x1)) as [[b [r2 x2]]| |]; [|done|done].
  by etrans.
Qed.

Lemma ends_get {A} (g : reader * X → A) : ends (st_get g).
Proof using Type. intros r x Hr. by apply forward_refl. Qed.
Lemma ends_modify (f : X → X) : ends (st_modify (λ '(r, x), (r, f x))).
Proof using Type. intros r x Hr. by apply forward_refl. Qed.
Lemma ends_make_messages n : ends (X:=X) (make_messages n).
Proof using Type.
  intros r x Hr. unfold make_messages, makeslice.
  destruct (_ || _); [done|]. by apply forward_refl.
Qed.

Lemma ends_for_n n (m : M X unit) : ends m → ends (for_n n m).
Proof using Type.
  intros Hm. induction n as [|n IH]; cbn [for_n]; [apply ends_ret|by apply ends_bind].
Qed.
Lemma ends_for_collect {A} n (m : M X A) : ends m → ends (for_collect n m).
Proof using Type.
  intros Hm. induction n as [|n IH]; cbn [for_collect]; [apply ends_ret|].
  apply ends_bind; [done|]. intros a. apply ends_bind; [done|]. intros. apply ends_ret.
Qed.

Lemma ends_readInt8 : ends (X:=X) readInt8.
Proof using Type. eapply ends_safe. intros x. apply safe_readInt8. Qed.
Lemma ends_readInt16 : ends (X:=X) readInt16.
Proof using Type. eapply ends_safe. intros x. apply safe_readInt16. Qed.
Lemma ends_readInt32 : ends (X:=X) readInt32.
Proof using Type. eapply ends_safe. intros x. apply safe_readInt32. Qed.
Lemma ends_readInt64 : ends (X:=X) readInt64.
Proof using Type. eapply ends_safe. intros x. apply safe_readInt64. Qed.
Lemma ends_readUvarint : ends (X:=X) readUvarint.
Proof using Type. eapply ends_safe. intros x. apply safe_readUvarint. Qed.
Lemma ends_readVarint : ends (X:=X) readVarint.
Proof using Type. eapply ends_safe. intros x. apply safe_readVarint. Qed.
Lemma ends_readString : ends (X:=X) readString.
Proof using Type. eapply ends_safe. intros x. apply safe_readString. Qed.
Lemma ends_legacy now t p : ends (X:=X) (decodeLegacyMessageSet now t p).
Proof using Type. eapply ends_safe. intros x. apply safe_decodeLegacyMessageSet. Qed.

Lemma ends_readCompactString : ends (X:=X) readCompactString.
Proof using Type.
  intros r x Hr. destruct (Uvarint (rest r)) as [u n] eqn:E.
  by destruct (readCompactString_cases r x u n Hr E) as [[_ ->]|(_ & s & r' & -> & F)].
Qed.
Lemma ends_readCompactNullableString : ends (X:=X) readCompactNullableString.
Proof using Type. apply ends_readCompactString. Qed.
Lemma ends_readVarBytes : ends (X:=X) readVarBytes.
Proof using Type.
  intros r x Hr. destruct (Varint (rest r)) as [v n] eqn:E.
  by destruct (readVarBytes_cases r x v n Hr E) as [[_ ->]|(_ & s & r' & -> & F)].
Qed.
End Ends.

#[export] Hint Resolve ends_ret ends_get ends_modify ends_make_messages ends_readInt8 ends_readInt16
  ends_readInt32 ends_readInt64 ends_readUvarint ends_readVarint ends_readString ends_legacy
  ends_readCompactString ends_readCompactNullableString ends_readVarBytes : ends.

Ltac ends_walk :=
  repeat first
    [ solve [eauto 1 with ends]
    | apply ends_bind; [|intros]
    | apply ends_for_n
    | apply ends_for_collect
    | case_match ].

Section EndsDecode.
Context {X : Type} (now : Z → time).

Lemma ends_recordsV2_loop n t p ts : ends (X:=X) (recordsV2_loop n t p ts).
Proof using Type.
  induction n as [|n IH]; cbn [recordsV2_loop]; unfold readRecordV2, get_remaining; ends_walk.
Qed.

(** Setting the position back is not a forward move: the legacy branch goes
    back to where the batch began, so it is measured from there. *)
Lemma ends_decodeRecordBatch t p : ends (X:=X) (decodeRecordBatch now t p).
Proof using Type.
  assert (Hv2 : ends (X:=X) (decodeRecordBatchV2 t p))
    by (unfold decodeRecordBatchV2; ends_walk; apply ends_recordsV2_loop).
  intros r x Hr. unfold decodeRecordBatch. erewrite (st_bind_ok get_remaining) by reflexivity.
  cbn [fst]. destruct (remaining r <? 17); [by apply forward_refl|].
  erewrite (st_bind_ok (st_get _)) by reflexivity. cbn [fst].
  assert (Hm : ends (X:=X) readMagic) by (unfold readMagic; ends_walk).
  specialize (Hm r x Hr).
  match goal with |- match ?m with _ => _ end => replace m with ((readMagic ≫= λ magic,
    if magic =? 2 then decodeRecordBatchV2 t p
    else _ ← set_pos (rpos r); decodeLegacyMessageSet now t p) (r, x))
    by (unfold readMagic; bind_cong; reflexivity) end.
  unfold mbind at 1, st_bind at 1. destruct (readMagic (r, x)) as [[magic [r1 x1]]| |]; [|done|done].
  destruct (magic =? 2).
  - specialize (Hv2 r1 x1 (proj2 (proj2 Hm))).
    destruct (decodeRecordBatchV2 t p (r1, x1)) as [[res [r2 x2]]| |]; [|done|done]. by etrans.
  - erewrite (st_bind_ok (set_pos _)) by reflexivity.
    destruct Hm as (-> & _). destruct r as [buf pos]. by apply (ends_legacy now t p).
Qed.
End EndsDecode.

Lemma request_ends order now : ends (request order now).
Proof.
  assert (Hd : ∀ t p, ends (decodeRecordBatch (X:=Broker) now t p))
    by (intros; apply ends_decodeRecordBatch).
  unfold request, readClientID, dispatch, handleAPIVersions, handleMetadata, readRequestedTopics,
    handleProduce, produceTopic, producePartition, send_all, readCount, skip_when,
    handleSaslHandshake, handleSaslAuthenticate.
  repeat first [apply Hd | progress ends_walk].
Qed.

Lemma start_wf body : len body <= maxRequest → wf (mkReader body 0).
Proof. intros H%maxRequest_small. split; [cbn; len_lia|done]. Qed.

Lemma handleRequest_ends order now body b :
  len body <= maxRequest → handleRequest order now body b ≠ OutOfFuel.
Proof.
  intros H. unfold handleRequest. destruct (len body <? 4); [done|].
  pose proof (request_ends order now (mkReader body 0) b (start_wf body H)) as E.
  by destruct (request order now (mkReader body 0, b)) as [[? [? ?]]| |].
Qed.

(** C24. Every request a connection accepts ends: the handler returns or the
    goroutine panics.  In particular the loop over a legacy message set, which
    has no counter, stops by itself on any bytes. *)
Theorem handleRequest_terminates order now body b :
  len body <= maxRequest → handleRequest order now body b ≠ OutOfFuel.
Proof. apply handleRequest_ends. Qed.

Lemma handleRequest_terminates_witness :
  handleRequest map_keys (λ _, 0) (enc_header 0 2 1 "ome") (New sample_config) ≠ OutOfFuel.
Proof. apply handleRequest_terminates. vm_compute. discriminate. Defined.

(** ** Requests that cannot panic *)

Lemma safe_for_collect {X A} n (m : M X A) x :
  safe m x (pure_post x (λ _, True)) → safe (for_collect n m) x (pure_post x (λ _, True)).
Proof.
  intros Hm. induction n as [|n IH]; cbn [for_collect]; [by apply safe_ret|].
  eapply safe_bind; [exact Hm|]. intros a x1 [-> _].
  eapply safe_bind; [exact IH|]. intros as' x1 [-> _]. by apply safe_ret.
Qed.

Lemma safe_dispatch order now apiKey version corrID b :
  apiKey ≠ 0 → isFlexibleVersion apiKey version = false →
  safe (dispatch order now apiKey version corrID) b (λ res _, ∃ w, res = ret_bytes w).
Proof.
  intros Hk Hf. unfold dispatch.
  destruct (apiKey =? 18); [apply safe_ret; eauto|].
  destruct (Z.eqb_spec apiKey 3) as [->|].
  - unfold handleMetadata. change (isFlexibleVersion 3 version) with (9 <=? version) in Hf.
    rewrite Hf. unfold readRequestedTopics.
    eapply safe_bind.
    { eapply safe_bind; [apply safe_readInt32|]. intros n x1 [-> _].
      apply safe_for_collect, safe_readString. }
    intros ts x1 [-> _]. intros r Hr. do 3 eexists. split; [reflexivity|].
    split; [by apply forward_refl|eauto].
  - destruct (Z.eqb_spec apiKey 0); [done|].
    repeat case_match; apply safe_ret; unfold ret_bytes; eauto.
Qed.

Lemma plain_request_safe order now body b :
  8 <= len body → len body <= maxRequest →
  req_key body ≠ 0 → isFlexibleVersion (req_key body) (req_version body) = false →
  ∃ w b', handleRequest order now body b = Ok ((Some w, None), b').
Proof.
  intros Hl Hm Hk Hf. unfold handleRequest. destruct (Z.ltb_spec (len body) 4); [lia|].
  rewrite request_header, Hf by done.
  assert (S : safe (_ ← readClientID false;
      dispatch order now (req_key body) (req_version body) (req_corr body)) b
    (λ res _, ∃ w, res = ret_bytes w)).
  { apply (safe_bind _ _ _ (pure_post b (λ _, True))).
    - eapply safe_bind; [apply safe_readString|]. intros s x1 Hx. by apply safe_ret.
    - intros [] x1 [-> _]. by apply safe_dispatch. }
  destruct (S (cursor (take 8 body) (drop 8 body))) as (res & r' & b' & -> & _ & w & ->).
  - split; cbn; [len_lia|rewrite take_drop; by apply maxRequest_small].
  - by exists w, b'.
Qed.

(** Only a Produce request touches the message channel. *)
Definition same_channel (b b' : Broker) : Prop := msgCh b' = msgCh b.
#[export] Instance same_channel_preorder : PreOrder same_channel.
Proof. unfold same_channel. split; [done|]. intros b1 b2 b3. congruence. Qed.

Lemma dispatch_channel order now apiKey version corrID :
  apiKey ≠ 0 → keeps same_channel (dispatch order now apiKey version corrID).
Proof.
  intros Hk. apply Z.eqb_neq in Hk.
  assert (Hauto : ∀ req, keeps same_channel (st_modify (λ '(r, b), (r, autoCreateTopics req b)))).
  { intros req. apply keeps_modify. intros b. unfold same_channel, autoCreateTopics.
    by destruct (AutoCreateTopics (cfg b)). }
  unfold dispatch. rewrite Hk. unfold handleAPIVersions, handleMetadata, readRequestedTopics,
    handleSaslHandshake, handleSaslAuthenticate.
  repeat first [apply Hauto | progress keeps_walk].
Qed.

Lemma other_request_channel order now body b res b' :
  8 <= len body → len body <= maxRequest → req_key body ≠ 0 →
  handleRequest order now body b = Ok (res, b') → msgCh b' = msgCh b.
Proof.
  intros Hl Hm Hk. unfold handleRequest. destruct (Z.ltb_spec (len body) 4); [lia|].
  rewrite request_header by done.
  destruct (_ ≫= _) as [[res' [r b1]]| |] eqn:E; [|done..]. intros [= -> ->].
  assert (K : keeps same_channel (_ ← readClientID (isFlexibleVersion (req_key body) (req_version body));
    dispatch order now (req_key body) (req_version body) (req_corr body))).
  { apply keeps_bind; [apply _| |intros _; by apply dispatch_channel].
    unfold readClientID. keeps_walk. }
  exact (K _ _ _ E).
Qed.

(** C25. A request in the plain (non-flexible) encoding that is not a Produce
    request is always answered: no bytes a client can send make the handler
    panic or return an error. *)
Theorem plain_request_answered order now body b :
  8 <= len body → len body <= maxRequest →
  req_key body ≠ 0 → isFlexibleVersion (req_key body) (req_version body) = false →
  ∃ w b', handleRequest order now body b = Ok ((Some w, None), b').
Proof. apply plain_request_safe. Qed.

Lemma plain_request_answered_witness :
  ∃ w b', handleRequest map_keys (λ _, 0) (enc_header 3 1 7 "ome" ++ [Byte.xff; Byte.xff])
    (New sample_config) = Ok ((Some w, None), b').
Proof.
  apply plain_request_answered; [vm_compute; discriminate|vm_compute; discriminate| |].
  - vm_compute. discriminate.
  - vm_compute. reflexivity.
Defined.

(** ** Requests that do crash, and requests that cost more than they weigh *)

Lemma rest_cursor pre suf : rest (cursor pre suf) = suf.
Proof. unfold rest, cursor. cbn. unfold len. rewrite Nat2Z.id. apply drop_app_length. Qed.

Definition flexible_header (apiKey version corrID u : Z) : bytes :=
  be_put 2 (wrapU 16 apiKey) ++ be_put 2 (wrapU 16 version) ++ be_put 4 (wrapU 32 corrID) ++
  PutUvarint u.

(** C23. Any request in a flexible encoding crashes the broker when the length
    of its client id lies close enough to 2^63: [int(n)-1] is then positive,
    [r.pos+n] overflows to a negative number, the bounds check passes and the
    slice expression panics.  The panic is not recovered, so the process
    ends.  No other content is needed, the length alone does it. *)
Theorem client_id_overflow_crashes order now apiKey version corrID u tail b :
  inS 16 apiKey → inS 16 version → inS 32 corrID → isFlexibleVersion apiKey version = true →
  2 ^ 63 - 8 - len (PutUvarint u) < u <= 2 ^ 63 →
  let body := flexible_header apiKey version corrID u ++ tail in
  small body →
  handleRequest order now body b = Panic PanicSliceBounds.
Proof.
  intros Hk Hv Hc Hf Hu body Hs. pose proof (put_uvarint_len u) as Hpl.
  assert (HU : inU 64 u) by (unfold MaxVarintLen64, inU in *; lia).
  unfold handleRequest.
  destruct (Z.ltb_spec (len body) 4); [unfold body, flexible_header in *; len_lia|].
  change (mkReader body 0) with (cursor [] body). unfold body, flexible_header in *.
  rewrite <- !app_assoc in *. unfold request.
  erewrite st_bind_ok by (apply runs_readInt16; [done|exact Hs]).
  erewrite st_bind_ok by (apply runs_readInt16; [done|exact Hs]).
  erewrite st_bind_ok by (apply runs_readInt32; [done|by rewrite <- !app_assoc]).
  rewrite Hf. unfold readClientID. match goal with
  |- context [cursor ?p ?s] => set (pre := p); assert (Hpre : len pre = 8) end.
  { subst pre. rewrite !len_app, !be_put_len. reflexivity. }
  assert (Hw : wf (cursor pre (PutUvarint u ++ tail))).
  { split; cbn; [len_lia|]. unfold pre. by rewrite <- !app_assoc. }
  destruct (readCompactString_cases (cursor pre (PutUvarint u ++ tail)) b u (len (PutUvarint u)))
    as [[_ E]|[Hn _]].
  - done.
  - rewrite rest_cursor. by apply uvarint_put.
  - unfold mbind, st_bind. by rewrite E.
  - exfalso. apply Hn. cbn [rpos cursor]. unfold MaxVarintLen64 in *. lia.
Qed.

Lemma client_id_overflow_crashes_witness :
  handleRequest map_keys (λ _, 0) (flexible_header 18 3 1 (2 ^ 63) ++ []) (New sample_config) =
  Panic PanicSliceBounds.
Proof.
  apply client_id_overflow_crashes; try (unfold inS; lia); try reflexivity.
  - vm_compute. by split.
  - unfold small. vm_compute. discriminate.
Defined.

(** The same request, run: eighteen bytes. *)
Example crash_request_size : length (flexible_header 18 3 1 (2 ^ 63)) = 18%nat.
Proof. reflexivity. Qed.

Lemma readString_at_end {X} buf (x : X) : 
  small buf → readString (mkReader buf (len buf), x) = Ok (""%string, (mkReader buf (len buf), x)).
Proof.
  intros Hs. assert (Hw : wf (mkReader buf (len buf))) by (split; [cbn; len_lia|done]).
  assert (Ha : ∀ n, 0 <= n < 2 ^ 62 → int_add (len buf) n = len buf + n)
    by (intros n; apply (wf_int_add (mkReader buf (len buf)) n Hw)).
  unfold readString, readInt16, readIntBE. unfold mbind, st_bind. cbn [rbuf rpos].
  rewrite Ha by lia.
  destruct (Z.ltb_spec (len buf) (len buf + Z.of_nat 2)); [|lia].
  unfold takeN. cbn [rbuf rpos]. rewrite Ha by lia.
  destruct (Z.ltb_spec (len buf) (len buf + 0)); [lia|].
  destruct (wf_slice buf (len buf) (len buf + 0)) as (l & Hsl & Hl); [len_lia|lia|].
  cbn [Z.ltb Z.compare orb]. rewrite Hsl. cbn [mbind outcome_bind].
  assert (l = []) as -> by (destruct l; [done|len_lia]).
  unfold advance. cbn. rewrite Ha by lia. by rewrite Z.add_0_r.
Qed.

Lemma for_collect_at_end {X} n buf (x : X) :
  small buf →
  for_collect n readString (mkReader buf (len buf), x) =
  Ok (replicate n ""%string, (mkReader buf (len buf), x)).
Proof.
  intros Hs. induction n as [|n IH]; cbn [for_collect]; [done|].
  rewrite (st_bind_ok _ _ _ _ _ (readString_at_end buf x Hs)), (st_bind_ok _ _ _ _ _ IH). done.
Qed.

(** The count of a Metadata request is not checked against the bytes
    that follow it: four bytes that announce [n] topics and nothing after
    them make the handler build a slice of [n] (empty) names, for any [n] up
    to 2^31 - 1. *)
Theorem metadata_count_unchecked {X} pre n (x : X) :
  0 <= n < 2 ^ 31 → small (pre ++ be_put 4 n) →
  ∃ r', readRequestedTopics false (cursor pre (be_put 4 n), x) =
    Ok (replicate (Z.to_nat n) ""%string, (r', x)).
Proof.
  intros Hn Hs. unfold readRequestedTopics.
  rewrite <- (be_put_wrap 4 n) in *. change (8 * Z.of_nat 4) with 32 in *.
  rewrite <- (app_nil_r (be_put 4 _)) in *.
  erewrite st_bind_ok by (apply runs_readInt32; [unfold inS; lia|exact Hs]).
  unfold cursor. rewrite !app_nil_r in *. rewrite for_collect_at_end by done. eauto.
Qed.

Lemma metadata_count_unchecked_witness :
  ∃ r', readRequestedTopics false (cursor [] (be_put 4 3), tt) =
    Ok (replicate (Z.to_nat 3) ""%string, (r', tt)).
Proof. apply metadata_count_unchecked; [lia|]. vm_compute. discriminate. Defined.

(** Keys outside the advertised table are refused and nothing else: the
    response is error 35 (UNSUPPORTED_VERSION) under the request's
    correlation id and the broker is unchanged. *)
Theorem unsupported_key order now apiKey version corrID clientID b :
  inS 16 apiKey → inS 16 version → inS 32 corrID → slen clientID < 2 ^ 15 →
  apiKey ∉ map key supported → 
  let body := enc_header apiKey version corrID clientID in
  small body →
  handleRequest order now body b = Ok ((Some (buildErrorResponse corrID 35), None), b).
Proof.
  intros Hk Hv Hc Hid Hnk body Hs. pose proof (enc_header_len apiKey version corrID clientID).
  apply handleRequest_runs; [|unfold body; lia|done].
  unfold body. rewrite <- (app_nil_r (enc_header _ _ _ _)). apply runs_request; try done.
  unfold dispatch. cbn in Hnk. rewrite !not_elem_of_cons in Hnk. destruct_and!.
  repeat (case_match; [lia|]). apply runs_ret.
Qed.

Lemma unsupported_key_witness :
  handleRequest map_keys (λ _, 0) (enc_header 99 0 5 "ome") (New sample_config) =
  Ok ((Some (buildErrorResponse 5 35), None), New sample_config).
Proof.
  apply unsupported_key; try (unfold inS; lia); try reflexivity.
  - apply (bool_decide_eq_true_1 _). vm_compute. reflexivity.
  - vm_compute. discriminate.
Defined.
