(* ===== verification/Interleave.v ===== *)
(** * Interleave: several connections at once

    internal/broker/broker.go serves each connection in a goroutine of its own.
    What they share is the topic set, behind its mutex, and the message channel;
    so a request is a sequence of sections -- the locked create loop, the locked
    listing, one send per record -- and the scheduler may put those of other
    connections, and the pipeline's receptions, between any two.  Alone, a
    request's sections are what [handleRequest] does. *)
From S2P Require Import Prelude Binary Wire Config Records Broker.
Import Reader Writer.
Open Scope Z_scope.

(** ** Requests and their sections *)

Inductive rpc :=
  | Produce (version corrID : Z) (clientID txid : string) (acks timeout : Z) (topics : list (string * list part))
  | Metadata (version corrID : Z) (clientID : string) (topics : list string).

Definition body_of (r : rpc) : bytes :=
  match r with
  | Produce version corrID clientID txid acks timeout topics =>
      enc_header 0 version corrID clientID ++ enc_produce txid acks timeout topics
  | Metadata version corrID clientID topics =>
      enc_header 3 version corrID clientID ++ enc_topics (9 <=? version) topics
  end.

Definition rpc_ok (r : rpc) : Prop :=
  small (body_of r) ∧
  match r with
  | Produce version corrID clientID txid acks timeout topics =>
      0 <= version < 9 ∧ inS 32 corrID ∧ slen clientID < 2 ^ 15 ∧ slen txid < 2 ^ 15 ∧
      inS 16 acks ∧ inS 32 timeout ∧ Forall topic_ok topics ∧ len topics < 2 ^ 31
  | Metadata version corrID clientID topics =>
      inS 16 version ∧ inS 32 corrID ∧ slen clientID < 2 ^ 15 ∧
      Forall (λ t, slen t < 2 ^ 15) topics ∧ len topics < 2 ^ 31
  end.

Inductive section :=
  | Send (m : Message)                        (* the select in handleProduce *)
  | Create (requested : list string)          (* under b.mu.Lock *)
  | Snapshot (version corrID : Z)             (* under b.mu.RLock; then the response *)
  | Answer (response : bytes).

Definition sections (r : rpc) : list section :=
  match r with
  | Produce _ corrID _ _ _ _ topics => map Send (produced topics) ++ [Answer (produce_response corrID false)]
  | Metadata version corrID _ topics => [Create topics; Snapshot version corrID]
  end.

Section Interleave.
Context (order : gmap string bool → list string).

Definition listing (version corrID : Z) (c : KafkaConfig) (names : list string) : bytes :=
  metadata_response corrID version (advertised_host c) (advertised_port c) names.

(** The broker after a section, and the response it completes. *)
Definition perform (s : section) (b : Broker) : Broker * list bytes :=
  match s with
  | Send m => (send_msg b m, [])
  | Create requested => (autoCreateTopics requested b, [])
  | Snapshot version corrID => (b, [listing version corrID (cfg b) (order (topicSet b))])
  | Answer response => (b, [response])
  end.

Fixpoint perform_all (ss : list section) (b : Broker) : Broker * list bytes :=
  match ss with
  | [] => (b, [])
  | s :: ss =>
      let '(b, out) := perform s b in
      let '(b, outs) := perform_all ss b in (b, out ++ outs)
  end.

Lemma perform_sends ms tail b : perform_all (map Send ms ++ tail) b = perform_all tail (foldl send_msg b ms).
Proof.
  revert b. induction ms as [|m ms IH]; intros b; [done|]. cbn [map app perform_all perform foldl].
  rewrite IH. by destruct (perform_all tail _).
Qed.

(** Without interleaving, a request is its sections in sequence. *)
Lemma handleRequest_sections now r b : rpc_ok r →
  ∃ resp, perform_all (sections r) b = ((perform_all (sections r) b).1, [resp]) ∧
    handleRequest order now (body_of r) b = Ok ((Some resp, None), (perform_all (sections r) b).1).
Proof.
  destruct r as [version corrID clientID txid acks timeout topics|version corrID clientID topics];
    intros [Hs Hok]; cbn [sections body_of] in *.
  - destruct Hok as (Hv & Hc & Hid & Ht & Ha & Hto & Hts & Hn).
    rewrite perform_sends. cbn. eexists. split; [done|]. by apply handleRequest_produce.
  - destruct Hok as (Hv & Hc & Hid & Ht & Hn). cbn. eexists. split; [done|].
    apply handleRequest_runs; [|pose proof (enc_header_len 3 version corrID clientID); len_lia|done].
    apply runs_request; [unfold inS; lia|done..|].
    assert (Hcfg : cfg (autoCreateTopics topics b) = cfg b)
      by (unfold autoCreateTopics; by destruct (AutoCreateTopics (cfg b))).
    unfold listing. rewrite Hcfg. by apply runs_handleMetadata.
Qed.

(** ** The system

    A connection: what it has done (kept for the theorems), what it has still to
    do, and the responses it has written.  [accepted] and [dropped] are the
    history of the channel: who sent what. *)
Record conn := mkConn { past : list section; todo : list section; out : list bytes }.
Record system := mkSystem {
  kb : Broker; conns : list conn; accepted : list (nat * Message); dropped : list (nat * Message);
  received : list Message }.

Inductive event := Turn (i : nat) | Receive.

Definition has_room (b : Broker) : bool := len (msgCh b) <? chanCap.
Definition taken (i : nat) (s : section) (b : Broker) : list (nat * Message) :=
  match s with Send m => if has_room b then [(i, m)] else [] | _ => [] end.
Definition refused (i : nat) (s : section) (b : Broker) : list (nat * Message) :=
  match s with Send m => if has_room b then [] else [(i, m)] | _ => [] end.

(** The scheduler's choice: a section of some connection, or a reception. *)
Definition step (ev : event) (y : system) : option system :=
  match ev with
  | Turn i =>
      c ← conns y !! i;
      match todo c with
      | [] => None
      | s :: rest =>
          let '(b, resp) := perform s (kb y) in
          Some (mkSystem b (<[i := mkConn (past c ++ [s]) rest (out c ++ resp)]> (conns y))
                  (accepted y ++ taken i s (kb y)) (dropped y ++ refused i s (kb y)) (received y))
      end
  | Receive =>
      match msgCh (kb y) with
      | [] => None
      | m :: ms => Some (mkSystem (mkBroker (cfg (kb y)) (topicSet (kb y)) ms (done_ (kb y)))
                           (conns y) (accepted y) (dropped y) (received y ++ [m]))
      end
  end.

Fixpoint run (evs : list event) (y : system) : option system :=
  match evs with [] => Some y | ev :: evs => y ← step ev y; run evs y end.

Definition start (b : Broker) (requests : list (list rpc)) : system :=
  mkSystem b (map (λ rs, mkConn [] (concat (map sections rs)) []) requests) [] [] [].

(** ** What a connection may rely on *)

(** The topics a section makes known. *)
Definition makes (c : KafkaConfig) (s : section) (t : string) : Prop :=
  match s with Create requested => AutoCreateTopics c = true ∧ t ∈ requested ∧ t ≠ ""%string | _ => False end.

(** The responses to what a connection has done: each listing has every topic
    known at the start or created by that connection before, each once, and none
    the broker does not have. *)
Inductive explained (c : KafkaConfig) (first : gmap string bool) (b : Broker) : list section → list bytes → Prop :=
  | explained_nil : explained c first b [] []
  | explained_send ss ws m : explained c first b ss ws → explained c first b (ss ++ [Send m]) ws
  | explained_create ss ws req : explained c first b ss ws → explained c first b (ss ++ [Create req]) ws
  | explained_answer ss ws w : explained c first b ss ws → explained c first b (ss ++ [Answer w]) (ws ++ [w])
  | explained_listing ss ws version corrID names : explained c first b ss ws →
      NoDup names →
      (∀ t, is_Some (first !! t) ∨ (∃ s, s ∈ ss ∧ makes c s t) → t ∈ names) →
      (∀ t, t ∈ names → is_Some (topicSet b !! t)) →
      explained c first b (ss ++ [Snapshot version corrID]) (ws ++ [listing version corrID c names]).

Lemma explained_grows c first b b' ss ws : (∀ t, is_Some (topicSet b !! t) → is_Some (topicSet b' !! t)) →
  explained c first b ss ws → explained c first b' ss ws.
Proof using Type. intros Hb. induction 1; econstructor; eauto. Qed.

Lemma explained_last c first b ss ws version corrID : explained c first b (ss ++ [Snapshot version corrID]) ws →
  ∃ ws' names, ws = ws' ++ [listing version corrID c names] ∧ NoDup names ∧
    ∀ t, is_Some (first !! t) ∨ (∃ s, s ∈ ss ∧ makes c s t) → t ∈ names.
Proof using Type.
  inversion 1 as [E|? ? ? ? E|? ? ? ? E|? ? ? ? E|ss' ws' v k names He Hn Hall Hin E];
    try (by apply (f_equal last) in E; rewrite ?last_snoc in E).
  apply app_inj_tail in E as [-> [= -> ->]]. eauto 10.
Qed.

Definition sends (ss : list section) : list Message := omap (λ s, match s with Send m => Some m | _ => None end) ss.
Definition from (i : nat) (l : list (nat * Message)) : list Message := map snd (filter (λ x, x.1 = i) l).

Lemma sends_snoc ss s : sends (ss ++ [s]) = sends ss ++ sends [s].
Proof using Type. apply omap_app. Qed.
Lemma from_app i l1 l2 : from i (l1 ++ l2) = from i l1 ++ from i l2.
Proof using Type. unfold from. by rewrite filter_app, map_app. Qed.

(** What a section does to the shared state. *)
Lemma perform_spec i s b : let '(b', _) := perform s b in
  cfg b' = cfg b ∧ msgCh b' = msgCh b ++ map snd (taken i s b) ∧
  ∀ t, is_Some (topicSet b' !! t) ↔ is_Some (topicSet b !! t) ∨ makes (cfg b) s t.
Proof using Type.
  destruct s as [m|req|version corrID|w]; cbn [perform taken makes].
  - unfold send_msg, has_room. destruct (len (msgCh b) <? chanCap); cbn; rewrite ?app_nil_r; naive_solver.
  - unfold autoCreateTopics. destruct (AutoCreateTopics (cfg b)); cbn; rewrite app_nil_r;
      split_and!; try done; intros t; [rewrite autoCreate_lookup|]; naive_solver.
  - cbn. rewrite app_nil_r. naive_solver.
  - cbn. rewrite app_nil_r. naive_solver.
Qed.

Context (Horder : range_order order).

Record inv (b0 : Broker) (y : system) : Prop := {
  inv_cfg : cfg (kb y) = cfg b0;
  inv_topics : ∀ t, is_Some (topicSet (kb y) !! t) ↔
    is_Some (topicSet b0 !! t) ∨ ∃ i c s, conns y !! i = Some c ∧ s ∈ past c ∧ makes (cfg b0) s t;
  inv_answers : ∀ i c, conns y !! i = Some c → explained (cfg b0) (topicSet b0) (kb y) (past c) (out c);
  inv_fifo : msgCh b0 ++ map snd (accepted y) = received y ++ msgCh (kb y);
  inv_room : len (msgCh (kb y)) <= chanCap;
  inv_order : ∀ i c, conns y !! i = Some c →
    from i (accepted y) `sublist_of` sends (past c) ∧
    from i (accepted y) ++ from i (dropped y) ≡ₚ sends (past c);
  inv_full : dropped y ≠ [] → chanCap <= len (msgCh b0) + len (accepted y) }.

Lemma start_inv b requests : len (msgCh b) <= chanCap → inv b (start b requests).
Proof using Type.
  intros Hb. unfold start.
  assert (Hc : ∀ i c, map (λ rs, mkConn [] (concat (map sections rs)) []) requests !! i = Some c →
    past c = [] ∧ out c = []).
  { intros i c H. apply list_lookup_fmap_Some in H as (rs & -> & _). done. }
  split; cbn; try done; try lia.
  - intros t. split; [by left|]. intros [?|(i & c & s & Hi & Hs & _)]; [done|].
    apply Hc in Hi as [Hp _]. rewrite Hp in Hs. by apply not_elem_of_nil in Hs.
  - intros i c [-> ->]%Hc. constructor.
  - by rewrite app_nil_r.
  - by intros i c [-> _]%Hc.
Qed.

(** A turn, seen from the connections. *)
Lemma turn_conns i c s rest o (cs : list conn) j c' : cs !! i = Some c →
  <[i := mkConn (past c ++ [s]) rest o]> cs !! j = Some c' →
  (j = i ∧ c' = mkConn (past c ++ [s]) rest o) ∨ (j ≠ i ∧ cs !! j = Some c').
Proof using Type.
  intros Hi [(-> & -> & _)|[Hne Hj]]%list_lookup_insert_Some; [by left|right]. auto.
Qed.

Lemma explained_turn b0 b c s : let '(b', o) := perform s b in
  cfg b = cfg b0 → (∀ t, is_Some (topicSet b0 !! t) ∨ (∃ s', s' ∈ past c ∧ makes (cfg b0) s' t) → is_Some (topicSet b !! t)) →
  explained (cfg b0) (topicSet b0) b (past c) (out c) →
  explained (cfg b0) (topicSet b0) b' (past c ++ [s]) (out c ++ o).
Proof using Horder.
  pose proof (perform_spec 0 s b) as Hs. destruct (perform s b) as [b' o] eqn:Ep. destruct Hs as (_ & _ & Ht).
  intros Hcfg Hknown He.
  assert (He' : explained (cfg b0) (topicSet b0) b' (past c) (out c)).
  { eapply explained_grows; [|exact He]. intros t H. apply Ht. by left. }
  destruct s as [m|req|version corrID|w]; cbn in Ep; injection Ep as <- <-; rewrite ?app_nil_r; [by constructor..| |by constructor].
  rewrite Hcfg. constructor; [done| | |].
  - rewrite (Horder _). apply map_keys_NoDup.
  - intros t H. rewrite (Horder _), elem_of_map_keys. by apply Hknown.
  - intros t. by rewrite (Horder _), elem_of_map_keys.
Qed.

Lemma sent_split i s b : from i (taken i s b) `sublist_of` sends [s] ∧
  from i (taken i s b) ++ from i (refused i s b) ≡ₚ sends [s].
Proof using Type.
  destruct s as [m|?|? ?|?]; try (split; reflexivity). unfold taken, refused, from.
  destruct (has_room b); rewrite ?filter_cons_True by done; cbn; (split; [|done]); [done|apply sublist_nil_l].
Qed.
Lemma sent_other i j s b : j ≠ i → from j (taken i s b) = [] ∧ from j (refused i s b) = [].
Proof using Type.
  intros Hne. destruct s as [m|?|? ?|?]; try done. unfold taken, refused, from.
  destruct (has_room b); rewrite ?filter_cons_False by (cbn; congruence); done.
Qed.

Lemma turn_inv b0 y i c s rest : inv b0 y → conns y !! i = Some c → todo c = s :: rest →
  let '(b, o) := perform s (kb y) in
  inv b0 (mkSystem b (<[i := mkConn (past c ++ [s]) rest (out c ++ o)]> (conns y))
    (accepted y ++ taken i s (kb y)) (dropped y ++ refused i s (kb y)) (received y)).
Proof using Horder.
  intros [Hcfg Htop Hans Hfifo Hroom Hord Hfull] Hi Htodo.
  pose proof (perform_spec i s (kb y)) as Hs. pose proof (explained_turn b0 (kb y) c s) as Hx.
  destruct (perform s (kb y)) as [b o]. destruct Hs as (Hb1 & Hb2 & Hb3).
  assert (Hlen : (i < length (conns y))%nat) by by eapply lookup_lt_Some.
  split; cbn [kb conns accepted dropped received].
  - congruence.
  - intros t. rewrite Hb3, Htop, Hcfg. split.
    + intros [[H|(j & c' & s' & Hj & Hs' & Hm)]|Hm]; [by left|right|right].
      * destruct (decide (j = i)) as [->|Hne].
        -- assert (c' = c) as -> by congruence. exists i, (mkConn (past c ++ [s]) rest (out c ++ o)), s'. rewrite list_lookup_insert_eq by done.
           split; [done|]. split; [apply elem_of_app; by left|done].
        -- exists j, c', s'. by rewrite list_lookup_insert_ne.
      * exists i, (mkConn (past c ++ [s]) rest (out c ++ o)), s. rewrite list_lookup_insert_eq by done. split; [done|].
        split; [apply elem_of_app; right; by left|done].
    + intros [H|(j & c' & s' & Hj & Hs' & Hm)]; [by left; left|].
      apply (turn_conns _ _ _ _ _ _ _ _ Hi) in Hj as [[-> ->]|[_ Hj]]; [|left; right; eauto 10].
      cbn in Hs'. apply elem_of_app in Hs' as [Hs'| ->%list_elem_of_singleton]; [left; right; eauto 10|by right].
  - intros j c' Hj. apply (turn_conns _ _ _ _ _ _ _ _ Hi) in Hj as [[-> ->]|[_ Hj]].
    + apply Hx; [done| |by eapply Hans]. intros t H. apply Htop.
      destruct H as [H|(s' & H1 & H2)]; [by left|right; eauto 10].
    + eapply explained_grows; [|by eapply Hans]. intros t H. apply Hb3. by left.
  - rewrite Hb2, map_app, !app_assoc. by rewrite Hfifo.
  - rewrite Hb2. destruct s as [m|?|? ?|?]; cbn [taken]; rewrite ?app_nil_r; try done.
    unfold has_room. destruct (Z.ltb_spec (len (msgCh (kb y))) chanCap); cbn; rewrite ?app_nil_r; [len_lia|done].
  - intros j c' Hj. rewrite !from_app.
    apply (turn_conns _ _ _ _ _ _ _ _ Hi) in Hj as [[-> ->]|[Hne Hj]]; cbn [past].
    + destruct (Hord i c Hi) as [H1 H2]. rewrite sends_snoc. destruct (sent_split i s (kb y)) as [H3 H4].
      split; [by apply sublist_app|]. rewrite <- H2, <- H4. solve_Permutation.
    + destruct (sent_other i j s (kb y) Hne) as [-> ->]. rewrite !app_nil_r. by apply Hord.
  - intros Hd. unfold refused, taken in *. destruct s as [m|?|? ?|?]; rewrite ?app_nil_r in *; try by apply Hfull.
    unfold has_room in *. destruct (Z.ltb_spec (len (msgCh (kb y))) chanCap); rewrite ?app_nil_r in *.
    + apply Hfull in Hd. len_lia.
    + apply (f_equal len) in Hfifo. rewrite !len_app in Hfifo. pose proof (len_nonneg (received y)).
      unfold len in *. rewrite length_map in Hfifo. lia.
Qed.

Lemma shared_step_inv b0 ev y y' : inv b0 y → step ev y = Some y' → inv b0 y'.
Proof using Horder.
  intros Hy. destruct ev as [i|]; cbn [step].
  - intros (c & Hi & Hc)%bind_Some. destruct (todo c) as [|s rest] eqn:Et; [done|].
    pose proof (turn_inv b0 y i c s rest Hy Hi Et) as H. destruct (perform s (kb y)) as [b o]. by simplify_eq.
  - destruct (msgCh (kb y)) as [|m ms] eqn:Em; [done|]. intros [= <-]. destruct Hy as [H1 H2 H3 H4 H5 H6 H7].
    split; cbn [kb conns accepted dropped received cfg topicSet msgCh]; try done.
    + intros i c Hi. eapply explained_grows; [|by apply (H3 i c)]. done.
    + rewrite <- app_assoc. by rewrite Em in H4.
    + rewrite Em in H5. len_lia.
Qed.

Lemma run_inv b0 evs y y' : inv b0 y → run evs y = Some y' → inv b0 y'.
Proof using Horder.
  revert y. induction evs as [|ev evs IH]; intros y Hy; cbn [run]; [by intros [= <-]|].
  intros (y1 & H1 & H2)%bind_Some. eapply IH; [|exact H2]. by eapply shared_step_inv.
Qed.

(** Nothing is skipped: what a connection has done and has still to do are its
    requests' sections. *)
Definition on_course (requests : list (list rpc)) (y : system) : Prop :=
  Forall2 (λ rs c, past c ++ todo c = concat (map sections rs)) requests (conns y).

Lemma run_on_course requests evs y y' : on_course requests y → run evs y = Some y' → on_course requests y'.
Proof using Type.
  revert y. induction evs as [|ev evs IH]; intros y Hy; cbn [run]; [by intros [= <-]|].
  intros (y1 & H1 & H2)%bind_Some. eapply IH; [|exact H2]. clear IH H2. destruct ev as [i|]; cbn [step] in H1.
  - apply bind_Some in H1 as (c & Hi & Hc). destruct (todo c) as [|s rest] eqn:Et; [done|].
    destruct (perform s (kb y)) as [b o]. injection Hc as <-. unfold on_course in *. cbn [conns].
    destruct (Forall2_lookup_r _ _ _ _ _ Hy Hi) as (rs & Hrs & Hp).
    rewrite <- (list_insert_id requests i rs) by done. apply Forall2_insert; [done|]. cbn [past todo].
    by rewrite <- app_assoc, <- Hp, Et.
  - destruct (msgCh (kb y)); [done|]. by injection H1 as <-.
Qed.

Lemma start_on_course b requests : on_course requests (start b requests).
Proof using Type. unfold on_course, start. cbn. induction requests; by constructor. Qed.

(** ** Properties *)

(** C37. Requests of several connections at once.  Alone, a Produce or Metadata
    request is its sections one after the other; and however the scheduler
    interleaves the sections of any number of connections and the pipeline's
    receptions, each connection does its own in order, the topic set is the
    initial one and what was created so far -- no creation is ever lost -- and
    every response is right for its connection: a listing names each topic
    once, all those known at the start or created by that connection itself,
    and only topics the broker has.  The channel is FIFO and never over its
    capacity; a record is accepted or dropped, the accepted ones of a connection
    in its own order; and none is dropped before the channel has taken 4096. *)
Theorem concurrent_requests :
  (∀ now r b, rpc_ok r → ∃ resp,
    perform_all (sections r) b = ((perform_all (sections r) b).1, [resp]) ∧
    handleRequest order now (body_of r) b = Ok ((Some resp, None), (perform_all (sections r) b).1)) ∧
  ∀ b0 requests evs y, len (msgCh b0) <= chanCap → run evs (start b0 requests) = Some y →
    (∀ t, is_Some (topicSet (kb y) !! t) ↔
      is_Some (topicSet b0 !! t) ∨ ∃ i c s, conns y !! i = Some c ∧ s ∈ past c ∧ makes (cfg b0) s t) ∧
    (∀ i rs, requests !! i = Some rs → ∃ c, conns y !! i = Some c ∧
      past c ++ todo c = concat (map sections rs) ∧
      explained (cfg b0) (topicSet b0) (kb y) (past c) (out c) ∧
      from i (accepted y) `sublist_of` sends (past c) ∧
      from i (accepted y) ++ from i (dropped y) ≡ₚ sends (past c)) ∧
    msgCh b0 ++ map snd (accepted y) = received y ++ msgCh (kb y) ∧ len (msgCh (kb y)) <= chanCap ∧
    (dropped y ≠ [] → chanCap <= len (msgCh b0) + len (accepted y)).
Proof using Horder.
  split; [intros; by apply handleRequest_sections|]. intros b0 requests evs y Hb Hrun.
  pose proof (run_inv b0 evs _ _ (start_inv b0 requests Hb) Hrun) as [H1 H2 H3 H4 H5 H6 H7].
  pose proof (run_on_course requests evs _ _ (start_on_course b0 requests) Hrun) as Hw.
  split; [done|]. split; [|done]. intros i rs Hi.
  destruct (Forall2_lookup_l _ _ _ _ _ Hw Hi) as (c & Hc & Hp). exists c.
  destruct (H6 i c Hc) as [H8 H9]. split_and!; [done..|by apply (H3 i c)|done|done].
Qed.
End Interleave.

(** ** Witness

    One connection asks for [ome.health] while another delivers an alert, which
    is received before the first has its listing. *)
Definition two_connections : list (list rpc) :=
  [[Metadata 1 7 "rdkafka" ["ome.health"]];
   [Produce 7 5 "ome" "" 1 1000 [("ome.alerts", [sample_part])]]]%string.
Definition two_schedule : list event := [Turn 0; Turn 1; Receive; Turn 0; Turn 1].

Lemma concurrent_requests_witness : ∃ y,
  run map_keys two_schedule (start (New sample_config) two_connections) = Some y ∧
  received y = produced [("ome.alerts"%string, [sample_part])] ∧ dropped y = [] ∧
  ∃ c ws names, conns y !! 0%nat = Some c ∧ out c = ws ++ [listing 1 7 sample_config names] ∧ "ome.health"%string ∈ names.
Proof.
  destruct (run map_keys two_schedule (start (New sample_config) two_connections)) as [y|] eqn:Ey; [|discriminate Ey].
  destruct (concurrent_requests map_keys map_keys_order) as [_ H].
  destruct (H (New sample_config) two_connections two_schedule y ltac:(vm_compute; congruence) Ey) as (_ & Hc & _).
  destruct (Hc 0%nat _ eq_refl) as (c & Hi & _ & He & _).
  exists y. split; [reflexivity|].
  assert (Hy : received y = produced [("ome.alerts"%string, [sample_part])] ∧ dropped y = [] ∧
    past <$> (conns y !! 0%nat) = Some [Create ["ome.health"%string]; Snapshot 1 7]).
  { injection Ey as <-. by vm_compute. }
  destruct Hy as (H1 & H2 & Hp). rewrite Hi in Hp. injection Hp as Hp. rewrite Hp in He.
  split; [exact H1|]. split; [exact H2|].
  destruct (explained_last _ _ _ [Create ["ome.health"%string]] _ 1 7 He) as (ws & names & Ho & _ & Hall).
  exists c, ws, names. split; [exact Hi|]. split; [exact Ho|]. apply Hall. right.
  exists (Create ["ome.health"%string]). split; [by left|]. split; [done|]. split; [by left|done].
Defined.
