(* ===== verification/Conn.v ===== *)
(** * Conn: the connection loop of internal/broker/broker.go

    [handleConn] reads length-prefixed requests from a byte stream and writes
    length-prefixed responses.  [env] is what the other goroutines (other
    connections, the message consumer, [Close]) do to the broker between two
    rounds; deadlines and socket errors show up as the end of the input. *)
From S2P Require Import Prelude Binary Wire Config Records Broker BrokerSafety.
Open Scope Z_scope.

Inductive close_reason :=
  | ConnDone            (* b.done was closed *)
  | ConnReadSize        (* reading the size failed *)
  | ConnBadSize         (* size out of range *)
  | ConnReadBody        (* reading the body failed *)
  | ConnHandlerError    (* handleRequest returned an error *)
  | ConnWriteError.     (* writing the response failed *)

(** Responses written, input left unread, the broker, and why it ended. *)
Record conn_end := mkConnEnd {
  ce_out : list bytes; ce_rest : bytes; ce_broker : Broker; ce_why : close_reason }.

Definition frame (body : bytes) : bytes := be_put 4 (wrapU 32 (len body)) ++ body.

Section Conn.
Context (order : nat → gmap string bool → list string) (now : nat → Z → time).
Context (env : nat → Broker → Broker) (write_ok : nat → bool).

Fixpoint conn_loop (fuel k : nat) (inp : bytes) (b : Broker) : outcome conn_end :=
  match fuel with
  | O => OutOfFuel
  | S fuel =>
      let b := env k b in
      if done_ b then Ok (mkConnEnd [] inp b ConnDone)
      else if len inp <? 4 then Ok (mkConnEnd [] [] b ConnReadSize)
      else
        let size := wrapS 32 (be_get (take 4 inp)) in
        let inp := drop 4 inp in
        if (size <=? 0) || (32 * 1024 * 1024 <? size)
        then Ok (mkConnEnd [] inp b ConnBadSize)
        else if len inp <? size then Ok (mkConnEnd [] [] b ConnReadBody)
        else
          let body := take (Z.to_nat size) inp in
          let inp := drop (Z.to_nat size) inp in
          '((resp, err), b) ← handleRequest (order k) (now k) body b;
          match err, resp with
          | Some _, _ => Ok (mkConnEnd [] inp b ConnHandlerError)
          | None, None => conn_loop fuel (S k) inp b
          | None, Some resp =>
              if write_ok k then
                r ← conn_loop fuel (S k) inp b;
                Ok (mkConnEnd (frame resp :: ce_out r) (ce_rest r) (ce_broker r) (ce_why r))
              else Ok (mkConnEnd [] inp b ConnWriteError)
          end
  end.

(** ** The listener *)

(** [net.Listen] may refuse the address. *)
Definition Start (Listen : string → option error) (b : Broker) : option error :=
  match Listen (ListenAddr (cfg b)) with
  | Some err => Some ("broker listen " +:+ ListenAddr (cfg b) +:+ ": " +:+ err)%string
  | None => None
  end.

(** [acceptLoop] over what Accept returns, [closed k] telling whether b.done is
    closed at the [k]-th call: the connections it starts a [handleConn] for,
    and whether it has returned or is waiting in Accept. *)
Fixpoint acceptLoop {C} (closed : nat → bool) (k : nat) (results : list (C + error)) : list C * bool :=
  match results with
  | [] => ([], false)
  | inr _ :: results => if closed k then ([], true) else acceptLoop closed (S k) results
  | inl conn :: results =>
      let '(conns, returned) := acceptLoop closed (S k) results in (conn :: conns, returned)
  end.

(** Every round consumes at least five bytes of input. *)
Definition handleConn (inp : bytes) (b : Broker) : outcome conn_end :=
  conn_loop (S (length inp)) 0 inp b.

(** The contract: the requests of the stream are handled one after the other
    and answered in order. *)
Fixpoint serve (k : nat) (bodies : list bytes) (b : Broker) : outcome (list bytes * Broker) :=
  match bodies with
  | [] => Ok ([], env k b)
  | body :: bodies =>
      '((resp, err), b) ← handleRequest (order k) (now k) body (env k b);
      '(rs, b) ← serve (S k) bodies b;
      Ok (default [] resp :: rs, b)
  end.

Lemma handleRequest_answer k body b res b' :
  4 <= len body → handleRequest (order k) (now k) body b = Ok (res, b') →
  ∃ w, res = (Some w, None).
Proof using Type.
  intros Hl H. unfold handleRequest in H. destruct (Z.ltb_spec (len body) 4); [lia|].
  destruct (request _ _ _) as [[[resp err] [r b1]]| |] eqn:E; simplify_eq.
  unfold request in E. do 4 (apply st_bind_inv in E as (? & ? & _ & E)).
  apply dispatch_prefix in E as (-> & w & -> & _). by exists w.
Qed.

(** *** The loop ends *)

Lemma conn_loop_ends fuel : ∀ k inp b, (length inp < fuel)%nat → conn_loop fuel k inp b ≠ OutOfFuel.
Proof using Type.
  induction fuel as [|fuel IH]; intros k inp b Hf; [lia|]. cbn [conn_loop]. cbv zeta.
  destruct (done_ _); [done|]. destruct (Z.ltb_spec (len inp) 4); [done|].
  set (size := wrapS 32 _).
  destruct (Z.leb_spec size 0), (Z.ltb_spec (32 * 1024 * 1024) size); cbn [orb]; try done.
  destruct (Z.ltb_spec (len (drop 4 inp)) size); [done|].
  set (body := take (Z.to_nat size) (drop 4 inp)).
  assert (Hbody : len body <= maxRequest) by (unfold body, maxRequest; len_lia).
  pose proof (handleRequest_ends (order k) (now k) body (env k b) Hbody) as Hreq.
  assert (Hrest : (length (drop (Z.to_nat size) (drop 4 inp)) < fuel)%nat) by len_lia.
  destruct (handleRequest _ _ _ _) as [[[resp err] b1]| |]; cbn [mbind outcome_bind]; try done.
  destruct err; [done|]. specialize (IH (S k) _ b1 Hrest).
  destruct resp; [|done]. destruct (write_ok k); [|done].
  by destruct (conn_loop fuel (S k) _ b1).
Qed.

(** *** Framing *)

Lemma frame_split body tl :
  0 < len body <= maxRequest →
  4 <= len (frame body ++ tl) ∧ wrapS 32 (be_get (take 4 (frame body ++ tl))) = len body ∧
  drop 4 (frame body ++ tl) = body ++ tl.
Proof using Type.
  intros Hl. unfold frame, maxRequest in *. rewrite <- app_assoc. split_and!.
  - rewrite len_app, be_put_len. pose proof (len_nonneg (body ++ tl)). lia.
  - rewrite take_app_length' by (by rewrite be_put_length). rewrite be_get_put.
    change (8 * Z.of_nat 4) with 32. rewrite !wrapS_wrapU by lia.
    apply wrapS_small; unfold inS; lia.
  - apply drop_app_length'. by rewrite be_put_length.
Qed.

Definition body_ok (body : bytes) : Prop := 4 <= len body <= maxRequest.

Lemma conn_loop_serve bodies : ∀ fuel k b,
  (∀ k b, done_ (env k b) = false) → (∀ k, write_ok k = true) → Forall body_ok bodies →
  (length bodies < fuel)%nat →
  conn_loop fuel k (concat (map frame bodies)) b =
  ('(rs, b') ← serve k bodies b; Ok (mkConnEnd (map frame rs) [] b' ConnReadSize)).
Proof using Type.
  induction bodies as [|body bodies IH]; intros fuel k b Henv Hw Hb Hf; cbn [length] in Hf;
    (destruct fuel as [|fuel]; [lia|]); cbn [conn_loop map concat serve]; cbv zeta; rewrite Henv.
  { done. }
  apply Forall_cons in Hb as [Hbody Hb]. destruct Hbody as [Hlo Hhi].
  destruct (frame_split body (concat (map frame bodies))) as (H4 & Hsize & Hdrop); [lia|].
  destruct (Z.ltb_spec (len (frame body ++ concat (map frame bodies))) 4); [lia|].
  rewrite Hsize, Hdrop. destruct (Z.leb_spec (len body) 0); [lia|].
  unfold maxRequest in Hhi. destruct (Z.ltb_spec (32 * 1024 * 1024) (len body)); [lia|]. cbn [orb].
  destruct (Z.ltb_spec (len (body ++ concat (map frame bodies))) (len body));
    [rewrite len_app in *; pose proof (len_nonneg (concat (map frame bodies))); lia|].
  rewrite take_app_length', drop_app_length' by (unfold len; lia).
  destruct (handleRequest _ _ _ _) as [[res b1]| |] eqn:E; cbn [mbind outcome_bind]; try done.
  apply handleRequest_answer in E as [w ->]; [|done]. rewrite Hw.
  rewrite IH by (done || lia).
  destruct (serve (S k) bodies b1) as [[rs b2]| |]; cbn [mbind outcome_bind]; done.
Qed.
End Conn.

(** The accept loop serves every connection it is handed, in order, survives
    every accept error while the broker is open, and returns exactly at the
    first error after it is closed. *)
Theorem acceptLoop_spec {C} (closed : nat → bool) (results : list (C + error)) :
  let '(conns, returned) := acceptLoop closed 0 results in
  ∃ seen rest, results = seen ++ rest ∧ conns = omap (λ r, match r with inl c => Some c | inr _ => None end) seen ∧
    (∀ i err, seen !! i = Some (inr err) → closed i = false) ∧
    if returned then ∃ err rest', rest = inr err :: rest' ∧ closed (length seen) = true else rest = [].
Proof.
  assert (Hg : ∀ k, let '(conns, returned) := acceptLoop closed k results in
    ∃ seen rest, results = seen ++ rest ∧ conns = omap (λ r, match r with inl c => Some c | inr _ => None end) seen ∧
      (∀ i err, seen !! i = Some (inr err) → closed (k + i)%nat = false) ∧
      if returned then ∃ err rest', rest = inr err :: rest' ∧ closed (k + length seen)%nat = true else rest = []).
  2: { exact (Hg 0%nat). }
  induction results as [|[c|err] results IH]; intros k; cbn [acceptLoop]; [by exists [], []| |].
  - specialize (IH (S k)). destruct (acceptLoop _ _ _) as [conns returned].
    destruct IH as (seen & rest & -> & -> & Hi & Hr). exists (inl c :: seen), rest. split; [done|].
    split; [done|]. split.
    + intros [|i] e He; [done|]. replace (k + S i)%nat with (S k + i)%nat by lia. by eapply Hi.
    + cbn [length]. by replace (k + S (length seen))%nat with (S k + length seen)%nat by lia.
  - destruct (closed k) eqn:Ek.
    + exists [], (inr err :: results). do 3 (split; [done|]). exists err, results. by rewrite Nat.add_0_r.
    + specialize (IH (S k)). destruct (acceptLoop _ _ _) as [conns returned].
      destruct IH as (seen & rest & -> & -> & Hi & Hr). exists (inr err :: seen), rest. split; [done|].
      split; [done|]. split.
      * intros [|i] e He; [by rewrite Nat.add_0_r|]. replace (k + S i)%nat with (S k + i)%nat by lia. by eapply Hi.
      * cbn [length]. by replace (k + S (length seen))%nat with (S k + length seen)%nat by lia.
Qed.

(** C12. Pipelining: when a client sends well-sized requests back to back and
    the connection is not torn down meanwhile, the responses come back framed,
    one per request and in request order, each computed on the broker state
    the previous ones (and the other goroutines) left; the loop then ends at
    the end of the input.  If one request panics, so does the connection. *)
Theorem handleConn_serves order now env write_ok bodies b :
  (∀ k b, done_ (env k b) = false) → (∀ k, write_ok k = true) → Forall body_ok bodies →
  handleConn order now env write_ok (concat (map frame bodies)) b =
  ('(rs, b') ← serve order now env 0 bodies b;
   Ok (mkConnEnd (map frame rs) [] b' ConnReadSize)).
Proof.
  intros Henv Hw Hb. apply conn_loop_serve; try done.
  assert (Hl : (length bodies <= length (concat (map frame bodies)))%nat); [|lia].
  clear -Hb. induction Hb as [|body bodies [H _] _ IH]; cbn; [lia|].
  unfold frame at 1. rewrite !length_app, be_put_length. lia.
Qed.

Lemma handleConn_serves_witness :
  let bodies := [enc_header 18 0 1 "ome"; enc_header 36 0 2 "ome"] in
  let b := mkBroker sample_config ∅ [] false in
  handleConn (λ _, map_keys) (λ _ _, 0) (λ _ _, b) (λ _, true) (concat (map frame bodies)) b =
  Ok (mkConnEnd [frame (apiVersions_response 1 0); frame (saslAuthenticate_response 2)] [] b ConnReadSize).
Proof.
  intros bodies b.
  rewrite (handleConn_serves (λ _, map_keys) (λ _ _, 0) (λ _ _, b) (λ _, true) bodies b).
  - vm_compute. reflexivity.
  - reflexivity.
  - reflexivity.
  - apply Forall_cons. split; [split; vm_compute; discriminate|].
    apply Forall_singleton. split; vm_compute; discriminate.
Defined.

(** C39. The connection loop ends on any input and in any environment, and a
    size field outside (0, 32 MiB] closes the connection before a single byte
    of the body is read: no request is handled, nothing is written. *)
Theorem handleConn_ends_and_rejects order now env write_ok inp b :
  handleConn order now env write_ok inp b ≠ OutOfFuel ∧
  (done_ (env 0%nat b) = false → 4 <= len inp →
   ¬ 0 < wrapS 32 (be_get (take 4 inp)) <= 32 * 1024 * 1024 →
   handleConn order now env write_ok inp b = Ok (mkConnEnd [] (drop 4 inp) (env 0%nat b) ConnBadSize)).
Proof.
  split; [apply conn_loop_ends; lia|]. intros Hd Hl Hs.
  unfold handleConn. cbn [conn_loop]. cbv zeta. rewrite Hd.
  destruct (Z.ltb_spec (len inp) 4); [lia|].
  destruct (Z.leb_spec (wrapS 32 (be_get (take 4 inp))) 0),
    (Z.ltb_spec (32 * 1024 * 1024) (wrapS 32 (be_get (take 4 inp)))); cbn [orb]; (done || lia).
Qed.

(** A peer that announces an empty request. *)
Lemma handleConn_ends_and_rejects_witness :
  let b := New (mkKafkaConfig "" "ome" "" 0 [] true 1 1) in
  handleConn (λ _, map_keys) (λ _ _, 0) (λ _, id) (λ _, true) (replicate 7 Byte.x00) b =
    Ok (mkConnEnd [] (replicate 3 Byte.x00) b ConnBadSize).
Proof.
  intros b.
  apply (handleConn_ends_and_rejects (λ _, map_keys) (λ _ _, 0) (λ _, id) (λ _, true) (replicate 7 Byte.x00) b).
  - reflexivity.
  - vm_compute. discriminate.
  - vm_compute. intros [H _]. discriminate H.
Defined.
