(* ===== verification/Prompb.v ===== *)
(** * Prompb: pkg/prompb/prompb.go

    The hand-written protobuf encoder of the remote_write request, and a
    reference decoder for the protobuf wire format against which it is
    verified. *)
From S2P Require Import Prelude Binary Wire Float.
Open Scope Z_scope.

Record Label := mkLabel { Name : string; Value : string }.
Record Sample := mkSample { s_Value : float64; s_Timestamp : Z }.
Record TimeSeries := mkTimeSeries { Labels : list Label; Samples : list Sample }.
Record WriteRequest := mkWriteRequest { Timeseries : list TimeSeries }.

#[export] Instance Label_eq_dec : EqDecision Label.
Proof. solve_decision. Defined.

(** ** The encoder *)

Definition appendVarint (buf : bytes) (v : Z) : bytes := buf ++ PutUvarint v.
Definition appendTag (buf : bytes) (fieldNum wireType : Z) : bytes :=
  appendVarint buf (Z.lor (wrapU 64 (Z.shiftl fieldNum 3)) wireType).
Definition appendString (buf : bytes) (s : string) : bytes :=
  appendVarint buf (wrapU 64 (Writer.slen s)) ++ bytes_of s.

Definition marshalLabel (l : Label) : bytes + error :=
  if decide (Name l = ""%string) then inr "label name must not be empty"%string
  else
    let buf := appendTag [] 1 2 in
    let buf := appendString buf (Name l) in
    let buf := appendTag buf 2 2 in
    let buf := appendString buf (Value l) in
    inl buf.

Definition marshalSample (s : Sample) : bytes + error :=
  let buf := appendTag [] 1 1 in
  let buf := buf ++ le_split 8 (Float64bits (s_Value s)) in
  let buf := appendTag buf 2 0 in
  let buf := appendVarint buf (wrapU 64 (s_Timestamp s)) in
  inl buf.

(** The body the three loops share: tag, length, payload. *)
Definition appendMessage (buf : bytes) (fieldNum : Z) (payload : bytes) : bytes :=
  appendVarint (appendTag buf fieldNum 2) (wrapU 64 (len payload)) ++ payload.

(** [for _, x := range xs { b, err := marshal(x); if err != nil { return nil, err }; ... }] *)
Fixpoint marshal_each {A} (marshal : A → bytes + error) (fieldNum : Z) (buf : bytes)
    (xs : list A) : bytes + error :=
  match xs with
  | [] => inl buf
  | x :: xs =>
      match marshal x with
      | inr err => inr err
      | inl b => marshal_each marshal fieldNum (appendMessage buf fieldNum b) xs
      end
  end.

Definition marshalTimeSeries (ts : TimeSeries) : bytes + error :=
  match marshal_each marshalLabel 1 [] (Labels ts) with
  | inr err => inr err
  | inl buf => marshal_each marshalSample 2 buf (Samples ts)
  end.

Definition Marshal (r : WriteRequest) : bytes + error :=
  marshal_each marshalTimeSeries 1 [] (Timeseries r).

(** ** Reference decoder

    The protobuf wire format: a message is a sequence of (tag, value) pairs;
    of a repeated scalar field the last value counts, absent fields have the
    zero value, unknown fields are skipped. *)

Inductive pb_value :=
  | PbVarint (v : Z)
  | PbFixed64 (v : Z)
  | PbBytes (b : bytes).

Definition pb_field : Type := Z * pb_value.

Definition pb_varint (b : bytes) : option (Z * bytes) :=
  let '(v, n) := Uvarint b in if n <=? 0 then None else Some (v, drop (Z.to_nat n) b).

Definition pb_value_of (wireType : Z) (b : bytes) : option (pb_value * bytes) :=
  if wireType =? 0 then '(v, b) ← pb_varint b; Some (PbVarint v, b)
  else if wireType =? 1 then
    if (8 <=? length b)%nat then Some (PbFixed64 (le_combine (take 8 b)), drop 8 b) else None
  else if wireType =? 2 then
    '(n, b) ← pb_varint b;
    if n <=? len b then Some (PbBytes (take (Z.to_nat n) b), drop (Z.to_nat n) b) else None
  else None.

(** Each field takes at least one byte: the length of the input is enough fuel. *)
Fixpoint pb_fields (fuel : nat) (b : bytes) : option (list pb_field) :=
  match b, fuel with
  | [], _ => Some []
  | _, O => None
  | _, S fuel =>
      '(tag, b) ← pb_varint b;
      '(v, b) ← pb_value_of (Z.land tag 7) b;
      fs ← pb_fields fuel b;
      Some ((Z.shiftr tag 3, v) :: fs)
  end.
Definition pb_message (b : bytes) : option (list pb_field) := pb_fields (length b) b.

(** Go strings are byte strings. *)
Definition str (b : bytes) : string := String.string_of_list_byte b.

Fixpoint last_of {A} (get : pb_field → option A) (d : A) (fs : list pb_field) : A :=
  match fs with
  | [] => d
  | f :: fs => last_of get (default d (get f)) fs
  end.

Definition string_field (n : Z) (f : pb_field) : option string :=
  match f with (k, PbBytes b) => if k =? n then Some (str b) else None | _ => None end.
Definition double_field (n : Z) (f : pb_field) : option float64 :=
  match f with (k, PbFixed64 v) => if k =? n then Some v else None | _ => None end.
Definition int64_field (n : Z) (f : pb_field) : option Z :=
  match f with (k, PbVarint v) => if k =? n then Some (wrapS 64 v) else None | _ => None end.

(** A repeated message field: the sub-messages in order. *)
Definition repeated {A} (n : Z) (decode : bytes → option A) (fs : list pb_field) : option (list A) :=
  mapM decode (omap (λ f : pb_field,
    match f with (k, PbBytes b) => if k =? n then Some b else None | _ => None end) fs).

Definition decodeLabel (b : bytes) : option Label :=
  fs ← pb_message b;
  Some {| Name := last_of (string_field 1) ""%string fs;
          Value := last_of (string_field 2) ""%string fs |}.
Definition decodeSample (b : bytes) : option Sample :=
  fs ← pb_message b;
  Some {| s_Value := last_of (double_field 1) 0 fs;
          s_Timestamp := last_of (int64_field 2) 0 fs |}.
Definition decodeTimeSeries (b : bytes) : option TimeSeries :=
  fs ← pb_message b;
  ls ← repeated 1 decodeLabel fs;
  ss ← repeated 2 decodeSample fs;
  Some {| Labels := ls; Samples := ss |}.
Definition decodeWriteRequest (b : bytes) : option WriteRequest :=
  fs ← pb_message b;
  ts ← repeated 1 decodeTimeSeries fs;
  Some {| Timeseries := ts |}.

(** ** Decoding what was encoded, field by field *)

Definition enc_tag (k w : Z) : bytes := appendTag [] k w.
Definition enc_field (f : pb_field) : bytes :=
  match f with
  | (k, PbVarint v) => enc_tag k 0 ++ PutUvarint v
  | (k, PbFixed64 v) => enc_tag k 1 ++ le_split 8 v
  | (k, PbBytes b) => enc_tag k 2 ++ PutUvarint (wrapU 64 (len b)) ++ b
  end.

(** The fields the encoder writes. *)
Definition wf_field (f : pb_field) : Prop :=
  (f.1 = 1 ∨ f.1 = 2) ∧
  match f.2 with
  | PbVarint v | PbFixed64 v => inU 64 v
  | PbBytes b => len b < 2 ^ 63
  end.

Lemma pb_varint_put v suf : inU 64 v → pb_varint (PutUvarint v ++ suf) = Some (v, suf).
Proof.
  intros Hv. unfold pb_varint. rewrite uvarint_put by done.
  pose proof (put_uvarint_len v). destruct (Z.leb_spec (len (PutUvarint v)) 0); [lia|].
  by rewrite drop_app_length' by len_lia.
Qed.

Lemma wf_len (b : bytes) : len b < 2 ^ 63 → inU 64 (len b).
Proof. pose proof (len_nonneg b). unfold inU. lia. Qed.

Lemma pb_value_of_enc f suf : wf_field f →
  ∃ w, 0 <= w <= 2 ∧ ∃ v, enc_field f = enc_tag f.1 w ++ v ∧
    pb_value_of w (v ++ suf) = Some (f.2, suf).
Proof.
  destruct f as [k [v|v|b]]; intros [_ Hv]; cbn [fst snd] in *.
  - exists 0. split; [lia|]. eexists. split; [done|]. unfold pb_value_of.
    cbn [Z.eqb]. by rewrite pb_varint_put.
  - exists 1. split; [lia|]. eexists. split; [done|]. unfold pb_value_of. cbn [Z.eqb Pos.eqb].
    rewrite length_app, length_le_split. cbn [Nat.add Nat.leb].
    rewrite take_app_length', drop_app_length' by now rewrite length_le_split.
    rewrite le_combine_split. do 3 f_equal. apply Z.mod_small, Hv.
  - exists 2. split; [lia|]. eexists. split; [done|]. unfold pb_value_of.
    cbn [Z.eqb Pos.eqb]. rewrite wrapU_small by now apply wf_len. rewrite <- app_assoc, pb_varint_put by now apply wf_len.
    cbn [mbind option_bind]. rewrite len_app. pose proof (len_nonneg suf).
    destruct (Z.leb_spec (len b) (len b + len suf)); [|lia].
    by rewrite take_app_length', drop_app_length' by len_lia.
Qed.

Lemma enc_tag_spec k w suf : k = 1 ∨ k = 2 → 0 <= w <= 2 →
  ∃ tag, pb_varint (enc_tag k w ++ suf) = Some (tag, suf) ∧ Z.land tag 7 = w ∧ Z.shiftr tag 3 = k.
Proof.
  intros Hk Hw. assert (w = 0 ∨ w = 1 ∨ w = 2) as Hw3 by lia.
  exists (Z.lor (wrapU 64 (Z.shiftl k 3)) w). unfold enc_tag, appendTag, appendVarint.
  rewrite app_nil_l, pb_varint_put; destruct_or!; subst; vm_compute; intuition congruence.
Qed.

Lemma enc_field_pos f : (0 < length (enc_field f))%nat.
Proof.
  assert (∀ x, (0 < length (PutUvarint x))%nat).
  { intros x. pose proof (put_uvarint_len x). len_lia. }
  destruct f as [k [v|v|b]]; cbn [enc_field]; rewrite length_app;
    unfold enc_tag, appendTag, appendVarint; cbn [app];
    match goal with |- context [PutUvarint ?x] => specialize (H x) end; lia.
Qed.

Lemma pb_fields_step fuel b tag b1 v b2 :
  pb_varint b = Some (tag, b1) → pb_value_of (Z.land tag 7) b1 = Some (v, b2) →
  pb_fields (S fuel) b = (fs ← pb_fields fuel b2; Some ((Z.shiftr tag 3, v) :: fs)).
Proof. destruct b; [done|]. intros H1 H2. cbn [pb_fields]. rewrite H1. cbn. by rewrite H2. Qed.

Lemma pb_fields_enc fs fuel : Forall wf_field fs → (length (concat (enc_field <$> fs)) <= fuel)%nat →
  pb_fields fuel (concat (enc_field <$> fs)) = Some fs.
Proof.
  intros Hfs. revert fuel. induction Hfs as [|f fs Hf Hfs IH]; intros fuel Hfuel; [by destruct fuel|].
  cbn [fmap list_fmap concat] in *. rewrite length_app in Hfuel. pose proof (enc_field_pos f).
  set (rest := concat (enc_field <$> fs)) in *.
  destruct (pb_value_of_enc f rest Hf) as (w & Hw & v & Henc & Hv).
  destruct (enc_tag_spec f.1 w (v ++ rest) (proj1 Hf) Hw) as (tag & Htag & Hland & Hshift).
  rewrite Henc in *. rewrite <- app_assoc in *.
  destruct fuel as [|fuel]; [lia|].
  erewrite pb_fields_step; [|exact Htag|by rewrite Hland].
  rewrite IH by lia. cbn. rewrite Hshift. by destruct f.
Qed.

Lemma pb_message_enc fs : Forall wf_field fs →
  pb_message (concat (enc_field <$> fs)) = Some fs.
Proof. intros H. by apply pb_fields_enc. Qed.

(** ** What each encoder produces *)

Definition label_fields (l : Label) : list pb_field :=
  [(1, PbBytes (bytes_of (Name l))); (2, PbBytes (bytes_of (Value l)))].
Definition sample_fields (s : Sample) : list pb_field :=
  [(1, PbFixed64 (s_Value s)); (2, PbVarint (wrapU 64 (s_Timestamp s)))].
Definition encode (fs : list pb_field) : bytes := concat (enc_field <$> fs).
Definition series_fields (ts : TimeSeries) : list pb_field :=
  ((λ l, (1, PbBytes (encode (label_fields l)))) <$> Labels ts) ++
  ((λ s, (2, PbBytes (encode (sample_fields s)))) <$> Samples ts).
Definition request_fields (r : WriteRequest) : list pb_field :=
  (λ ts, (1, PbBytes (encode (series_fields ts)))) <$> Timeseries r.

Definition named (l : Label) : Prop := Name l ≠ ""%string.
Definition series_named (ts : TimeSeries) : Prop := Forall named (Labels ts).

Lemma appendMessage_enc buf k b : appendMessage buf k b = buf ++ enc_field (k, PbBytes b).
Proof.
  unfold appendMessage, appendVarint, appendTag, enc_field, enc_tag, appendTag, appendVarint.
  cbn [app]. by rewrite !app_assoc.
Qed.

(** A loop whose every step succeeds appends one field per element; it fails
    as soon as one step does. *)
Lemma marshal_each_ok {A} marshal k (enc : A → bytes) xs buf :
  Forall (λ x, marshal x = inl (enc x)) xs →
  marshal_each marshal k buf xs =
    inl (buf ++ concat (enc_field <$> ((λ x, (k, PbBytes (enc x))) <$> xs))).
Proof.
  intros H. revert buf. induction H as [|x xs Hx _ IH]; intros buf; cbn.
  { by rewrite app_nil_r. }
  rewrite Hx, IH, appendMessage_enc, <- app_assoc. done.
Qed.

Lemma marshal_each_err {A} (marshal : A → bytes + error) k xs buf e :
  marshal_each marshal k buf xs = inr e → Exists (λ x, marshal x = inr e) xs.
Proof.
  revert buf. induction xs as [|x xs IH]; intros buf; cbn; [done|].
  destruct (marshal x) eqn:E; [|intros [= ->]; by left]. intros H. right. eauto.
Qed.

Lemma marshal_each_all {A} (marshal : A → bytes + error) k xs buf out :
  marshal_each marshal k buf xs = inl out → Forall (λ x, ∃ b, marshal x = inl b) xs.
Proof.
  revert buf. induction xs as [|x xs IH]; intros buf; cbn; [done|].
  destruct (marshal x) eqn:E; [|done]. eauto.
Qed.

Lemma marshalLabel_ok l : named l → marshalLabel l = inl (encode (label_fields l)).
Proof.
  unfold named, marshalLabel. intros H. rewrite decide_False by done. f_equal.
  unfold appendString, appendTag, appendVarint, encode, label_fields, enc_field, enc_tag,
    appendTag, appendVarint, Writer.slen. cbn [fmap list_fmap concat app].
  rewrite app_nil_r. by rewrite <- !app_assoc.
Qed.

Lemma marshalLabel_inv l b : marshalLabel l = inl b → named l.
Proof. unfold marshalLabel. by case_decide. Qed.

Lemma marshalSample_ok s : marshalSample s = inl (encode (sample_fields s)).
Proof.
  unfold marshalSample, appendTag, appendVarint, encode, sample_fields, enc_field, enc_tag,
    appendTag, appendVarint. cbn [fmap list_fmap concat app].
  rewrite app_nil_r. by rewrite <- !app_assoc.
Qed.

Lemma marshalTimeSeries_ok ts :
  series_named ts → marshalTimeSeries ts = inl (encode (series_fields ts)).
Proof.
  intros H. unfold marshalTimeSeries.
  rewrite (marshal_each_ok _ _ (λ l, encode (label_fields l))).
  2: { eapply Forall_impl; [exact H|]. apply marshalLabel_ok. }
  rewrite (marshal_each_ok _ _ (λ s, encode (sample_fields s))).
  2: { apply Forall_true. apply marshalSample_ok. }
  unfold encode, series_fields. by rewrite fmap_app, concat_app.
Qed.

Lemma marshalTimeSeries_inv ts b : marshalTimeSeries ts = inl b → series_named ts.
Proof.
  unfold marshalTimeSeries.
  destruct (marshal_each marshalLabel 1 [] (Labels ts)) eqn:E; [|done]. intros _.
  eapply Forall_impl; [by eapply marshal_each_all|].
  intros lbl [b' Hb]. by eapply marshalLabel_inv.
Qed.

Lemma Marshal_ok r :
  Forall series_named (Timeseries r) → Marshal r = inl (encode (request_fields r)).
Proof.
  intros H. unfold Marshal.
  rewrite (marshal_each_ok _ _ (λ ts, encode (series_fields ts))); [done|].
  eapply Forall_impl; [exact H|]. apply marshalTimeSeries_ok.
Qed.

Lemma Marshal_inv r b : Marshal r = inl b → Forall series_named (Timeseries r).
Proof.
  intros H. apply marshal_each_all in H. eapply Forall_impl; [exact H|].
  intros ts [b' Hb]. by eapply marshalTimeSeries_inv.
Qed.

(** ** Decoding what they produce *)

(** The values Go's types admit: a 64-bit pattern and an [int64]. *)
Definition typed_sample (s : Sample) : Prop := inU 64 (s_Value s) ∧ inS 64 (s_Timestamp s).
Definition typed (r : WriteRequest) : Prop :=
  Forall (λ ts, Forall typed_sample (Samples ts)) (Timeseries r).

Definition fits (fs : list pb_field) : Prop := len (encode fs) < 2 ^ 63.

Lemma encode_elem f fs : f ∈ fs → len (enc_field f) <= len (encode fs).
Proof.
  unfold encode. induction 1 as [f fs|f g fs _ IH]; cbn [fmap list_fmap concat]; rewrite len_app.
  - pose proof (len_nonneg (concat (enc_field <$> fs))). lia.
  - pose proof (len_nonneg (enc_field g)). lia.
Qed.

Lemma fits_sub fs k b : fits fs → (k, PbBytes b) ∈ fs → len b < 2 ^ 63.
Proof.
  unfold fits. intros Hf Hin. apply encode_elem in Hin. cbn [enc_field] in Hin.
  rewrite !len_app in Hin. pose proof (len_nonneg (enc_tag k 2)).
  pose proof (len_nonneg (PutUvarint (wrapU 64 (len b)))). lia.
Qed.

Lemma str_bytes s : str (bytes_of s) = s.
Proof. apply String.string_of_list_byte_of_string. Qed.

Lemma repeated_here {A B} (decode : bytes → option A) k (enc : B → bytes) (g : B → A) xs fs :
  Forall (λ x, decode (enc x) = Some (g x)) xs → repeated k decode fs = Some [] →
  repeated k decode (((λ x, (k, PbBytes (enc x))) <$> xs) ++ fs) = Some (g <$> xs).
Proof.
  unfold repeated. intros H Hfs%mapM_Some. apply mapM_Some.
  rewrite omap_app, <- (app_nil_r (g <$> xs)). apply Forall2_app; [|done]. clear Hfs.
  induction H as [|x xs Hx _ IH]; cbn; [constructor|]. rewrite Z.eqb_refl. by constructor.
Qed.

Lemma repeated_skip {A B} (decode : bytes → option A) k k' (enc : B → bytes) xs fs :
  k ≠ k' → repeated k decode (((λ x, (k', PbBytes (enc x))) <$> xs) ++ fs) = repeated k decode fs.
Proof.
  unfold repeated. intros Hk. f_equal. induction xs as [|x xs IH]; [done|]. cbn.
  destruct (Z.eqb_spec k' k); [congruence|exact IH].
Qed.

Lemma pb_message_encode fs : fits fs → Forall (λ f, f.1 = 1 ∨ f.1 = 2) fs →
  Forall (λ f, match f.2 with PbVarint v | PbFixed64 v => inU 64 v | _ => True end) fs →
  pb_message (encode fs) = Some fs.
Proof.
  intros Hf Hk Hv. apply pb_message_enc. rewrite Forall_forall in *. intros [k v] Hin.
  split; [by apply Hk|]. specialize (Hv _ Hin). destruct v; [done|done|].
  by eapply fits_sub.
Qed.

Lemma decodeLabel_encode l :
  fits (label_fields l) → decodeLabel (encode (label_fields l)) = Some l.
Proof.
  intros H. unfold decodeLabel. rewrite pb_message_encode; [|done|repeat apply Forall_cons_2; cbn; auto..].
  cbn. rewrite !str_bytes. by destruct l.
Qed.

Lemma decodeSample_encode s : fits (sample_fields s) → typed_sample s →
  decodeSample (encode (sample_fields s)) = Some s.
Proof.
  intros H [Hv Ht]. unfold decodeSample.
  rewrite pb_message_encode; [|done|repeat apply Forall_cons_2; cbn; auto using wrapU_range with lia..].
  cbn -[wrapS wrapU]. rewrite (wrapS_wrapU 64 eq_refl), (wrapS_small 64 eq_refl) by done.
  by destruct s.
Qed.

Lemma series_fields_keys ts : Forall (λ f, f.1 = 1 ∨ f.1 = 2) (series_fields ts).
Proof. apply Forall_app; split; apply Forall_fmap, Forall_true; cbn; auto. Qed.

Lemma decodeTimeSeries_encode ts : fits (series_fields ts) → Forall typed_sample (Samples ts) →
  decodeTimeSeries (encode (series_fields ts)) = Some ts.
Proof.
  intros H Hs. unfold decodeTimeSeries.
  rewrite pb_message_encode; [|done|apply series_fields_keys|].
  2: { apply Forall_app; split; apply Forall_fmap, Forall_true; done. }
  cbn [mbind option_bind]. unfold series_fields in *.
  rewrite (repeated_here _ _ _ id).
  - cbn [mbind option_bind]. rewrite repeated_skip by done.
    rewrite <- (app_nil_r ((λ s, (2, PbBytes (encode (sample_fields s)))) <$> Samples ts)).
    rewrite (repeated_here _ _ _ id); [cbn; rewrite !list_fmap_id; by destruct ts| |done].
    rewrite Forall_forall in *. intros s Hin. apply decodeSample_encode; [|by apply Hs].
    unfold fits. eapply (fits_sub _ 2 _ H), elem_of_app. right. apply list_elem_of_fmap. eauto.
  - rewrite Forall_forall. intros l Hin. apply decodeLabel_encode.
    unfold fits. eapply (fits_sub _ 1 _ H), elem_of_app. left. apply list_elem_of_fmap. eauto.
  - by rewrite <- (app_nil_r (_ <$> Samples ts)), repeated_skip.
Qed.

Lemma decode_Marshal (r : WriteRequest) (body : bytes) :
  typed r → Marshal r = inl body → len body < 2 ^ 63 → decodeWriteRequest body = Some r.
Proof.
  intros Ht Hm Hlen. pose proof (Marshal_inv _ _ Hm) as Hn.
  rewrite (Marshal_ok _ Hn) in Hm. simplify_eq. change (fits (request_fields r)) in Hlen.
  unfold decodeWriteRequest, typed in *.
  rewrite pb_message_encode; [|done|apply Forall_fmap, Forall_true; cbn; auto|].
  2: { apply Forall_fmap, Forall_true; done. }
  cbn [mbind option_bind]. unfold request_fields in *.
  rewrite <- (app_nil_r (_ <$> _)), (repeated_here _ _ _ id);
    [cbn; rewrite list_fmap_id; by destruct r| |done].
  rewrite Forall_forall in *. intros ts Hin. apply decodeTimeSeries_encode; [|by apply Ht].
  unfold fits. eapply (fits_sub _ 1 _ Hlen), list_elem_of_fmap. eauto.
Qed.

(** ** Properties *)

(** C9. Round trip of the remote_write encoder: whenever [Marshal] produces a
    body (shorter than 2^63 bytes, as every Go slice is), a protobuf decoder
    reads back exactly the request -- every series with its labels and samples,
    in order, negative timestamps and every bit pattern of a value included. *)
Theorem Marshal_roundtrip (r : WriteRequest) (body : bytes) :
  typed r → Marshal r = inl body → len body < 2 ^ 63 → decodeWriteRequest body = Some r.
Proof. apply decode_Marshal. Qed.

Definition sample_request : WriteRequest := mkWriteRequest
  [mkTimeSeries [mkLabel "__name__" "ome_health_power_state"; mkLabel "topic" "ome.health"]
     [mkSample (float64_of_int 17) 1700000000000; mkSample (float64_of_int (-1)) (-1)];
   mkTimeSeries [] []].

Lemma Marshal_roundtrip_witness :
  ∃ body, Marshal sample_request = inl body ∧ decodeWriteRequest body = Some sample_request.
Proof.
  eexists. split; [vm_compute; reflexivity|]. apply (Marshal_roundtrip sample_request).
  - repeat constructor; vm_compute; intuition congruence.
  - vm_compute. reflexivity.
  - vm_compute. reflexivity.
Defined.

(** The encoder fails exactly when some series carries a label with an
    empty name, and then with that error and no bytes at all: one bad series
    costs the whole batch. *)
Theorem Marshal_error (r : WriteRequest) :
  (∃ e, Marshal r = inr e) ↔ ¬ Forall series_named (Timeseries r).
Proof.
  split.
  - intros [e He] Hn. by rewrite (Marshal_ok _ Hn) in He.
  - intros Hn. destruct (Marshal r) as [b|e] eqn:E; [|eauto].
    destruct Hn. by eapply Marshal_inv.
Qed.

(** Timestamps are written as plain 64-bit varints, not zigzag: the
    encoding of -1 is the ten-byte two's-complement one, and differs from the
    zigzag encoding for every non-zero timestamp. *)
Theorem timestamp_not_zigzag (s : Sample) (b : bytes) :
  inS 64 (s_Timestamp s) → s_Timestamp s ≠ 0 → marshalSample s = inl b →
  b = enc_tag 1 1 ++ le_split 8 (s_Value s) ++ enc_tag 2 0 ++ PutUvarint (wrapU 64 (s_Timestamp s)) ∧
  PutUvarint (wrapU 64 (s_Timestamp s)) ≠ PutVarint (s_Timestamp s).
Proof.
  intros Ht Hne Hm. rewrite marshalSample_ok in Hm. simplify_eq. split.
  { unfold encode, sample_fields, enc_field. cbn [fmap list_fmap concat].
    rewrite app_nil_r. by rewrite <- !app_assoc. }
  unfold PutVarint. intros Heq.
  pose proof (uvarint_put _ [] (wrapU_range 64 eq_refl (s_Timestamp s))) as H1.
  rewrite Heq, (uvarint_put _ [] (zigzag_range _ Ht)) in H1.
  rewrite zigzag_val in H1 by done. injection H1 as H1.
  unfold wrapU, inS in *. revert H1. destruct (Z.ltb_spec (s_Timestamp s) 0) as [Hneg|Hpos].
  - rewrite <- (Z.mod_unique_pos (s_Timestamp s) (2 ^ 64) (-1) (s_Timestamp s + 2 ^ 64)) by lia. lia.
  - rewrite Z.mod_small by lia. lia.
Qed.

Lemma timestamp_not_zigzag_witness : ∃ b, marshalSample (mkSample 0 (-1)) = inl b ∧
  PutUvarint (wrapU 64 (-1)) ≠ PutVarint (-1).
Proof.
  eexists. split; [reflexivity|].
  eapply (timestamp_not_zigzag (mkSample 0 (-1))); [vm_compute; intuition congruence|done|reflexivity].
Defined.
