(* ===== verification/Utf8.v ===== *)
(** * Utf8: well-formed UTF-8

    Encoding a scalar value and decoding it again, and strings that are the
    encoding of a list of scalar values: what package json produces, and leaves
    alone when it writes a string. *)
From S2P Require Import Prelude GoLib.
Open Scope Z_scope.

(** A Unicode scalar value: what [utf8.ValidRune] accepts. *)
Definition scalar (r : Z) : Prop := 0 <= r <= 0x10FFFF ∧ ¬ 0xD800 <= r <= 0xDFFF.

#[export] Instance scalar_dec r : Decision (scalar r).
Proof. unfold scalar. apply _. Defined.

Definition utf8_encode (rs : list Z) : bytes := concat (map EncodeRune rs).

Definition valid_utf8 (s : string) : Prop := ∃ rs, Forall scalar rs ∧ to_bytes s = utf8_encode rs.

(** ** Bits of the four formats *)

Lemma lor_shiftl a b n : 0 <= n → 0 <= b < 2 ^ n → Z.lor (Z.shiftl a n) b = a * 2 ^ n + b.
Proof.
  intros Hn Hb. rewrite <- Z.shiftl_mul_pow2 by done.
  assert (Hz : Z.land (Z.shiftl a n) b = 0).
  { apply Z.bits_inj'. intros i Hi. rewrite Z.land_spec, Z.bits_0.
    destruct (Z.lt_ge_cases i n); [by rewrite Z.shiftl_spec_low by done|].
    rewrite <- (Z.mod_small b (2 ^ n)) by done.
    by rewrite Z.mod_pow2_bits_high, andb_false_r by lia. }
  by rewrite <- Z.lxor_lor, <- Z.add_nocarry_lxor by done.
Qed.

(** A property of every byte-sized number, by evaluation. *)
Lemma below_forall (n : Z) (P : Z → bool) : forallb P (seqZ 0 n) = true → ∀ x, 0 <= x < n → P x = true.
Proof.
  rewrite forallb_forall. intros H x Hx. apply H, list_elem_of_In, elem_of_seqZ. lia.
Qed.

Ltac by_bytes n P :=
  let H := fresh in pose proof (below_forall n P eq_refl) as H; exact H.

Lemma cont_byte x : 0 <= x < 64 → (Z.lor 0x80 x =? 0x80 + x) && (cont (0x80 + x) =? x) = true.
Proof. revert x. by_bytes 64 (λ x, (Z.lor 0x80 x =? 0x80 + x) && (cont (0x80 + x) =? x)). Qed.
Lemma lead2_byte x : 0 <= x < 32 → (Z.lor 0xC0 x =? 0xC0 + x) && (Z.land (0xC0 + x) 0x1F =? x) = true.
Proof. revert x. by_bytes 32 (λ x, (Z.lor 0xC0 x =? 0xC0 + x) && (Z.land (0xC0 + x) 0x1F =? x)). Qed.
Lemma lead3_byte x : 0 <= x < 16 → (Z.lor 0xE0 x =? 0xE0 + x) && (Z.land (0xE0 + x) 0x0F =? x) = true.
Proof. revert x. by_bytes 16 (λ x, (Z.lor 0xE0 x =? 0xE0 + x) && (Z.land (0xE0 + x) 0x0F =? x)). Qed.
Lemma lead4_byte x : 0 <= x < 8 → (Z.lor 0xF0 x =? 0xF0 + x) && (Z.land (0xF0 + x) 0x07 =? x) = true.
Proof. revert x. by_bytes 8 (λ x, (Z.lor 0xF0 x =? 0xF0 + x) && (Z.land (0xF0 + x) 0x07 =? x)). Qed.

Lemma low6 r n : 0 <= n → Z.land (Z.shiftr r n) 0x3F = (r / 2 ^ n) mod 64.
Proof. intros Hn. rewrite Z.shiftr_div_pow2 by done. apply (Z.land_ones _ 6). lia. Qed.

Lemma unsigned_byte x : 0 <= x < 256 → byte.unsigned (byte.of_Z x) = x.
Proof. intros H. rewrite byte.unsigned_of_Z. by apply Z.mod_small. Qed.

Lemma in_range_true lo hi x : lo <= x <= hi → in_range lo hi x = true.
Proof. intros H. unfold in_range. destruct (Z.leb_spec lo x), (Z.leb_spec x hi); lia || done. Qed.
Lemma in_range_false lo hi x : x < lo ∨ hi < x → in_range lo hi x = false.
Proof. intros H. unfold in_range. destruct (Z.leb_spec lo x), (Z.leb_spec x hi); lia || done. Qed.

(** ** The bytes of a scalar value *)

Inductive encoded (r : Z) : bytes → Prop :=
  | enc1 : 0 <= r < 0x80 → encoded r [byte.of_Z r]
  | enc2 a b : 2 <= a < 32 → 0 <= b < 64 → r = a * 64 + b →
      encoded r [byte.of_Z (0xC0 + a); byte.of_Z (0x80 + b)]
  | enc3 a b c : 0 <= a < 16 → 0 <= b < 64 → 0 <= c < 64 → r = (a * 64 + b) * 64 + c →
      (a = 0 → 32 <= b) → (a = 13 → b < 32) →
      encoded r [byte.of_Z (0xE0 + a); byte.of_Z (0x80 + b); byte.of_Z (0x80 + c)]
  | enc4 a b c d : 0 <= a < 5 → 0 <= b < 64 → 0 <= c < 64 → 0 <= d < 64 →
      r = ((a * 64 + b) * 64 + c) * 64 + d → (a = 0 → 16 <= b) → (a = 4 → b < 16) →
      encoded r [byte.of_Z (0xF0 + a); byte.of_Z (0x80 + b); byte.of_Z (0x80 + c); byte.of_Z (0x80 + d)].

Lemma lor_cont x : 0 <= x < 64 → Z.lor 0x80 x = 0x80 + x.
Proof. intros H. by apply cont_byte, andb_true_iff, proj1, Z.eqb_eq in H. Qed.

Lemma EncodeRune_encoded r : scalar r → encoded r (EncodeRune r).
Proof.
  intros [Hr Hs]. unfold EncodeRune.
  assert (Hc : ∀ n, 0 <= n → Z.lor 0x80 (Z.land (Z.shiftr r n) 0x3F) = 0x80 + (r / 2 ^ n) mod 64).
  { intros n Hn. rewrite low6 by done. apply lor_cont, Z.mod_pos_bound. lia. }
  destruct (Z.lt_ge_cases r 0x80) as [H1|H1].
  { rewrite in_range_true by lia. constructor. lia. }
  rewrite in_range_false by lia. destruct (Z.lt_ge_cases r 0x800) as [H2|H2].
  { rewrite in_range_true by lia. cbn [map]. rewrite Hc by lia. rewrite Z.shiftr_div_pow2 by lia.
    assert (Ha : 2 <= r / 2 ^ 6 < 32).
    { split; [apply Z.div_le_lower_bound; lia|apply Z.div_lt_upper_bound; lia]. }
    assert (Hl : Z.lor 0xC0 (r / 2 ^ 6) = 0xC0 + r / 2 ^ 6).
    { assert (Hx : 0 <= r / 2 ^ 6 < 32) by lia. by apply lead2_byte, andb_true_iff, proj1, Z.eqb_eq in Hx. }
    rewrite Hl, Z.pow_0_r, Z.div_1_r. apply enc2; [done|apply Z.mod_pos_bound; lia|].
    change (2 ^ 6) with 64. pose proof (Z.div_mod r 64 ltac:(lia)). lia. }
  rewrite in_range_false by lia. rewrite (in_range_false 0xD800) by lia.
  rewrite (in_range_true 0 0x10FFFF) by lia. cbn [negb orb].
  destruct (Z.leb_spec r 0xFFFF) as [H3|H3]; cbn [map]; rewrite !Hc, Z.shiftr_div_pow2 by lia;
    rewrite ?Z.pow_0_r, ?Z.div_1_r; change (2 ^ 6) with 64; change (2 ^ 12) with 4096; change (2 ^ 18) with 262144;
    pose proof (Z.div_mod r 64 ltac:(lia)); pose proof (Z.div_mod (r / 64) 64 ltac:(lia));
    pose proof (Z.mod_pos_bound r 64 ltac:(lia)); pose proof (Z.mod_pos_bound (r / 64) 64 ltac:(lia));
    (assert (Hd : r / 4096 = r / 64 / 64) by (rewrite Z.div_div by lia; done)).
  - assert (Hx : 0 <= r / 4096 < 16) by (split; [apply Z.div_pos; lia|apply Z.div_lt_upper_bound; lia]).
    pose proof Hx as Hl. apply lead3_byte, andb_true_iff, proj1, Z.eqb_eq in Hl. rewrite Hl, Hd in *.
    apply enc3; lia.
  - assert (Hx : 0 <= r / 262144 < 8) by (split; [apply Z.div_pos; lia|apply Z.div_lt_upper_bound; lia]).
    pose proof Hx as Hl. apply lead4_byte, andb_true_iff, proj1, Z.eqb_eq in Hl. rewrite Hl, Hd in *.
    assert (Hd2 : r / 262144 = r / 64 / 64 / 64) by (rewrite !Z.div_div by lia; done). rewrite Hd2 in *.
    pose proof (Z.div_mod (r / 64 / 64) 64 ltac:(lia)). pose proof (Z.mod_pos_bound (r / 64 / 64) 64 ltac:(lia)).
    apply enc4; lia.
Qed.

Ltac split_enc H := apply andb_true_iff in H as [_ H]; apply Z.eqb_eq in H.

(** Decoding what was encoded. *)
Lemma DecodeRune_encoded r bs t : encoded r bs → DecodeRune (bs ++ t) = (r, length bs).
Proof.
  assert (Hcont : ∀ x, 0 <= x < 64 → cont (0x80 + x) = x).
  { intros x Hx. apply cont_byte in Hx. by split_enc Hx. }
  intros [H|a b Ha Hb ->|a b c Ha Hb Hc -> H0 H13|a b c d Ha Hb Hc Hd -> H0 H4]; unfold DecodeRune;
    cbn [app take map length]; rewrite ?unsigned_byte by lia.
  - destruct (Z.ltb_spec r 0x80); [done|lia].
  - destruct (Z.ltb_spec (0xC0 + a) 0x80); [lia|]. rewrite !in_range_true by lia. cbn [andb].
    rewrite Hcont by done. f_equal. assert (Hx : 0 <= a < 32) by lia. apply lead2_byte in Hx. split_enc Hx.
    rewrite Hx, lor_shiftl by lia. lia.
  - destruct (Z.ltb_spec (0xE0 + a) 0x80); [lia|]. rewrite (in_range_false 0xC2) by lia. cbn [andb].
    rewrite (in_range_true 0xE0) by lia. rewrite (in_range_true 0x80 0xBF (0x80 + c)) by lia.
    rewrite (in_range_true (if 0xE0 + a =? 0xE0 then _ else _))
      by (destruct (Z.eqb_spec (0xE0 + a) 0xE0), (Z.eqb_spec (0xE0 + a) 0xED); lia).
    cbn [andb]. rewrite !Hcont by done. f_equal. apply lead3_byte in Ha. split_enc Ha.
    rewrite Ha, (lor_shiftl b c), (lor_shiftl a) by lia. lia.
  - destruct (Z.ltb_spec (0xF0 + a) 0x80); [lia|]. rewrite (in_range_false 0xC2) by lia. cbn [andb].
    rewrite (in_range_false 0xE0) by lia. cbn [andb].
    rewrite (in_range_true 0xF0) by lia. rewrite (in_range_true 0x80 0xBF (0x80 + c)) by lia.
    rewrite (in_range_true 0x80 0xBF (0x80 + d)) by lia.
    rewrite (in_range_true (if 0xF0 + a =? 0xF0 then _ else _))
      by (destruct (Z.eqb_spec (0xF0 + a) 0xF0), (Z.eqb_spec (0xF0 + a) 0xF4); lia).
    cbn [andb]. rewrite !Hcont by done. f_equal. assert (Hx : 0 <= a < 8) by lia.
    apply lead4_byte in Hx. split_enc Hx. rewrite Hx, (lor_shiftl c d), (lor_shiftl b), (lor_shiftl a) by lia. lia.
Qed.

Lemma DecodeRune_EncodeRune r t : scalar r → DecodeRune (EncodeRune r ++ t) = (r, length (EncodeRune r)).
Proof. intros H. by apply DecodeRune_encoded, EncodeRune_encoded. Qed.

Lemma EncodeRune_length r : scalar r → (0 < length (EncodeRune r) <= 4)%nat.
Proof. intros H. destruct (EncodeRune_encoded r H); cbn; lia. Qed.

(** An ASCII rune is its byte, and nothing else has an ASCII byte. *)
Lemma EncodeRune_bytes r c : scalar r → c ∈ EncodeRune r →
  (r < 0x80 ∧ EncodeRune r = [c] ∧ byte.unsigned c = r) ∨ (0x80 <= r ∧ 0x80 <= byte.unsigned c).
Proof.
  intros Hr. pose proof Hr as [Hr0 _].
  destruct (EncodeRune_encoded r Hr) as [H|a b Ha Hb ->|a b c' Ha Hb Hc -> H0 H13|a b c' d Ha Hb Hc Hd -> H0 H4];
    intros Hin.
  1: { left. apply list_elem_of_singleton in Hin as ->. rewrite unsigned_byte by lia. split; [lia|done]. }
  all: right; (split; [lia|]).
  all: repeat (apply elem_of_cons in Hin as [->|Hin]; [rewrite unsigned_byte; lia|]).
  all: by apply elem_of_nil in Hin.
Qed.

(** What [EncodeRune] writes for a number that is no scalar value is U+FFFD. *)
Lemma EncodeRune_invalid r : ¬ scalar r → EncodeRune r = EncodeRune RuneError.
Proof.
  unfold scalar. intros H. unfold EncodeRune.
  destruct (Z.lt_ge_cases r 0).
  - rewrite (in_range_false 0 0x7F), (in_range_false 0x80) by lia.
    rewrite (in_range_false 0 0x10FFFF) by lia. cbn [negb]. by rewrite orb_true_r.
  - rewrite (in_range_false 0 0x7F), (in_range_false 0x80) by lia.
    destruct (Z.le_gt_cases r 0x10FFFF).
    + by rewrite (in_range_true 0xD800) by lia.
    + rewrite (in_range_false 0 0x10FFFF) by lia. cbn [negb]. by rewrite orb_true_r.
Qed.

Definition to_scalar (r : Z) : Z := if decide (scalar r) then r else RuneError.

Lemma to_scalar_scalar r : scalar (to_scalar r).
Proof. unfold to_scalar. case_decide; [done|]. unfold scalar, RuneError. lia. Qed.
Lemma EncodeRune_to_scalar r : EncodeRune r = EncodeRune (to_scalar r).
Proof. unfold to_scalar. case_decide; [done|]. by apply EncodeRune_invalid. Qed.

(** ** Iterating over a well-formed string *)

Lemma utf8_encode_cons r rs : utf8_encode (r :: rs) = EncodeRune r ++ utf8_encode rs.
Proof. reflexivity. Qed.
Lemma utf8_encode_app rs1 rs2 : utf8_encode (rs1 ++ rs2) = utf8_encode rs1 ++ utf8_encode rs2.
Proof. unfold utf8_encode. by rewrite map_app, concat_app. Qed.

Lemma runes_loop_encode rs : Forall scalar rs → ∀ fuel i, (length (utf8_encode rs) <= fuel)%nat →
  map (λ x : Z * Z * bytes, (x.1.2, x.2)) (runes_loop fuel i (utf8_encode rs)) = map (λ r, (r, EncodeRune r)) rs.
Proof.
  induction 1 as [|r rs Hr _ IH]; intros fuel i Hf; [by destruct fuel|].
  rewrite utf8_encode_cons in *. rewrite length_app in Hf. pose proof (EncodeRune_length r Hr) as Hl.
  destruct fuel as [|fuel]; [lia|]. cbn [runes_loop].
  pose proof (DecodeRune_EncodeRune r (utf8_encode rs) Hr) as Hd.
  destruct (EncodeRune r ++ utf8_encode rs) as [|c b] eqn:E.
  { apply (f_equal length) in E. rewrite length_app in E. cbn in E. lia. }
  rewrite Hd, <- E. cbn [map fst snd]. rewrite take_app_length, drop_app_length. f_equal.
  apply IH. lia.
Qed.

Lemma runes_valid s rs : Forall scalar rs → to_bytes s = utf8_encode rs →
  map (λ x : Z * Z * bytes, (x.1.2, x.2)) (runes s) = map (λ r, (r, EncodeRune r)) rs.
Proof. intros H E. unfold runes. rewrite E. by apply runes_loop_encode. Qed.

Lemma valid_utf8_encode rs : Forall scalar rs → valid_utf8 (of_bytes (utf8_encode rs)).
Proof. intros H. exists rs. by rewrite to_of_bytes. Qed.
Lemma valid_utf8_empty : valid_utf8 "".
Proof. by exists []. Qed.

(** The runes of an ASCII string are its bytes. *)
Definition ascii_runes (s : string) : list Z := map byte.unsigned (to_bytes s).

Lemma ascii_runes_encode s : isASCII s = true →
  Forall scalar (ascii_runes s) ∧ to_bytes s = utf8_encode (ascii_runes s).
Proof.
  unfold isASCII, ascii_runes. rewrite forallb_forall. intros H.
  assert (Hall : Forall (λ c, byte.unsigned c < 128) (to_bytes s)).
  { apply Forall_forall. intros c Hc. apply list_elem_of_In, H in Hc. lia. }
  clear H. split.
  - apply Forall_map. eapply Forall_impl; [exact Hall|]. cbn. intros c Hc.
    pose proof (byte.unsigned_range c). unfold scalar. lia.
  - induction Hall as [|c b Hc _ IH]; [done|]. cbn [map]. rewrite utf8_encode_cons, <- IH.
    unfold EncodeRune. pose proof (byte.unsigned_range c). rewrite in_range_true by lia.
    cbn. by rewrite byte.of_Z_unsigned.
Qed.

Lemma valid_utf8_ascii s : isASCII s = true → valid_utf8 s.
Proof. intros H. exists (ascii_runes s). by apply ascii_runes_encode. Qed.

(** ** Strings that are not well formed

    A [range] over a string reads U+FFFD for each byte that starts no
    well-formed sequence; everything else is the encoding of what it reads. *)

Lemma encoded_unique r b1 b2 : encoded r b1 → encoded r b2 → b1 = b2.
Proof.
  intros [H|a b Ha Hb E|a b c Ha Hb Hc E H0 H13|a b c d Ha Hb Hc Hd E H0 H4]
    [H'|a' b' Ha' Hb' E'|a' b' c' Ha' Hb' Hc' E' H0' H13'|a' b' c' d' Ha' Hb' Hc' Hd' E' H0' H4'];
    try lia; [done|..].
  - assert (a' = a ∧ b' = b) as [-> ->] by lia. done.
  - assert (a' = a ∧ b' = b ∧ c' = c) as (-> & -> & ->) by lia. done.
  - assert (a' = a ∧ b' = b ∧ c' = c ∧ d' = d) as (-> & -> & -> & ->) by lia. done.
Qed.

Lemma encoded_scalar r b : encoded r b → scalar r.
Proof.
  intros [H|a c Ha Hb E|a c d Ha Hb Hc E H0 H13|a c d e Ha Hb Hc Hd E H0 H4]; unfold scalar; lia.
Qed.

Lemma encoded_EncodeRune r b : encoded r b → EncodeRune r = b.
Proof. intros H. eapply encoded_unique; [|exact H]. by eapply EncodeRune_encoded, encoded_scalar. Qed.

Lemma in_range_inv lo hi x : in_range lo hi x = true → lo <= x <= hi.
Proof. unfold in_range. lia. Qed.

(** A lead byte is its tag plus the bits [DecodeRune] takes. *)
Lemma lead_bits lo hi mask x : lo <= x <= hi → 0 <= lo → hi < 256 →
  forallb (λ x, Z.land x mask =? x - lo) (seqZ lo (hi - lo + 1)) = true → Z.land x mask = x - lo.
Proof.
  intros Hx _ _ Hall. rewrite forallb_forall in Hall.
  apply Z.eqb_eq, Hall, list_elem_of_In, elem_of_seqZ. lia.
Qed.

Lemma of_Z_shift c lo x : x = byte.unsigned c - lo → byte.of_Z (lo + x) = c.
Proof. intros ->. replace (lo + (byte.unsigned c - lo)) with (byte.unsigned c) by lia. apply byte.of_Z_unsigned. Qed.

(** The formats, from the bytes. *)
Lemma encoded2 c0 c1 (a := byte.unsigned c0 - 0xC0) (b := byte.unsigned c1 - 0x80) :
  2 <= a < 32 → 0 <= b < 64 → encoded (a * 2 ^ 6 + b) [c0; c1].
Proof.
  intros Ha Hb. rewrite <- (of_Z_shift c0 0xC0 a eq_refl), <- (of_Z_shift c1 0x80 b eq_refl).
  apply enc2; lia.
Qed.
Lemma encoded3 c0 c1 c2 (a := byte.unsigned c0 - 0xE0) (b := byte.unsigned c1 - 0x80) (c := byte.unsigned c2 - 0x80) :
  0 <= a < 16 → 0 <= b < 64 → 0 <= c < 64 → (a = 0 → 32 <= b) → (a = 13 → b < 32) →
  encoded (a * 2 ^ 12 + (b * 2 ^ 6 + c)) [c0; c1; c2].
Proof.
  intros Ha Hb Hc H1 H2. rewrite <- (of_Z_shift c0 0xE0 a eq_refl), <- (of_Z_shift c1 0x80 b eq_refl),
    <- (of_Z_shift c2 0x80 c eq_refl). apply enc3; lia.
Qed.
Lemma encoded4 c0 c1 c2 c3 (a := byte.unsigned c0 - 0xF0) (b := byte.unsigned c1 - 0x80)
    (c := byte.unsigned c2 - 0x80) (d := byte.unsigned c3 - 0x80) :
  0 <= a < 5 → 0 <= b < 64 → 0 <= c < 64 → 0 <= d < 64 → (a = 0 → 16 <= b) → (a = 4 → b < 16) →
  encoded (a * 2 ^ 18 + (b * 2 ^ 12 + (c * 2 ^ 6 + d))) [c0; c1; c2; c3].
Proof.
  intros Ha Hb Hc Hd H1 H2. rewrite <- (of_Z_shift c0 0xF0 a eq_refl), <- (of_Z_shift c1 0x80 b eq_refl),
    <- (of_Z_shift c2 0x80 c eq_refl), <- (of_Z_shift c3 0x80 d eq_refl). apply enc4; lia.
Qed.

Lemma DecodeRune_inv b : b ≠ [] →
  DecodeRune b = (RuneError, 1%nat) ∨ ∃ r raw t, DecodeRune b = (r, length raw) ∧ encoded r raw ∧ b = raw ++ t.
Proof.
  intros Hne. destruct b as [|c0 b]; [done|]. clear Hne. unfold DecodeRune.
  pose proof (byte.unsigned_range c0) as R0. cbn [take map].
  destruct (Z.ltb_spec (byte.unsigned c0) 0x80) as [H0|H0].
  { right. exists (byte.unsigned c0), [c0], b. split; [done|]. split; [|done].
    pose proof (enc1 (byte.unsigned c0)) as He. rewrite byte.of_Z_unsigned in He. apply He. lia. }
  destruct b as [|c1 b]; [by left|]. cbn [take map].
  assert (Hc : ∀ c, 0x80 <= byte.unsigned c <= 0xBF → cont (byte.unsigned c) = byte.unsigned c - 0x80).
  { intros c Hc. by apply (lead_bits 0x80 0xBF 0x3F). }
  destruct (in_range 0xC2 0xDF _ && in_range 0x80 0xBF _) eqn:E2.
  { apply andb_true_iff in E2 as [E20%in_range_inv E21%in_range_inv]. right.
    rewrite Hc by done. rewrite (lead_bits 0xC0 0xDF) by (done || lia). rewrite lor_shiftl by lia.
    eexists _, [c0; c1], b. split; [reflexivity|]. split; [|done]. apply encoded2; lia. }
  destruct b as [|c2 b]; [by left|]. cbn [take map].
  destruct (in_range 0xE0 0xEF _ && _ && _) eqn:E3.
  { apply andb_true_iff in E3 as [[E30%in_range_inv E31%in_range_inv]%andb_true_iff E32%in_range_inv]. right.
    assert (E31' : 0x80 <= byte.unsigned c1 <= 0xBF ∧ (byte.unsigned c0 = 0xE0 → 0xA0 <= byte.unsigned c1) ∧
      (byte.unsigned c0 = 0xED → byte.unsigned c1 <= 0x9F)).
    { destruct (Z.eqb_spec (byte.unsigned c0) 0xE0), (Z.eqb_spec (byte.unsigned c0) 0xED); lia. }
    rewrite !Hc by lia. rewrite (lead_bits 0xE0 0xEF) by (done || lia).
    rewrite (lor_shiftl (byte.unsigned c1 - 0x80)), lor_shiftl by lia.
    eexists _, [c0; c1; c2], b. split; [reflexivity|]. split; [|done]. apply encoded3; lia. }
  destruct b as [|c3 b]; [by left|]. cbn [take map].
  destruct (in_range 0xF0 0xF4 _ && _ && _ && _) eqn:E4; [|by left].
  apply andb_true_iff in E4 as
    [[[E40%in_range_inv E41%in_range_inv]%andb_true_iff E42%in_range_inv]%andb_true_iff E43%in_range_inv]. right.
  assert (E41' : 0x80 <= byte.unsigned c1 <= 0xBF ∧ (byte.unsigned c0 = 0xF0 → 0x90 <= byte.unsigned c1) ∧
    (byte.unsigned c0 = 0xF4 → byte.unsigned c1 <= 0x8F)).
  { destruct (Z.eqb_spec (byte.unsigned c0) 0xF0), (Z.eqb_spec (byte.unsigned c0) 0xF4); lia. }
  rewrite !Hc by lia. rewrite (lead_bits 0xF0 0xF7) by (done || lia).
  rewrite (lor_shiftl (byte.unsigned c2 - 0x80)), (lor_shiftl (byte.unsigned c1 - 0x80)), lor_shiftl by lia.
  eexists _, [c0; c1; c2; c3], b. split; [reflexivity|]. split; [|done]. apply encoded4; lia.
Qed.

(** What a string reads as: its runes, encoded.  A well-formed string reads as
    itself. *)
Definition rune_list (s : string) : list Z := map (λ x : Z * Z * bytes, x.1.2) (runes s).
Definition to_valid (s : string) : string := of_bytes (utf8_encode (rune_list s)).

(** A rune of a string: read from its encoding, or from one bad byte. *)
Definition rune_ok (x : Z * bytes) : Prop :=
  (scalar x.1 ∧ x.2 = EncodeRune x.1) ∨ (x.1 = RuneError ∧ length x.2 = 1%nat).

Lemma runes_ok s : Forall (λ x : Z * Z * bytes, rune_ok (x.1.2, x.2)) (runes s).
Proof.
  unfold runes. generalize 0 as i. generalize (to_bytes s) as b. intros b. generalize (length b) as fuel.
  intros fuel. revert b. induction fuel as [|fuel IH]; intros b i; [constructor|].
  destruct b as [|c b]; [constructor|]. cbn [runes_loop].
  destruct (DecodeRune_inv (c :: b)) as [Hd|(r & raw & t & Hd & He & Hb)]; [done|..]; rewrite Hd.
  - constructor; [|apply IH]. right. done.
  - constructor; [|apply IH]. left. rewrite Hb, take_app_length.
    split; [by eapply encoded_scalar|]. symmetry. by apply encoded_EncodeRune.
Qed.

Lemma rune_list_scalar s : Forall scalar (rune_list s).
Proof.
  unfold rune_list. apply Forall_map. eapply Forall_impl; [apply runes_ok|].
  intros [[i r] raw] [[H _]|[H _]]; cbn in *; [done|]. subst. unfold scalar, RuneError. lia.
Qed.

Lemma to_valid_valid s : valid_utf8 (to_valid s).
Proof. apply valid_utf8_encode, rune_list_scalar. Qed.

Lemma to_valid_id s : valid_utf8 s → to_valid s = s.
Proof.
  intros (rs & Hrs & Hs). unfold to_valid, rune_list.
  pose proof (runes_valid s rs Hrs Hs) as Hr. apply (f_equal (map fst)) in Hr. rewrite !map_map in Hr. cbn in Hr.
  rewrite Hr, map_id, <- Hs. apply of_to_bytes.
Qed.
