(* ===== verification/Regexp.v ===== *)
(** * Regexp: package regexp, as the relabeling engine uses it

    The interface [Regexp] the engine is written against, and the package
    itself for the part of its syntax rules are written in: literals, escapes,
    [.], classes, groups (capturing or not), alternation, the operators
    [*], [+], [?] and their lazy forms, [^] and [$].  An expression outside
    that part (counted repetition, flags, named groups, Unicode classes, word
    boundaries, syntax errors) is left to another package, an argument.  So is
    one that repeats, with [*] or [+], what can match nothing: what the package
    captures there follows from the instructions of its program, none of which
    it runs twice at one offset.  Where every round takes a character, no
    instruction can come up twice at an offset, and its search is plain
    backtracking.

    Matching is leftmost-first: of the matches that begin leftmost, the one a
    backtracking search finds first.  [matches] is the denotation the
    search is proved sound and complete for. *)
From S2P Require Import Prelude GoLib.
From Stdlib Require Import Strings.Ascii.
Open Scope Z_scope.

(** ** The interface *)
Class Regexp := {
  re : Type;
  Compile : string → re + error;
  MatchString : re → string → bool;
  ReplaceAllString : re → string → string → string }.

(** ** Syntax *)

(** An item of a class: some ranges, or everything outside them. *)
Definition class_item : Type := bool * list (Z * Z).

Inductive regex :=
| Empty
| Class (negated : bool) (items : list class_item)
| Begin
| End
| Seq (a b : regex)
| Alt (a b : regex)
| Star (greedy : bool) (a : regex)
| Group (n : nat) (a : regex).

Definition single (c : Z) : regex := Class false [(false, [(c, c)])].
(** [.] without the flag s: anything but a newline. *)
Definition AnyNotNL : regex := Class true [(false, [(10, 10)])].

Definition digit_class : list (Z * Z) := [(48, 57)].
Definition space_class : list (Z * Z) := [(9, 10); (12, 13); (32, 32)].
Definition word_class : list (Z * Z) := [(48, 57); (65, 90); (95, 95); (97, 122)].

(** [\d \D \s \S \w \W] *)
Definition perl_class (c : Z) : option class_item :=
  if c =? 100 then Some (false, digit_class)
  else if c =? 68 then Some (true, digit_class)
  else if c =? 115 then Some (false, space_class)
  else if c =? 83 then Some (true, space_class)
  else if c =? 119 then Some (false, word_class)
  else if c =? 87 then Some (true, word_class)
  else None.

Definition ascii_alnum (c : Z) : bool := in_range 48 57 c || in_range 65 90 c || in_range 97 122 c.

(** The other escapes: the control characters and punctuation. *)
Definition escaped (c : Z) : option Z :=
  if c =? 97 then Some 7
  else if c =? 102 then Some 12
  else if c =? 110 then Some 10
  else if c =? 114 then Some 13
  else if c =? 116 then Some 9
  else if c =? 118 then Some 11
  else if in_range 0 127 c && negb (ascii_alnum c) then Some c
  else None.

(** One character of a class, escapes read. *)
Definition class_char (s : list Z) : option (Z * list Z) :=
  match s with
  | 92 :: c :: s => e ← escaped c; Some (e, s)
  | 92 :: [] => None
  | c :: s => Some (c, s)
  | [] => None
  end.

(** The end of a range that begins with [lo], unless the hyphen is the last
    character of the class. *)
Definition range_end (lo : Z) (s : list Z) : option (Z * list Z) :=
  match s with
  | x :: d :: s' => if (x =? 45) && negb (d =? 93) then class_char (d :: s') else Some (lo, s)
  | _ => Some (lo, s)
  end.

(** A character or a range. *)
Definition class_range (s : list Z) : option (class_item * list Z) :=
  '(lo, s) ← class_char s;
  '(hi, s) ← range_end lo s;
  if hi <? lo then None else Some ((false, [(lo, hi)]), s).

Definition class_escape (s : list Z) : option (class_item * list Z) :=
  match s with
  | x :: d :: s => if x =? 92 then i ← perl_class d; Some (i, s) else None
  | _ => None
  end.

Definition class_element (s : list Z) : option (class_item * list Z) :=
  match class_escape s with Some x => Some x | None => class_range s end.

(** The items of a class up to its closing bracket, which does not close it in
    the [first] place.  POSIX classes are left out. *)
Fixpoint class_items (fuel : nat) (first : bool) (s : list Z) : option (list class_item * list Z) :=
  match fuel, s with
  | S fuel, c :: s' =>
      if (c =? 93) && negb first then Some ([], s')
      else if (c =? 91) && match s' with d :: _ => d =? 58 | [] => true end then None
      else
        '(i, t) ← class_element s;
        '(items, t) ← class_items fuel false t;
        Some (i :: items, t)
  | _, _ => None
  end.

Definition is_repeat (c : Z) : bool := (c =? 42) || (c =? 43) || (c =? 63) || (c =? 123).

(** Can the expression match without taking a character? *)
Fixpoint nullable (r : regex) : bool :=
  match r with
  | Empty | Begin | End | Star _ _ => true
  | Class _ _ => false
  | Seq a b => nullable a && nullable b
  | Alt a b => nullable a || nullable b
  | Group _ a => nullable a
  end.

(** A repetition operator after [a], with its lazy mark; a second operator may
    not follow.  Counted repetition is left out, and [*] and [+] after what may
    match nothing. *)
Definition repeated (c : Z) (greedy : bool) (a : regex) : regex :=
  if c =? 42 then Star greedy a
  else if c =? 43 then Seq a (Star greedy a)
  else if greedy then Alt a Empty else Alt Empty a.

Definition no_repeat (a : regex) (s : list Z) : option (regex * list Z) :=
  match s with c :: _ => if is_repeat c then None else Some (a, s) | [] => Some (a, s) end.

Definition postfix (a : regex) (s : list Z) : option (regex * list Z) :=
  match s with
  | c :: s' =>
      if c =? 123 then None
      else if is_repeat c && negb (c =? 63) && nullable a then None
      else if is_repeat c then
        match s' with
        | d :: s'' => if d =? 63 then no_repeat (repeated c false a) s'' else no_repeat (repeated c true a) s'
        | [] => Some (repeated c true a, [])
        end
      else Some (a, s)
  | [] => Some (a, s)
  end.

(** A literal character, [.], an escape or a class, with its repetition. *)
Definition simple_atom (c : Z) (s : list Z) : option (regex * list Z) :=
  if is_repeat c then None
  else if c =? 46 then postfix AnyNotNL s
  else if c =? 94 then no_repeat Begin s
  else if c =? 36 then no_repeat End s
  else if c =? 91 then
    '(neg, items, s) ←
      match s with
      | d :: s' => if d =? 94 then '(i, t) ← class_items (S (length s)) true s'; Some (true, i, t)
                   else '(i, t) ← class_items (S (length s)) true s; Some (false, i, t)
      | [] => None
      end;
    postfix (Class neg items) s
  else if c =? 92 then
    match s with
    | d :: s => match perl_class d with
                | Some i => postfix (Class false [i]) s
                | None => e ← escaped d; postfix (single e) s
                end
    | [] => None
    end
  else postfix (single c) s.

(** The parser: alternation, then sequence.  [n] is the number of the next
    capturing group; a closing parenthesis ends the expression and is left. *)
Fixpoint parse_alt (fuel : nat) (n : nat) (s : list Z) : option (regex * nat * list Z) :=
  match fuel with
  | O => None
  | S fuel =>
      '(a, n, s) ← parse_seq fuel n s;
      match s with
      | c :: s' => if c =? 124 then '(b, n, s) ← parse_alt fuel n s'; Some (Alt a b, n, s) else Some (a, n, s)
      | [] => Some (a, n, s)
      end
  end
with parse_seq (fuel : nat) (n : nat) (s : list Z) : option (regex * nat * list Z) :=
  match fuel with
  | O => None
  | S fuel =>
      match s with
      | [] => Some (Empty, n, s)
      | c :: s' =>
          if (c =? 41) || (c =? 124) then Some (Empty, n, s)
          else
            '(a, n, s) ←
              (if c =? 40 then parse_group fuel n s' else '(a, s) ← simple_atom c s'; Some (a, n, s));
            '(b, n, s) ← parse_seq fuel n s;
            Some (Seq a b, n, s)
      end
  end
with parse_group (fuel : nat) (n : nat) (s : list Z) : option (regex * nat * list Z) :=
  match fuel with
  | O => None
  | S fuel =>
      match s with
      | [] => None
      | c :: s' =>
          '(a, n, s) ←
            (if c =? 63 then match s' with
                             | d :: s'' => if d =? 58 then parse_alt fuel n s'' else None
                             | [] => None
                             end
             else '(a, n', s) ← parse_alt fuel (S n) s; Some (Group n a, n', s));
          match s with
          | d :: s => if d =? 41 then '(a, s) ← postfix a s; Some (a, n, s) else None
          | [] => None
          end
      end
  end.

(** Every character uses up at most three calls. *)
Definition parse_fuel (s : list Z) : nat := (4 * S (length s))%nat.

(** A whole expression, given as runes, and how many capturing groups it
    has.  The package rejects an expression nested a thousand deep; the longer
    ones are left out here. *)
Definition max_runes : nat := 900.
Definition parse_runes (s : list Z) : option (regex * nat) :=
  if (length s <=? max_runes)%nat then
    match parse_alt (parse_fuel s) 1 s with Some (r, n, []) => Some (r, n) | _ => None end
  else None.

(** The runes of a string that is valid UTF-8, which an expression must be. *)
Definition bad_rune (x : Z * Z * bytes) : bool := (x.1.2 =? RuneError) && (length x.2 =? 1)%nat.
Definition pattern_runes (s : string) : option (list Z) :=
  if existsb bad_rune (runes s) then None else Some (map (λ x : Z * Z * bytes, x.1.2) (runes s)).

Definition parse (s : string) : option (regex * nat) := rs ← pattern_runes s; parse_runes rs.

(** ** Matching *)

Definition in_item (c : Z) (i : class_item) : bool :=
  xorb i.1 (existsb (λ r : Z * Z, in_range r.1 r.2 c) i.2).
Definition in_class (neg : bool) (items : list class_item) (c : Z) : bool :=
  xorb neg (existsb (in_item c) items).

(** Where the search stands: the offset, in runes, the text from there, and
    the groups captured so far, the latest first. *)
Record place := mkPlace { pos : nat; rest : list Z; caps : list (nat * (nat * nat)) }.

Section Search.
Context {A : Type}.

(** A repetition of [body]: another round first when greedy, or else last.  In
    what is parsed each round takes a rune ([RegexpLaws.parse_steady]), so that
    one more than the runes left is enough; a round that took none would be the
    last. *)
Fixpoint star_loop (body : (place → option A) → place → option A) (greedy : bool) (rounds : nat)
    (k : place → option A) (p : place) : option A :=
  match rounds with
  | O => k p
  | S rounds =>
      let more (_ : unit) := body (λ p', if (pos p' =? pos p)%nat then k p'
                                         else star_loop body greedy rounds k p') p in
      if greedy then match more tt with Some a => Some a | None => k p end
      else match k p with Some a => Some a | None => more tt end
  end.

(** The backtracking search, with what remains to be matched as [k]. *)
Fixpoint search (r : regex) (k : place → option A) (p : place) : option A :=
  match r with
  | Empty => k p
  | Class neg items =>
      match rest p with
      | c :: l => if in_class neg items c then k (mkPlace (S (pos p)) l (caps p)) else None
      | [] => None
      end
  | Begin => if (pos p =? 0)%nat then k p else None
  | End => match rest p with [] => k p | _ :: _ => None end
  | Seq a b => search a (search b k) p
  | Alt a b => match search a k p with Some x => Some x | None => search b k p end
  | Star greedy a => star_loop (search a) greedy (S (length (rest p))) k p
  | Group n a => search a (λ p', k (mkPlace (pos p') (rest p') ((n, (pos p, pos p')) :: caps p'))) p
  end.
End Search.

(** The first match at or after offset [i] of the text whose rest is [l]. *)
Fixpoint find_from (r : regex) (i : nat) (l : list Z) : option (nat * place) :=
  match search r Some (mkPlace i l []) with
  | Some p => Some (i, p)
  | None => match l with _ :: l => find_from r (S i) l | [] => None end
  end.

(** ** Replacing *)

Section Replace.
(** [unicode.IsLetter] and [unicode.IsDigit] above ASCII, tables of the
    Unicode version Go ships. *)
Context (unicode_IsLetter unicode_IsDigit : Z → bool).

Definition name_rune (c : Z) : bool :=
  if c <? 0x80 then ascii_alnum c || (c =? 95) else unicode_IsLetter c || unicode_IsDigit c.

Fixpoint take_name (l : list (Z * Z * bytes)) : list (Z * Z * bytes) * list (Z * Z * bytes) :=
  match l with
  | x :: l' => if name_rune x.1.2 then let '(a, b) := take_name l' in (x :: a, b) else ([], l)
  | [] => ([], [])
  end.

(** The number a name stands for, if all its bytes are digits and it is small
    and has no leading zero. *)
Fixpoint name_number (acc : Z) (b : bytes) : option Z :=
  match b with
  | [] => Some acc
  | c :: b =>
      let d := byte.unsigned c in
      if negb (in_range 48 57 d) || (100000000 <=? acc) then None
      else name_number (acc * 10 + d - 48) b
  end.

Definition group_number (name : string) : option Z :=
  match to_bytes name with
  | c :: _ :: _ => if byte.unsigned c =? 48 then None else name_number 0 (to_bytes name)
  | b => name_number 0 b
  end.

(** [extract]: the name that follows a [$], in braces or not, and the rest of
    the template; [None] when there is none. *)
Definition extract (t : string) : option (string * string) :=
  let '(brace, t) := match t with String "{"%char t' => (true, t') | _ => (false, t) end in
  let '(name, after) := take_name (runes t) in
  match name with
  | [] => None
  | _ :: _ =>
      if brace then
        match raw_of after with
        | String "}"%char after => Some (raw_of name, after)
        | _ => None
        end
      else Some (raw_of name, raw_of after)
  end.

(** [expand]: the template with its references replaced by the text of the
    groups; [group] is [None] for a group that took no part.  The fragment has
    no named groups, so that any other name stands for nothing. *)
Fixpoint expand_loop (fuel : nat) (group : Z → option string) (t : string) : string :=
  match fuel with
  | O => t
  | S fuel =>
      match cut "$"%char t with
      | None => t
      | Some (before, t) =>
          (before +:+
            match t with
            | String "$"%char t => "$" +:+ expand_loop fuel group t
            | _ =>
                match extract t with
                | None => "$" +:+ expand_loop fuel group t
                | Some (name, t) =>
                    match group_number name with Some n => default "" (group n) | None => "" end
                    +:+ expand_loop fuel group t
                end
            end)%string
      end
  end.
Definition expand (group : Z → option string) (t : string) : string :=
  expand_loop (S (String.length t)) group t.

(** The text between two offsets. *)
Definition between (units : list (Z * Z * bytes)) (i j : nat) : string :=
  raw_of (take (j - i) (drop i units)).

(** The text of group [n] of a match; group 0 is the whole of it. *)
Fixpoint captured (n : Z) (l : list (nat * (nat * nat))) : option (nat * nat) :=
  match l with
  | (m, c) :: l => if Z.of_nat m =? n then Some c else captured n l
  | [] => None
  end.
Definition group_text (units : list (Z * Z * bytes)) (start : nat) (p : place) (n : Z) : option string :=
  if n =? 0 then Some (between units start (pos p))
  else '(i, j) ← captured n (caps p); Some (between units i j).

(** Where to look for the next match: where this one ends, but at least one
    rune (or, at the end of the text, one byte) after where it was looked for. *)
Definition next_from (total from stop : nat) : nat :=
  let width := if (from <? total)%nat then 1%nat else 0%nat in
  if (stop <? from + width)%nat then (from + width)%nat
  else if (stop <? from + 1)%nat then (from + 1)%nat
  else stop.

(** [replaceAll]: from [from] on, with the text before [last] written.  Each
    match but an empty one right after another is replaced; the search goes on
    after it, at least one rune further. *)
Fixpoint replace_loop (fuel : nat) (r : regex) (units : list (Z * Z * bytes)) (t : string)
    (last from : nat) : string :=
  let final := between units last (length units) in
  match fuel with
  | O => final
  | S fuel =>
      if (length units <? from)%nat then final
      else
        match find_from r from (map (λ x : Z * Z * bytes, x.1.2) (drop from units)) with
        | None => final
        | Some (i, p) =>
            (between units last i
             +:+ (if (last <? pos p)%nat || (i =? 0)%nat then expand (group_text units i p) t else "")
             +:+ replace_loop fuel r units t (pos p) (next_from (length units) from (pos p)))%string
        end
  end.

Definition replace_all (r : regex) (s t : string) : string :=
  replace_loop (S (S (length (runes s)))) r (runes s) t 0 0.

Definition match_string (r : regex) (s : string) : bool :=
  match find_from r 0 (map (λ x : Z * Z * bytes, x.1.2) (runes s)) with Some _ => true | None => false end.

(** ** The package *)

(** The fragment, and the rest left to [other]. *)
Definition go_regexp (other : Regexp) : Regexp := {|
  re := regex + @re other;
  Compile := λ s,
    match parse s with
    | Some (r, _) => inl (inl r)
    | None => match @Compile other s with inl e => inl (inr e) | inr err => inr err end
    end;
  MatchString := λ e s,
    match e with inl r => match_string r s | inr e => @MatchString other e s end;
  ReplaceAllString := λ e s t,
    match e with inl r => replace_all r s t | inr e => @ReplaceAllString other e s t end |}.
End Replace.

(** A package that compiles nothing: with it only the fragment is left.  It is
    the package of the witnesses. *)
Definition no_regexp : Regexp := {|
  re := Empty_set; Compile := λ _, inr "unsupported"%string;
  MatchString := λ e, match e with end; ReplaceAllString := λ e, match e with end |}.
#[export] Instance fragment_regexp : Regexp := go_regexp (λ _, false) (λ _, false) no_regexp.

(** ** Examples *)

Definition matches_whole (e s : string) : option bool :=
  '(r, _) ← parse ("^(?:" +:+ e +:+ ")$"); Some (match_string r s).
Definition replaced (e s t : string) : option string :=
  '(r, _) ← parse e; Some (replace_all (λ _, false) (λ _, false) r s t).

Example model_family :
  replaced "^(?:(PowerEdge [A-Z][0-9]+).*)$" "PowerEdge R740xd" "$1" = Some "PowerEdge R740"%string.
Proof. by vm_compute. Qed.
Example lab_whole : (matches_whole "Lab.*" "Lab 3", matches_whole "Lab.*" "The Lab") = (Some true, Some false).
Proof. by vm_compute. Qed.
(** A name runs on through letters and digits, so that this refers to a
    group named [1_total] rather than to the first. *)
Example longest_name : replaced "(a+)b" "xaab" "<$1_total|${1}_total>" = Some "x<|aa_total>"%string.
Proof. by vm_compute. Qed.
Example leftmost_first : replaced "a|ab" "abab" "x" = Some "xbxb"%string.
Proof. by vm_compute. Qed.
Example empty_matches : replaced "x*" "axb" "-" = Some "-a-b-"%string.
Proof. by vm_compute. Qed.
Example lazy_group : replaced "(a+?)(a*)" "aaa" "$2$1" = Some "aaa"%string.
Proof. by vm_compute. Qed.
(** A round that does not take part in a group leaves what it captured before. *)
Example last_round : replaced "(?:(a)|b)*" "abb" "<$1>" = Some "<a>"%string.
Proof. by vm_compute. Qed.
Example class_negated : replaced "[^a-z_\d]+" "Disk Size-1" "_" = Some "_isk_ize_1"%string.
Proof. by vm_compute. Qed.
Example outside :
  map parse ["a{2}"; "(?i)a"; "\bx"; "a**"; "(a"; "a)"; "[z-a]"; "*"; "(a*)*"; "(|a)+"; "(?:^)*"]%string = replicate 11 None.
Proof. by vm_compute. Qed.
