(* ===== verification/RegexpLaws.v ===== *)
(** * RegexpLaws: what package regexp promises the relabeling engine

    What is repeated in a parsed expression takes a character each round.  The
    backtracking search finds a match exactly when the expression denotes one;
    parsing an expression inside [^(?:...)$] gives the expression itself,
    anchored; and an anchored expression replaces the whole value or leaves it. *)
From S2P Require Import Prelude GoLib Utf8 Regexp.
From Stdlib Require Import Strings.Ascii.
Open Scope Z_scope.

(** ** The denotation

    [matches r i w l]: at offset [i] of a text, [r] matches [w] when [l] is
    what follows. *)
Inductive matches : regex → nat → list Z → list Z → Prop :=
| matches_empty i l : matches Empty i [] l
| matches_class i neg items c l : in_class neg items c = true → matches (Class neg items) i [c] l
| matches_begin l : matches Begin 0 [] l
| matches_end i : matches End i [] []
| matches_seq i a b w1 w2 l : matches a i w1 (w2 ++ l) → matches b (i + length w1) w2 l →
    matches (Seq a b) i (w1 ++ w2) l
| matches_alt_l i a b w l : matches a i w l → matches (Alt a b) i w l
| matches_alt_r i a b w l : matches b i w l → matches (Alt a b) i w l
| matches_star_nil i greedy a l : matches (Star greedy a) i [] l
| matches_star_cons i greedy a w1 w2 l : matches a i w1 (w2 ++ l) →
    matches (Star greedy a) (i + length w1) w2 l → matches (Star greedy a) i (w1 ++ w2) l
| matches_group i n a w l : matches a i w l → matches (Group n a) i w l.
#[export] Hint Constructors matches : regexp.

Lemma matches_seq_inv i a b w l : matches (Seq a b) i w l →
  ∃ w1 w2, w = w1 ++ w2 ∧ matches a i w1 (w2 ++ l) ∧ matches b (i + length w1) w2 l.
Proof. inversion 1; eauto. Qed.
Lemma matches_group_inv i n a w l : matches (Group n a) i w l → matches a i w l.
Proof. by inversion 1. Qed.
Lemma matches_empty_inv i w l : matches Empty i w l → w = [].
Proof. by inversion 1. Qed.

(** [p'] is reached from [p] by matching [w]. *)
Definition reads (p : place) (w : list Z) (p' : place) : Prop :=
  rest p = w ++ rest p' ∧ pos p' = (pos p + length w)%nat.

Lemma reads_nil p p' : pos p' = pos p → rest p' = rest p → reads p [] p'.
Proof. unfold reads. cbn. intros -> ->. split; [done|lia]. Qed.

Lemma reads_app p w1 p1 w2 p2 : reads p w1 p1 → reads p1 w2 p2 → reads p (w1 ++ w2) p2.
Proof. intros [H1 H2] [H3 H4]. split; [by rewrite H1, H3, assoc by apply _|rewrite length_app; lia]. Qed.

Lemma reads_length p w p' : reads p w p' → length (rest p) = (length w + length (rest p'))%nat.
Proof. intros [-> _]. apply length_app. Qed.

(** ** Soundness *)

Section Sound.
Context {A : Type}.
Implicit Types (k : place → option A) (p : place).

Definition sound (f : (place → option A) → place → option A) (r : regex) : Prop :=
  ∀ k p x, f k p = Some x →
    ∃ w p', reads p w p' ∧ matches r (pos p) w (rest p') ∧ k p' = Some x.

Lemma star_loop_sound greedy a body : sound body a → ∀ n, sound (star_loop body greedy n) (Star greedy a).
Proof.
  intros Hb n. induction n as [|n IH]; intros k p x Hx.
  { exists [], p. split; [by apply reads_nil|]. eauto with regexp. }
  assert (Hcases : k p = Some x ∨ body (λ p', if (pos p' =? pos p)%nat then k p' else star_loop body greedy n k p') p = Some x).
  { cbn in Hx. destruct greedy; repeat case_match; simplify_eq; auto. }
  destruct Hcases as [Hk|Hk]; [exists [], p; split; [by apply reads_nil|]; eauto with regexp|].
  apply Hb in Hk as (w & p1 & Hr & Hm & Hk). pose proof Hr as [Hr1 Hr2].
  case_match eqn:E.
  - exists w, p1. split; [done|]. split; [|done]. rewrite <- (app_nil_r w).
    eapply matches_star_cons; [by rewrite app_nil_l|apply matches_star_nil].
  - apply IH in Hk as (w2 & p2 & Hr' & Hm' & Hk). exists (w ++ w2), p2.
    split; [by eapply reads_app|]. split; [|done]. pose proof Hr' as [H' _].
    apply matches_star_cons; [by rewrite <- H'|by rewrite <- Hr2].
Qed.

Lemma search_sound r : sound (search r) r.
Proof.
  induction r as [|neg items| | |a IHa b IHb|a IHa b IHb|greedy a IHa|n a IHa]; intros k p x; cbn [search].
  - intros Hk. exists [], p. split; [by apply reads_nil|]. eauto with regexp.
  - destruct (rest p) as [|c l] eqn:E; [done|]. destruct (in_class neg items c) eqn:Hc; [|done].
    intros Hk. eexists [c], _. split; [|split; [by apply matches_class|exact Hk]].
    split; cbn; [done|lia].
  - case_match eqn:E; [|done]. apply Nat.eqb_eq in E. intros Hk. exists [], p.
    split; [by apply reads_nil|]. rewrite E. eauto with regexp.
  - destruct (rest p) eqn:E; [|done]. intros Hk. exists [], p.
    split; [by apply reads_nil|]. rewrite E. eauto with regexp.
  - intros (w1 & p1 & Hr1 & Hm1 & (w2 & p2 & Hr2 & Hm2 & Hk)%IHb)%IHa.
    exists (w1 ++ w2), p2. split; [by eapply reads_app|]. split; [|done].
    apply matches_seq; [by destruct Hr2 as [<- _]|by destruct Hr1 as [_ <-]].
  - intros Hk. assert (Hor : search a k p = Some x ∨ search b k p = Some x).
    { case_match; simplify_eq; auto. }
    destruct Hor as [H|H]; [apply IHa in H|apply IHb in H]; destruct H as (w & p' & ? & ? & ?);
      exists w, p'; eauto with regexp.
  - by apply star_loop_sound.
  - intros (w & p' & Hr & Hm & Hk)%IHa. eexists w, _. split; [|split; [|exact Hk]]; cbn; auto with regexp.
Qed.

(** ** Completeness *)

(** Places reached from [p]. *)
Definition reachable (p p' : place) : Prop := ∃ w, reads p w p'.

Lemma reachable_trans p1 p2 p3 : reachable p1 p2 → reachable p2 p3 → reachable p1 p3.
Proof. intros [w1 H1] [w2 H2]. exists (w1 ++ w2). by eapply reads_app. Qed.

(** A search asks its continuation about reachable places only. *)
Definition local (f : (place → option A) → place → option A) : Prop :=
  ∀ k1 k2 p, (∀ p', reachable p p' → k1 p' = k2 p') → f k1 p = f k2 p.

Lemma reachable_further p p' : reachable p p' → (pos p' =? pos p)%nat = false →
  (length (rest p') < length (rest p))%nat.
Proof. intros [w Hr] H%Nat.eqb_neq. pose proof (reads_length _ _ _ Hr). destruct Hr. lia. Qed.

(** One round more than the runes left is enough. *)
Lemma star_loop_local greedy body n1 n2 k1 k2 p : local body →
  (length (rest p) < n1)%nat → (length (rest p) < n2)%nat →
  (∀ p', reachable p p' → k1 p' = k2 p') →
  star_loop body greedy n1 k1 p = star_loop body greedy n2 k2 p.
Proof.
  intros Hb. revert n2 p. induction n1 as [|n1 IH]; intros [|n2] p H1 H2 Hk; [lia..|].
  cbn. assert (Hkp : k1 p = k2 p) by (apply Hk; exists []; by apply reads_nil).
  assert (Hmore : ∀ p', reachable p p' →
    (if (pos p' =? pos p)%nat then k1 p' else star_loop body greedy n1 k1 p') =
    (if (pos p' =? pos p)%nat then k2 p' else star_loop body greedy n2 k2 p')).
  { intros p' Hp'. case_match eqn:E; [by apply Hk|].
    apply reachable_further in E; [|done]. apply IH; [lia..|].
    intros p'' Hp''. apply Hk. by eapply reachable_trans. }
  by rewrite Hkp, (Hb _ _ _ Hmore).
Qed.

Lemma reachable_step p c l : rest p = c :: l → reachable p (mkPlace (S (pos p)) l (caps p)).
Proof. intros E. exists [c]. split; cbn; [done|lia]. Qed.

Lemma search_local r : local (search r).
Proof.
  induction r as [|neg items| | |a IHa b IHb|a IHa b IHb|greedy a IHa|n a IHa]; intros k1 k2 p Hk; cbn [search].
  - apply Hk. exists []. by apply reads_nil.
  - destruct (rest p) eqn:E; [done|]. case_match; [|done]. apply Hk. by eapply reachable_step.
  - case_match; [|done]. apply Hk. exists []. by apply reads_nil.
  - case_match; [|done]. apply Hk. exists []. by apply reads_nil.
  - apply IHa. intros p1 H1. apply IHb. intros p2 H2. apply Hk. by eapply reachable_trans.
  - by rewrite (IHa _ _ _ Hk), (IHb _ _ _ Hk).
  - apply star_loop_local; [done|lia..|done].
  - apply IHa. intros p' [w Hp']. apply Hk. by exists w.
Qed.

Lemma star_loop_Some body greedy n k p :
  is_Some (k p) ∨
  is_Some (body (λ p', if (pos p' =? pos p)%nat then k p' else star_loop body greedy n k p') p) →
  is_Some (star_loop body greedy (S n) k p).
Proof. cbn. intros [[x E]|[x E]]; rewrite E; destruct greedy; repeat case_match; eauto. Qed.

Lemma search_complete r i w l : matches r i w l → ∀ k p, pos p = i → rest p = w ++ l →
  (∀ p', pos p' = (i + length w)%nat → rest p' = l → is_Some (k p')) → is_Some (search r k p).
Proof.
  induction 1 as [i l|i neg items c l Hc|l|i|i a b w1 w2 l _ IHa _ IHb|i a b w l _ IH|i a b w l _ IH
    |i greedy a l|i greedy a w1 w2 l _ IHa _ IHb|i n a w l _ IH]; intros k p Hp Hr Hk; cbn [search].
  - apply Hk; [cbn; lia|done].
  - rewrite Hr. cbn [app]. rewrite Hc. apply Hk; cbn; [lia|done].
  - rewrite Hp. apply Hk; [cbn; lia|done].
  - rewrite Hr. apply Hk; [cbn; lia|done].
  - apply IHa; [done|by rewrite assoc by apply _|]. intros p1 H1 Hr1. apply IHb; [done..|].
    intros p2 H2. apply Hk. rewrite length_app. lia.
  - edestruct (IH k p) as [x ->]; eauto.
  - edestruct (IH k p) as [x E]; [done..|]. rewrite E. case_match; eauto.
  - apply star_loop_Some. left. apply Hk; [cbn; lia|done].
  - destruct (decide (w1 = [])) as [->|Hw].
    { apply IHb; [cbn; lia|done|]. cbn in *. rewrite Nat.add_0_r. exact Hk. }
    apply star_loop_Some. right. apply IHa; [done|by rewrite assoc by apply _|].
    intros p1 H1 Hr1. assert (0 < length w1)%nat by (destruct w1; cbn; [done|lia]).
    case_match eqn:E; [apply Nat.eqb_eq in E; lia|].
    rewrite (star_loop_local _ _ _ (S (length (rest p1))) k k).
    + apply (IHb k p1); [done..|]. intros p2 H2. apply Hk. rewrite length_app. lia.
    + apply search_local.
    + rewrite Hr, Hr1. rewrite !length_app. lia.
    + lia.
    + done.
  - apply IH; [done..|]. intros p' H1 H2. by apply Hk.
Qed.
End Sound.

(** A search for a match of all that is left. *)
Definition at_end (p : place) : option place := match rest p with [] => Some p | _ => None end.

Lemma search_whole r p : is_Some (search r at_end p) ↔ matches r (pos p) (rest p) [].
Proof.
  split.
  - intros [x (w & p' & Hr & Hm & Hk)%search_sound]. unfold at_end in Hk.
    destruct (rest p') eqn:E; [|done]. destruct Hr as [-> _]. rewrite E in *. by rewrite app_nil_r.
  - intros Hm. eapply search_complete; [exact Hm|done|by rewrite app_nil_r|].
    intros p' _ E. unfold at_end. rewrite E. eauto.
Qed.

(** ** Parsing inside a group

    Reading an expression does not look past a closing parenthesis, and takes
    it for the end. *)

Lemma class_char_app s c t q : class_char s = Some (c, t) → class_char (s ++ q) = Some (c, t ++ q).
Proof.
  destruct s as [|x s]; [done|]. destruct (decide (x = 92)) as [->|Hx].
  - destruct s as [|y s]; [done|]. cbn. intros (e & He & [= -> ->])%bind_Some. by rewrite He.
  - assert (Hc : ∀ l, class_char (x :: l) = Some (x, l)).
    { intros l. cbn. repeat case_match; done. }
    rewrite Hc. intros [= <- <-]. apply Hc.
Qed.

(** What is left within a class is never empty, nor a lone hyphen. *)
Definition goes_on (s : list Z) : Prop := s ≠ [] ∧ s ≠ [45].

Lemma class_items_goes_on fuel s x : class_items fuel false s = Some x → goes_on s.
Proof.
  destruct fuel as [|fuel]; [done|]. destruct s as [|c s]; [done|]. split; [done|]. intros [= -> ->].
  by destruct fuel.
Qed.

Lemma range_end_app lo s hi t q : range_end lo s = Some (hi, t) → goes_on t →
  range_end lo (s ++ q) = Some (hi, t ++ q).
Proof.
  unfold goes_on. destruct s as [|x [|d s]]; cbn.
  - intros [= <- <-] []. done.
  - intros [= <- <-] [_ Hx]. destruct q; [done|]. destruct (x =? 45) eqn:E; [|done].
    apply Z.eqb_eq in E. by subst.
  - case_match; [|by intros [= <- <-]]. intros Hc _. by apply (class_char_app (d :: s)).
Qed.

Lemma class_range_app s i t q : class_range s = Some (i, t) → goes_on t →
  class_range (s ++ q) = Some (i, t ++ q).
Proof.
  unfold class_range. intros ([lo s'] & E & ([hi u] & E' & Hr)%bind_Some)%bind_Some Hg.
  rewrite (class_char_app _ _ _ _ E). cbn. destruct (hi <? lo) eqn:Hlt; [done|]. injection Hr as <- <-.
  rewrite (range_end_app _ _ _ _ _ E' Hg). cbn. by rewrite Hlt.
Qed.

Lemma class_escape_app s q : (∃ c, s = [c]) ∨ class_escape (s ++ q) = (λ '(i, t), (i, t ++ q)) <$> class_escape s ∨ s = [].
Proof.
  destruct s as [|x [|d s]]; [by right; right|left; eauto|right; left]. cbn.
  destruct (x =? 92); [|done]. by destruct (perl_class d).
Qed.

Lemma class_element_app s i t q : class_element s = Some (i, t) → goes_on t →
  class_element (s ++ q) = Some (i, t ++ q).
Proof.
  unfold class_element. intros H Hg. destruct (class_escape_app s q) as [[c ->]|[->| ->]].
  - exfalso. cbn in H. unfold class_range, class_char in H. destruct Hg as [Hg _]. apply Hg.
    repeat case_match; cbn in *; repeat case_match; by simplify_eq.
  - destruct (class_escape s) as [[i' t']|]; [by simplify_eq/=|]. by apply class_range_app.
  - done.
Qed.

Lemma class_items_app fuel fuel' first s items t q : class_items fuel first s = Some (items, t) →
  (fuel <= fuel')%nat → class_items fuel' first (s ++ q) = Some (items, t ++ q).
Proof.
  revert fuel' first s items t. induction fuel as [|fuel IH]; intros fuel' first s items t; [done|].
  destruct fuel' as [|fuel']; [lia|]. destruct s as [|c s]; [done|]. intros H Hle. cbn [class_items app] in *.
  destruct ((c =? 93) && negb first); [by simplify_eq|].
  assert (Hposix : ((c =? 91) && match s with d :: _ => d =? 58 | [] => true end) = false ∧
    ((c =? 91) && match s ++ q with d :: _ => d =? 58 | [] => true end) = false ∨ s = []).
  { destruct s as [|d s]; [by right|left]. cbn. destruct ((c =? 91) && (d =? 58)) eqn:E; by simplify_eq/=. }
  destruct Hposix as [[E1 E2]| ->].
  - rewrite E1 in H. rewrite E2.
    apply bind_Some in H as ([i u] & Hi & ([its v] & His & [= <- <-])%bind_Some).
    change (c :: s ++ q) with ((c :: s) ++ q).
    rewrite (class_element_app _ _ _ q Hi) by (by eapply class_items_goes_on). cbn.
    rewrite (IH fuel' _ _ _ _ His) by lia. done.
  - exfalso. destruct ((c =? 91) && true); [done|].
    apply bind_Some in H as ([i u] & Hi & ([its v] & His & _)%bind_Some).
    apply class_items_goes_on in His as [Hne _]. apply Hne. revert Hi. unfold class_element, class_range, class_char.
    cbn [class_escape]. intros Hi. repeat case_match; cbn in *; repeat case_match; by simplify_eq.
Qed.

(** The text that follows is a closing parenthesis and whatever comes after. *)
Definition closed (q : list Z) : Prop := ∃ q', q = 41 :: q'.

Lemma no_repeat_app a s a' t q : closed q → no_repeat a s = Some (a', t) → no_repeat a (s ++ q) = Some (a', t ++ q).
Proof.
  intros [q' ->]. destruct s as [|c s]; cbn; [by intros [= <- <-]|].
  destruct (is_repeat c); [done|]. by intros [= <- <-].
Qed.

Lemma postfix_app a s a' t q : closed q → postfix a s = Some (a', t) → postfix a (s ++ q) = Some (a', t ++ q).
Proof.
  intros Hq. unfold postfix. destruct s as [|c s]; cbn [app].
  - destruct Hq as [q' ->]. by intros [= <- <-].
  - destruct (c =? 123); [done|]. destruct (is_repeat c); cbn [andb]; [|by intros [= <- <-]].
    destruct (negb (c =? 63) && nullable a); [done|].
    destruct s as [|d s]; cbn [app].
    + destruct Hq as [q' ->]. by intros [= <- <-].
    + destruct (d =? 63); [by apply no_repeat_app|]. intros H. by apply (no_repeat_app _ (d :: s)).
Qed.

Lemma simple_atom_app c s a t q : closed q → simple_atom c s = Some (a, t) →
  simple_atom c (s ++ q) = Some (a, t ++ q).
Proof.
  intros Hq. unfold simple_atom. destruct (is_repeat c); [done|].
  destruct (c =? 46); [by apply postfix_app|].
  destruct (c =? 94); [by apply no_repeat_app|].
  destruct (c =? 36); [by apply no_repeat_app|].
  destruct (c =? 91).
  { intros ([[neg items] u] & Hi & Hp)%bind_Some. destruct s as [|d s]; [done|]. cbn [app].
    destruct (d =? 94); apply bind_Some in Hi as ([its v] & Hi & [= <- <- <-]).
    - rewrite (class_items_app _ (S (length (d :: s ++ q))) _ _ _ _ q Hi) by (cbn; rewrite length_app; lia). cbn.
      by apply postfix_app.
    - change (d :: s ++ q) with ((d :: s) ++ q).
      rewrite (class_items_app _ (S (length ((d :: s) ++ q))) _ _ _ _ q Hi) by (cbn; rewrite length_app; lia). cbn.
      by apply postfix_app. }
  destruct (c =? 92); [|by apply postfix_app].
  destruct s as [|d s]; [done|]. cbn [app]. destruct (perl_class d); [by apply postfix_app|].
  intros (e & -> & Hp)%bind_Some. by apply postfix_app.
Qed.

Definition extends (f f' : nat → list Z → option (regex * nat * list Z)) : Prop :=
  ∀ n s r n' t q, closed q → f n s = Some (r, n', t) → f' n (s ++ q) = Some (r, n', t ++ q).

Lemma parse_extends fuel : ∀ fuel', (fuel <= fuel')%nat →
  extends (parse_alt fuel) (parse_alt fuel') ∧ extends (parse_seq fuel) (parse_seq fuel') ∧
  extends (parse_group fuel) (parse_group fuel').
Proof.
  induction fuel as [|fuel IH]; intros fuel' Hle; [by repeat split; intros ???????|].
  destruct fuel' as [|fuel']; [lia|]. destruct (IH fuel') as (IHa & IHs & IHg); [lia|].
  repeat split; intros n s r n' t q Hq H.
  - cbn [parse_alt] in *. apply bind_Some in H as ([[a m] u] & Ha & H).
    rewrite (IHs _ _ _ _ _ _ Hq Ha). cbn. destruct u as [|c u]; cbn [app].
    + destruct Hq as [q' ->]. by simplify_eq/=.
    + destruct (c =? 124); [|by simplify_eq].
      apply bind_Some in H as ([[b m'] v] & Hb & [= <- <- <-]). by rewrite (IHa _ _ _ _ _ _ Hq Hb).
  - cbn [parse_seq] in *. destruct s as [|c s]; cbn [app].
    { destruct Hq as [q' ->]. by simplify_eq/=. }
    destruct ((c =? 41) || (c =? 124)); [by simplify_eq|].
    apply bind_Some in H as ([[a m] u] & Ha & ([[b m'] v] & Hb & [= <- <- <-])%bind_Some).
    assert (Ha' : (if c =? 40 then parse_group fuel' n (s ++ q)
      else '(a, s) ← simple_atom c (s ++ q); Some (a, n, s)) = Some (a, m, u ++ q)).
    { destruct (c =? 40); [by apply IHg|]. apply bind_Some in Ha as ([a' w] & Ha & [= <- <- <-]).
      by rewrite (simple_atom_app _ _ _ _ _ Hq Ha). }
    rewrite Ha'. cbn. by rewrite (IHs _ _ _ _ _ _ Hq Hb).
  - cbn [parse_group] in *. destruct s as [|c s]; [done|]. cbn [app].
    apply bind_Some in H as ([[a m] u] & Ha & H).
    assert (Ha' : (if c =? 63 then match s ++ q with d :: s'' => if d =? 58 then parse_alt fuel' n s'' else None | [] => None end
      else '(a, n', s) ← parse_alt fuel' (S n) ((c :: s) ++ q); Some (Group n a, n', s)) = Some (a, m, u ++ q)).
    { destruct (c =? 63).
      - destruct s as [|d s]; [done|]. cbn [app]. destruct (d =? 58); [by apply IHa|done].
      - apply bind_Some in Ha as ([[b m'] w] & Ha & [= <- <- <-]). by rewrite (IHa _ _ _ _ _ _ Hq Ha). }
    cbn [app] in Ha'. rewrite Ha'. cbn. destruct u as [|d u]; [done|]. cbn [app]. destruct (d =? 41); [|done].
    apply bind_Some in H as ([b w] & Hp & [= <- <- <-]). by rewrite (postfix_app _ _ _ _ _ Hq Hp).
Qed.

(** ** Rounds that take a character

    What [*] and [+] repeat in a parsed expression never matches nothing. *)

Fixpoint steady (r : regex) : bool :=
  match r with
  | Empty | Class _ _ | Begin | End => true
  | Seq a b | Alt a b => steady a && steady b
  | Star _ a => negb (nullable a) && steady a
  | Group _ a => steady a
  end.

Lemma nullable_matches r i l : matches r i [] l → nullable r = true.
Proof.
  remember [] as w eqn:Ew. induction 1; cbn; try done.
  - apply app_eq_nil in Ew as [-> ->]. rewrite IHmatches1, IHmatches2; done.
  - by rewrite IHmatches.
  - rewrite IHmatches by done. apply orb_true_r.
  - auto.
Qed.

(** Each round of a parsed repetition moves on. *)
Lemma steady_round greedy a i w l : steady (Star greedy a) = true → matches a i w l → w ≠ [].
Proof.
  cbn. intros [Hn _]%andb_true_iff Hm ->. apply nullable_matches in Hm. by rewrite Hm in Hn.
Qed.

Lemma no_repeat_same a s a' t : no_repeat a s = Some (a', t) → a' = a.
Proof. destruct s as [|c s]; cbn; [by intros [= <- _]|]. destruct (is_repeat c); [done|by intros [= <- _]]. Qed.

Lemma repeated_steady c greedy a : steady a = true → negb (c =? 63) && nullable a = false → is_repeat c = true →
  c ≠ 123 → steady (repeated c greedy a) = true.
Proof.
  unfold repeated, is_repeat. intros Ha Hn Hc H123.
  destruct (Z.eqb_spec c 63) as [->|]; [destruct greedy; cbn; by rewrite ?Ha|]. cbn in Hn.
  destruct (c =? 42); [cbn; by rewrite Hn, Ha|]. destruct (c =? 43); [cbn; by rewrite Hn, Ha|].
  apply Z.eqb_neq in H123. by rewrite H123 in Hc.
Qed.

Lemma postfix_steady a s a' t : steady a = true → postfix a s = Some (a', t) → steady a' = true.
Proof.
  intros Ha. unfold postfix. destruct s as [|c s]; [by intros [= <- _]|].
  destruct (Z.eqb_spec c 123) as [|Hc]; [done|]. destruct (is_repeat c) eqn:Hr; cbn [andb]; [|by intros [= <- _]].
  destruct (negb (c =? 63) && nullable a) eqn:Hn; [done|].
  destruct s as [|d s]; [intros [= <- _]; by apply repeated_steady|].
  destruct (d =? 63); intros ->%no_repeat_same; by apply repeated_steady.
Qed.

Lemma simple_atom_steady c s a t : simple_atom c s = Some (a, t) → steady a = true.
Proof.
  unfold simple_atom. destruct (is_repeat c); [done|].
  destruct (c =? 46); [by apply postfix_steady|].
  destruct (c =? 94); [by intros ->%no_repeat_same|]. destruct (c =? 36); [by intros ->%no_repeat_same|].
  destruct (c =? 91); [intros ([[neg items] u] & _ & H)%bind_Some; by eapply postfix_steady, H|].
  destruct (c =? 92); [|by apply postfix_steady].
  destruct s as [|d s]; [done|]. destruct (perl_class d); [by apply postfix_steady|].
  intros (e & _ & H)%bind_Some. by eapply postfix_steady, H.
Qed.

Definition gives_steady (f : nat → list Z → option (regex * nat * list Z)) : Prop :=
  ∀ n s r n' t, f n s = Some (r, n', t) → steady r = true.

Lemma parsers_steady fuel :
  gives_steady (parse_alt fuel) ∧ gives_steady (parse_seq fuel) ∧ gives_steady (parse_group fuel).
Proof.
  induction fuel as [|fuel (IHa & IHs & IHg)]; [by repeat split; intros ?????|].
  repeat split; intros n s r n' t H.
  - cbn [parse_alt] in H. apply bind_Some in H as ([[a m] u] & Ha%IHs & H).
    destruct u as [|c u]; [by simplify_eq|]. destruct (c =? 124); [|by simplify_eq].
    apply bind_Some in H as ([[b m'] v] & Hb%IHa & [= <- _ _]). cbn. by rewrite Ha, Hb.
  - cbn [parse_seq] in H. destruct s as [|c s]; [by simplify_eq|].
    destruct ((c =? 41) || (c =? 124)); [by simplify_eq|].
    apply bind_Some in H as ([[a m] u] & Ha & ([[b m'] v] & Hb%IHs & [= <- _ _])%bind_Some).
    assert (Ha' : steady a = true).
    { destruct (c =? 40); [by eapply IHg|]. apply bind_Some in Ha as ([a' w] & Ha & [= <- _ _]).
      by eapply simple_atom_steady. }
    cbn. by rewrite Ha', Hb.
  - cbn [parse_group] in H. destruct s as [|c s]; [done|]. apply bind_Some in H as ([[a m] u] & Ha & H).
    assert (Ha' : steady a = true).
    { destruct (c =? 63); [destruct s as [|d s]; [done|]; destruct (d =? 58); [by eapply IHa|done]|].
      by apply bind_Some in Ha as ([[b m'] w] & Hb%IHa & [= <- _ _]). }
    destruct u as [|d u]; [done|]. destruct (d =? 41); [|done].
    apply bind_Some in H as ([b w] & Hp & [= <- _ _]). by eapply postfix_steady.
Qed.

Lemma parse_steady s r n : parse s = Some (r, n) → steady r = true.
Proof.
  unfold parse, parse_runes. intros (rs & _ & H)%bind_Some. case_match; [|done].
  destruct (parse_alt _ _ _) as [[[r' n'] [|]]|] eqn:E; try done. injection H as <- _.
  destruct (parsers_steady (parse_fuel rs)) as [Ha _]. by eapply Ha.
Qed.

(** ** Anchoring *)

(** [^(?:] and [)$] *)
Definition anchor_pre : list Z := [94; 40; 63; 58].
Definition anchor_post : list Z := [41; 36].
Definition anchored_regex (r : regex) : regex := Seq Begin (Seq r (Seq End Empty)).

Lemma parse_anchored s r n : (length s + 6 <= max_runes)%nat → parse_runes s = Some (r, n) →
  parse_runes (anchor_pre ++ s ++ anchor_post) = Some (anchored_regex r, n).
Proof.
  unfold parse_runes. intros Hlen. rewrite (proj2 (Nat.leb_le _ _)) by lia.
  destruct (parse_alt (parse_fuel s) 1 s) as [[[r' n'] [|]]|] eqn:E; try done. intros [= -> ->].
  rewrite (proj2 (Nat.leb_le _ _)) by (rewrite !length_app; cbn [length anchor_pre anchor_post]; lia).
  assert (Hin : ∀ fuel, (parse_fuel s <= fuel)%nat → parse_alt fuel 1 (s ++ anchor_post) = Some (r, n, anchor_post)).
  { intros fuel Hle. destruct (parse_extends _ _ Hle) as [Ha _]. apply (Ha _ _ _ _ [] anchor_post); [|done].
    by exists [36]. }
  assert (Hf : parse_fuel (anchor_pre ++ s ++ anchor_post) = (S (S (S (S (20 + parse_fuel s)))))).
  { unfold parse_fuel. rewrite !length_app. cbn [length anchor_pre anchor_post]. lia. }
  rewrite Hf. assert (Hle : (parse_fuel s + 2 <= 20 + parse_fuel s)%nat) by lia.
  generalize dependent (20 + parse_fuel s)%nat. intros fuel Hf Hle.
  change (anchor_pre ++ s ++ anchor_post) with (94 :: 40 :: 63 :: 58 :: s ++ anchor_post).
  cbn -[anchor_post]. rewrite Hin by lia. destruct fuel as [|[|fuel]]; [lia..|]. done.
Qed.

(** *** Expressions are strings *)

Lemma raw_of_loop fuel i b : (length b <= fuel)%nat → concat (map snd (runes_loop fuel i b)) = b.
Proof.
  revert i b. induction fuel as [|fuel IH]; intros i b Hf; [by destruct b; cbn in *; [|lia]|].
  destruct b as [|c b]; [done|]. cbn [runes_loop].
  destruct (DecodeRune_inv (c :: b)) as [Hd|(r & raw & t & Hd & He & Hb)]; [done|..]; rewrite Hd.
  - cbn [map concat snd]. rewrite IH; [apply take_drop|rewrite length_drop; cbn [length] in *; lia].
  - assert (Hraw : (0 < length raw)%nat).
    { rewrite <- (encoded_EncodeRune _ _ He). apply EncodeRune_length. by eapply encoded_scalar. }
    cbn [map concat snd]. rewrite IH; [apply take_drop|]. rewrite length_drop. cbn [length] in *. lia.
Qed.

Lemma raw_of_runes s : raw_of (runes s) = s.
Proof. unfold raw_of, runes. rewrite raw_of_loop by done. apply of_to_bytes. Qed.

(** The runes of a valid string are what it encodes. *)
Lemma pattern_runes_Some s rs : pattern_runes s = Some rs ↔ Forall scalar rs ∧ to_bytes s = utf8_encode rs.
Proof.
  unfold pattern_runes. split.
  - destruct (existsb bad_rune (runes s)) eqn:E; [done|]. intros [= <-].
    assert (Hok : Forall (λ x : Z * Z * bytes, scalar x.1.2 ∧ x.2 = EncodeRune x.1.2) (runes s)).
    { pose proof (runes_ok s) as Hok. apply Forall_forall. intros x Hx.
      rewrite Forall_forall in Hok. destruct (Hok _ Hx) as [?|[H1 H2]]; [done|]. exfalso.
      cbn in *. assert (Ht : existsb bad_rune (runes s) = true); [|congruence].
      apply existsb_exists. exists x. split; [by apply list_elem_of_In|]. unfold bad_rune. rewrite H1, H2. done. }
    split; [apply Forall_map; eapply Forall_impl; [exact Hok|]; by intros ? []|].
    rewrite <- (raw_of_runes s) at 1. unfold raw_of, utf8_encode. rewrite to_of_bytes, map_map.
    f_equal. apply map_ext_Forall. eapply Forall_impl; [exact Hok|]. by intros ? [].
  - intros [Hrs Hs]. pose proof (runes_valid s rs Hrs Hs) as Hr.
    assert (Hno : existsb bad_rune (runes s) = false).
    { apply not_true_is_false. intros (x & Hx & Hb)%existsb_exists.
      apply list_elem_of_In, (list_elem_of_fmap_2 (λ x : Z * Z * bytes, (x.1.2, x.2))) in Hx.
      change (map (λ x : Z * Z * bytes, (x.1.2, x.2)) (runes s)) with ((λ x : Z * Z * bytes, (x.1.2, x.2)) <$> runes s) in Hr.
      rewrite Hr in Hx. apply list_elem_of_fmap in Hx as (r & Hx & _). injection Hx as Hx1 Hx2.
      unfold bad_rune in Hb. rewrite Hx1, Hx2 in Hb. apply andb_true_iff in Hb as [Hr1%Z.eqb_eq Hl].
      rewrite Hr1 in Hl. by vm_compute in Hl. }
    rewrite Hno. f_equal. apply (f_equal (map fst)) in Hr. rewrite !map_map in Hr. cbn in Hr. by rewrite Hr, map_id.
Qed.

(** An expression short enough to be anchored. *)
Definition short (e : string) : Prop := (length (runes e) + 6 <= max_runes)%nat.

Lemma parse_anchored_string e r n : short e → parse e = Some (r, n) →
  parse ("^(?:" +:+ e +:+ ")$") = Some (anchored_regex r, n).
Proof.
  unfold short, parse. intros Hs (rs & Hrs & Hp)%bind_Some.
  assert (Hl : length (runes e) = length rs).
  { unfold pattern_runes in Hrs. destruct (existsb _ _); [done|]. injection Hrs as <-. by rewrite length_map. }
  apply pattern_runes_Some in Hrs as [Hsc He].
  assert (Hrs : pattern_runes ("^(?:" +:+ e +:+ ")$") = Some (anchor_pre ++ rs ++ anchor_post)).
  { apply pattern_runes_Some. split.
    - apply Forall_app. split; [repeat constructor; unfold scalar; lia|]. apply Forall_app.
      split; [done|repeat constructor; unfold scalar; lia].
    - by rewrite !utf8_encode_app, !to_bytes_app, He. }
  rewrite Hrs. cbn. apply parse_anchored; [by rewrite <- Hl|done].
Qed.

(** *** What an anchored expression matches and replaces *)

Lemma find_anchored_later r i l : find_from (anchored_regex r) (S i) l = None.
Proof. revert i. induction l as [|c l IH]; intros i; [done|]. cbn [find_from]. apply IH. Qed.

Lemma find_anchored r l : find_from (anchored_regex r) 0 l = pair 0%nat <$> search r at_end (mkPlace 0 l []).
Proof.
  assert (Hhere : search (anchored_regex r) Some (mkPlace 0 l []) = search r at_end (mkPlace 0 l [])) by done.
  destruct l as [|c l]; cbn [find_from]; rewrite Hhere; [by destruct (search r at_end _)|].
  destruct (search r at_end _); [done|]. apply find_anchored_later.
Qed.

(** The expression matches exactly the whole values it denotes. *)
Lemma match_string_anchored r s : match_string (anchored_regex r) s = true ↔ matches r 0 (rune_list s) [].
Proof.
  unfold match_string. rewrite find_anchored.
  rewrite <- (search_whole r (mkPlace 0 (rune_list s) [])). unfold rune_list.
  destruct (search r at_end _); cbn; split; intros; eauto; by destruct (is_Some_None (A:=place)).
Qed.

(** The first match of the whole value, if there is one. *)
Definition whole_match (r : regex) (s : string) : option place :=
  search r at_end (mkPlace 0 (rune_list s) []).

Lemma whole_match_pos r s p : whole_match r s = Some p → pos p = length (runes s).
Proof.
  unfold whole_match. intros (w & p' & [Hr Hp] & _ & Hk)%search_sound. unfold at_end in Hk.
  destruct (rest p') eqn:E; [|done]. injection Hk as <-. cbn [pos rest] in Hp, Hr. rewrite app_nil_r in Hr.
  rewrite Hp, <- Hr. unfold rune_list. by rewrite length_map.
Qed.

Lemma str_app_nil_r (s : string) : (s +:+ "")%string = s.
Proof. induction s as [|c s IH]; [done|]. change (String c (s +:+ "") = String c s). by rewrite IH. Qed.
Lemma between_all s : between (runes s) 0 (length (runes s)) = s.
Proof. unfold between. rewrite Nat.sub_0_r, drop_0, firstn_all. apply raw_of_runes. Qed.
Lemma between_empty units i j : (j <= i)%nat → between units i j = ""%string.
Proof. intros H. unfold between. by replace (j - i)%nat with 0%nat by lia. Qed.

Section Replacing.
Context (unicode_IsLetter unicode_IsDigit : Z → bool).

(** Behind the first match there is nothing more to replace. *)
Lemma replace_loop_done fuel r units t next :
  next = length units ∧ (0 < next)%nat ∨ (length units < next)%nat →
  replace_loop unicode_IsLetter unicode_IsDigit fuel (anchored_regex r) units t (length units) next = ""%string.
Proof.
  intros H. destruct fuel as [|fuel]; cbn [replace_loop]; rewrite (between_empty _ _ _ (le_n _)); [done|].
  case_match eqn:E; [done|]. apply Nat.ltb_ge in E.
  destruct next as [|m]; [lia|]. by rewrite find_anchored_later.
Qed.

(** It replaces the whole value by the expanded template, or leaves it. *)
Lemma replace_all_anchored r s t :
  replace_all unicode_IsLetter unicode_IsDigit (anchored_regex r) s t =
  match whole_match r s with
  | Some p => expand unicode_IsLetter unicode_IsDigit (group_text (runes s) 0 p) t
  | None => s
  end.
Proof.
  unfold replace_all. generalize (S (length (runes s))) as fuel. intros fuel. cbn [replace_loop].
  rewrite drop_0. fold (rune_list s). rewrite find_anchored. fold (whole_match r s).
  rewrite (proj2 (Nat.ltb_ge _ _)) by lia.
  destruct (whole_match r s) as [p|] eqn:E; cbn [fmap option_fmap option_map]; [|apply between_all].
  apply whole_match_pos in E. rewrite between_empty by lia. rewrite orb_true_r, E, replace_loop_done.
  - apply str_app_nil_r.
  - unfold next_from. destruct (length (runes s)) as [|[|m]]; cbn; lia.
Qed.
End Replacing.

(** *** The default expression *)

(** The one capturing group of any run of characters but newlines. *)
Definition default_regex : regex := Seq (Group 1 (Seq (Star true AnyNotNL) Empty)) Empty.

Lemma parse_default : parse "(.*)" = Some (default_regex, 2%nat).
Proof. by vm_compute. Qed.

Definition one_line (s : string) : Prop := 10 ∉ rune_list s.
#[export] Instance one_line_dec s : Decision (one_line s).
Proof. unfold one_line. apply _. Defined.

Lemma not_newline c : in_class true [(false, [(10, 10)])] c = negb (c =? 10).
Proof.
  unfold in_class, in_item, in_range. cbn [fst snd existsb xorb].
  destruct (Z.leb_spec 10 c), (Z.leb_spec c 10), (Z.eqb_spec c 10); (done || lia).
Qed.

(** A greedy dot-star takes all of a line. *)
Lemma search_line {A} (k : place → option A) l i cs x : 10 ∉ l → k (mkPlace (i + length l) [] cs) = Some x →
  search (Star true AnyNotNL) k (mkPlace i l cs) = Some x.
Proof.
  intros Hl Hk. cbn [search rest]. assert (Hn : (length l < S (length l))%nat) by lia. revert Hn.
  generalize (S (length l)) as n. revert i Hl Hk. induction l as [|c l IH]; intros i Hl Hk n Hn;
    (destruct n as [|n]; [lia|]); cbn -[in_class Nat.eqb].
  { by rewrite Nat.add_0_r in Hk. }
  rewrite not_newline. apply not_elem_of_cons in Hl as [Hc Hl].
  rewrite (proj2 (Z.eqb_neq c 10)) by done. cbn -[Nat.eqb].
  rewrite (proj2 (Nat.eqb_neq _ _)) by lia. rewrite IH; [done|done| |cbn in Hn; lia]. cbn [length] in Hk. by replace (S i + length l)%nat with (i + S (length l))%nat by lia.
Qed.

Lemma default_whole s : one_line s → whole_match default_regex s =
  Some (mkPlace (length (runes s)) [] [(1%nat, (0%nat, length (runes s)))]).
Proof.
  intros Hs. unfold whole_match, default_regex. cbn [search pos rest caps]. apply search_line; [done|].
  unfold at_end, rune_list. cbn. by rewrite length_map.
Qed.

Lemma matches_line i w l : matches (Star true AnyNotNL) i w l → 10 ∉ w.
Proof.
  remember (Star true AnyNotNL) as r eqn:Er. induction 1; simplify_eq; [by apply not_elem_of_nil|].
  apply not_elem_of_app. split; [|by apply IHmatches2]. clear IHmatches1 IHmatches2.
  inversion H; subst. rewrite not_newline in *. apply not_elem_of_cons. split; [|by apply not_elem_of_nil].
  intros <-. done.
Qed.

Lemma default_matches s : matches default_regex 0 (rune_list s) [] ↔ one_line s.
Proof.
  split.
  - intros (w1 & w2 & E & (w3 & w4 & -> & H3 & ->%matches_empty_inv)%matches_group_inv%matches_seq_inv
      & ->%matches_empty_inv)%matches_seq_inv.
    unfold one_line. rewrite E, !app_nil_r. by eapply matches_line.
  - intros Hs. apply (search_whole default_regex (mkPlace 0 (rune_list s) [])).
    fold (whole_match default_regex s). rewrite default_whole by done. eauto.
Qed.

Section Expanding.
Context (unicode_IsLetter unicode_IsDigit : Z → bool).
Local Abbreviation expand := (expand unicode_IsLetter unicode_IsDigit).

(** A template without references stands for itself. *)
Lemma expand_plain group t : no_char "$"%char t → expand group t = t.
Proof. intros H. unfold expand. cbn [expand_loop]. by rewrite H. Qed.

Lemma expand_first group : expand group "$1" = default ""%string (group 1).
Proof. apply str_app_nil_r. Qed.

(** By default the value is replaced by itself. *)
Lemma default_replace s : one_line s →
  replace_all unicode_IsLetter unicode_IsDigit (anchored_regex default_regex) s "$1" = s.
Proof.
  intros Hs. rewrite replace_all_anchored, default_whole by done. rewrite expand_first.
  unfold group_text. cbn. apply between_all.
Qed.
End Expanding.
