(* ===== verification/GoTime.v ===== *)
(** * GoTime: package time as the parser uses it

    [time.Parse] for layouts made of the elements the program's layouts have
    -- 2006, 01, 02, 15, 04, 05, a fraction of nines, and Z07:00 -- with the
    range checks, the optional fraction after the seconds and the calendar of
    the package.  A [time] is an instant, so a zone only shifts it. *)
From S2P Require Import Prelude GoLib Strconv.
From stdpp Require Import pretty.
Open Scope Z_scope.

(** ** The calendar *)

Definition isLeap (y : Z) : bool := (y mod 4 =? 0) && (negb (y mod 100 =? 0) || (y mod 400 =? 0)).

Definition daysIn (y m : Z) : Z :=
  if m =? 2 then if isLeap y then 29 else 28
  else if (m =? 4) || (m =? 6) || (m =? 9) || (m =? 11) then 30 else 31.

(** Days before the first of a month ([daysBefore], with the leap day). *)
Definition days_before_month (y m : Z) : Z :=
  foldr (λ i acc, daysIn y i + acc) 0 (seqZ 1 (m - 1)).

(** Days from 1 January 1970 to 1 January of year [y]. *)
Definition days_before_year (y : Z) : Z :=
  let p := y - 1 in 365 * p + p / 4 - p / 100 + p / 400 - 719162.

Definition days_since_epoch (y m d : Z) : Z := days_before_year y + days_before_month y m + (d - 1).

(** [time.Date(y, m, d, hh, mm, ss, ns, time.UTC)] *)
Definition Date (y m d hh mm ss ns : Z) : time :=
  (((days_since_epoch y m d * 24 + hh) * 60 + mm) * 60 + ss) * 1000000000 + ns.

Example Date_epoch : Date 1970 1 1 0 0 0 0 = 0.
Proof. reflexivity. Qed.
Example Date_leap : Date 2024 2 29 12 0 0 5 = 1709208000000000005.
Proof. reflexivity. Qed.
Example Date_zero : Date 0 1 1 0 0 0 0 = -62167219200000000000.
Proof. reflexivity. Qed.

(** ** Layouts *)

Inductive std :=
  | StdLongYear | StdZeroMonth | StdZeroDay | StdHour | StdZeroMinute | StdZeroSecond
  | StdFracSecond9 | StdISO8601ColonTZ | StdLit (c : byte).

(** The first element of a layout and what follows it: [nextStdChunk], one
    literal character at a time, for the elements above. *)
Definition std_text (s : std) : bytes :=
  match s with
  | StdLongYear => to_bytes "2006" | StdZeroMonth => to_bytes "01" | StdZeroDay => to_bytes "02"
  | StdHour => to_bytes "15" | StdZeroMinute => to_bytes "04" | StdZeroSecond => to_bytes "05"
  | StdFracSecond9 => to_bytes ".999999999" | StdISO8601ColonTZ => to_bytes "Z07:00"
  | StdLit c => [c]
  end.
Definition std_elements : list std :=
  [StdLongYear; StdZeroMonth; StdZeroDay; StdHour; StdZeroMinute; StdZeroSecond; StdFracSecond9;
   StdISO8601ColonTZ].

Definition starts_with (p b : bytes) : bool := bool_decide (take (length p) b = p).

Definition next_std (b : bytes) : option (std * bytes) :=
  match filter (λ s, starts_with (std_text s) b) std_elements, b with
  | s :: _, _ => Some (s, drop (length (std_text s)) b)
  | [], c :: b => Some (StdLit c, b)
  | [], [] => None
  end.
Fixpoint layout_loop (fuel : nat) (b : bytes) : list std :=
  match fuel, next_std b with
  | S fuel, Some (s, b) => s :: layout_loop fuel b
  | _, _ => []
  end.
Definition layout (s : string) : list std := layout_loop (String.length s) (to_bytes s).

(** ** [time.Parse] *)

Record fields := mkFields {
  f_year : Z; f_month : Z; f_day : Z; f_hour : Z; f_min : Z; f_sec : Z; f_nsec : Z;
  f_offset : option Z }.

Definition isDigit (b : bytes) (i : nat) : bool :=
  match b !! i with Some c => bool_decide (is_Some (digit c)) | None => false end.

(** [getnum(s, fixed)]: one or two digits. *)
Definition getnum (fixed : bool) (b : bytes) : option (Z * bytes) :=
  match b with
  | c1 :: b1 =>
      d1 ← digit c1;
      match b1 with
      | c2 :: b2 =>
          match digit c2 with
          | Some d2 => Some (10 * d1 + d2, b2)
          | None => if fixed then None else Some (d1, b1)
          end
      | [] => if fixed then None else Some (d1, b1)
      end
  | [] => None
  end.

Definition commaOrPeriod (c : byte) : bool := isb 46 c || isb 44 c.

(** [parseNanoseconds]: the first nine digits count. *)
Definition nanoseconds (ds : bytes) : option Z :=
  let ds := take 9 ds in n ← digits 0 ds; Some (n * 10 ^ (9 - len ds)).

(** A fraction in front of [b], if there is one. *)
Definition fraction (b : bytes) : option (Z * bytes) :=
  match b with
  | c :: d :: _ =>
      if commaOrPeriod c && is_decimal d
      then let '(ds, rest) := accept_run is_decimal (drop 1 b) in
           n ← nanoseconds ds; Some (n, rest)
      else Some (0, b)
  | _ => Some (0, b)
  end.

Fixpoint drop_blanks (b : bytes) : bytes :=
  match b with c :: b' => if isb 32 c then drop_blanks b' else b | [] => [] end.

Definition in_bound (lo hi : Z) (x : Z * bytes) : option (Z * bytes) :=
  if (lo <=? x.1) && (x.1 <=? hi) then Some x else None.

(** A numeric zone, [+hh:mm]. *)
Definition zone (b : bytes) : option (Z * bytes) :=
  match b with
  | s :: h1 :: h2 :: c :: m1 :: m2 :: rest =>
      if negb (isb 58 c) then None
      else
        '(hr, _) ← getnum true [h1; h2] ≫= in_bound 0 24;
        '(mm, _) ← getnum true [m1; m2] ≫= in_bound 0 60;
        let off := (hr * 60 + mm) * 60 in
        if isb 43 s then Some (off, rest) else if isb 45 s then Some (- off, rest) else None
  | _ => None
  end.

(** One element: the value that is left and the fields.  [next] is the next
    element of the layout that is not a literal. *)
Definition parse_std (s : std) (next : option std) (b : bytes) (f : fields) : option (bytes * fields) :=
  let '(mkFields y mo d h mi sc ns off) := f in
  match s with
  | StdLit c =>
      if isb 32 c
      then match b with
           | x :: _ => if isb 32 x then Some (drop_blanks b, f) else None
           | [] => Some ([], f)
           end
      else match b with
           | x :: b => if decide (x = c) then Some (b, f) else None
           | [] => None
           end
  | StdLongYear =>
      if (len b <? 4) then None
      else n ← digits 0 (take 4 b); Some (drop 4 b, mkFields n mo d h mi sc ns off)
  | StdZeroMonth =>
      '(n, b) ← getnum true b ≫= in_bound 1 12; Some (b, mkFields y n d h mi sc ns off)
  | StdZeroDay => '(n, b) ← getnum true b; Some (b, mkFields y mo n h mi sc ns off)
  | StdHour => '(n, b) ← getnum false b ≫= in_bound 0 23; Some (b, mkFields y mo d n mi sc ns off)
  | StdZeroMinute => '(n, b) ← getnum true b ≫= in_bound 0 59; Some (b, mkFields y mo d h n sc ns off)
  | StdZeroSecond =>
      '(n, b) ← getnum true b ≫= in_bound 0 59;
      match next with
      | Some StdFracSecond9 => Some (b, mkFields y mo d h mi n ns off)
      | _ => '(fr, b') ← fraction b;
             Some (b', mkFields y mo d h mi n (if decide (b' = b) then ns else fr) off)
      end
  | StdFracSecond9 =>
      '(fr, b') ← fraction b;
      Some (b', mkFields y mo d h mi sc (if decide (b' = b) then ns else fr) off)
  | StdISO8601ColonTZ =>
      match b with
      | x :: b' => if isb 90 x then Some (b', mkFields y mo d h mi sc ns None)
                   else '(o, b) ← zone b; Some (b, mkFields y mo d h mi sc ns (Some o))
      | [] => None
      end
  end.

Fixpoint next_element (l : list std) : option std :=
  match l with StdLit _ :: l => next_element l | s :: _ => Some s | [] => None end.

Fixpoint parse_loop (l : list std) (b : bytes) (f : fields) : option fields :=
  match l with
  | [] => match b with [] => Some f | _ => None end
  | s :: l => '(b, f) ← parse_std s (next_element l) b f; parse_loop l b f
  end.

Definition finish (f : fields) : option time :=
  if (f_day f <? 1) || (daysIn (f_year f) (f_month f) <? f_day f) then None
  else Some (Date (f_year f) (f_month f) (f_day f) (f_hour f) (f_min f) (f_sec f) (f_nsec f)
             - default 0 (f_offset f) * 1000000000).

(** [time.Parse(layout, value)]; the text of the error is not modelled. *)
Definition time_Parse (lay value : string) : time + error :=
  match parse_loop (layout lay) (to_bytes value) (mkFields 0 (-1) (-1) 0 0 0 0 None) ≫= finish with
  | Some t => inl t
  | None => inr "parsing time"%string
  end.

Definition RFC3339 : string := "2006-01-02T15:04:05Z07:00".
Definition RFC3339Nano : string := "2006-01-02T15:04:05.999999999Z07:00".

Example layout_nano : layout "15:04:05.999999999Z07:00" =
  [StdHour; StdLit Byte.x3a; StdZeroMinute; StdLit Byte.x3a; StdZeroSecond; StdFracSecond9; StdISO8601ColonTZ].
Proof. vm_compute. reflexivity. Qed.
Example Parse_zulu : time_Parse RFC3339 "2024-02-29T12:00:00Z" = inl (Date 2024 2 29 12 0 0 0).
Proof. vm_compute. reflexivity. Qed.
Example Parse_zone : time_Parse RFC3339 "2024-02-29T12:00:00.25+02:00" = inl (Date 2024 2 29 10 0 0 250000000).
Proof. vm_compute. reflexivity. Qed.
Example Parse_nano : time_Parse RFC3339Nano "2024-02-29T9:00:00,1234567891Z" = inl (Date 2024 2 29 9 0 0 123456789).
Proof. vm_compute. reflexivity. Qed.
Example Parse_blank : time_Parse "2006-01-02 15:04:05" "2024-02-29  23:59:59" = inl (Date 2024 2 29 23 59 59 0).
Proof. vm_compute. reflexivity. Qed.
Example Parse_bad : map (time_Parse RFC3339)
    ["2023-02-29T12:00:00Z"; "2024-02-29T24:00:00Z"; "2024-02-29T12:00:00"; "2024-02-29T12:00:00Z "; ""]%string =
  repeat (inr "parsing time"%string) 5.
Proof. vm_compute. reflexivity. Qed.

(** ** The calendar is the Gregorian one

    Consecutive dates are consecutive days, and 1 January 1970 is day 0: this
    determines the day number of every date. *)
Definition valid_date (y m d : Z) : Prop := 1 <= m <= 12 ∧ 1 <= d <= daysIn y m.

Definition next_day (y m d : Z) : Z * Z * Z :=
  if d <? daysIn y m then (y, m, d + 1) else if m <? 12 then (y, m + 1, 1) else (y + 1, 1, 1).

Lemma month_cases m : 1 <= m <= 12 → m ∈ seqZ 1 12.
Proof. intros H. apply elem_of_seqZ. lia. Qed.

Lemma days_before_next_month y m : 1 <= m <= 11 →
  days_before_month y (m + 1) = days_before_month y m + daysIn y m.
Proof.
  intros H. assert (Hm : m ∈ seqZ 1 11) by (apply elem_of_seqZ; lia). clear H. revert m Hm.
  apply Forall_forall. cbn. unfold days_before_month, daysIn. cbn.
  repeat apply Forall_cons_2; [..|apply Forall_nil_2]; destruct (isLeap y); reflexivity.
Qed.

Lemma isLeap_spec y : isLeap y = true ↔ y mod 4 = 0 ∧ (y mod 100 ≠ 0 ∨ y mod 400 = 0).
Proof.
  unfold isLeap. rewrite andb_true_iff, orb_true_iff, negb_true_iff, !Z.eqb_eq, Z.eqb_neq. done.
Qed.

Lemma days_before_next_year y :
  days_before_year (y + 1) = days_before_year y + days_before_month y 12 + 31.
Proof.
  assert (Hm : days_before_month y 12 = if isLeap y then 335 else 334).
  { unfold days_before_month, daysIn. cbn. by destruct (isLeap y). }
  rewrite Hm. unfold days_before_year.
  assert (Hq : ∀ n, 0 < n → (y + 1 - 1) / n = (y - 1) / n + if y mod n =? 0 then 1 else 0).
  { intros n Hn. replace (y + 1 - 1) with y by lia.
    pose proof (Z.div_mod y n ltac:(lia)). pose proof (Z.mod_pos_bound y n Hn).
    destruct (Z.eqb_spec (y mod n) 0) as [Hz|Hz]; symmetry.
    - replace ((y - 1) / n) with (y / n - 1); [lia|]. apply Z.div_unique with (n - 1); lia.
    - rewrite Z.add_0_r. symmetry. apply Z.div_unique with (y mod n - 1); lia. }
  rewrite !Hq by lia.
  assert (H1 : y mod 4 = (y mod 100) mod 4).
  { change 100 with (4 * 25). rewrite Z.rem_mul_r by lia. 
    rewrite Z.mul_comm, Z.mod_add, Z.mod_mod by lia. done. }
  assert (H2 : y mod 100 = (y mod 400) mod 100).
  { change 400 with (100 * 4). rewrite Z.rem_mul_r by lia.
    rewrite Z.mul_comm, Z.mod_add, Z.mod_mod by lia. done. }
  unfold isLeap. destruct (Z.eqb_spec (y mod 400) 0) as [E4|E4].
  - rewrite E4 in H2. change (0 mod 100) with 0 in H2. rewrite H2 in H1. change (0 mod 4) with 0 in H1.
    rewrite H1, H2. cbv [Z.eqb negb orb andb]. lia.
  - destruct (Z.eqb_spec (y mod 100) 0) as [E1|E1].
    + rewrite E1 in H1. change (0 mod 4) with 0 in H1. rewrite H1. cbv [Z.eqb negb orb andb]. lia.
    + destruct (Z.eqb_spec (y mod 4) 0); cbv [negb orb andb]; lia.
Qed.

Lemma next_day_succ y m d : valid_date y m d →
  let '(y', m', d') := next_day y m d in
  valid_date y' m' d' ∧ days_since_epoch y' m' d' = days_since_epoch y m d + 1.
Proof.
  intros [Hm Hd]. assert (Hpos : ∀ y m, 28 <= daysIn y m) by (intros; unfold daysIn; repeat case_match; lia).
  unfold next_day, valid_date, days_since_epoch.
  destruct (Z.ltb_spec d (daysIn y m)); [lia|]. destruct (Z.ltb_spec m 12).
  - pose proof (Hpos y (m + 1)). split; [lia|]. rewrite days_before_next_month by lia. lia.
  - pose proof (Hpos (y + 1) 1). split; [lia|]. assert (m = 12) as -> by lia.
    rewrite days_before_next_year. change (days_before_month (y + 1) 1) with 0.
    change (daysIn y 12) with 31 in *. lia.
Qed.

(** ** Reading back a printed time *)

Definition digit_char (d : Z) : byte := byte.of_Z (48 + d).
Fixpoint padded (k : nat) (n : Z) : bytes :=
  match k with O => [] | S k => padded k (n / 10) ++ [digit_char (n mod 10)] end.

Lemma digit_digit_char d : 0 <= d < 10 → digit (digit_char d) = Some d.
Proof.
  intros H. unfold digit, digit_char.
  assert (Hu : byte.unsigned (byte.of_Z (48 + d)) = 48 + d)
    by (rewrite byte.unsigned_of_Z; apply Z.mod_small; lia).
  rewrite Hu. unfold in_range.
  destruct (Z.leb_spec 48 (48 + d)), (Z.leb_spec (48 + d) 57); try lia. cbn. f_equal. lia.
Qed.

Lemma length_padded k n : length (padded k n) = k.
Proof. revert n. induction k as [|k IH]; intros n; cbn; [done|]. rewrite length_app, IH. cbn. lia. Qed.

Lemma digits_padded k m n : 0 <= n < 10 ^ Z.of_nat k →
  digits m (padded k n) = Some (m * 10 ^ Z.of_nat k + n).
Proof.
  revert m n. induction k as [|k IH]; intros m n Hn.
  { cbn in Hn |- *. f_equal. lia. }
  rewrite Nat2Z.inj_succ, Z.pow_succ_r in * by lia. cbn [padded]. rewrite digits_app.
  rewrite IH by (split; [apply Z.div_pos; lia|apply Z.div_lt_upper_bound; lia]). cbn.
  rewrite digit_digit_char by (apply Z.mod_pos_bound; lia). cbn. f_equal.
  pose proof (Z.div_mod n 10 ltac:(lia)). lia.
Qed.

Lemma getnum_padded fixed n rest : 0 <= n < 100 → getnum fixed (padded 2 n ++ rest) = Some (n, rest).
Proof.
  intros Hn. cbn [padded app getnum].
  pose proof (Z.mod_pos_bound (n / 10) 10 ltac:(lia)). pose proof (Z.mod_pos_bound n 10 ltac:(lia)).
  rewrite !digit_digit_char by done. cbn. do 2 f_equal.
  pose proof (Z.div_mod n 10 ltac:(lia)).
  rewrite Z.mod_small; [lia|]. split; [apply Z.div_pos; lia|apply Z.div_lt_upper_bound; lia].
Qed.

Definition ymd_layout : list std :=
  [StdLongYear; StdLit Byte.x2d; StdZeroMonth; StdLit Byte.x2d; StdZeroDay].
Definition hm_layout : list std := [StdHour; StdLit Byte.x3a; StdZeroMinute; StdLit Byte.x3a].
Definition clock_layout (sep : byte) : list std :=
  ymd_layout ++ [StdLit sep] ++ hm_layout ++ [StdZeroSecond].

(** [2006-01-02T15:04:05], with nanoseconds when there are some. *)
Definition ymd_text (y mo d : Z) : bytes :=
  padded 4 y ++ [Byte.x2d] ++ padded 2 mo ++ [Byte.x2d] ++ padded 2 d.
Definition hm_text (h mi : Z) : bytes := padded 2 h ++ [Byte.x3a] ++ padded 2 mi ++ [Byte.x3a].
Definition frac_part (ns : option Z) : bytes :=
  match ns with None => [] | Some n => Byte.x2e :: padded 9 n end.
Definition clock_text (sep : byte) (y mo d h mi s : Z) (ns : option Z) : bytes :=
  ymd_text y mo d ++ [sep] ++ hm_text h mi ++ padded 2 s ++ frac_part ns.

(** The zone: [Z], or an offset in minutes. *)
Definition zone_text (off : option (bool * Z * Z)) : bytes :=
  match off with
  | None => [Byte.x5a]
  | Some (neg, hh, mm) => (if neg then Byte.x2d else Byte.x2b) :: padded 2 hh ++ Byte.x3a :: padded 2 mm
  end.
Definition zone_seconds (off : option (bool * Z * Z)) : Z :=
  match off with
  | None => 0
  | Some (neg, hh, mm) => (if neg then -1 else 1) * ((hh * 60 + mm) * 60)
  end.

Definition valid_clock (y mo d h mi s : Z) (ns : option Z) : Prop :=
  0 <= y < 10000 ∧ valid_date y mo d ∧ 0 <= h < 24 ∧ 0 <= mi < 60 ∧ 0 <= s < 60 ∧
  0 <= default 0 ns < 1000000000.
Definition valid_zone (off : option (bool * Z * Z)) : Prop :=
  match off with None => True | Some (_, hh, mm) => 0 <= hh <= 24 ∧ 0 <= mm <= 60 end.

(** What follows the seconds does not continue them. *)
Definition ends_seconds (rest : bytes) : Prop :=
  match rest with c :: _ => commaOrPeriod c = false ∧ is_decimal c = false | [] => True end.

Lemma is_decimal_digit_char d : 0 <= d < 10 → is_decimal (digit_char d) = true.
Proof. intros H. unfold is_decimal. rewrite digit_digit_char by done. by apply bool_decide_eq_true. Qed.

Lemma accept_run_padded k n rest : 0 <= n →
  match rest with c :: _ => is_decimal c = false | [] => True end →
  accept_run is_decimal (padded k n ++ rest) = (padded k n, rest).
Proof.
  intros Hn Hr. assert (Hall : Forall (λ c, is_decimal c = true) (padded k n)).
  { clear Hr. revert n Hn. induction k as [|k IH]; intros n Hn; cbn [padded]; [constructor|].
    apply Forall_app. split; [apply IH, Z.div_pos; lia|].
    constructor; [|constructor]. apply is_decimal_digit_char, Z.mod_pos_bound. lia. }
  induction Hall as [|c b Hc _ IH]; cbn [app accept_run].
  - destruct rest as [|c rest]; [done|]. cbn. by rewrite Hr.
  - by rewrite Hc, IH.
Qed.

Lemma fraction_text ns rest : 0 <= default 0 ns < 1000000000 → ends_seconds rest →
  let b := frac_part ns ++ rest in
  ∃ b' fr, fraction b = Some (fr, b') ∧ b' = rest ∧ (if decide (b' = b) then 0 else fr) = default 0 ns.
Proof.
  intros Hn Hr. destruct ns as [n|]; cbv zeta; unfold frac_part.
  - change (default 0 (Some n)) with n in *. exists rest, n. split; [|split; [done|]].
    + assert (Hd : digits 0 (padded 9 n) = Some n).
      { by rewrite digits_padded by lia. }
      assert (Hp : ∃ d t, padded 9 n = d :: t ∧ is_decimal d = true).
      { eexists _, _. split; [cbn; reflexivity|]. apply is_decimal_digit_char, Z.mod_pos_bound. lia. }
      destruct Hp as (x & t & Hp & Hx). unfold fraction.
      replace ((Byte.x2e :: padded 9 n) ++ rest) with (Byte.x2e :: x :: t ++ rest) by (by rewrite Hp).
      change (commaOrPeriod Byte.x2e) with true. rewrite Hx. cbn [andb drop].
      change (x :: t ++ rest) with ((x :: t) ++ rest). rewrite <- Hp.
      rewrite accept_run_padded; [|lia|destruct rest; [done|apply Hr]].
      unfold nanoseconds. rewrite take_ge by (rewrite length_padded; lia). rewrite Hd.
      unfold len. rewrite length_padded. cbn [mbind option_bind].
      by replace (n * 10 ^ (9 - Z.of_nat 9)) with n by lia.
    + rewrite decide_False; [done|]. intros H. apply (f_equal length) in H.
      rewrite length_app in H. cbn in H. lia.
  - exists rest, 0. split; [|split; [done|by case_decide]]. cbn [app].
    destruct rest as [|c [|x rest]]; [done..|]. destruct Hr as [H _]. cbn. by rewrite H.
Qed.

Lemma zone_padded (neg : bool) hh mm : 0 <= hh <= 24 → 0 <= mm <= 60 →
  zone (zone_text (Some (neg, hh, mm))) = Some (zone_seconds (Some (neg, hh, mm)), []).
Proof.
  intros Hh Hm. pose proof (getnum_padded true hh [] ltac:(lia)) as H1.
  pose proof (getnum_padded true mm [] ltac:(lia)) as H2. rewrite !app_nil_r in *.
  unfold zone_text. cbn [padded app] in *. unfold zone.
  change (isb 58 Byte.x3a) with true. cbn [negb]. rewrite H1, H2. cbn [mbind option_bind].
  unfold in_bound. cbn [fst].
  rewrite !andb_true_r || idtac.
  destruct (Z.leb_spec 0 hh), (Z.leb_spec hh 24); try lia. cbn [andb].
  destruct (Z.leb_spec 0 mm), (Z.leb_spec mm 60); try lia. cbn [andb].
  destruct neg; cbn; do 2 f_equal; lia.
Qed.

Lemma parse_cons s l b f b' f' : parse_std s (next_element l) b f = Some (b', f') →
  parse_loop (s :: l) b f = parse_loop l b' f'.
Proof. intros H. cbn [parse_loop]. by rewrite H. Qed.

Lemma in_bound_ok lo hi n (b : bytes) : lo <= n <= hi → in_bound lo hi (n, b) = Some (n, b).
Proof.
  intros H. unfold in_bound. cbn [fst].
  destruct (Z.leb_spec lo n), (Z.leb_spec n hi); try lia. done.
Qed.

Section Elements.
Context (y mo d h mi s ns : Z) (off : option Z) (next : option std) (t : bytes).
Implicit Types n : Z.
Local Abbreviation F := (mkFields y mo d h mi s ns off).

Lemma parse_lit c : isb 32 c = false → parse_std (StdLit c) next (c :: t) F = Some (t, F).
Proof. intros H. cbn. by rewrite H, decide_True. Qed.

Lemma parse_blank n : 0 <= n < 100 →
  parse_std (StdLit Byte.x20) next (Byte.x20 :: padded 2 n ++ t) F = Some (padded 2 n ++ t, F).
Proof.
  intros Hn. cbn [parse_std padded app]. change (isb 32 Byte.x20) with true. cbv iota. cbn [drop_blanks].
  change (isb 32 Byte.x20) with true. cbv iota.
  assert (Hd : digit (digit_char (n / 10 mod 10)) = Some (n / 10 mod 10))
    by (apply digit_digit_char, Z.mod_pos_bound; lia).
  by rewrite (isb_digit _ _ _ Hd) by lia.
Qed.

Lemma parse_year n : 0 <= n < 10000 →
  parse_std StdLongYear next (padded 4 n ++ t) F = Some (t, mkFields n mo d h mi s ns off).
Proof.
  intros Hn. cbn [parse_std]. destruct (Z.ltb_spec (len (padded 4 n ++ t)) 4) as [Hl|_].
  { rewrite len_app in Hl. unfold len in Hl. rewrite length_padded in Hl. lia. }
  rewrite take_app_length', drop_app_length' by (symmetry; apply length_padded).
  by rewrite digits_padded by lia.
Qed.

Lemma parse_month n : 1 <= n <= 12 →
  parse_std StdZeroMonth next (padded 2 n ++ t) F = Some (t, mkFields y n d h mi s ns off).
Proof.
  intros Hn. cbn [parse_std]. rewrite getnum_padded by lia. cbn [mbind option_bind].
  by rewrite in_bound_ok by lia.
Qed.

Lemma parse_day n : 0 <= n < 100 →
  parse_std StdZeroDay next (padded 2 n ++ t) F = Some (t, mkFields y mo n h mi s ns off).
Proof. intros Hn. cbn [parse_std]. by rewrite getnum_padded by lia. Qed.

Lemma parse_hour n : 0 <= n <= 23 →
  parse_std StdHour next (padded 2 n ++ t) F = Some (t, mkFields y mo d n mi s ns off).
Proof.
  intros Hn. cbn [parse_std]. rewrite getnum_padded by lia. cbn [mbind option_bind].
  by rewrite in_bound_ok by lia.
Qed.

Lemma parse_minute n : 0 <= n <= 59 →
  parse_std StdZeroMinute next (padded 2 n ++ t) F = Some (t, mkFields y mo d h n s ns off).
Proof.
  intros Hn. cbn [parse_std]. rewrite getnum_padded by lia. cbn [mbind option_bind].
  by rewrite in_bound_ok by lia.
Qed.
End Elements.

(** The seconds, with the fraction the layout does not mention. *)
Lemma parse_second y mo d h mi off next n frac t : 0 <= n <= 59 → 0 <= default 0 frac < 1000000000 →
  ends_seconds t → next ≠ Some StdFracSecond9 →
  parse_std StdZeroSecond next
    (padded 2 n ++ frac_part frac ++ t)
    (mkFields y mo d h mi 0 0 off) = Some (t, mkFields y mo d h mi n (default 0 frac) off).
Proof.
  intros Hn Hf Ht Hnext. cbn [parse_std]. rewrite getnum_padded by lia. cbn [mbind option_bind].
  rewrite in_bound_ok by lia. cbn [mbind option_bind].
  destruct (fraction_text frac t Hf Ht) as (b' & fr & H1 & -> & H2).
  destruct next as [[]|]; try done; rewrite H1; cbn [mbind option_bind]; by rewrite H2.
Qed.

Definition start : fields := mkFields 0 (-1) (-1) 0 0 0 0 None.

Lemma parse_ymd l y mo d t : 0 <= y < 10000 → valid_date y mo d →
  parse_loop (ymd_layout ++ l) (ymd_text y mo d ++ t) start =
  parse_loop l t (mkFields y mo d 0 0 0 0 None).
Proof.
  intros Hy [Hmo Hd]. assert (Hdd : d <= 31) by (unfold daysIn in Hd; repeat case_match; lia).
  unfold ymd_text, ymd_layout, start. rewrite <- !app_assoc. cbn [app].
  erewrite parse_cons; [|apply parse_year; lia].
  erewrite parse_cons; [|by apply parse_lit].
  erewrite parse_cons; [|apply parse_month; lia].
  erewrite parse_cons; [|by apply parse_lit].
  erewrite parse_cons; [|apply parse_day; lia]. done.
Qed.

Lemma parse_sep l y mo d h sep t : 0 <= h < 24 → sep = Byte.x54 ∨ sep = Byte.x20 →
  parse_loop (StdLit sep :: l) (sep :: padded 2 h ++ t) (mkFields y mo d 0 0 0 0 None) =
  parse_loop l (padded 2 h ++ t) (mkFields y mo d 0 0 0 0 None).
Proof.
  intros Hh Hsep. erewrite parse_cons; [done|].
  destruct Hsep as [-> | ->]; [by apply parse_lit|apply parse_blank; lia].
Qed.

Lemma parse_hm l y mo d h mi t : 0 <= h < 24 → 0 <= mi < 60 →
  parse_loop (hm_layout ++ l) (hm_text h mi ++ t) (mkFields y mo d 0 0 0 0 None) =
  parse_loop l t (mkFields y mo d h mi 0 0 None).
Proof.
  intros Hh Hmi. unfold hm_text, hm_layout. rewrite <- !app_assoc. cbn [app].
  erewrite parse_cons; [|apply parse_hour; lia].
  erewrite parse_cons; [|by apply parse_lit].
  erewrite parse_cons; [|apply parse_minute; lia].
  erewrite parse_cons; [|by apply parse_lit]. done.
Qed.

(** Everything before the seconds. *)
Lemma parse_before_seconds sep l y mo d h mi s ns rest :
  sep = Byte.x54 ∨ sep = Byte.x20 → valid_clock y mo d h mi s ns →
  parse_loop (ymd_layout ++ [StdLit sep] ++ hm_layout ++ l) (clock_text sep y mo d h mi s ns ++ rest) start =
  parse_loop l (padded 2 s ++ frac_part ns ++ rest) (mkFields y mo d h mi 0 0 None).
Proof.
  intros Hsep (Hy & Hd & Hh & Hmi & Hs & Hns).
  unfold clock_text. rewrite <- !app_assoc. rewrite parse_ymd by done.
  cbn [app]. unfold hm_text at 1. rewrite <- !app_assoc. rewrite parse_sep by done.
  rewrite <- parse_hm with (h := h) by done. unfold hm_text. by rewrite <- !app_assoc.
Qed.

(** The date and the clock, up to what follows the seconds. *)
Lemma parse_clock sep tail y mo d h mi s ns rest :
  sep = Byte.x54 ∨ sep = Byte.x20 → next_element tail ≠ Some StdFracSecond9 →
  valid_clock y mo d h mi s ns → ends_seconds rest →
  parse_loop (clock_layout sep ++ tail) (clock_text sep y mo d h mi s ns ++ rest) start =
  parse_loop tail rest (mkFields y mo d h mi s (default 0 ns) None).
Proof.
  intros Hsep Htail Hc Hrest. unfold clock_layout. rewrite <- !app_assoc.
  rewrite parse_before_seconds by done. destruct Hc as (_ & _ & _ & _ & Hs & Hns).
  cbn [app]. erewrite parse_cons; [|apply parse_second; [lia|done..]]. done.
Qed.

Lemma parse_finish y mo d h mi s ns : valid_clock y mo d h mi s ns → ∀ off,
  finish (mkFields y mo d h mi s (default 0 ns) off) =
  Some (Date y mo d h mi s (default 0 ns) - default 0 off * 1000000000).
Proof.
  intros (_ & [_ Hd] & _) off. unfold finish. cbn [f_day f_year f_month].
  destruct (Z.ltb_spec d 1), (Z.ltb_spec (daysIn y mo) d); try lia. done.
Qed.

Lemma parse_zone y mo d h mi s ns off : valid_zone off →
  ∃ o, parse_loop [StdISO8601ColonTZ] (zone_text off) (mkFields y mo d h mi s ns None) =
    Some (mkFields y mo d h mi s ns o) ∧ default 0 o = zone_seconds off.
Proof.
  destruct off as [[[neg hh] mm]|]; [|by exists None]. intros [Hh Hm].
  exists (Some (zone_seconds (Some (neg, hh, mm)))). split; [|done].
  cbn [parse_loop parse_std]. pose proof (zone_padded neg hh mm Hh Hm) as Hzp.
  unfold zone_text in *. cbn [zone_seconds].
  replace (isb 90 (if neg then Byte.x2d else Byte.x2b)) with false by by destruct neg.
  by rewrite Hzp.
Qed.

(** A printed date and time with a zone, under RFC 3339. *)
Lemma time_Parse_zoned y mo d h mi s ns off : valid_clock y mo d h mi s ns → valid_zone off →
  time_Parse RFC3339 (of_bytes (clock_text Byte.x54 y mo d h mi s ns ++ zone_text off)) =
    inl (Date y mo d h mi s (default 0 ns) - zone_seconds off * 1000000000).
Proof.
  intros Hc Hz. unfold time_Parse. rewrite to_of_bytes.
  change (layout RFC3339) with (clock_layout Byte.x54 ++ [StdISO8601ColonTZ]).
  change (mkFields 0 (-1) (-1) 0 0 0 0 None) with start.
  rewrite parse_clock; [|by left|done|done|by destruct off as [[[[] ?] ?]|]].
  destruct (parse_zone y mo d h mi s (default 0 ns) off Hz) as (o & -> & <-).
  cbn [mbind option_bind]. by rewrite parse_finish.
Qed.

(** Without a zone the RFC 3339 layouts fail, and the third layout reads it. *)
Lemma time_Parse_unzoned y mo d h mi s ns : valid_clock y mo d h mi s ns →
  let text := of_bytes (clock_text Byte.x54 y mo d h mi s ns) in
  time_Parse RFC3339 text = inr "parsing time"%string ∧
  time_Parse RFC3339Nano text = inr "parsing time"%string ∧
  time_Parse "2006-01-02T15:04:05" text = inl (Date y mo d h mi s (default 0 ns)).
Proof.
  intros Hc. cbv zeta. unfold time_Parse. rewrite to_of_bytes, <- (app_nil_r (clock_text _ _ _ _ _ _ _ _)).
  change (mkFields 0 (-1) (-1) 0 0 0 0 None) with start. split; [|split].
  - change (layout RFC3339) with (clock_layout Byte.x54 ++ [StdISO8601ColonTZ]).
    by rewrite parse_clock by (done || by left).
  - change (layout RFC3339Nano) with (ymd_layout ++ [StdLit Byte.x54] ++ hm_layout ++
      [StdZeroSecond; StdFracSecond9; StdISO8601ColonTZ]).
    rewrite parse_before_seconds by (done || by left). destruct Hc as (_ & _ & _ & _ & Hs & Hns).
    cbn [parse_loop next_element parse_std]. rewrite getnum_padded by lia. cbn [mbind option_bind].
    rewrite in_bound_ok by lia. cbn [mbind option_bind].
    destruct (fraction_text ns [] Hns I) as (b' & fr & H1 & -> & _). cbn [parse_std]. by rewrite H1.
  - change (layout "2006-01-02T15:04:05") with (clock_layout Byte.x54 ++ []).
    rewrite parse_clock by (done || by left). cbn [parse_loop mbind option_bind].
    rewrite parse_finish by done. cbn. by rewrite Z.sub_0_r.
Qed.

(** With a blank between date and time only the last layout matches. *)
Lemma time_Parse_blank y mo d h mi s ns : valid_clock y mo d h mi s ns →
  let text := of_bytes (clock_text Byte.x20 y mo d h mi s ns) in
  Forall (λ l, time_Parse l text = inr "parsing time"%string)
    [RFC3339; RFC3339Nano; "2006-01-02T15:04:05"; "2006-01-02T15:04:05Z"]%string ∧
  time_Parse "2006-01-02 15:04:05" text = inl (Date y mo d h mi s (default 0 ns)).
Proof.
  intros Hc. cbv zeta. split.
  - assert (Hl : ∀ l lay, layout lay = ymd_layout ++ StdLit Byte.x54 :: l →
      time_Parse lay (of_bytes (clock_text Byte.x20 y mo d h mi s ns)) = inr "parsing time"%string).
    { intros l lay Hl. unfold time_Parse. rewrite to_of_bytes, Hl.
      change (mkFields 0 (-1) (-1) 0 0 0 0 None) with start. unfold clock_text.
      destruct Hc as (Hy & Hd & _). by rewrite parse_ymd. }
    repeat apply Forall_cons_2; try apply Forall_nil_2; eapply Hl; reflexivity.
  - unfold time_Parse. rewrite to_of_bytes, <- (app_nil_r (clock_text _ _ _ _ _ _ _ _)).
    change (mkFields 0 (-1) (-1) 0 0 0 0 None) with start.
    change (layout "2006-01-02 15:04:05") with (clock_layout Byte.x20 ++ []).
    rewrite parse_clock by (done || by right). cbn [parse_loop mbind option_bind].
    rewrite parse_finish by done. cbn. by rewrite Z.sub_0_r.
Qed.
