(* ===== verification/Relabel.v ===== *)
(** * Relabel: internal/relabel/relabel.go

    The relabeling engine: compiling the rules and applying them, in order, to
    a label set.  Package regexp is an interface here ([Regexp]; Rules.v has the
    theorems about the package itself); the three rules that range over the
    label map take the order of visits from an oracle, and the theorems quantify
    over it. *)
From S2P Require Import Prelude Regexp GoLib Config.
From Stdlib Require Import Strings.Ascii.
Open Scope Z_scope.

Abbreviation labels := (gmap string string).

Section Engine.
Context {RE : Regexp} (unicode_ToLower : Z → Z).

Record compiledRule := mkCompiledRule { rule_cfg : RelabelConfig; rule_re : re }.
Record Engine := mkEngine { rules : list compiledRule }.

(** ** New *)

(** The loop's copy of the rule with the defaults filled in. *)
Definition rule_defaults (r : RelabelConfig) : RelabelConfig :=
  {| SourceLabels := SourceLabels r; Separator := str_default (Separator r) ";";
     TargetLabel := TargetLabel r; Regex := Regex r;
     Replacement := str_default (Replacement r) "$1"; Action := Action r |}.

(** The expression compiled: the default, anchored at both ends. *)
Definition anchored (r : RelabelConfig) : string :=
  "^(?:" +:+ str_default (Regex r) "(.*)" +:+ ")$".

Fixpoint compile_rules (compiled : list compiledRule) (rs : list RelabelConfig)
    : list compiledRule + error :=
  match rs with
  | [] => inl compiled
  | r :: rs =>
      match Compile (anchored r) with
      | inr err => inr err
      | inl e => compile_rules (compiled ++ [mkCompiledRule (rule_defaults r) e]) rs
      end
  end.

Definition New (rs : list RelabelConfig) : Engine + error :=
  match compile_rules [] rs with
  | inl compiled => inl (mkEngine compiled)
  | inr err => inr err
  end.

(** ** Apply *)

(** A missing key of a Go map reads as the zero value. *)
Definition get (ls : labels) (k : string) : string := default ""%string (ls !! k).

Definition joinValues (ls : labels) (keys : list string) (sep : string) : string :=
  Join (map (get ls) keys) sep.

Inductive action := Drop | Keep | Replace | LabelMap | LabelDrop | LabelKeep | NoAction.

(** The cases of the switch on [strings.ToLower(rule.Action)]; an action no
    case names does nothing. *)
Definition action_of (r : compiledRule) : action :=
  let a := ToLower unicode_ToLower (Action (rule_cfg r)) in
  if decide (a = "drop"%string) then Drop
  else if decide (a = "keep"%string) then Keep
  else if decide (a = "replace"%string ∨ a = ""%string) then Replace
  else if decide (a = "labelmap"%string) then LabelMap
  else if decide (a = "labeldrop"%string) then LabelDrop
  else if decide (a = "labelkeep"%string) then LabelKeep
  else NoAction.

Definition rule_value (r : compiledRule) (ls : labels) : string :=
  joinValues ls (SourceLabels (rule_cfg r)) (Separator (rule_cfg r)).

Definition replace_label (r : compiledRule) (ls : labels) : labels :=
  let val := rule_value r ls in
  if MatchString (rule_re r) val then
    let replacement := ReplaceAllString (rule_re r) val (Replacement (rule_cfg r)) in
    let target := TargetLabel (rule_cfg r) in
    if decide (target = ""%string) then ls
    else if decide (replacement = ""%string) then delete target ls
    else <[target := replacement]> ls
  else ls.

Definition newKey (r : compiledRule) (k : string) : string :=
  ReplaceAllString (rule_re r) k (Replacement (rule_cfg r)).

Definition labelmap_body (r : compiledRule) (k v : string) (ls : labels) : labels :=
  if MatchString (rule_re r) k then <[newKey r k := v]> ls else ls.
Definition labeldrop_body (r : compiledRule) (k v : string) (ls : labels) : labels :=
  if MatchString (rule_re r) k then delete k ls else ls.
Definition labelkeep_body (r : compiledRule) (k v : string) (ls : labels) : labels :=
  if negb (MatchString (rule_re r) k) then delete k ls else ls.

(** One rule; [None] is [return false].  The labels a dropped sample is left
    with are not read by any caller. *)
Definition apply_rule (order : labels → list string) (r : compiledRule) (ls : labels)
    : option labels :=
  match action_of r with
  | Drop => if MatchString (rule_re r) (rule_value r ls) then None else Some ls
  | Keep => if negb (MatchString (rule_re r) (rule_value r ls)) then None else Some ls
  | Replace => Some (replace_label r ls)
  | LabelMap => Some (range_map id (labelmap_body r) (order ls) ls)
  | LabelDrop => Some (range_map id (labeldrop_body r) (order ls) ls)
  | LabelKeep => Some (range_map id (labelkeep_body r) (order ls) ls)
  | NoAction => Some ls
  end.

(** An oracle gives the order of visits for each rule and map. *)
Definition oracle := nat → labels → list string.

Fixpoint apply_rules (o : oracle) (i : nat) (rs : list compiledRule) (ls : labels)
    : option labels :=
  match rs with
  | [] => Some ls
  | r :: rs => ls ← apply_rule (o i) r ls; apply_rules o (S i) rs ls
  end.

(** [Some ls'] is [true] with the map left as [ls']; [None] is [false]. *)
Definition Apply (o : oracle) (e : Engine) (ls : labels) : option labels :=
  apply_rules o 0 (rules e) ls.

(** The orders Go allows: a valid one for the map as it is, which may also name
    keys added on the way. *)
Definition valid_oracle (o : oracle) : Prop := ∀ i ls, valid_order ls (o i ls).

(** ** Ranging and deleting *)

(** A loop over a map that only ever deletes the key it stands on. *)
Definition filter_body (p : string → bool) (k v : string) (ls : labels) : labels :=
  if p k then delete k ls else ls.

Lemma range_filter p order (ls : labels) : NoDup order → (∀ k, is_Some (ls !! k) → k ∈ order ∨ p k = false) →
  range_map id (filter_body p) order ls = filter (λ kv, p kv.1 = false) ls.
Proof.
  intros Hnd. revert ls. induction Hnd as [|k order Hk Hnd IH]; intros ls Hcov; cbn.
  { apply map_eq. intros k. rewrite map_lookup_filter. destruct (ls !! k) eqn:E; [|done].
    destruct (Hcov k) as [Hin|Hp]; [by eauto|by apply not_elem_of_nil in Hin|].
    cbn. by rewrite option_guard_True. }
  change (range_map id (filter_body p) order
    (match ls !! k with Some v => filter_body p k v ls | None => ls end)
    = filter (λ kv : string * string, p kv.1 = false) ls).
  assert (Hcov' : ∀ ls' : labels, (∀ k' v, ls' !! k' = Some v → ls !! k' = Some v ∧ (k' ≠ k ∨ p k = false)) →
    ∀ k', is_Some (ls' !! k') → k' ∈ order ∨ p k' = false).
  { intros ls' Hs k' [v Hv]. apply Hs in Hv as [Hv Hor].
    destruct (Hcov k') as [Hin|]; [eauto| |by right]. apply elem_of_cons in Hin as [->|]; [|by left].
    destruct Hor; [done|by right]. }
  destruct (ls !! k) as [v|] eqn:E; [|apply IH, Hcov'].
  - unfold filter_body. destruct (p k) eqn:Hp.
    + rewrite IH.
      * apply map_eq. intros k'. rewrite !map_lookup_filter.
        destruct (decide (k' = k)) as [->|]; [|by rewrite lookup_delete_ne].
        rewrite lookup_delete_eq, E. cbn. by rewrite option_guard_False by congruence.
      * apply Hcov'. intros k' v' Hv. apply lookup_delete_Some in Hv as [? ?]. auto.
    + apply IH, Hcov'. auto.
  - intros k' v' Hv. split; [done|]. left. congruence.
Qed.

Lemma range_filter_valid p order (ls : labels) : valid_order ls order →
  range_map id (filter_body p) order ls = filter (λ kv, p kv.1 = false) ls.
Proof. intros [Hnd Hcov]. apply range_filter; [done|]. auto. Qed.

Lemma apply_labeldrop o r ls : valid_order ls (o ls) → action_of r = LabelDrop →
  apply_rule o r ls = Some (filter (λ kv, MatchString (rule_re r) kv.1 = false) ls).
Proof.
  intros Ho Ha. unfold apply_rule. rewrite Ha. f_equal.
  by apply (range_filter_valid (MatchString (rule_re r))).
Qed.

Lemma apply_labelkeep o r ls : valid_order ls (o ls) → action_of r = LabelKeep →
  apply_rule o r ls = Some (filter (λ kv, MatchString (rule_re r) kv.1 = true) ls).
Proof.
  intros Ho Ha. unfold apply_rule. rewrite Ha. f_equal.
  rewrite (range_filter_valid (λ k, negb (MatchString (rule_re r) k))) by done.
  apply map_filter_ext. intros k v _. cbn. by rewrite negb_false_iff.
Qed.

(** ** labelmap: every matched label also appears under its new name *)

(** What the loop is sure to leave, when no new name is itself present or
    matched and no two matched labels map to one name. *)
Definition mapped (r : compiledRule) (ls : labels) (x v : string) : Prop :=
  ls !! x = Some v ∨
  ∃ k, ls !! k = Some v ∧ MatchString (rule_re r) k = true ∧ newKey r k = x.

Record map_disjoint (r : compiledRule) (ls : labels) : Prop := {
  disjoint_fresh : ∀ k v, ls !! k = Some v → MatchString (rule_re r) k = true →
    ls !! newKey r k = None ∧ MatchString (rule_re r) (newKey r k) = false;
  disjoint_inj : ∀ k1 k2 v1 v2, ls !! k1 = Some v1 → ls !! k2 = Some v2 →
    MatchString (rule_re r) k1 = true → MatchString (rule_re r) k2 = true →
    newKey r k1 = newKey r k2 → k1 = k2 }.

(** The loop invariant: [acc] is [ls] and the new names of the keys visited. *)
Definition map_inv (r : compiledRule) (ls : labels) (visited : list string) (acc : labels) : Prop :=
  ∀ x v, acc !! x = Some v ↔ ls !! x = Some v ∨
    ∃ k, k ∈ visited ∧ ls !! k = Some v ∧ MatchString (rule_re r) k = true ∧ newKey r k = x.

Lemma map_inv_skip r ls visited acc k :
  (ls !! k = None ∨ MatchString (rule_re r) k = false) →
  map_inv r ls visited acc → map_inv r ls (visited ++ [k]) acc.
Proof.
  intros Hk Hinv x v. rewrite (Hinv x v). setoid_rewrite elem_of_app.
  setoid_rewrite list_elem_of_singleton. naive_solver congruence.
Qed.

Lemma map_inv_insert r ls visited acc k v : map_disjoint r ls →
  ls !! k = Some v → MatchString (rule_re r) k = true →
  map_inv r ls visited acc → map_inv r ls (visited ++ [k]) (<[newKey r k := v]> acc).
Proof.
  intros Hd Hk Hm Hinv x w. setoid_rewrite elem_of_app. setoid_rewrite list_elem_of_singleton.
  destruct (decide (newKey r k = x)) as [<-|Hne].
  - rewrite lookup_insert_eq. split; [intros [= <-]; right; exists k; by auto|].
    destruct (disjoint_fresh _ _ Hd _ _ Hk Hm) as [Hnone _].
    intros [?|(k' & _ & Hk' & Hm' & Heq)]; [congruence|].
    assert (k' = k) as -> by (eapply (disjoint_inj _ _ Hd); eauto). congruence.
  - rewrite lookup_insert_ne by done. rewrite (Hinv x w).
    split; (intros [?|(k' & Hin & Hk' & Hm' & Hx)]; [by left|right]); [by exists k'; auto|].
    destruct Hin as [?| ->]; [by exists k'|done].
Qed.

Lemma map_inv_range r ls order visited acc : map_disjoint r ls → map_inv r ls visited acc →
  map_inv r ls (visited ++ order) (range_map id (labelmap_body r) order acc).
Proof.
  intros Hd. revert visited acc. induction order as [|k order IH]; intros visited acc Hinv.
  { by rewrite app_nil_r. }
  rewrite (cons_middle k visited order), (assoc (++)). apply IH. unfold id, labelmap_body.
  destruct (acc !! k) as [v|] eqn:E.
  - apply Hinv in E as [Hk|(k' & _ & Hk' & Hm' & <-)].
    + destruct (MatchString (rule_re r) k) eqn:Hm; [by apply map_inv_insert|].
      apply map_inv_skip; auto.
    + destruct (disjoint_fresh _ _ Hd _ _ Hk' Hm') as [Hnone ->]. apply map_inv_skip; auto.
  - apply map_inv_skip; [|done]. left. apply eq_None_not_Some. intros [v Hv].
    rewrite (proj2 (Hinv k v)) in E; [done|by left].
Qed.

Lemma range_labelmap r ls order : map_disjoint r ls → valid_order ls order →
  ∀ x v, range_map id (labelmap_body r) order ls !! x = Some v ↔ mapped r ls x v.
Proof.
  intros Hd [_ Hcov] x v.
  assert (Hnil : map_inv r ls [] ls).
  { intros y w. split; [by left|]. intros [?|(? & Hin & _)]; [done|].
    by apply not_elem_of_nil in Hin. }
  rewrite (map_inv_range r ls order [] ls Hd Hnil x v).
  unfold mapped. cbn [app]. split; [naive_solver|].
  intros [?|(k & Hk & ?)]; [by left|right]. exists k. split; [|done]. apply Hcov. eauto.
Qed.

(** ** Order of iteration *)

Definition deterministic (r : compiledRule) (ls : labels) : Prop :=
  action_of r ≠ LabelMap ∨ map_disjoint r ls.

Lemma apply_rule_det o1 o2 r ls : valid_order ls (o1 ls) → valid_order ls (o2 ls) →
  deterministic r ls → apply_rule o1 r ls = apply_rule o2 r ls.
Proof.
  intros H1 H2 Hd. destruct (action_of r) eqn:Ha; [..|unfold apply_rule; by rewrite Ha].
  1-3: unfold apply_rule; by rewrite Ha.
  - destruct Hd as [|Hd]; [done|]. unfold apply_rule. rewrite Ha. f_equal. apply map_eq. intros x.
    apply option_eq. intros v. by rewrite !range_labelmap.
  - by rewrite !apply_labeldrop.
  - by rewrite !apply_labelkeep.
Qed.

(** Every labelmap rule meets a map it is deterministic on. *)
Fixpoint deterministic_run (o : oracle) (i : nat) (rs : list compiledRule) (ls : labels) : Prop :=
  match rs with
  | [] => True
  | r :: rs => deterministic r ls ∧
      match apply_rule (o i) r ls with
      | Some ls => deterministic_run o (S i) rs ls
      | None => True
      end
  end.

Lemma apply_rules_det o1 o2 i rs ls : valid_oracle o1 → valid_oracle o2 →
  deterministic_run o1 i rs ls → apply_rules o1 i rs ls = apply_rules o2 i rs ls.
Proof.
  intros H1 H2. revert i ls. induction rs as [|r rs IH]; intros i ls; [done|]. cbn.
  intros [Hd Hr]. rewrite <- (apply_rule_det (o1 i) (o2 i)) by auto.
  destruct (apply_rule (o1 i) r ls); [|done]. by apply IH.
Qed.

Lemma no_labelmap_det o i rs ls :
  Forall (λ r, action_of r ≠ LabelMap) rs → deterministic_run o i rs ls.
Proof.
  intros H. revert i ls. induction H as [|r rs Hr _ IH]; intros i ls; cbn; [done|].
  split; [by left|]. destruct (apply_rule (o i) r ls); [apply IH|done].
Qed.

(** ** Frame: what a rule can change *)

(** The rule may write or delete label [k] of some map. *)
Definition touches (r : compiledRule) (k : string) : Prop :=
  match action_of r with
  | Replace => TargetLabel (rule_cfg r) = k ∧ k ≠ ""%string
  | LabelMap => ∃ k', MatchString (rule_re r) k' = true ∧ newKey r k' = k
  | LabelDrop => MatchString (rule_re r) k = true
  | LabelKeep => MatchString (rule_re r) k = false
  | _ => False
  end.

Lemma range_preserves (P : labels → Prop) body order ls :
  (∀ k v acc, acc !! k = Some v → P acc → P (body k v acc)) → P ls → P (range_map id body order ls).
Proof.
  intros Hb. revert ls. induction order as [|k order IH]; intros ls Hls; [done|].
  apply IH. cbn. unfold id. destruct (ls !! k) eqn:E; auto.
Qed.

Lemma apply_rule_frame o r ls ls' k :
  apply_rule o r ls = Some ls' → ¬ touches r k → ls' !! k = ls !! k.
Proof.
  unfold apply_rule, touches. intros Ha Hk. destruct (action_of r) eqn:E.
  - by destruct (MatchString _ _); simplify_eq.
  - by destruct (negb _); simplify_eq.
  - simplify_eq. unfold replace_label. destruct (MatchString _ _); [|done].
    case_decide as Ht; [done|]. assert (TargetLabel (rule_cfg r) ≠ k) by (intros <-; apply Hk; auto).
    case_decide; [by rewrite lookup_delete_ne|by rewrite lookup_insert_ne].
  - simplify_eq. apply (range_preserves (λ acc, acc !! k = ls !! k)); [|done].
    intros k' v acc _ Hacc. unfold labelmap_body. destruct (MatchString _ k') eqn:Em; [|done].
    rewrite lookup_insert_ne; [done|]. intros Heq. apply Hk. eauto.
  - simplify_eq. apply (range_preserves (λ acc, acc !! k = ls !! k)); [|done].
    intros k' v acc _ Hacc. unfold labeldrop_body. destruct (MatchString _ k') eqn:Em; [|done].
    rewrite lookup_delete_ne; [done|]. congruence.
  - simplify_eq. apply (range_preserves (λ acc, acc !! k = ls !! k)); [|done].
    intros k' v acc _ Hacc. unfold labelkeep_body. destruct (MatchString _ k') eqn:Em; [done|]. cbn [negb].
    rewrite lookup_delete_ne; [done|]. congruence.
  - by simplify_eq.
Qed.

Lemma apply_rules_frame o i rs ls ls' k : apply_rules o i rs ls = Some ls' →
  Forall (λ r, ¬ touches r k) rs → ls' !! k = ls !! k.
Proof.
  intros Ha Hk. revert i ls Ha. induction Hk as [|r rs Hr _ IH]; intros i ls; cbn; [by intros [= ->]|].
  destruct (apply_rule (o i) r ls) as [ls1|] eqn:E; [|done]. cbn. intros Ha.
  rewrite (IH _ _ Ha). by eapply apply_rule_frame.
Qed.

(** ** Compilation *)

Lemma compile_rules_spec rs compiled :
  match compile_rules compiled rs with
  | inl out => ∃ new, out = compiled ++ new ∧
      Forall2 (λ r c, rule_cfg c = rule_defaults r ∧ Compile (anchored r) = inl (rule_re c)) rs new
  | inr err => ∃ pre r post, rs = pre ++ r :: post ∧ Compile (anchored r) = inr err ∧
      Forall (λ r, ∃ e, Compile (anchored r) = inl e) pre
  end.
Proof.
  revert compiled. induction rs as [|r rs IH]; intros compiled; cbn.
  { exists []. by rewrite app_nil_r. }
  destruct (Compile (anchored r)) as [e|err] eqn:E; [|by exists [], r, rs].
  specialize (IH (compiled ++ [mkCompiledRule (rule_defaults r) e])).
  destruct (compile_rules _ rs) as [out|err].
  - destruct IH as (new & -> & Hnew). exists (mkCompiledRule (rule_defaults r) e :: new).
    rewrite <- app_assoc. split; [done|]. by constructor.
  - destruct IH as (pre & r' & post & -> & Hr & Hpre). exists (r :: pre), r', post.
    repeat split; [done|]. constructor; eauto.
Qed.

Lemma New_Forall2 rs e : New rs = inl e →
  Forall2 (λ r c, rule_cfg c = rule_defaults r ∧ Compile (anchored r) = inl (rule_re c)) rs (rules e).
Proof.
  unfold New. pose proof (compile_rules_spec rs []) as Hc.
  destruct (compile_rules [] rs) as [out|err]; intros ?; simplify_eq.
  by destruct Hc as (new & -> & ?).
Qed.

(** ** Label names *)

Definition names_ok (ls : labels) : Prop := ls !! ""%string = None.


(** No rule but labelmap can create the empty name. *)
Lemma apply_rule_names o r ls ls' : action_of r ≠ LabelMap →
  apply_rule o r ls = Some ls' → names_ok ls → names_ok ls'.
Proof.
  unfold apply_rule, names_ok. intros Hr Ha Hls. destruct (action_of r) eqn:E; [..|by simplify_eq].
  - by destruct (MatchString _ _); simplify_eq.
  - by destruct (negb _); simplify_eq.
  - simplify_eq. unfold replace_label. destruct (MatchString _ _); [|done].
    case_decide; [done|]. case_decide; [by rewrite lookup_delete_None; right|].
    by rewrite lookup_insert_ne.
  - done.
  - simplify_eq. apply range_preserves; [|done]. intros k v acc _ Hacc. unfold labeldrop_body.
    destruct (MatchString _ k); [|done]. by rewrite lookup_delete_None; right.
  - simplify_eq. apply range_preserves; [|done]. intros k v acc _ Hacc. unfold labelkeep_body.
    destruct (negb _); [|done]. by rewrite lookup_delete_None; right.
Qed.

Lemma apply_rules_names o i rs ls ls' : Forall (λ r, action_of r ≠ LabelMap) rs →
  apply_rules o i rs ls = Some ls' → names_ok ls → names_ok ls'.
Proof.
  intros H. revert i ls. induction H as [|r rs Hr _ IH]; intros i ls; cbn; [by intros [= ->]|].
  destruct (apply_rule (o i) r ls) as [ls1|] eqn:E; [|done]. cbn. intros Ha Hls.
  eapply IH; [done|]. by eapply apply_rule_names.
Qed.
End Engine.

(** ** Properties *)

Section Properties.
Context {RE : Regexp} (unicode_ToLower : Z → Z).
Local Abbreviation Apply := (Apply unicode_ToLower).
Local Abbreviation action_of := (action_of unicode_ToLower).

(** C29. The result of [Apply] does not depend on Go's random map order: for any
    two orders the language allows it drops the same samples and leaves the
    same labels, provided every labelmap rule meets a label set in which its
    new names are fresh and distinct (always so without labelmap rules). *)
Theorem Apply_order_independent (o1 o2 : oracle) (e : Engine) (ls : labels) :
  valid_oracle o1 → valid_oracle o2 →
  deterministic_run unicode_ToLower o1 0 (rules e) ls →
  Apply o1 e ls = Apply o2 e ls.
Proof. apply apply_rules_det. Qed.

(** labelmap keeps every label and adds, for each label the expression
    matches, its value under the replaced name -- and nothing else -- whatever
    the order of visits and whether or not the loop also visits the labels it
    adds. *)
Theorem labelmap_renames (o : labels → list string) (r : compiledRule) (ls : labels) :
  action_of r = LabelMap → valid_order ls (o ls) → map_disjoint r ls →
  ∃ ls', apply_rule unicode_ToLower o r ls = Some ls' ∧
    ∀ x v, ls' !! x = Some v ↔
      ls !! x = Some v ∨ ∃ k, ls !! k = Some v ∧ MatchString (rule_re r) k = true ∧ newKey r k = x.
Proof.
  intros Ha Ho Hd. unfold apply_rule. rewrite Ha. eexists. split; [done|].
  by apply range_labelmap.
Qed.

(** Frame: a label that no rule names as a target, creates by labelmap, or
    removes by labeldrop or labelkeep leaves the engine exactly as it came. *)
Theorem Apply_frame (o : oracle) (e : Engine) (ls ls' : labels) (k : string) :
  Apply o e ls = Some ls' → Forall (λ r, ¬ touches unicode_ToLower r k) (rules e) →
  ls' !! k = ls !! k.
Proof. apply apply_rules_frame. Qed.

(** [New] succeeds exactly when every rule's anchored expression compiles;
    the engine then holds the rules in order, each with the defaults for
    separator and replacement and its own compiled expression.  Otherwise the
    error is that of the first rule that fails. *)
Theorem New_compiles (rs : list RelabelConfig) :
  match New rs with
  | inl e => Forall2 (λ r c, rule_cfg c = rule_defaults r ∧
      Compile (anchored r) = inl (rule_re c)) rs (rules e)
  | inr err => ∃ pre r post, rs = pre ++ r :: post ∧ Compile (anchored r) = inr err ∧
      Forall (λ r, ∃ e, Compile (anchored r) = inl e) pre
  end.
Proof.
  unfold New. pose proof (compile_rules_spec rs []) as Hc.
  destruct (compile_rules [] rs) as [out|err]; [|done]. by destruct Hc as (new & -> & ?).
Qed.

(** A replace rule with default expression and replacement whose only
    source label is absent removes its target label (documented behaviour of
    regexp: the default expression matches the empty string and replaces it by
    the empty string). *)
Theorem absent_source_deletes_target (o : labels → list string) (r : compiledRule)
    (src : string) (ls : labels) :
  MatchString (rule_re r) "" = true → ReplaceAllString (rule_re r) "" "$1" = ""%string →
  action_of r = Replace → SourceLabels (rule_cfg r) = [src] →
  Replacement (rule_cfg r) = "$1"%string → TargetLabel (rule_cfg r) ≠ ""%string →
  ls !! src = None →
  apply_rule unicode_ToLower o r ls = Some (delete (TargetLabel (rule_cfg r)) ls).
Proof.
  intros Hm Hr Ha Hs Hrep Ht Hls. unfold apply_rule. rewrite Ha. f_equal.
  unfold replace_label, rule_value, joinValues, get, Join. rewrite Hs. cbn. rewrite Hls. cbn.
  rewrite Hm, Hrep, Hr. by rewrite decide_False, decide_True.
Qed.

(** Without labelmap rules the engine never introduces an empty label name
    (which would make the encoder reject the whole batch). *)
Theorem Apply_names (o : oracle) (e : Engine) (ls ls' : labels) :
  Forall (λ r, action_of r ≠ LabelMap) (rules e) → names_ok ls →
  Apply o e ls = Some ls' → names_ok ls'.
Proof. intros H Hls Ha. by eapply apply_rules_names. Qed.
End Properties.

(** ** Witnesses *)

Definition no_table : Z → Z := id.
Definition forward_order : oracle := λ _ ls, some_order ls.
Definition backward_order : oracle := λ _ ls, reverse (some_order ls).

Lemma forward_valid : valid_oracle forward_order.
Proof. intros i ls. apply some_order_valid. Qed.
Lemma backward_valid : valid_oracle backward_order.
Proof.
  intros i ls. destruct (some_order_valid ls) as [H1 H2]. split.
  - unfold backward_order. by rewrite reverse_Permutation.
  - intros k Hk. unfold backward_order. rewrite elem_of_reverse. auto.
Qed.

Definition mk_rule (src : list string) (target regex replacement action : string) : RelabelConfig :=
  mkRelabelConfig src "" target regex replacement action.

Definition sample_labels : labels :=
  {["severity" := "critical"; "device_type" := "server"; "job" := "ome_alerts"]}%string.

(** config.yaml: [log_relabel_configs]. *)
Definition sample_log_rules : list RelabelConfig :=
  [mk_rule ["severity"] "level" "" "" "replace"; mk_rule ["DeviceType"] "device_type" "" "" "replace"]%string.

Definition engine_of (rs : list RelabelConfig) : Engine :=
  match New rs with inl e => e | inr _ => mkEngine [] end.

(** The sample rule for [DeviceType] deletes the [device_type] label the
    parser sets, whose names are lower case. *)
Example sample_log_rules_delete :
  Apply no_table forward_order (engine_of sample_log_rules) sample_labels =
  Some {["severity" := "critical"; "level" := "critical"; "job" := "ome_alerts"]}%string.
Proof. by_decision. Qed.

Definition mixed_rules : list RelabelConfig :=
  [mk_rule [] "" "job|x" "" "LABELDROP"; mk_rule [] "" "severity" "level" "labelmap";
   mk_rule [] "" "severity" "" "labeldrop"]%string.

Lemma disjoint_check {RE : Regexp} (r : compiledRule) (ls : labels) :
  forallb (λ kv, negb (MatchString (rule_re r) kv.1) ||
    (bool_decide (ls !! newKey r kv.1 = None) && negb (MatchString (rule_re r) (newKey r kv.1))))
    (map_to_list ls) = true →
  forallb (λ kv, forallb (λ kv', negb (MatchString (rule_re r) kv.1) || negb (MatchString (rule_re r) kv'.1)
    || negb (bool_decide (newKey r kv.1 = newKey r kv'.1)) || bool_decide (kv.1 = kv'.1))
    (map_to_list ls)) (map_to_list ls) = true →
  map_disjoint r ls.
Proof.
  intros H1%Is_true_true_2 H2%Is_true_true_2.
  rewrite forallb_True, Forall_forall in H1, H2. split.
  - intros k v Hk Hm. specialize (H1 (k, v)). rewrite elem_of_map_to_list in H1.
    specialize (H1 Hk). cbn in H1. rewrite Hm in H1. cbn in H1.
    apply andb_True in H1 as [?%bool_decide_unpack Hn]. split; [done|].
    by apply negb_True, Is_true_false in Hn.
  - intros k1 k2 v1 v2 Hk1 Hk2 Hm1 Hm2 Heq.
    specialize (H2 (k1, v1)). rewrite elem_of_map_to_list in H2. specialize (H2 Hk1).
    rewrite forallb_True, Forall_forall in H2. specialize (H2 (k2, v2)).
    rewrite elem_of_map_to_list in H2. specialize (H2 Hk2). cbn in *. rewrite Hm1, Hm2 in H2.
    cbn in H2. rewrite bool_decide_true in H2 by done. cbn in H2. by apply bool_decide_unpack in H2.
Qed.

Lemma Apply_order_independent_witness :
  Apply no_table forward_order (engine_of mixed_rules) sample_labels =
  Apply no_table backward_order (engine_of mixed_rules) sample_labels.
Proof.
  apply (Apply_order_independent no_table);
    [apply forward_valid|apply backward_valid|].
  cbn [rules engine_of deterministic_run]. split; [left; by vm_compute|].
  vm_compute apply_rule. split; [right; apply disjoint_check; vm_compute; reflexivity|].
  vm_compute apply_rule. split; [left; by vm_compute|]. vm_compute. exact I.
Defined.

Definition severity_rule : compiledRule :=
  nth 1 (rules (engine_of mixed_rules)) (mkCompiledRule (mk_rule [] "" "" "" "") (inl Empty)).

Lemma labelmap_renames_witness : ∃ ls', apply_rule no_table some_order severity_rule sample_labels = Some ls' ∧
  ls' !! "level"%string = Some "critical"%string ∧ ls' !! "severity"%string = Some "critical"%string.
Proof.
  destruct (labelmap_renames no_table some_order severity_rule sample_labels) as (ls' & H1 & H2).
  - by vm_compute.
  - apply some_order_valid.
  - apply disjoint_check; vm_compute; reflexivity.
  - exists ls'. split; [exact H1|]. split; apply H2.
    + right. exists "severity"%string. vm_compute. auto.
    + left. reflexivity.
Defined.

Lemma Apply_frame_witness :
  ∃ ls', Apply no_table forward_order (engine_of sample_log_rules) sample_labels = Some ls' ∧
    ls' !! "job"%string = sample_labels !! "job"%string.
Proof.
  assert (Hs : is_Some (Apply no_table forward_order (engine_of sample_log_rules) sample_labels))
    by by_decision.
  destruct Hs as [ls' Hls']. exists ls'. split; [exact Hls'|].
  apply (Apply_frame no_table forward_order (engine_of sample_log_rules) sample_labels); [exact Hls'|].
  repeat constructor; vm_compute; intuition congruence.
Defined.

Definition device_type_rule : compiledRule :=
  nth 1 (rules (engine_of sample_log_rules)) (mkCompiledRule (mk_rule [] "" "" "" "") (inl Empty)).

Lemma absent_source_deletes_target_witness :
  apply_rule no_table some_order device_type_rule sample_labels =
    Some (delete "device_type"%string sample_labels).
Proof.
  apply (absent_source_deletes_target no_table some_order device_type_rule "DeviceType");
    by vm_compute.
Defined.

Lemma Apply_names_witness :
  ∃ ls', Apply no_table forward_order (engine_of sample_log_rules) sample_labels = Some ls' ∧ names_ok ls'.
Proof.
  assert (Hs : is_Some (Apply no_table forward_order (engine_of sample_log_rules) sample_labels))
    by by_decision.
  destruct Hs as [ls' Hls']. exists ls'. split; [exact Hls'|].
  apply (Apply_names no_table forward_order (engine_of sample_log_rules) sample_labels).
  - repeat constructor; by vm_compute.
  - reflexivity.
  - exact Hls'.
Defined.

(** Outside that proviso labelmap is not deterministic: when two labels map to
    the same new name, the value it gets is that of whichever the map iteration
    happens to visit last. *)
Theorem labelmap_nondeterministic : ∃ (e : Engine) (ls : labels) (o1 o2 : oracle),
  valid_oracle o1 ∧ valid_oracle o2 ∧ Apply no_table o1 e ls ≠ Apply no_table o2 e ls.
Proof.
  exists (engine_of [mk_rule [] "" "fan|cpu" "component" "labelmap"])%string,
    {["fan" := "1000"; "cpu" := "3000"]}%string, forward_order, backward_order.
  split; [apply forward_valid|]. split; [apply backward_valid|].
  by_decision.
Qed.
