(* ===== verification/Rules.v ===== *)
(** * Rules: the relabeling engine over package regexp

    internal/relabel/relabel.go with the package's own matching: which rules
    compile, which values a rule applies to, what a replacement is, the default
    expression, and the rules of config.yaml. *)
From S2P Require Import Prelude Regexp GoLib Utf8 RegexpLaws Config Relabel.
From Stdlib Require Import Strings.Ascii.
Open Scope Z_scope.

(** ** Expressions that are plain text *)

(** A character without a meaning of its own. *)
Definition plain_rune (c : Z) : bool := ascii_alnum c || (c =? 95) || (c =? 32) || (c =? 58) || (c =? 45) || (c =? 47).
Definition plain_text (s : string) : Prop := Forall (λ c, plain_rune c = true) (rune_list s).

Fixpoint literal (rs : list Z) : regex :=
  match rs with [] => Empty | c :: rs => Seq (single c) (literal rs) end.

Lemma plain_rune_not c d : plain_rune c = true → plain_rune d = false → (c =? d) = false.
Proof. intros Hc Hd. apply Z.eqb_neq. intros ->. congruence. Qed.

Lemma plain_no_repeat c : plain_rune c = true → is_repeat c = false.
Proof. intros H. unfold is_repeat. by rewrite !(plain_rune_not c) by done. Qed.

Lemma plain_postfix a rs : Forall (λ c, plain_rune c = true) rs → postfix a rs = Some (a, rs).
Proof.
  destruct 1 as [|c rs Hc _]; [done|]. cbn. rewrite plain_no_repeat by done. by rewrite (plain_rune_not c) by done.
Qed.

Lemma plain_atom c rs : plain_rune c = true → Forall (λ c, plain_rune c = true) rs →
  simple_atom c rs = Some (single c, rs).
Proof.
  intros Hc Hrs. unfold simple_atom. rewrite plain_no_repeat by done.
  rewrite !(plain_rune_not c) by done. by apply plain_postfix.
Qed.

Lemma parse_plain rs : Forall (λ c, plain_rune c = true) rs → ∀ fuel n, (length rs < fuel)%nat →
  parse_seq fuel n rs = Some (literal rs, n, []).
Proof.
  induction 1 as [|c rs Hc Hrs IH]; intros fuel n Hf; (destruct fuel as [|fuel]; [cbn in Hf; lia|]); [done|].
  cbn [parse_seq]. rewrite !(plain_rune_not c) by done. cbn [orb].
  rewrite plain_atom by done. cbn. rewrite IH by (cbn in Hf; lia). done.
Qed.

Lemma plain_scalar c : plain_rune c = true → scalar c ∧ c ≠ RuneError ∧ c < 128.
Proof.
  unfold plain_rune, ascii_alnum. intros H. assert (0 <= c < 128); [|unfold scalar, RuneError; lia].
  repeat match goal with H : (_ || _) = true |- _ => apply orb_true_iff in H as [H|H] end;
    try apply in_range_inv in H; lia.
Qed.

Lemma single_class c d : in_class false [(false, [(c, c)])] d = true ↔ d = c.
Proof. unfold in_class, in_item, in_range. cbn. rewrite !orb_false_r. destruct (Z.eqb_spec d c); lia. Qed.

Lemma matches_literal rs i w l : matches (literal rs) i w l ↔ w = rs.
Proof.
  split.
  - revert i w. induction rs as [|c rs IH]; intros i w; cbn [literal]; [apply matches_empty_inv|].
    intros (w1 & w2 & -> & H1 & ->%IH)%matches_seq_inv. inversion H1; subst.
    match goal with H : in_class _ _ _ = true |- _ => apply single_class in H as -> end. done.
  - intros ->. revert i. induction rs as [|c rs IH]; intros i; cbn [literal]; [constructor|].
    apply (matches_seq i (single c) (literal rs) [c] rs l); [|apply IH].
    constructor. by apply single_class.
Qed.

(** A value with the runes of plain text is that text. *)
Lemma plain_unique s v : plain_text s → rune_list v = rune_list s → v = s.
Proof.
  intros Hs Hv.
  assert (Hraw : ∀ u, Forall (λ c, plain_rune c = true) (rune_list u) → to_bytes u = utf8_encode (rune_list u)).
  { intros u Hu. rewrite <- (raw_of_runes u) at 1. unfold raw_of, utf8_encode, rune_list. rewrite to_of_bytes, map_map.
    f_equal. apply map_ext_Forall. unfold rune_list in Hu. rewrite Forall_map in Hu.
    pose proof (conj Hu (runes_ok u)) as Hok. apply Forall_and in Hok. eapply Forall_impl; [exact Hok|].
    intros x [H1%plain_scalar [[_ H2]|[H2 _]]]; [done|]. cbn in H2. naive_solver. }
  rewrite <- (of_to_bytes v), <- (of_to_bytes s). f_equal. rewrite !Hraw by (by rewrite ?Hv). by rewrite Hv.
Qed.

Section Rules.
Context (unicode_ToLower : Z → Z) (unicode_IsLetter unicode_IsDigit : Z → bool) (other : Regexp).
#[local] Instance package : Regexp := go_regexp unicode_IsLetter unicode_IsDigit other.
Local Abbreviation apply_rule := (apply_rule unicode_ToLower).
Local Abbreviation action_of := (action_of unicode_ToLower).
Local Abbreviation expand := (expand unicode_IsLetter unicode_IsDigit).

(** ** Compilation *)

Definition expression (r : RelabelConfig) : string := str_default (Regex r) "(.*)".
Definition supported (r : RelabelConfig) : Prop := short (expression r) ∧ is_Some (parse (expression r)).
Definition language (r : RelabelConfig) : regex :=
  match parse (expression r) with Some (x, _) => x | None => Empty end.
Definition compiled (r : RelabelConfig) : compiledRule :=
  mkCompiledRule (rule_defaults r) (inl (anchored_regex (language r)) : re).

Lemma compile_supported r : supported r → Compile (anchored r) = inl (rule_re (compiled r)).
Proof.
  unfold supported, compiled, language, anchored, expression. intros [Hs [[x n] Hp]]. rewrite Hp. cbn.
  by rewrite (parse_anchored_string _ _ _ Hs Hp).
Qed.

Lemma New_supported rs : Forall supported rs → New rs = inl (mkEngine (map compiled rs)).
Proof.
  intros Hrs. unfold New. change (map compiled rs) with ([] ++ map compiled rs).
  generalize (@nil compiledRule) as pre. induction Hrs as [|r rs Hr _ IH]; intros pre; cbn [compile_rules map].
  { by rewrite app_nil_r. }
  rewrite compile_supported by done.
  change (mkCompiledRule (rule_defaults r) (rule_re (compiled r))) with (compiled r).
  rewrite IH. by rewrite <- app_assoc.
Qed.

Lemma MatchString_compiled r s :
  MatchString (rule_re (compiled r)) s = true ↔ matches (language r) 0 (rune_list s) [].
Proof. apply match_string_anchored. Qed.

Lemma ReplaceAllString_compiled r s t : ReplaceAllString (rule_re (compiled r)) s t =
  match whole_match (language r) s with
  | Some p => expand (group_text (runes s) 0 p) t
  | None => s
  end.
Proof. apply replace_all_anchored. Qed.

(** C32. A list of rules whose expressions are in the syntax of Regexp.v, which
    leaves out the repetition of what matches the empty string, compiles; the engine holds the rules in order with their defaults; and each
    one matches exactly the values that its expression, anchored at neither end
    in the configuration, denotes as a whole.  Its replacement of such a value
    is the template with the groups of the first match, and it leaves any other
    value as it is. *)
Theorem whole_value_rules (rs : list RelabelConfig) : Forall supported rs →
  ∃ e, New rs = inl e ∧
    Forall2 (λ r c, rule_cfg c = rule_defaults r ∧ ∀ s,
      (MatchString (rule_re c) s = true ↔ matches (language r) 0 (rune_list s) []) ∧
      ∀ t, ReplaceAllString (rule_re c) s t =
        match whole_match (language r) s with
        | Some p => expand (group_text (runes s) 0 p) t
        | None => s
        end) rs (rules e).
Proof.
  intros Hrs. exists (mkEngine (map compiled rs)). split; [by apply New_supported|]. cbn [rules].
  clear Hrs. induction rs as [|r rs IH]; [constructor|]. constructor; [|exact IH].
  split; [done|]. intros s. split; [apply MatchString_compiled|]. intros t. apply ReplaceAllString_compiled.
Qed.

(** ** The default expression *)

(** A replace rule with default expression and replacement sets its target to
    the value, or deletes it when the value is empty (an absent source label
    is); but a value of more than one line it leaves alone, for the dot of the
    default does not match a newline. *)
Theorem default_rule (o : labels → list string) (r : RelabelConfig) (ls : labels)
    (v := rule_value (compiled r) ls) :
  action_of (compiled r) = Replace → Regex r = ""%string → str_default (Replacement r) "$1" = "$1"%string →
  TargetLabel r ≠ ""%string →
  apply_rule o (compiled r) ls = Some
    (if decide (one_line v) then
       if decide (v = ""%string) then delete (TargetLabel r) ls else <[TargetLabel r := v]> ls
     else ls).
Proof.
  intros Ha Hr Hrep Ht. unfold Relabel.apply_rule. rewrite Ha. f_equal. unfold replace_label. fold v.
  assert (Hl : language r = default_regex).
  { unfold language, expression. rewrite Hr. change (str_default "" "(.*)") with "(.*)"%string.
    by rewrite parse_default. }
  destruct (decide (one_line v)) as [Hv|Hv].
  - rewrite (proj2 (MatchString_compiled r v)) by (rewrite Hl; by apply default_matches).
    cbn [compiled rule_cfg rule_defaults TargetLabel Replacement]. rewrite Hrep. rewrite (decide_False (P := _ = ""%string)) by done.
    assert (Hrv : ReplaceAllString (rule_re (compiled r)) v "$1" = v).
    { cbn. rewrite Hl. by apply default_replace. }
    rewrite Hrv. done.
  - destruct (MatchString (rule_re (compiled r)) v) eqn:E; [|done]. exfalso. apply Hv.
    apply MatchString_compiled in E. rewrite Hl in E. by apply default_matches.
Qed.

(** ** Plain expressions *)

Lemma plain_supported r : plain_text (Regex r) → Regex r ≠ ""%string → short (Regex r) →
  supported r ∧ language r = literal (rune_list (Regex r)).
Proof.
  intros Hp Hne Hs. assert (He : expression r = Regex r) by (unfold expression; by destruct (Regex r)).
  assert (Hparse : parse (Regex r) = Some (literal (rune_list (Regex r)), 1%nat)).
  { unfold parse. assert (Hok : pattern_runes (Regex r) = Some (rune_list (Regex r))).
    { unfold pattern_runes, rune_list. destruct (existsb bad_rune _) eqn:E; [|done]. exfalso.
      apply existsb_exists in E as (x & Hx & Hb). unfold plain_text, rune_list in Hp.
      rewrite Forall_map, Forall_forall in Hp. apply list_elem_of_In, Hp, plain_scalar in Hx.
      unfold bad_rune in Hb. destruct Hx as (_ & Hx & _). lia. }
    rewrite Hok. cbn. unfold parse_runes. unfold short in Hs.
    assert (Hlen : length (rune_list (Regex r)) = length (runes (Regex r))) by (unfold rune_list; apply length_map).
    rewrite (proj2 (Nat.leb_le _ _)) by (rewrite Hlen; lia). unfold parse_fuel. cbn [Nat.mul Nat.add parse_alt].
    rewrite parse_plain by (done || lia). done. }
  split; [split|]; unfold language; rewrite ?He; [done| |]; rewrite Hparse; eauto.
Qed.

(** A drop or keep rule whose expression is plain text tests for that very
    value. *)
Theorem plain_rule (o : labels → list string) (r : RelabelConfig) (ls : labels)
    (v := rule_value (compiled r) ls) :
  plain_text (Regex r) → Regex r ≠ ""%string → short (Regex r) →
  (action_of (compiled r) = Drop →
     apply_rule o (compiled r) ls = if decide (v = Regex r) then None else Some ls) ∧
  (action_of (compiled r) = Keep →
     apply_rule o (compiled r) ls = if decide (v = Regex r) then Some ls else None).
Proof.
  intros Hp Hne Hs. destruct (plain_supported r Hp Hne Hs) as [_ Hl].
  assert (Hm : MatchString (rule_re (compiled r)) v = bool_decide (v = Regex r)).
  { apply Bool.eq_iff_eq_true. rewrite MatchString_compiled, Hl, matches_literal, bool_decide_eq_true.
    split; [by apply plain_unique|by intros ->]. }
  unfold Relabel.apply_rule. fold v. split; intros ->; rewrite Hm; by case_bool_decide; case_decide.
Qed.
End Rules.

(** ** The rules of config.yaml *)

(** [relabel_configs], the rules in comments included. *)
Definition config_rules : list RelabelConfig :=
  [mk_rule ["ServiceTag"] "instance" "" "" "replace";
   mk_rule ["DeviceGroup"] "" "Lab.*" "" "drop";
   mk_rule ["Model"] "model_family" "(PowerEdge [A-Z][0-9]+).*" "$1" "replace";
   mk_rule ["__name__"] "" "ome_internal_.*" "" "drop"]%string.

Lemma config_supported : Forall supported config_rules.
Proof.
  repeat constructor; lazymatch goal with
    | |- short _ => vm_compute; lia
    | |- is_Some _ => vm_compute; eauto
    end.
Qed.

Definition device_labels : labels :=
  {["__name__" := "ome_power"; "Model" := "PowerEdge R740xd"; "instance" := "10.0.0.1"]}%string.

(** The first rule deletes the instance label of a device without the source
    label [ServiceTag], which the parser never sets. *)
Example config_applied : Apply no_table forward_order (engine_of config_rules) device_labels =
  Some {["__name__" := "ome_power"; "Model" := "PowerEdge R740xd"; "model_family" := "PowerEdge R740"]}%string.
Proof. by_decision. Qed.

Example config_drops :
  Apply no_table forward_order (engine_of config_rules) (<["DeviceGroup" := "Lab 3"]> device_labels)%string = None ∧
  Apply no_table forward_order (engine_of config_rules) (<["__name__" := "ome_internal_lag"]> device_labels)%string = None ∧
  Apply no_table forward_order (engine_of config_rules) (<["DeviceGroup" := "The Lab"]> device_labels)%string ≠ None.
Proof. by_decision. Qed.

Lemma denotes r s : is_Some (whole_match r s) → matches r 0 (rune_list s) [].
Proof. apply (search_whole r (mkPlace 0 (rune_list s) [])). Qed.
Lemma denotes_not r s : whole_match r s = None → ¬ matches r 0 (rune_list s) [].
Proof. intros H Hm. apply (search_whole r (mkPlace 0 (rune_list s) [])) in Hm. unfold whole_match in H. by rewrite H in Hm; destruct Hm. Qed.

Definition model_rule : RelabelConfig :=
  mk_rule ["Model"] "model_family" "(PowerEdge [A-Z][0-9]+).*" "$1" "replace".

Lemma whole_value_rules_witness : ∃ e c, New config_rules = inl e ∧ rules e !! 2%nat = Some c ∧
  rule_cfg c = rule_defaults model_rule ∧
  MatchString (rule_re c) "PowerEdge R740xd" = true ∧
  MatchString (rule_re c) "Dell PowerEdge R740xd" = false ∧
  ReplaceAllString (rule_re c) "PowerEdge R740xd" "$1" = "PowerEdge R740"%string.
Proof.
  destruct (whole_value_rules (λ _, false) (λ _, false) no_regexp config_rules config_supported) as (e & He & Hall).
  destruct (Forall2_lookup_l _ _ _ 2%nat model_rule Hall eq_refl) as (c & Hc & Hcfg & Hs).
  exists e, c. split; [exact He|]. split; [exact Hc|]. split; [exact Hcfg|].
  split; [|split].
  - apply (proj1 (Hs _)), denotes. vm_compute. eauto.
  - apply not_true_is_false. intros Hm. apply (proj1 (Hs _)) in Hm. revert Hm. apply denotes_not. by vm_compute.
  - rewrite (proj2 (Hs _)). by vm_compute.
Defined.

Local Abbreviation rule := (compiled (λ _, false) (λ _, false) no_regexp).

(** A label of two lines is not copied. *)
Lemma default_rule_witness :
  apply_rule no_table some_order (rule (mk_rule ["message"] "text" "" "" "replace"))
    {["message" := of_bytes (map byte.of_Z [102; 97; 110; 10; 50])]}%string =
  Some {["message" := of_bytes (map byte.of_Z [102; 97; 110; 10; 50])]}%string.
Proof.
  rewrite (default_rule no_table (λ _, false) (λ _, false) no_regexp some_order
    (mk_rule ["message"] "text" "" "" "replace")%string) by (by vm_compute).
  by vm_compute.
Defined.

Lemma plain_rule_witness :
  apply_rule no_table some_order (rule (mk_rule ["severity"] "" "critical" "" "keep"))
    {["severity" := "warning"]}%string = None.
Proof.
  rewrite (proj2 (plain_rule no_table (λ _, false) (λ _, false) no_regexp some_order
    (mk_rule ["severity"] "" "critical" "" "keep")%string _
    ltac:(vm_compute; repeat constructor) ltac:(done) ltac:(vm_compute; lia))) by (by vm_compute).
  by vm_compute.
Defined.
