(* ===== verification/Json.v ===== *)
(** * Json: encoding/json as the parsers use it

    From the JSON value the scanner of [JsonText] yields, this file models what
    [json.Unmarshal] does with a destination type: matching object keys to struct tags (exactly, else by case folding),
    storing scalars, slices, maps and [interface{}] values, leaving a field as
    it was on [null], and failing on a type mismatch. *)
From S2P Require Import Prelude Float GoLib Utf8 Strconv.
From stdpp Require Import pretty.
Open Scope Z_scope.

(** A JSON value; a number keeps its literal text. *)
Inductive json :=
  | JNull
  | JBool (b : bool)
  | JNumber (lit : string)
  | JString (s : string)
  | JArray (l : list json)
  | JObject (members : list (string * json)).

(** Induction with the hypothesis for every element and member. *)
Section json_nested_ind.
Context (P : json → Prop) (Hnull : P JNull) (Hbool : ∀ b, P (JBool b))
  (Hnumber : ∀ lit, P (JNumber lit)) (Hstring : ∀ s, P (JString s))
  (Harray : ∀ l, Forall P l → P (JArray l))
  (Hobject : ∀ ms, Forall (λ kj, P kj.2) ms → P (JObject ms)).

Fixpoint json_nested_ind (j : json) : P j :=
  match j with
  | JNull => Hnull
  | JBool b => Hbool b
  | JNumber lit => Hnumber lit
  | JString s => Hstring s
  | JArray l => Harray l ((fix go l : Forall P l :=
      match l with
      | [] => List.Forall_nil _
      | j :: l => List.Forall_cons _ j l (json_nested_ind j) (go l)
      end) l)
  | JObject ms => Hobject ms ((fix go ms : Forall (λ kj, P kj.2) ms :=
      match ms with
      | [] => List.Forall_nil _
      | kj :: ms => List.Forall_cons _ kj ms (json_nested_ind kj.2) (go ms)
      end) ms)
  end.
End json_nested_ind.

(** A Go [interface{}]: the dynamic types the source distinguishes.  A
    [float32] is carried as the [float64] of the same value. *)
Inductive any :=
  | ANil
  | ABool (b : bool)
  | AFloat64 (f : float64)
  | AFloat32 (f : float64)
  | AInt (n : Z)
  | AInt64 (n : Z)
  | ANumber (lit : string)
  | AString (s : string)
  | ASlice (l : list any)
  | AMap (m : list (string * any)).

(** A [map[string]interface{}] is the list of its entries in the order of the
    keys; assigning to a key replaces its entry. *)
Fixpoint any_insert (k : string) (v : any) (m : list (string * any)) : list (string * any) :=
  match m with
  | [] => [(k, v)]
  | (k', v') :: m' =>
      if decide (k = k') then (k, v) :: m'
      else if decide (String.le k k') then (k, v) :: m
      else (k', v') :: any_insert k v m'
  end.
Definition any_map (ms : list (string * any)) : list (string * any) :=
  foldl (λ m kv, any_insert kv.1 kv.2 m) [] ms.

(** ** Matching keys to tags *)

(** The fold of a rune: of the letters beyond ASCII only the long s and the
    Kelvin sign fold to an ASCII letter. *)
Definition foldRune (r : Z) : Z :=
  if in_range 97 122 r then r - 32
  else if r =? 0x17F then 83
  else if r =? 0x212A then 75
  else r.
Definition foldName (s : string) : list Z := map (λ x : Z * Z * bytes, foldRune x.1.2) (runes s).

Section Decode.
(** The message of an [UnmarshalTypeError]. *)
Context (type_error : json → error).

(** A destination of type [A]: the old value, updated from a JSON value. *)
Definition decoder (A : Type) : Type := json → A → A + error.

Definition dec_string : decoder string := λ j old,
  match j with JString s => inl s | JNull => inl old | _ => inr (type_error j) end.

(** [int] and [int64] *)
Definition dec_int : decoder Z := λ j old,
  match j with
  | JNumber lit => match ParseInt lit with Some n => inl n | None => inr (type_error j) end
  | JNull => inl old
  | _ => inr (type_error j)
  end.

(** [interface{}] *)
Fixpoint to_any (j : json) : any + error :=
  match j with
  | JNull => inl ANil
  | JBool b => inl (ABool b)
  | JNumber lit => match ParseFloat lit with inl f => inl (AFloat64 f) | inr _ => inr (type_error j) end
  | JString s => inl (AString s)
  | JArray l =>
      match (fix go l := match l with
        | [] => inl []
        | x :: l => match to_any x with
            | inl a => match go l with inl r => inl (a :: r) | inr e => inr e end
            | inr e => inr e
            end
        end) l with inl r => inl (ASlice r) | inr e => inr e end
  | JObject ms =>
      match (fix go ms := match ms with
        | [] => inl []
        | (k, x) :: ms => match to_any x with
            | inl a => match go ms with inl r => inl ((k, a) :: r) | inr e => inr e end
            | inr e => inr e
            end
        end) ms with inl r => inl (AMap (any_map r)) | inr e => inr e end
  end.
Definition dec_any : decoder any := λ j _, to_any j.

(** A slice: elements are decoded over the ones already there. *)
Fixpoint dec_elems {A} (zero : A) (dec : decoder A) (l : list json) (old : list A)
    : list A + error :=
  match l with
  | [] => inl []
  | j :: l =>
      match dec j (default zero (head old)) with
      | inl a => match dec_elems zero dec l (tail old) with
                 | inl r => inl (a :: r) | inr e => inr e end
      | inr e => inr e
      end
  end.
Definition dec_slice {A} (zero : A) (dec : decoder A) : decoder (list A) := λ j old,
  match j with
  | JArray l => dec_elems zero dec l old
  | JNull => inl []
  | _ => inr (type_error j)
  end.

(** A map: members are added to the ones already there, the last one wins. *)
Fixpoint dec_members {A} (zero : A) (dec : decoder A) (ms : list (string * json))
    (m : gmap string A) : gmap string A + error :=
  match ms with
  | [] => inl m
  | (k, j) :: ms =>
      match dec j zero with
      | inl a => dec_members zero dec ms (<[k := a]> m)
      | inr e => inr e
      end
  end.
Definition dec_map {A} (zero : A) (dec : decoder A) : decoder (gmap string A) := λ j old,
  match j with
  | JObject ms => dec_members zero dec ms old
  | JNull => inl ∅
  | _ => inr (type_error j)
  end.

(** A map that may be nil. *)
Definition dec_map_nil {A} (zero : A) (dec : decoder A) : decoder (option (gmap string A)) := λ j old,
  match j with
  | JObject ms =>
      match dec_members zero dec ms (default ∅ old) with inl m => inl (Some m) | inr e => inr e end
  | JNull => inl None
  | _ => inr (type_error j)
  end.

(** A struct: a list of tags, each with the decoder of its field. *)
Definition struct_fields (A : Type) : Type := list (string * decoder A).

(** The decoder of one field, lifted to the struct. *)
Definition field {A B} (tag : string) (dec : decoder B) (get : A → B) (set : B → A → A)
    : string * decoder A :=
  (tag, λ j a, match dec j (get a) with inl b => inl (set b a) | inr e => inr e end).

Fixpoint find_tag {A} (p : string → bool) (fs : struct_fields A) : option (decoder A) :=
  match fs with
  | [] => None
  | (t, d) :: fs => if p t then Some d else find_tag p fs
  end.
Definition find_field {A} (fs : struct_fields A) (key : string) : option (decoder A) :=
  match find_tag (λ t, bool_decide (t = key)) fs with
  | Some d => Some d
  | None => find_tag (λ t, bool_decide (foldName t = foldName key)) fs
  end.

Fixpoint dec_fields {A} (fs : struct_fields A) (ms : list (string * json)) (a : A) : A + error :=
  match ms with
  | [] => inl a
  | (k, j) :: ms =>
      match find_field fs k with
      | None => dec_fields fs ms a
      | Some d => match d j a with inl a => dec_fields fs ms a | inr e => inr e end
      end
  end.
Definition dec_struct {A} (fs : struct_fields A) : decoder A := λ j a,
  match j with
  | JObject ms => dec_fields fs ms a
  | JNull => inl a
  | _ => inr (type_error j)
  end.
End Decode.

(** ** What unmarshalling guarantees *)

Lemma find_field_elem {A} (fs : struct_fields A) k d : find_field fs k = Some d → ∃ t, (t, d) ∈ fs.
Proof.
  assert (Hfind : ∀ p, find_tag p fs = Some d → ∃ t, (t, d) ∈ fs).
  { intros p. induction fs as [|[t d'] fs IH]; cbn; [done|].
    destruct (p t); [intros [= ->]; exists t; by left|].
    intros (t' & Ht')%IH. exists t'. by right. }
  unfold find_field. destruct (find_tag _ fs) eqn:E; [intros [= ->]; eauto|eauto].
Qed.

(** An invariant of the struct that every field preserves, for member values
    satisfying [Q], holds of the struct decoded. *)
Lemma dec_fields_inv {A} (P : A → Prop) (Q : json → Prop) fs ms a a' :
  Forall (λ f : string * decoder A, ∀ j b b', Q j → P b → f.2 j b = inl b' → P b') fs →
  Forall (λ kj, Q kj.2) ms → P a → dec_fields fs ms a = inl a' → P a'.
Proof.
  intros Hfs Hms. rewrite Forall_forall in Hfs. revert a.
  induction Hms as [|[k j] ms Hj _ IH]; intros a Ha; cbn; [by intros [= <-]|].
  destruct (find_field fs k) as [d|] eqn:E; [|by apply IH].
  apply find_field_elem in E as [t Ht].
  destruct (d j a) as [a1|] eqn:Ed; [|done]. apply IH. by eapply (Hfs (t, d) Ht j a).
Qed.

(** The string members of an object are well formed. *)
Definition string_utf8 (j : json) : Prop :=
  match j with JString s => valid_utf8 s | _ => True end.
Definition members_utf8 (j : json) : Prop :=
  match j with JObject ms => Forall (λ kj, string_utf8 kj.2) ms | _ => True end.

(** ** What a struct's members decode to *)

(** The JSON text of a member, as the scanner reads it back; only integers and
    strings are needed. *)
Definition json_of_scalar (a : any) : json :=
  match a with
  | AInt64 n => JNumber (pretty n)
  | AString s => JString s
  | _ => JNull
  end.
Definition scalar_members (ms : list (string * any)) : list (string * json) :=
  map (λ ka, (ka.1, json_of_scalar ka.2)) ms.
Definition json_of_members (ms : list (string * any)) : json := JObject (scalar_members ms).

Section DecodeMembers.
Context (type_error : json → error).

Lemma dec_int_pretty n old : inS 64 n → dec_int type_error (JNumber (pretty n)) old = inl n.
Proof. intros H. unfold dec_int. by rewrite ParseInt_pretty. Qed.
End DecodeMembers.
