(* ===== verification/TimeText.v ===== *)
(** * TimeText: time.Time as JSON

    [Time.MarshalJSON] and [Time.UnmarshalJSON]: the date of a day number, the
    clock, the fraction without trailing zeros and the zone, and the theorem
    that the instant survives.  A [time] is an instant; the offset of the zone
    it is shown in is an argument. *)
From S2P Require Import Prelude GoLib Strconv GoTime Json.
Open Scope Z_scope.

(** ** The date of a day *)

(** [absDate]: cut off cycles of 400 years, then 100, 4 and 1; the last year of
    a cycle is one day longer than its share.  [n] counts from 1 January 1970. *)
Definition year_yday (n : Z) : Z * Z :=
  let d := n + 719162 in
  let a := d / 146097 in let d := d - 146097 * a in
  let b := d / 36524 in let b := b - b / 4 in let d := d - 36524 * b in
  let c := d / 1461 in let d := d - 1461 * c in
  let e := d / 365 in let e := e - e / 4 in let d := d - 365 * e in
  (400 * a + 100 * b + 4 * c + e + 1, d).

Fixpoint month_day (k : nat) (y m yday : Z) : Z * Z :=
  match k with
  | O => (m, yday + 1)
  | S k => if yday <? daysIn y m then (m, yday + 1) else month_day k y (m + 1) (yday - daysIn y m)
  end.

Definition civil (n : Z) : Z * Z * Z :=
  let '(y, yday) := year_yday n in let '(m, d) := month_day 11 y 1 yday in (y, m, d).

Example civil_epoch : civil 0 = (1970, 1, 1).
Proof. reflexivity. Qed.
Example civil_leap : civil (days_since_epoch 2024 2 29) = (2024, 2, 29).
Proof. reflexivity. Qed.
Example civil_last : civil (days_since_epoch 2000 12 31) = (2000, 12, 31).
Proof. reflexivity. Qed.
Example civil_year0 : civil (days_since_epoch 0 3 1) = (0, 3, 1).
Proof. reflexivity. Qed.

(** ** Writing *)

(** The digits of a fraction, without trailing zeros. *)
Fixpoint trimmed (k : nat) (n : Z) : bytes :=
  match k with
  | O => []
  | S k' => if n mod 10 =? 0 then trimmed k' (n / 10) else padded k n
  end.
Definition frac_trimmed (ns : Z) : bytes := if ns =? 0 then [] else Byte.x2e :: trimmed 9 ns.

(** The zone, from an offset in seconds: whole minutes, towards zero. *)
Definition zone_of_offset (off : Z) : option (bool * Z * Z) :=
  if off =? 0 then None
  else let z := Z.quot off 60 in Some (z <? 0, Z.abs z / 60, Z.abs z mod 60).

Definition second_ns : Z := 1000000000.

(** [MarshalJSON], without the quotes: RFC 3339 with nanoseconds, for years of
    four digits and offsets below a day. *)
Definition MarshalJSON (off : Z) (t : time) : string + error :=
  let loc := t + off * second_ns in
  let secs := loc / second_ns in
  let '(y, mo, d) := civil (secs / 86400) in
  let sod := secs mod 86400 in
  if (y <? 0) || (9999 <? y)
  then inr "Time.MarshalJSON: year outside of range [0,9999]"%string
  else if 24 <=? Z.abs (Z.quot off 60) / 60
  then inr "Time.MarshalJSON: timezone hour outside of range [0,23]"%string
  else inl (of_bytes
    (clock_text Byte.x54 y mo d (sod / 3600) (sod / 60 mod 60) (sod mod 60) None ++
     frac_trimmed (loc mod second_ns) ++ zone_text (zone_of_offset off))).

(** [UnmarshalJSON]: null leaves the old value.  The package parses the text
    between the quotes as it stands in the file; that is the value of the string
    unless it was written with escapes. *)
Definition dec_time : decoder time := λ j old,
  match j with
  | JNull => inl old
  | JString s => time_Parse RFC3339 s
  | _ => inr "Time.UnmarshalJSON: input is not a JSON string"%string
  end.

Example MarshalJSON_utc : MarshalJSON 0 (Date 2024 2 29 12 0 0 250000000) = inl "2024-02-29T12:00:00.25Z"%string.
Proof. vm_compute. reflexivity. Qed.
Example MarshalJSON_zone : MarshalJSON (-19800) (Date 2024 1 1 0 0 0 1) = inl "2023-12-31T18:30:00.000000001-05:30"%string.
Proof. vm_compute. reflexivity. Qed.
Example MarshalJSON_late : MarshalJSON 3600 (Date 9999 12 31 23 30 0 0) =
  inr "Time.MarshalJSON: year outside of range [0,9999]"%string.
Proof. vm_compute. reflexivity. Qed.

(** ** The date is the right one *)

Lemma year_yday_spec n : let '(y, yday) := year_yday n in
  days_before_year y + yday = n ∧ 0 <= yday < (if isLeap y then 366 else 365).
Proof.
  unfold year_yday. set (d0 := n + 719162). 
  set (a := d0 / 146097). set (d1 := d0 - 146097 * a).
  set (b' := d1 / 36524). set (b := b' - b' / 4). set (d2 := d1 - 36524 * b).
  set (c := d2 / 1461). set (d3 := d2 - 1461 * c).
  set (e' := d3 / 365). set (e := e' - e' / 4). set (d4 := d3 - 365 * e).
  assert (H1 : 0 <= d1 < 146097) by (unfold d1, a; div_lia).
  assert (Hb : 0 <= b <= 3 ∧ 0 <= d2 <= 36524 ∧ (d2 = 36524 → b = 3)) by (unfold d2, b, b'; div_lia).
  assert (Hc : 0 <= c <= 24 ∧ 0 <= d3 <= 1460 ∧ (c = 24 → d3 = 1460 → b = 3)) by (unfold d3, c; div_lia).
  assert (He : 0 <= e <= 3 ∧ 0 <= d4 <= 365 ∧ (d4 = 365 → e = 3 ∧ d3 = 1460)) by (unfold d4, e, e'; div_lia).
  set (y := 400 * a + 100 * b + 4 * c + e + 1).
  assert (Hn : n = 146097 * a + 36524 * b + 1461 * c + 365 * e + d4 - 719162) by (unfold d4, d3, d2, d1, d0; lia).
  clearbody a b c e d4 d3. split.
  - unfold days_before_year, y. replace (400 * a + 100 * b + 4 * c + e + 1 - 1) with (400 * a + 100 * b + 4 * c + e) by lia.
    replace ((400 * a + 100 * b + 4 * c + e) / 4) with (100 * a + 25 * b + c) by (apply Z.div_unique with e; lia).
    replace ((400 * a + 100 * b + 4 * c + e) / 100) with (4 * a + b) by (apply Z.div_unique with (4 * c + e); lia).
    replace ((400 * a + 100 * b + 4 * c + e) / 400) with a by (apply Z.div_unique with (100 * b + 4 * c + e); lia).
    lia.
  - destruct (isLeap y) eqn:El; [lia|]. split; [lia|].
    destruct (decide (d4 = 365)) as [E|]; [|lia]. exfalso.
    assert (Ht : isLeap y = true); [|congruence]. apply isLeap_spec.
    destruct He as (_ & _ & [-> ->]%(λ f, f E)).
    split; [symmetry; apply Z.mod_unique_pos with (100 * a + 25 * b + c + 1); unfold y; lia|].
    destruct (decide (c = 24)) as [->|].
    + right. symmetry. apply Z.mod_unique_pos with (a + 1); unfold y; lia.
    + left. replace (y mod 100) with (4 * c + 4); [lia|].
      apply Z.mod_unique_pos with (4 * a + b); unfold y; lia.
Qed.

Lemma month_day_spec y k : ∀ m yday, 1 <= m → m + Z.of_nat k = 12 →
  0 <= yday < days_before_month y 12 + 31 - days_before_month y m →
  let '(m', d) := month_day k y m yday in
  valid_date y m' d ∧ days_before_month y m' + (d - 1) = days_before_month y m + yday.
Proof.
  induction k as [|k IH]; intros m yday Hm Hk Hy; cbn [month_day].
  - assert (m = 12) as -> by (cbn in Hk; lia). unfold valid_date. change (daysIn y 12) with 31. lia.
  - destruct (Z.ltb_spec yday (daysIn y m)).
    + unfold valid_date. lia.
    + pose proof (days_before_next_month y m ltac:(lia)) as Hn.
      specialize (IH (m + 1) (yday - daysIn y m) ltac:(lia) ltac:(lia) ltac:(lia)).
      destruct (month_day k y (m + 1) _) as [m' d]. destruct IH as [Hv Hd]. split; [done|lia].
Qed.

Lemma civil_spec n : let '(y, m, d) := civil n in valid_date y m d ∧ days_since_epoch y m d = n.
Proof.
  unfold civil. pose proof (year_yday_spec n) as Hy. destruct (year_yday n) as [y yday].
  pose proof (month_day_spec y 11 1 yday ltac:(lia) ltac:(lia)) as Hm.
  assert (H12 : days_before_month y 12 = if isLeap y then 335 else 334).
  { unfold days_before_month, daysIn. cbn. by destruct (isLeap y). }
  change (days_before_month y 1) with 0 in Hm. rewrite H12 in Hm.
  destruct (month_day 11 y 1 yday) as [m d]. unfold days_since_epoch.
  destruct Hm as [Hv Hd]; [destruct (isLeap y); lia|]. split; [done|lia].
Qed.

(** ** Reading back *)

Lemma trimmed_padded k n : 0 < n < 10 ^ Z.of_nat k →
  ∃ j m, trimmed k n = padded j m ∧ (0 < j <= k)%nat ∧ 0 <= m < 10 ^ Z.of_nat j ∧
    m * 10 ^ (Z.of_nat k - Z.of_nat j) = n.
Proof.
  revert n. induction k as [|k IH]; intros n Hn; [cbn in Hn; lia|].
  cbn [trimmed]. destruct (Z.eqb_spec (n mod 10) 0) as [Hz|Hz].
  - rewrite Nat2Z.inj_succ, Z.pow_succ_r in Hn by lia. destruct (IH (n / 10)) as (j & m & -> & Hj & Hm & He).
    { split; [|apply Z.div_lt_upper_bound; lia]. pose proof (Z.div_mod n 10). lia. }
    exists j, m. split_and!; try done; try lia.
    replace (Z.of_nat (S k) - Z.of_nat j) with (Z.succ (Z.of_nat k - Z.of_nat j)) by lia.
    rewrite Z.pow_succ_r by lia. pose proof (Z.div_mod n 10). lia.
  - exists (S k), n. split_and!; [done|lia..|]. rewrite Z.sub_diag. lia.
Qed.

Lemma fraction_padded j m rest : (0 < j <= 9)%nat → 0 <= m < 10 ^ Z.of_nat j → ends_seconds rest →
  fraction (Byte.x2e :: padded j m ++ rest) = Some (m * 10 ^ (9 - Z.of_nat j), rest).
Proof.
  intros Hj Hm Hr.
  assert (Hp : ∃ d t, padded j m = d :: t ∧ is_decimal d = true).
  { pose proof (accept_run_padded j m [] ltac:(lia) I) as Ha. rewrite app_nil_r in Ha.
    pose proof (length_padded j m). destruct (padded j m) as [|d t]; [cbn in *; lia|].
    exists d, t. split; [done|]. cbn in Ha. by destruct (is_decimal d). }
  destruct Hp as (x & t & Hp & Hx). unfold fraction. rewrite Hp. cbn [app].
  change (commaOrPeriod Byte.x2e) with true. rewrite Hx. cbn [andb drop].
  change (x :: t ++ rest) with ((x :: t) ++ rest). rewrite <- Hp.
  rewrite accept_run_padded; [|lia|destruct rest; [done|apply Hr]].
  unfold nanoseconds. rewrite take_ge by (rewrite length_padded; lia).
  rewrite digits_padded by lia. unfold len. rewrite length_padded. cbn [mbind option_bind]. done.
Qed.

(** The seconds of a written time. *)
Lemma parse_second_trimmed y mo d h mi off n ns t : 0 <= n <= 59 → 0 <= ns < second_ns → ends_seconds t →
  parse_std StdZeroSecond (Some StdISO8601ColonTZ) (padded 2 n ++ frac_trimmed ns ++ t)
    (mkFields y mo d h mi 0 0 off) = Some (t, mkFields y mo d h mi n ns off).
Proof.
  intros Hn Hns Ht. unfold frac_trimmed. destruct (Z.eqb_spec ns 0) as [->|Hz].
  - pose proof (parse_second y mo d h mi off (Some StdISO8601ColonTZ) n None t Hn) as Hp. by apply Hp.
  - cbn [parse_std]. rewrite getnum_padded by lia. cbn [mbind option_bind].
    rewrite in_bound_ok by lia. cbn [mbind option_bind app].
    destruct (trimmed_padded 9 ns) as (j & m & -> & Hj & Hm & He); [unfold second_ns in *; cbn; lia|].
    rewrite fraction_padded by done. cbn [mbind option_bind]. change (9 - Z.of_nat j) with (Z.of_nat 9 - Z.of_nat j). rewrite decide_False; [by rewrite He|].
    intros H. apply (f_equal length) in H. cbn [length] in H. rewrite length_app in H. lia.
Qed.

Lemma zone_of_offset_valid off : off mod 60 = 0 → Z.abs (Z.quot off 60) / 60 < 24 →
  valid_zone (zone_of_offset off) ∧ zone_seconds (zone_of_offset off) = off.
Proof.
  intros Hm Hh. unfold zone_of_offset. destruct (Z.eqb_spec off 0) as [->|Hz]; [done|].
  assert (Hq : off = 60 * Z.quot off 60).
  { pose proof (Z.quot_rem' off 60) as Hqr. assert (Z.rem off 60 = 0); [|lia].
    apply Z.rem_divide; [done|]. by apply Z.mod_divide. }
  set (z := Z.quot off 60) in *. clearbody z. cbn [valid_zone zone_seconds].
  split; [div_lia|]. destruct (Z.ltb_spec z 0); div_lia.
Qed.

(** A time that was written, in a zone of whole minutes, is read back as the
    same instant. *)
Lemma dec_time_MarshalJSON off t s old : off mod 60 = 0 → MarshalJSON off t = inl s →
  dec_time (JString s) old = inl t.
Proof.
  intros Hoff. unfold MarshalJSON. set (loc := t + off * second_ns). set (secs := loc / second_ns).
  pose proof (civil_spec (secs / 86400)) as Hc. destruct (civil (secs / 86400)) as [[y mo] d].
  destruct Hc as [Hv Hd]. destruct (Z.ltb_spec y 0); [done|]. destruct (Z.ltb_spec 9999 y); [done|]. cbn [orb].
  destruct (Z.leb_spec 24 (Z.abs (Z.quot off 60) / 60)) as [|Hz]; [done|].
  intros Hs. apply (f_equal (λ x, match x with inl a => a | inr _ => s end)) in Hs. cbv iota beta in Hs.
  subst s. cbn [dec_time].
  destruct (zone_of_offset_valid off Hoff Hz) as [Hvz Hzs].
  set (sod := secs mod 86400). pose proof (Z.mod_pos_bound secs 86400 ltac:(lia)) as Hsod. fold sod in Hsod.
  set (ns := loc mod second_ns). pose proof (Z.mod_pos_bound loc second_ns ltac:(done)) as Hns. fold ns in Hns.
  assert (Hclock : valid_clock y mo d (sod / 3600) (sod / 60 mod 60) (sod mod 60) None).
  { unfold valid_clock. cbn [default]. split_and!; try div_lia; done. }
  unfold time_Parse. rewrite to_of_bytes.
  change (layout RFC3339) with (ymd_layout ++ [StdLit Byte.x54] ++ hm_layout ++ [StdZeroSecond; StdISO8601ColonTZ]).
  change (mkFields 0 (-1) (-1) 0 0 0 0 None) with start.
  rewrite parse_before_seconds by (done || by left). cbn [frac_part app].
  erewrite parse_cons; [|apply parse_second_trimmed; [pose proof (Z.mod_pos_bound sod 60); lia|done|by destruct (zone_of_offset off) as [[[[] ?] ?]|]]].
  assert (Hp : ∃ o, parse_loop [StdISO8601ColonTZ] (zone_text (zone_of_offset off))
      (mkFields y mo d (sod / 3600) (sod / 60 mod 60) (sod mod 60) ns None) =
    Some (mkFields y mo d (sod / 3600) (sod / 60 mod 60) (sod mod 60) ns o) ∧ default 0 o = off).
  { destruct (parse_zone y mo d (sod / 3600) (sod / 60 mod 60) (sod mod 60) ns _ Hvz) as (o & H1 & H2).
    exists o. split; [exact H1|]. by rewrite H2. }
  destruct Hp as (o & -> & Ho). cbn [mbind option_bind].
  assert (Hc' : valid_clock y mo d (sod / 3600) (sod / 60 mod 60) (sod mod 60) (Some ns)) by (unfold valid_clock in *; intuition).
  pose proof (parse_finish _ _ _ _ _ _ _ Hc' o) as Hf.
  change (default 0 (Some ns)) with ns in Hf. rewrite Hf, Ho. f_equal.
  unfold Date. rewrite Hd. unfold sod, ns, loc, secs, second_ns in *. div_lia.
Qed.

(** ** The text is plain ASCII *)

Definition ascii_bytes (b : bytes) : Prop := Forall (λ c, byte.unsigned c < 0x80) b.

Lemma ascii_padded k n : 0 <= n → ascii_bytes (padded k n).
Proof.
  revert n. induction k as [|k IH]; intros n Hn; cbn [padded]; [constructor|].
  apply Forall_app. split; [apply IH, Z.div_pos; lia|]. constructor; [|constructor].
  unfold digit_char. pose proof (Z.mod_pos_bound n 10 ltac:(lia)).
  rewrite byte.unsigned_of_Z. unfold byte.wrap. rewrite Z.mod_small; lia.
Qed.

Lemma ascii_trimmed k n : 0 <= n → ascii_bytes (trimmed k n).
Proof.
  revert n. induction k as [|k IH]; intros n Hn; cbn [trimmed]; [constructor|].
  destruct (n mod 10 =? 0); [apply IH, Z.div_pos; lia|by apply ascii_padded].
Qed.

(** Split a text into its parts. *)
Ltac ascii_parts :=
  lazymatch goal with
  | |- Forall _ (padded _ _) => apply ascii_padded; div_lia
  | |- Forall _ (_ ++ _) => apply Forall_app; split; ascii_parts
  | |- Forall _ (_ :: _) => apply Forall_cons_2; [done|ascii_parts]
  | |- Forall _ [] => apply Forall_nil_2
  | |- _ => idtac
  end.

Lemma MarshalJSON_ASCII off t s : MarshalJSON off t = inl s → isASCII s = true.
Proof.
  unfold MarshalJSON. set (loc := t + off * second_ns). set (secs := loc / second_ns).
  pose proof (civil_spec (secs / 86400)) as Hc. destruct (civil (secs / 86400)) as [[y mo] d].
  destruct Hc as [[Hmo Hd] _]. destruct (Z.ltb_spec y 0); [done|]. destruct (Z.ltb_spec 9999 y); [done|]. cbn [orb].
  destruct (_ <=? _); [done|].
  intros Hs. apply (f_equal (λ x, match x with inl a => a | inr _ => s end)) in Hs. cbv iota beta in Hs. subst s.
  unfold isASCII. rewrite to_of_bytes. apply forallb_forall.
  assert (Hlt : ∀ b, ascii_bytes b → ∀ c, In c b → (byte.unsigned c <? 128) = true).
  { intros b Hb c Hc. apply list_elem_of_In in Hc. unfold ascii_bytes in Hb. rewrite Forall_forall in Hb.
    apply Z.ltb_lt. by apply Hb. }
  apply Hlt. pose proof (Z.mod_pos_bound secs 86400 ltac:(lia)).
  pose proof (Z.mod_pos_bound loc second_ns ltac:(done)).
  unfold clock_text, ymd_text, hm_text. cbn [frac_part].
  unfold ascii_bytes. ascii_parts.
  - unfold frac_trimmed. destruct (_ =? 0); [constructor|]. ascii_parts. apply ascii_trimmed. lia.
  - unfold zone_of_offset. destruct (off =? 0); [by repeat constructor|]. cbn [zone_text].
    apply Forall_cons_2; [by destruct (Z.quot off 60 <? 0)|]. ascii_parts.
Qed.
