(* ===== verification/JsonScan.v ===== *)
(** * JsonScan: the scanner of encoding/json

    [json_scan] reads a JSON text the way [json.Unmarshal] does: the grammar
    and the nesting limit of its scanner, escapes and surrogate pairs, and
    malformed UTF-8 replaced by U+FFFD.  It ends on every text. *)
From S2P Require Import Prelude Float GoLib Utf8 Strconv Json.
From stdpp Require Import pretty.
Open Scope Z_scope.

(** ** Strings *)

Definition hex4 (a b c d : byte) : option Z :=
  a ← digit_base true a; b ← digit_base true b; c ← digit_base true c; d ← digit_base true d;
  Some (((a * 16 + b) * 16 + c) * 16 + d).

(** [getu4], after the [\u]. *)
Definition getu4 (b : bytes) : option Z :=
  match b with a :: b :: c :: d :: _ => hex4 a b c d | _ => None end.

(** The one-letter escapes. *)
Definition simple_escape (c : byte) : option byte :=
  let x := byte.unsigned c in
  if (x =? 34) || (x =? 92) || (x =? 47) then Some c
  else if x =? 98 then Some Byte.x08 else if x =? 102 then Some Byte.x0c
  else if x =? 110 then Some Byte.x0a else if x =? 114 then Some Byte.x0d
  else if x =? 116 then Some Byte.x09 else None.

(** What the escape in front of [b] (after the backslash) stands for, and how
    many bytes it takes.  A surrogate that has no partner becomes U+FFFD. *)
Definition escape (b : bytes) : option (bytes * nat) :=
  match b with
  | [] => None
  | c :: b =>
      match simple_escape c with
      | Some x => Some ([x], 1%nat)
      | None =>
          if isb 117 c then
            rr ← getu4 b;
            if in_range 0xD800 0xDFFF rr then
              match drop 4 b with
              | s :: u :: b' =>
                  match (if isb 92 s && isb 117 u then getu4 b' else None) with
                  | Some rr1 =>
                      if in_range 0xD800 0xDBFF rr && in_range 0xDC00 0xDFFF rr1
                      then Some (EncodeRune (Z.lor (Z.shiftl (rr - 0xD800) 10) (rr1 - 0xDC00) + 0x10000), 11%nat)
                      else Some (EncodeRune RuneError, 5%nat)
                  | None => Some (EncodeRune RuneError, 5%nat)
                  end
              | _ => Some (EncodeRune RuneError, 5%nat)
              end
            else Some (EncodeRune rr, 5%nat)
          else None
      end
  end.

(** A string after its opening quote: its contents and what follows the closing
    quote.  [skip] counts the bytes of the current element still to be passed. *)
Fixpoint scan_string (skip : nat) (b : bytes) : option (bytes * bytes) :=
  match b with
  | [] => None
  | c :: b' =>
      match skip with
      | S k => scan_string k b'
      | O =>
          if isb 34 c then Some ([], b')
          else if isb 92 c then
            '(out, n) ← escape b'; '(s, rest) ← scan_string n b'; Some (out ++ s, rest)
          else if byte.unsigned c <? 0x20 then None
          else
            let '(r, w) := DecodeRune b in
            '(s, rest) ← scan_string (w - 1) b'; Some (EncodeRune r ++ s, rest)
      end
  end.

(** ** Numbers *)

Definition digits_run : bytes → bytes * bytes := accept_run is_decimal.

Definition is_decimal_head (b : bytes) : bool :=
  match b with c :: _ => is_decimal c | [] => false end.

(** The integer part: a zero, or digits that do not start with one. *)
Definition scan_int (b : bytes) : option (bytes * bytes) :=
  match b with
  | c :: b' =>
      if isb 48 c then Some ([c], b')
      else if is_decimal c then Some (digits_run b) else None
  | [] => None
  end.

Definition scan_fraction (b : bytes) : option (bytes * bytes) :=
  match b with
  | c :: b' =>
      if isb 46 c
      then if is_decimal_head b' then let '(ds, r) := digits_run b' in Some (c :: ds, r) else None
      else Some ([], b)
  | [] => Some ([], [])
  end.

Definition scan_exponent (b : bytes) : option (bytes * bytes) :=
  match b with
  | c :: b' =>
      if letter 101 c then
        let '(sg, b') := match accept is_sign b' with Some (s, b') => ([s], b') | None => ([], b') end in
        if is_decimal_head b' then let '(ds, r) := digits_run b' in Some (c :: sg ++ ds, r) else None
      else Some ([], b)
  | [] => Some ([], [])
  end.

Definition scan_number (b : bytes) : option (bytes * bytes) :=
  let '(sg, b) := match accept (isb 45) b with Some (s, b) => ([s], b) | None => ([], b) end in
  '(ip, b) ← scan_int b;
  '(fp, b) ← scan_fraction b;
  '(ex, b) ← scan_exponent b;
  Some (sg ++ ip ++ fp ++ ex, b).

(** ** Values *)

Definition is_space (c : byte) : bool := isb 32 c || isb 9 c || isb 13 c || isb 10 c.
Fixpoint skip_ws (b : bytes) : bytes :=
  match b with c :: b' => if is_space c then skip_ws b' else b | [] => [] end.

Inductive parsed (A : Type) := Parsed (a : A) (rest : bytes) | Malformed | NoFuel.
Arguments Parsed {A} a rest.
Arguments Malformed {A}.
Arguments NoFuel {A}.

Definition pbind {A B} (m : parsed A) (f : A → bytes → parsed B) : parsed B :=
  match m with Parsed a rest => f a rest | Malformed => Malformed | NoFuel => NoFuel end.
Definition of_option {A} (o : option (A * bytes)) : parsed A :=
  match o with Some (a, rest) => Parsed a rest | None => Malformed end.

(** The rest of a keyword. *)
Definition keyword (w : string) (j : json) (b : bytes) : parsed json :=
  let w := to_bytes w in
  if bool_decide (take (length w) b = w) then Parsed j (drop (length w) b) else Malformed.

(** The scanner refuses more than [maxNestingDepth] open brackets. *)
Definition maxNestingDepth : Z := 10000.

Fixpoint scan_value (fuel : nat) (depth : Z) (b : bytes) : parsed json :=
  match fuel with
  | O => NoFuel
  | S fuel =>
      match skip_ws b with
      | [] => Malformed
      | c :: r =>
          if isb 123 c then
            if maxNestingDepth <? depth + 1 then Malformed
            else match skip_ws r with
            | [] => Malformed
            | x :: r' =>
                if isb 125 x then Parsed (JObject []) r'
                else pbind (scan_members fuel (depth + 1) (x :: r')) (λ ms rest, Parsed (JObject ms) rest)
            end
          else if isb 91 c then
            if maxNestingDepth <? depth + 1 then Malformed
            else match skip_ws r with
            | [] => Malformed
            | x :: r' =>
                if isb 93 x then Parsed (JArray []) r'
                else pbind (scan_elements fuel (depth + 1) (x :: r')) (λ l rest, Parsed (JArray l) rest)
            end
          else if isb 34 c then
            pbind (of_option (scan_string 0 r)) (λ s rest, Parsed (JString (of_bytes s)) rest)
          else if isb 116 c then keyword "rue" (JBool true) r
          else if isb 102 c then keyword "alse" (JBool false) r
          else if isb 110 c then keyword "ull" JNull r
          else pbind (of_option (scan_number (c :: r))) (λ lit rest, Parsed (JNumber (of_bytes lit)) rest)
      end
  end
with scan_elements (fuel : nat) (depth : Z) (b : bytes) : parsed (list json) :=
  match fuel with
  | O => NoFuel
  | S fuel =>
      pbind (scan_value fuel depth b) (λ j rest,
        match skip_ws rest with
        | c :: rest =>
            if isb 44 c then pbind (scan_elements fuel depth rest) (λ l rest, Parsed (j :: l) rest)
            else if isb 93 c then Parsed [j] rest else Malformed
        | [] => Malformed
        end)
  end
with scan_members (fuel : nat) (depth : Z) (b : bytes) : parsed (list (string * json)) :=
  match fuel with
  | O => NoFuel
  | S fuel =>
      match skip_ws b with
      | q :: r =>
          if isb 34 q then
            pbind (of_option (scan_string 0 r)) (λ k rest,
              match skip_ws rest with
              | c :: rest =>
                  if isb 58 c then
                    pbind (scan_value fuel depth rest) (λ j rest,
                      match skip_ws rest with
                      | c :: rest =>
                          if isb 44 c
                          then pbind (scan_members fuel depth rest) (λ ms rest, Parsed ((of_bytes k, j) :: ms) rest)
                          else if isb 125 c then Parsed [(of_bytes k, j)] rest else Malformed
                      | [] => Malformed
                      end)
                  else Malformed
              | [] => Malformed
              end)
          else Malformed
      | [] => Malformed
      end
  end.

Definition scan_fuel (b : bytes) : nat := 2 * length b + 1.

(** A whole text; the message of a [SyntaxError] is not modelled. *)
Definition json_scan (b : bytes) : json + error :=
  match scan_value (scan_fuel b) 0 b with
  | Parsed j rest => match skip_ws rest with [] => inl j | _ => inr "invalid JSON"%string end
  | Malformed | NoFuel => inr "invalid JSON"%string
  end.

(** ** The scanner ends

    Every result leaves fewer bytes than it was given, so a fuel of twice the
    length of the text is never used up. *)

Lemma scan_string_shorter b : ∀ k s rest, scan_string k b = Some (s, rest) → (length rest < length b)%nat.
Proof.
  induction b as [|c b IH]; intros k s rest; cbn [scan_string]; [done|].
  destruct k as [|k]; [|intros H%IH; cbn; lia].
  destruct (isb 34 c); [intros [= _ <-]; cbn; lia|]. destruct (isb 92 c).
  - destruct (escape b) as [[out n]|]; [|done]. cbn.
    destruct (scan_string n b) as [[s' r']|] eqn:E; [|done]. intros [= _ <-]. apply IH in E. lia.
  - destruct (_ <? _); [done|]. destruct (DecodeRune _) as [r w].
    destruct (scan_string (w - 1) b) as [[s' r']|] eqn:E; [|done]. intros [= _ <-]. apply IH in E. cbn. lia.
Qed.

Lemma accept_run_split p b : (accept_run p b).1 ++ (accept_run p b).2 = b.
Proof.
  induction b as [|c b IH]; [done|]. cbn. destruct (p c); [|done].
  destruct (accept_run p b) as [t r]. cbn in *. by rewrite IH.
Qed.

Lemma accept_run_shorter p b t r : accept_run p b = (t, r) → (length r <= length b)%nat.
Proof.
  intros H. pose proof (accept_run_split p b) as Hs. rewrite H in Hs. cbn in Hs. subst b.
  rewrite length_app. lia.
Qed.

Lemma scan_number_shorter b lit rest : scan_number b = Some (lit, rest) → (length rest < length b)%nat.
Proof.
  unfold scan_number.
  assert (Hs : ∀ sg b', match accept (isb 45) b with Some (s, b) => ([s], b) | None => ([], b) end = (sg, b') →
    (length b' <= length b)%nat).
  { intros sg b'. destruct b as [|c b]; cbn; [by intros [= _ <-]|].
    destruct (isb 45 c); intros [= _ <-]; cbn; lia. }
  destruct (match accept _ b with Some _ => _ | None => _ end) as [sg b0]. specialize (Hs sg b0 eq_refl).
  destruct (scan_int b0) as [[ip b1]|] eqn:E1; [|done]. cbn.
  destruct (scan_fraction b1) as [[fp b2]|] eqn:E2; [|done]. cbn.
  destruct (scan_exponent b2) as [[ex b3]|] eqn:E3; [|done]. cbn. intros [= _ <-].
  assert (H1 : (length b1 < length b0)%nat).
  { destruct b0 as [|c b0]; [done|]. cbn in E1. destruct (isb 48 c); [injection E1 as _ <-; cbn; lia|].
    destruct (is_decimal c) eqn:Ed; [|done]. injection E1 as E1. unfold digits_run in E1. cbn in E1.
    rewrite ?Ed in E1. destruct (accept_run is_decimal b0) as [t r] eqn:Er. injection E1 as _ <-.
    apply accept_run_shorter in Er. cbn. lia. }
  assert (H2 : (length b2 <= length b1)%nat).
  { destruct b1 as [|c b1]; cbn in E2; [by injection E2 as _ <-|]. destruct (isb 46 c); [|by injection E2 as _ <-].
    destruct (is_decimal_head b1); [|done]. destruct (digits_run b1) as [t r] eqn:Er. injection E2 as _ <-.
    apply accept_run_shorter in Er. cbn. lia. }
  assert (H3 : (length b3 <= length b2)%nat).
  { destruct b2 as [|c b2]; cbn in E3; [by injection E3 as _ <-|]. destruct (letter 101 c); [|by injection E3 as _ <-].
    destruct b2 as [|s b2]; cbn -[digits_run] in E3; [done|]. destruct (is_sign s); cbn -[digits_run] in E3.
    - destruct (is_decimal_head b2); [|done]. destruct (digits_run b2) as [t r] eqn:Er. injection E3 as _ <-.
      apply accept_run_shorter in Er. cbn. lia.
    - destruct (is_decimal s) eqn:Ed; [|done]. destruct (digits_run (s :: b2)) as [t r] eqn:Er.
      injection E3 as _ <-. apply accept_run_shorter in Er. cbn in *. lia. }
  lia.
Qed.

Lemma skip_ws_shorter b : (length (skip_ws b) <= length b)%nat.
Proof. induction b as [|c b IH]; [done|]. cbn. destruct (is_space c); cbn; lia. Qed.

Lemma keyword_inv w j b a rest : keyword w j b = Parsed a rest → a = j ∧ (length rest <= length b)%nat.
Proof.
  unfold keyword. case_bool_decide; [|done]. intros [= <- <-]. split; [done|]. rewrite length_drop. lia.
Qed.

Lemma pbind_Parsed {A B} (m : parsed A) (f : A → bytes → parsed B) b rest :
  pbind m f = Parsed b rest → ∃ a r, m = Parsed a r ∧ f a r = Parsed b rest.
Proof. destruct m as [a r| |]; [|done..]. intros H. by exists a, r. Qed.

Lemma of_option_Parsed {A} (o : option (A * bytes)) a rest :
  of_option o = Parsed a rest → o = Some (a, rest).
Proof. destruct o as [[? ?]|]; [|done]. by intros [= <- <-]. Qed.

(** Take a successful scan apart. *)
Ltac scan_inv :=
  repeat match goal with
  | H : pbind _ _ = Parsed _ _ |- _ =>
      let a := fresh "a" in let r := fresh "r" in apply pbind_Parsed in H as (a & r & ? & H)
  | H : of_option _ = Parsed _ _ |- _ => apply of_option_Parsed in H
  | H : Parsed _ _ = Parsed _ _ |- _ => injection H as <- <-
  | H : keyword _ _ _ = Parsed _ _ |- _ => apply keyword_inv in H as [-> H]
  | H : match skip_ws ?b with _ => _ end = Parsed _ _ |- _ =>
      let E := fresh "Ews" in pose proof (skip_ws_shorter b); destruct (skip_ws b) eqn:E; [done|]
  | H : (if ?x then _ else _) = Parsed _ _ |- _ => let E := fresh "Eif" in destruct x eqn:E
  | H : Malformed = Parsed _ _ |- _ => discriminate H
  end.

Lemma scan_shorter fuel :
  (∀ d b j rest, scan_value fuel d b = Parsed j rest → (length rest < length b)%nat) ∧
  (∀ d b l rest, scan_elements fuel d b = Parsed l rest → (length rest < length b)%nat) ∧
  (∀ d b ms rest, scan_members fuel d b = Parsed ms rest → (length rest < length b)%nat).
Proof.
  induction fuel as [|fuel (IHv & IHe & IHm)]; [done|].
  split; [|split]; intros d b a rest H; cbn [scan_value scan_elements scan_members] in H; scan_inv;
    repeat match goal with
    | H : scan_value _ _ _ = Parsed _ _ |- _ => apply IHv in H
    | H : scan_elements _ _ _ = Parsed _ _ |- _ => apply IHe in H
    | H : scan_members _ _ _ = Parsed _ _ |- _ => apply IHm in H
    | H : scan_string _ _ = Some _ |- _ => apply scan_string_shorter in H
    | H : scan_number _ = Some _ |- _ => apply scan_number_shorter in H
    end; cbn [length] in *; lia.
Qed.

Definition done_ {A} (m : parsed A) : Prop := m ≠ NoFuel.

Lemma pbind_done {A B} (m : parsed A) (f : A → bytes → parsed B) :
  done_ m → (∀ a r, m = Parsed a r → done_ (f a r)) → done_ (pbind m f).
Proof. intros H1 H2. destruct m as [a r| |]; [by apply H2|done|by destruct H1]. Qed.

Lemma of_option_done {A} (o : option (A * bytes)) : done_ (of_option o).
Proof. by destruct o as [[? ?]|]. Qed.
Lemma keyword_done w j b : done_ (keyword w j b).
Proof. unfold keyword. by case_bool_decide. Qed.

Ltac scan_done :=
  repeat match goal with
  | |- done_ (pbind _ _) => apply pbind_done; [|intros]
  | |- done_ (of_option _) => apply of_option_done
  | |- done_ (keyword _ _ _) => apply keyword_done
  | |- done_ (match skip_ws ?b with _ => _ end) =>
      let E := fresh "Ews" in pose proof (skip_ws_shorter b); destruct (skip_ws b) eqn:E; [done|]
  | |- done_ (if ?x then _ else _) => let E := fresh "Eif" in destruct x eqn:E
  | |- done_ (Parsed _ _) => done
  | |- done_ Malformed => done
  end.

Lemma scan_never_NoFuel fuel :
  (∀ d b, (2 * length b + 1 <= fuel)%nat → done_ (scan_value fuel d b)) ∧
  (∀ d b, (2 * length b + 2 <= fuel)%nat → done_ (scan_elements fuel d b)) ∧
  (∀ d b, (2 * length b + 2 <= fuel)%nat → done_ (scan_members fuel d b)).
Proof.
  induction fuel as [|fuel (IHv & IHe & IHm)]; [split; [|split]; intros; lia|].
  split; [|split]; intros d b Hf; cbn [scan_value scan_elements scan_members]; scan_done;
    repeat match goal with
    | H : scan_value _ _ _ = Parsed _ _ |- _ => apply scan_shorter in H
    | H : of_option _ = Parsed _ _ |- _ => apply of_option_Parsed in H
    | H : scan_string _ _ = Some _ |- _ => apply scan_string_shorter in H
    end; cbn [length] in *;
    first [apply IHv|apply IHe|apply IHm]; cbn [length]; lia.
Qed.

(** [json_scan] never runs out of fuel. *)
Lemma json_scan_done b : scan_value (scan_fuel b) 0 b ≠ NoFuel.
Proof. apply scan_never_NoFuel. unfold scan_fuel. lia. Qed.
