(* ===== verification/JsonText.v ===== *)
(** * JsonText: the printer of encoding/json, and the round trip

    [text] writes a value the way [json.Marshal] does, HTML escapes included.
    The round-trip theorem says that scanning what was written gives the value
    back. *)
From S2P Require Import Prelude Float GoLib Utf8 Strconv Rounding Json JsonScan.
From stdpp Require Import pretty.
Open Scope Z_scope.

(** ** Writing *)

Definition hex_digit (n : Z) : byte := byte.of_Z (if n <? 10 then 48 + n else 87 + n).

Definition unicode_escape (r : Z) : bytes :=
  to_bytes "\u" ++ map hex_digit [Z.shiftr r 12; Z.land (Z.shiftr r 8) 15; Z.land (Z.shiftr r 4) 15; Z.land r 15].

(** [htmlSafeSet] *)
Definition html_safe (r : Z) : bool :=
  in_range 0x20 0x7F r && negb ((r =? 34) || (r =? 92) || (r =? 60) || (r =? 62) || (r =? 38)).

(** One element of [appendString] with HTML escaping: a rune and the bytes it
    was read from. *)
Definition write_rune (x : Z * bytes) : bytes :=
  let '(r, raw) := x in
  if r <? 0x80 then
    if html_safe r then raw
    else if (r =? 34) || (r =? 92) then Byte.x5c :: raw
    else if r =? 8 then to_bytes "\b" else if r =? 12 then to_bytes "\f"
    else if r =? 10 then to_bytes "\n" else if r =? 13 then to_bytes "\r"
    else if r =? 9 then to_bytes "\t" else unicode_escape r
  else if (r =? RuneError) && (len raw =? 1) then to_bytes "\ufffd"
  else if (r =? 0x2028) || (r =? 0x2029) then unicode_escape r
  else raw.

Definition string_text (s : string) : bytes :=
  Byte.x22 :: concat (map (λ x : Z * Z * bytes, write_rune (x.1.2, x.2)) (runes s)) ++ [Byte.x22].

Fixpoint commas (l : list bytes) : bytes :=
  match l with [] => [] | [x] => x | x :: l => x ++ Byte.x2c :: commas l end.

Fixpoint text (j : json) : bytes :=
  match j with
  | JNull => to_bytes "null"
  | JBool b => to_bytes (if b then "true" else "false")
  | JNumber lit => to_bytes lit
  | JString s => string_text s
  | JArray l => Byte.x5b :: commas (map text l) ++ [Byte.x5d]
  | JObject ms =>
      Byte.x7b :: commas (map (λ kj, string_text kj.1 ++ Byte.x3a :: text kj.2) ms) ++ [Byte.x7d]
  end.

(** The JSON value of what is marshalled.  [None] is an unsupported value: an
    infinity or a NaN; a [float32] and a [json.Number] are never decoded. *)
Fixpoint json_of_any (a : any) : option json :=
  match a with
  | ANil => Some JNull
  | ABool b => Some (JBool b)
  | AFloat64 f => JNumber <$> json_float f
  | AInt n | AInt64 n => Some (JNumber (pretty n))
  | AString s => Some (JString s)
  | ASlice l => JArray <$> mapM json_of_any l
  | AMap ms => JObject <$> mapM (λ ka, pair ka.1 <$> json_of_any ka.2) ms
  | AFloat32 _ | ANumber _ => None
  end.

(** [line, _ := json.Marshal(msg)], as a string: empty when it fails. *)
Definition json_Marshal (ms : list (string * any)) : string :=
  match json_of_any (AMap ms) with Some j => of_bytes (text j) | None => "" end.

(** A double quote, for texts in examples. *)
Definition dq : string := of_bytes [Byte.x22].
Definition quoted (s : string) : string := dq +:+ s +:+ dq.

Example scan_object :
  json_scan (to_bytes ("{ " +:+ quoted "a" +:+ ": [1, -2.5e3 ,true,null], " +:+ quoted "b" +:+ ":{} }")) =
  inl (JObject [("a", JArray [JNumber "1"; JNumber "-2.5e3"; JBool true; JNull]); ("b", JObject [])]%string).
Proof. vm_compute. reflexivity. Qed.
Example scan_escapes :
  json_scan (to_bytes (quoted "A\u00e9\ud83d\ude00\ud83dx\n\/")) =
  inl (JString (of_bytes (utf8_encode [65; 0xE9; 0x1F600; 0xFFFD; 120; 10; 47]))).
Proof. vm_compute. reflexivity. Qed.
Example scan_malformed : map (λ s, json_scan (to_bytes s))
    [""; "01"; "1."; "[1,]"; "{}x"; "nul"; "[1"; quoted "\x"; "- 1"; ".5"; "{a:1}"]%string =
  repeat (inr "invalid JSON"%string) 11.
Proof. vm_compute. reflexivity. Qed.
Example text_html : text (JObject [("k", JString "<a&b>"); ("n", JArray [JNumber "1"; JBool false])]%string) =
  to_bytes ("{" +:+ quoted "k" +:+ ":" +:+ quoted "\u003ca\u0026b\u003e" +:+ "," +:+ quoted "n" +:+ ":[1,false]}").
Proof. vm_compute. reflexivity. Qed.

(** ** Strings read back *)

Lemma scan_string_skip b t : scan_string (length b) (b ++ t) = scan_string 0 t.
Proof. induction b as [|c b IH]; [by destruct t|]. cbn. exact IH. Qed.

(** What scanning yields after a prefix that stands for [out]. *)
Definition prepend (out : bytes) (o : option (bytes * bytes)) : option (bytes * bytes) :=
  (λ sr, (out ++ sr.1, sr.2)) <$> o.

Lemma scan_plain c t : isb 34 c = false → isb 92 c = false → 0x20 <= byte.unsigned c < 0x80 →
  scan_string 0 (c :: t) = prepend [c] (scan_string 0 t).
Proof.
  intros H1 H2 [H3 H4]. cbn [scan_string]. rewrite H1, H2.
  destruct (Z.ltb_spec (byte.unsigned c) 0x20); [lia|].
  unfold DecodeRune. cbn [take map]. destruct (Z.ltb_spec (byte.unsigned c) 0x80); [|lia].
  change (1 - 1)%nat with 0%nat. replace (EncodeRune (byte.unsigned c)) with [c]; [by destruct (scan_string 0 t) as [[? ?]|]|].
  unfold EncodeRune. rewrite in_range_true by lia. cbn. by rewrite byte.of_Z_unsigned.
Qed.

Lemma scan_escape e out t : escape (e ++ t) = Some (out, length e) →
  scan_string 0 (Byte.x5c :: e ++ t) = prepend out (scan_string 0 t).
Proof.
  intros H. cbn [scan_string]. change (isb 34 Byte.x5c) with false. change (isb 92 Byte.x5c) with true.
  cbv iota. rewrite H. cbn [mbind option_bind]. rewrite scan_string_skip.
  by destruct (scan_string 0 t) as [[? ?]|].
Qed.

Lemma escape_unicode a b c d rr t : hex4 a b c d = Some rr → in_range 0xD800 0xDFFF rr = false →
  escape (Byte.x75 :: a :: b :: c :: d :: t) = Some (EncodeRune rr, 5%nat).
Proof.
  intros H1 H2. unfold escape. change (simple_escape Byte.x75) with (@None byte).
  change (isb 117 Byte.x75) with true. cbn [getu4]. rewrite H1. cbn [mbind option_bind]. by rewrite H2.
Qed.

(** Is [w] one of the three shapes [write_rune] has besides the raw bytes, and
    does it stand for [r]? *)
Definition stands_for (r : Z) (w : bytes) : bool :=
  match w with
  | [c] => bool_decide (EncodeRune r = [c]) && negb (isb 34 c) && negb (isb 92 c) &&
           in_range 0x20 0x7F (byte.unsigned c)
  | [s; c] => isb 92 s && bool_decide ((λ x, [x]) <$> simple_escape c = Some (EncodeRune r))
  | [s; u; a; b; c; d] =>
      isb 92 s && isb 117 u && bool_decide (hex4 a b c d = Some r) && negb (in_range 0xD800 0xDFFF r)
  | _ => false
  end.

Lemma isb_eq x c : isb x c = true → c = byte.of_Z x.
Proof. intros H%Z.eqb_eq. rewrite <- H. by rewrite byte.of_Z_unsigned. Qed.

Lemma scan_stands_for r w t : stands_for r w = true →
  scan_string 0 (w ++ t) = prepend (EncodeRune r) (scan_string 0 t).
Proof.
  destruct w as [|c1 [|c2 [|c3 [|c4 [|c5 [|c6 [|]]]]]]]; cbn [stands_for app]; try discriminate;
    rewrite !andb_true_iff, ?negb_true_iff, ?bool_decide_eq_true.
  - intros (((-> & H1) & H2) & H3). apply scan_plain; [done..|].
    unfold in_range in H3. apply andb_true_iff in H3. lia.
  - intros [->%isb_eq H]. apply fmap_Some in H as (x & Hx & ->). 
    apply (scan_escape [c2]). unfold escape. cbn [app]. by rewrite Hx.
  - intros (((->%isb_eq & ->%isb_eq) & H1) & H2).
    apply (scan_escape [Byte.x75; c3; c4; c5; c6]). by apply escape_unicode.
Qed.

Lemma write_rune_special r : 0 <= r < 0x80 ∨ r = 0x2028 ∨ r = 0x2029 →
  stands_for r (write_rune (r, EncodeRune r)) = true.
Proof.
  intros [H|[-> | ->]]; [|by vm_compute..]. revert r H.
  exact (below_forall 128 (λ r, stands_for r (write_rune (r, EncodeRune r))) ltac:(vm_compute; reflexivity)).
Qed.

(** A written rune reads back, whatever follows. *)
Lemma scan_written r t : scalar r →
  scan_string 0 (write_rune (r, EncodeRune r) ++ t) = prepend (EncodeRune r) (scan_string 0 t).
Proof.
  intros Hr. destruct (decide (0 <= r < 0x80 ∨ r = 0x2028 ∨ r = 0x2029)) as [H|H].
  { by apply scan_stands_for, write_rune_special. }
  pose proof Hr as [Hr0 _]. pose proof (EncodeRune_length r Hr) as Hl.
  assert (Hraw : write_rune (r, EncodeRune r) = EncodeRune r).
  { unfold write_rune. destruct (Z.ltb_spec r 0x80); [lia|].
    replace ((r =? RuneError) && (len (EncodeRune r) =? 1)) with false.
    2: { destruct (Z.eqb_spec r RuneError) as [->|]; [by vm_compute|done]. }
    destruct (Z.eqb_spec r 0x2028), (Z.eqb_spec r 0x2029); try lia. done. }
  rewrite Hraw. pose proof (DecodeRune_EncodeRune r t Hr) as Hd.
  destruct (EncodeRune r) as [|c b] eqn:E; [cbn in Hl; lia|]. cbn [app scan_string] in *.
  assert (Hc : 0x80 <= byte.unsigned c).
  { destruct (EncodeRune_bytes r c Hr) as [[? _]|[_ ?]]; [rewrite E; by left|lia|done]. }
  unfold isb. destruct (Z.eqb_spec (byte.unsigned c) 34), (Z.eqb_spec (byte.unsigned c) 92),
    (Z.ltb_spec (byte.unsigned c) 0x20); try lia.
  rewrite Hd. cbn [length Nat.sub]. rewrite Nat.sub_0_r, scan_string_skip, E.
  by destruct (scan_string 0 t) as [[? ?]|].
Qed.

(** So does a byte that is no UTF-8: as U+FFFD. *)
Lemma scan_written_rune x t : rune_ok x →
  scan_string 0 (write_rune x ++ t) = prepend (EncodeRune x.1) (scan_string 0 t).
Proof.
  destruct x as [r raw]. intros [[Hr He]|[He Hl]]; cbn [fst snd] in *; subst.
  - by apply scan_written.
  - assert (Hw : write_rune (RuneError, raw) = to_bytes "\ufffd").
    { unfold write_rune, len. rewrite Hl. reflexivity. }
    rewrite Hw. by apply scan_stands_for.
Qed.

Lemma scan_written_runes (xs : list (Z * Z * bytes)) t :
  Forall (λ x : Z * Z * bytes, rune_ok (x.1.2, x.2)) xs →
  scan_string 0 (concat (map (λ x : Z * Z * bytes, write_rune (x.1.2, x.2)) xs) ++ t) =
    prepend (utf8_encode (map (λ x : Z * Z * bytes, x.1.2) xs)) (scan_string 0 t).
Proof.
  induction 1 as [|x xs Hx _ IH]; [by cbn; destruct (scan_string 0 t) as [[? ?]|]|].
  cbn [map concat]. rewrite <- app_assoc, scan_written_rune, IH, utf8_encode_cons by done. unfold prepend.
  destruct (scan_string 0 t) as [[? ?]|]; [|done]. cbn. by rewrite app_assoc.
Qed.

(** A written string reads back, as the well-formed string it stands for. *)
Lemma scan_string_text s rest :
  ∃ body, string_text s = Byte.x22 :: body ∧ scan_string 0 (body ++ rest) = Some (to_bytes (to_valid s), rest).
Proof.
  eexists. split; [reflexivity|]. rewrite <- app_assoc, scan_written_runes by apply runes_ok.
  unfold to_valid. rewrite to_of_bytes.
  assert (Hq : scan_string 0 ([Byte.x22] ++ rest) = Some ([], rest)) by done.
  rewrite Hq. unfold prepend. cbn [fmap option_fmap option_map fst snd]. by rewrite app_nil_r.
Qed.

(** ** Numbers read back *)

(** What ends a number: nothing that could continue it. *)
Definition number_end (rest : bytes) : Prop :=
  match rest with [] => True | c :: _ => is_decimal c = false ∧ isb 46 c = false ∧ letter 101 c = false end.

(** A JSON number literal. *)
Definition number_lit (lit : bytes) : Prop :=
  (∃ c b, lit = c :: b ∧ (is_decimal c = true ∨ isb 45 c = true)) ∧
  ∀ rest, number_end rest → scan_number (lit ++ rest) = Some (lit, rest).

Lemma is_decimal_digit c d : digit c = Some d → is_decimal c = true.
Proof. intros H. unfold is_decimal. rewrite H. by apply bool_decide_eq_true. Qed.

Lemma digits_run_app m b v rest : digits m b = Some v →
  match rest with [] => True | c :: _ => is_decimal c = false end → digits_run (b ++ rest) = (b, rest).
Proof.
  intros Hv Hr. revert m Hv. unfold digits_run. induction b as [|c b IH]; intros m Hv.
  { destruct rest as [|c rest]; [done|]. cbn. by rewrite Hr. }
  cbn [digits] in Hv. destruct (digit c) as [d|] eqn:E; [|done]. cbn [app accept_run].
  rewrite (is_decimal_digit _ _ E). by rewrite (IH _ Hv).
Qed.

Lemma number_end_head rest : number_end rest →
  match rest with [] => True | c :: _ => is_decimal c = false end.
Proof. destruct rest; [done|]. by intros [? _]. Qed.

(** An exponent with at least one digit, of any size. *)
Definition exp_ok (ex : option (bool * bytes)) : Prop :=
  match ex with None => True | Some (_, b) => b ≠ [] ∧ is_Some (digits 0 b) end.

Lemma scan_exponent_text ex rest : exp_ok ex → number_end rest →
  scan_exponent (exp_text ex ++ rest) = Some (exp_text ex, rest).
Proof.
  intros He Hr. destruct ex as [[eneg b]|]; cbn [exp_text].
  - destruct He as [Hne [e1 Hd]]. destruct b as [|c b]; [done|].
    cbn [app scan_exponent]. change (letter 101 Byte.x65) with true. cbv iota.
    assert (Hs : accept is_sign ((if eneg then Byte.x2d else Byte.x2b) :: c :: b ++ rest) =
      Some (if eneg then Byte.x2d else Byte.x2b, c :: b ++ rest)) by by destruct eneg.
    rewrite Hs. cbn [digits] in Hd. destruct (digit c) as [d|] eqn:E; [|done].
    cbn [is_decimal_head]. rewrite (is_decimal_digit _ _ E).
    change (c :: b ++ rest) with ((c :: b) ++ rest).
    rewrite (digits_run_app 0 (c :: b) e1); [done| |by apply number_end_head].
    cbn [digits]. by rewrite E.
  - cbn [app]. destruct rest as [|c rest]; [done|]. destruct Hr as (_ & _ & Hl). cbn. by rewrite Hl.
Qed.

Lemma exp_text_head ex rest : number_end rest →
  match exp_text ex ++ rest with [] => True | c :: _ => is_decimal c = false ∧ isb 46 c = false end.
Proof. destruct ex as [[[] ?]|]; [done..|]. destruct rest; [done|]. intros (? & ? & _). done. Qed.

Lemma scan_fraction_text fp i v t : digits i fp = Some v →
  match t with [] => True | c :: _ => is_decimal c = false ∧ isb 46 c = false end →
  scan_fraction (frac_text fp ++ t) = Some (frac_text fp, t).
Proof.
  intros Hv Ht. destruct fp as [|c fp]; cbn [frac_text app].
  - destruct t as [|c t]; [done|]. destruct Ht as [_ Ht]. cbn. by rewrite Ht.
  - cbn [scan_fraction]. change (isb 46 Byte.x2e) with true. cbv iota.
    pose proof Hv as Hv'. cbn [digits] in Hv'. destruct (digit c) as [d|] eqn:E; [|done].
    cbn [is_decimal_head]. rewrite (is_decimal_digit _ _ E).
    change (c :: fp ++ t) with ((c :: fp) ++ t).
    rewrite (digits_run_app i (c :: fp) v); [done..|]. destruct t; [done|]. apply Ht.
Qed.

(** The decimal literals of [Strconv] are JSON numbers when the integer part has
    no leading zero. *)
Lemma decimal_text_number neg ip fp ex i v :
  digits 0 ip = Some i → digits i fp = Some v → exp_ok ex →
  (∃ c b, ip = c :: b ∧ (b = [] ∨ isb 48 c = false)) →
  number_lit (decimal_text neg ip fp ex).
Proof.
  intros Hi Hv He (c & b & -> & Hz). pose proof Hi as Hi'. cbn [digits] in Hi'.
  destruct (digit c) as [d|] eqn:E; [|done]. pose proof (is_decimal_digit _ _ E) as Hd.
  split.
  { destruct neg; [by eexists _, _; split; [reflexivity|right]|].
    eexists c, _. split; [reflexivity|by left]. }
  intros rest Hr. unfold decimal_text, scan_number. rewrite <- !app_assoc.
  set (t := exp_text ex ++ rest).
  pose proof (exp_text_head ex rest Hr) as Ht. fold t in Ht.
  assert (Hsg : match accept (isb 45) (sign_text neg ++ (c :: b) ++ frac_text fp ++ t) with
      | Some (s, b) => ([s], b) | None => ([], sign_text neg ++ (c :: b) ++ frac_text fp ++ t) end =
    (sign_text neg, (c :: b) ++ frac_text fp ++ t)).
  { destruct neg; [done|]. cbn. by rewrite (isb_digit _ _ _ E) by lia. }
  rewrite Hsg. assert (Hint : scan_int ((c :: b) ++ frac_text fp ++ t) = Some (c :: b, frac_text fp ++ t)).
  { cbn [app scan_int]. destruct (isb 48 c) eqn:E0.
    - by destruct Hz as [->|].
    - rewrite Hd. change (c :: b ++ frac_text fp ++ t) with ((c :: b) ++ frac_text fp ++ t).
      rewrite (digits_run_app 0 (c :: b) i); [done..|]. destruct fp; [|done]. cbn [frac_text app].
      destruct t; [done|]. apply Ht. }
  rewrite Hint. cbn [mbind option_bind]. rewrite (scan_fraction_text fp i v t Hv Ht). cbn [mbind option_bind].
  unfold t. rewrite (scan_exponent_text ex rest He Hr). cbn [mbind option_bind]. done.
Qed.

Lemma number_lit_int (n : Z) : number_lit (to_bytes (pretty n)).
Proof.
  rewrite pretty_Z_text. apply decimal_text_number with (Z.of_N (abs_N n)) (Z.of_N (abs_N n)); try done.
  - apply digits_pretty_N.
  - destruct (to_bytes (pretty (abs_N n))) as [|c b] eqn:E; [by apply pretty_N_bytes_ne in E|].
    exists c, b. split; [done|]. by eapply pretty_N_first.
Qed.

Lemma number_lit_format neg c k : 0 < c → number_lit (format_float neg (c, k)).
Proof.
  intros Hc. destruct (pretty_pos_bytes c Hc) as (x & b & Hds & Hx & Hd).
  unfold format_float. destruct (_ || _).
  - unfold format_e. rewrite Hds. destruct (digits_take_drop 1 0 (x :: b) c Hd) as (i & H1 & H2).
    eapply decimal_text_number; [exact H1|exact H2| |exists x, []; split; [done|by left]].
    rewrite pretty_nonneg by lia. split; [apply pretty_N_bytes_ne|]. rewrite digits_pretty_N. by eexists.
  - unfold format_f. rewrite Hds. set (dp := len (x :: b) + k). destruct (Z.leb_spec dp 0).
    + eapply decimal_text_number; [reflexivity| |exact I|eexists _, []; split; [reflexivity|by left]].
      unfold zeros. rewrite digits_app, digits_zeros. cbn [mbind option_bind]. rewrite Z.mul_0_l. exact Hd.
    + destruct (Z.leb_spec (len (x :: b)) dp).
      * eapply decimal_text_number; [|reflexivity|exact I|eexists x, _; split; [reflexivity|by right]].
        rewrite digits_app, Hd. cbn [mbind option_bind]. apply digits_zeros.
      * destruct (digits_take_drop (Z.to_nat dp) 0 (x :: b) c Hd) as (i & H1 & H2).
        eapply decimal_text_number; [exact H1|exact H2|exact I|].
        destruct (Z.to_nat dp) as [|n] eqn:En; [lia|]. exists x, (take n b). split; [done|by right].
Qed.

Lemma number_lit_float f s : json_float f = Some s → number_lit (to_bytes s).
Proof.
  unfold json_float. destruct (spec_of_bits f) as [neg| | |neg m e]; try done.
  - intros [= <-]. destruct neg.
    + by apply (decimal_text_number true [Byte.x30] [] None 0 0); eauto.
    + by apply (decimal_text_number false [Byte.x30] [] None 0 0); eauto.
  - intros ([c k] & Hs & ->)%fmap_Some. apply shortest_loop_reads in Hs.
    apply andb_true_iff in Hs as [Hs _]. rewrite to_of_bytes. apply number_lit_format. cbn in Hs. lia.
Qed.

(** A JSON number is never one of the special names. *)
Lemma number_lit_special lit : number_lit lit → special lit = None.
Proof.
  intros [_ H]. specialize (H [] I). rewrite app_nil_r in H. unfold scan_number in H.
  assert (Hd : ∀ b x rest, scan_int b = Some (x, rest) → ∃ c d b', b = c :: b' ∧ digit c = Some d).
  { intros [|c b] x rest; cbn; [done|]. destruct (isb 48 c) eqn:E0.
    - intros _. apply Z.eqb_eq in E0. exists c, 0, b. split; [done|]. unfold digit. by rewrite E0.
    - unfold is_decimal. destruct (digit c) as [d|] eqn:E; [|by rewrite bool_decide_false by by intros [? [=]]].
      intros _. by exists c, d, b. }
  destruct lit as [|c lit]; [done|]. cbn [accept] in H. destruct (isb 45 c) eqn:E.
  - destruct (scan_int lit) as [[ip r]|] eqn:Ei; [|done]. apply Hd in Ei as (c' & d & b' & -> & Hc').
    assert (c = Byte.x2d) as -> by (apply Z.eqb_eq in E; by apply byte.unsigned_inj).
    exact (special_text true c' d b' Hc').
  - destruct (scan_int (c :: lit)) as [[ip r]|] eqn:Ei; [|done]. apply Hd in Ei as (c' & d & b' & Heq & Hc').
    injection Heq as -> ->. exact (special_text false c' d b' Hc').
Qed.

(** ** What is written reads back *)

(** A value that can be written inside [depth] open brackets and read again:
    number literals, and no more brackets than the scanner allows. *)
Fixpoint writable (depth : Z) (j : json) : Prop :=
  match j with
  | JNull | JBool _ | JString _ => True
  | JNumber lit => number_lit (to_bytes lit)
  | JArray l => depth + 1 <= maxNestingDepth ∧ foldr (λ j P, writable (depth + 1) j ∧ P) True l
  | JObject ms =>
      depth + 1 <= maxNestingDepth ∧
      foldr (λ kj P, writable (depth + 1) kj.2 ∧ P) True ms
  end.

(** What it is read as: every string well formed. *)
Fixpoint json_valid (j : json) : json :=
  match j with
  | JString s => JString (to_valid s)
  | JArray l => JArray (map json_valid l)
  | JObject ms => JObject (map (λ kj, (to_valid kj.1, json_valid kj.2)) ms)
  | _ => j
  end.

(** Every string of the value is well formed. *)
Fixpoint json_utf8 (j : json) : Prop :=
  match j with
  | JString s => valid_utf8 s
  | JArray l => foldr (λ j P, json_utf8 j ∧ P) True l
  | JObject ms => foldr (λ kj P, (valid_utf8 kj.1 ∧ json_utf8 kj.2) ∧ P) True ms
  | _ => True
  end.

Lemma foldr_Forall {A} (P : A → Prop) l : foldr (λ a Q, P a ∧ Q) True l ↔ Forall P l.
Proof.
  induction l as [|a l IH]; cbn; [split; [constructor|done]|]. by rewrite Forall_cons, IH.
Qed.

Lemma json_valid_id j : json_utf8 j → json_valid j = j.
Proof.
  induction j as [|b|lit|s|l IH|ms IH] using json_nested_ind; cbn; intros H; try done.
  - by rewrite to_valid_id.
  - f_equal. apply foldr_Forall in H. induction IH as [|j l Hj _ IHl]; [done|].
    apply Forall_cons in H as [H1 H2]. cbn. rewrite Hj by done. by rewrite IHl.
  - f_equal. apply foldr_Forall in H. induction IH as [|[k j] ms Hj _ IHl]; [done|].
    apply Forall_cons in H as [[Hk H1] H2]. cbn [fst snd map] in *.
    by rewrite Hj, to_valid_id, IHl.
Qed.

Lemma skip_ws_head c b : is_space c = false → skip_ws (c :: b) = c :: b.
Proof. intros H. cbn. by rewrite H. Qed.

Lemma isb_other x y c : isb x c = true → x ≠ y → isb y c = false.
Proof. unfold isb. intros H%Z.eqb_eq Hn. apply Z.eqb_neq. lia. Qed.

(** The first byte of a number is none of those that start something else. *)
Definition number_head (c : byte) : Prop :=
  is_space c = false ∧ Forall (λ x, isb x c = false) [123; 91; 34; 116; 102; 110; 93; 125; 44].

Lemma number_head_ok c : is_decimal c = true ∨ isb 45 c = true → number_head c.
Proof.
  intros H. assert (Hr : 45 <= byte.unsigned c <= 57).
  { destruct H as [H|H]; [|unfold isb in H; lia]. unfold is_decimal in H.
    apply bool_decide_eq_true in H as [d Hd]. apply digit_Some in Hd. lia. }
  assert (Hb : ∀ x, (x < 45 ∨ 57 < x) → isb x c = false) by (intros x Hx; apply Z.eqb_neq; lia).
  split; [unfold is_space; by rewrite !Hb by lia|].
  repeat (apply Forall_cons_2; [apply Hb; lia|]). apply Forall_nil_2.
Qed.

Lemma scan_number_value fuel d lit rest : number_lit lit → number_end rest →
  scan_value (S fuel) d (lit ++ rest) = Parsed (JNumber (of_bytes lit)) rest.
Proof.
  intros [(c & b & -> & Hc) Hs] Hr. specialize (Hs rest Hr). apply number_head_ok in Hc as [Hsp Hh].
  cbn [app scan_value] in *. rewrite skip_ws_head by done. rewrite Hs.
  repeat (apply Forall_cons in Hh as [Hx Hh]; rewrite Hx; clear Hx). done.
Qed.

Lemma scan_string_value fuel d s rest :
  scan_value (S fuel) d (string_text s ++ rest) = Parsed (JString (to_valid s)) rest.
Proof.
  destruct (scan_string_text s rest) as (body & -> & Hb).
  cbn [app scan_value]. rewrite skip_ws_head by done.
  change (isb 123 Byte.x22) with false. change (isb 91 Byte.x22) with false.
  change (isb 34 Byte.x22) with true. cbv iota. rewrite Hb. cbn [of_option pbind]. by rewrite of_to_bytes.
Qed.

(** No value starts like the end of an array. *)
Lemma text_head d j : writable d j → ∃ c t, text j = c :: t ∧ is_space c = false ∧ isb 93 c = false.
Proof.
  destruct j as [|[]|lit|s|l|ms]; cbn [text writable]; intros H;
    try (eexists _, _; split; [reflexivity|done]).
  destruct H as [(c & b & -> & Hc) _]. apply number_head_ok in Hc as [Hsp Hh].
  exists c, b. split; [done|]. split; [done|]. rewrite Forall_forall in Hh. apply Hh. set_solver.
Qed.

Definition reads_back (depth : Z) (j : json) : Prop :=
  ∀ fuel rest, number_end rest → (2 * length (text j ++ rest) + 1 <= fuel)%nat →
    scan_value fuel depth (text j ++ rest) = Parsed (json_valid j) rest.

Lemma number_end_delim c rest : isb 44 c = true ∨ isb 93 c = true ∨ isb 125 c = true → number_end (c :: rest).
Proof. intros [H|[H|H]]; apply isb_eq in H as ->; done. Qed.

Lemma scan_elements_text depth l rest : l ≠ [] → Forall (reads_back depth) l →
  ∀ fuel, (2 * length (commas (map text l) ++ Byte.x5d :: rest) + 2 <= fuel)%nat →
  scan_elements fuel depth (commas (map text l) ++ Byte.x5d :: rest) = Parsed (map json_valid l) rest.
Proof.
  intros Hne Hl. induction Hl as [|j l Hj Hl IH]; [done|]. intros fuel Hf.
  destruct fuel as [|fuel]; [lia|]. cbn [scan_elements]. destruct l as [|j2 l].
  - cbn [map commas] in *. rewrite Hj; [done|done|lia].
  - change (commas (map text (j :: j2 :: l))) with (text j ++ Byte.x2c :: commas (map text (j2 :: l))) in *.
    rewrite <- app_assoc in *. cbn [app] in *. rewrite Hj; [|by apply number_end_delim; left|lia].
    cbn [pbind]. rewrite skip_ws_head by done. change (isb 44 Byte.x2c) with true. cbv iota.
    rewrite length_app in Hf. cbn [length] in Hf. rewrite IH; [done|done|]. lia.
Qed.

Definition member_text (kj : string * json) : bytes := string_text kj.1 ++ Byte.x3a :: text kj.2.

Lemma scan_members_text depth ms rest : ms ≠ [] →
  Forall (λ kj : string * json, reads_back depth kj.2) ms →
  ∀ fuel, (2 * length (commas (map member_text ms) ++ Byte.x7d :: rest) + 2 <= fuel)%nat →
  scan_members fuel depth (commas (map member_text ms) ++ Byte.x7d :: rest) =
    Parsed (map (λ kj, (to_valid kj.1, json_valid kj.2)) ms) rest.
Proof.
  intros Hne Hl. induction Hl as [|[k j] ms Hj Hl IH]; [done|]. intros fuel Hf. cbn [fst snd] in Hj.
  destruct fuel as [|fuel]; [lia|].
  assert (Hm : ∃ tail, commas (map member_text ((k, j) :: ms)) ++ Byte.x7d :: rest =
      string_text k ++ Byte.x3a :: text j ++ tail ∧
      tail = match ms with [] => Byte.x7d :: rest
             | _ => Byte.x2c :: commas (map member_text ms) ++ Byte.x7d :: rest end).
  { eexists. split; [|reflexivity]. destruct ms as [|m2 ms].
    - cbn [map commas]. unfold member_text. cbn [fst snd]. by rewrite <- app_assoc.
    - change (commas (map member_text ((k, j) :: m2 :: ms)))
        with (member_text (k, j) ++ Byte.x2c :: commas (map member_text (m2 :: ms))).
      unfold member_text at 1. cbn [fst snd]. by rewrite <- !app_assoc. }
  destruct Hm as (tail & Hm & Ht). rewrite Hm in *. cbn [scan_members].
  destruct (scan_string_text k (Byte.x3a :: text j ++ tail)) as (body & Hb & Hs).
  rewrite Hb in *. cbn [app] in *. rewrite skip_ws_head by done. change (isb 34 Byte.x22) with true. cbv iota.
  rewrite Hs. cbn [of_option pbind]. rewrite skip_ws_head by done. change (isb 58 Byte.x3a) with true. cbv iota.
  cbn [length] in Hf. rewrite length_app in Hf. cbn [length] in Hf. rewrite length_app in Hf.
  rewrite Hj; [|subst tail; destruct ms; by apply number_end_delim; auto|rewrite length_app; lia].
  cbn [pbind]. rewrite of_to_bytes. subst tail. destruct ms as [|m2 ms]; rewrite skip_ws_head by done.
  - done.
  - change (isb 44 Byte.x2c) with true. cbv iota. rewrite IH; [done|done|].
    cbn [length] in Hf. lia.
Qed.

Lemma text_reads_back j : ∀ depth, writable depth j → reads_back depth j.
Proof.
  induction j as [|b|lit|s|l IH|ms IH] using json_nested_ind; intros depth Hw fuel rest Hr Hf;
    (destruct fuel as [|fuel]; [lia|]); cbn [text writable] in *.
  - done.
  - by destruct b.
  - by rewrite scan_number_value, of_to_bytes.
  - apply scan_string_value.
  - destruct Hw as [Hd Hl]. apply foldr_Forall in Hl.
    cbn [app scan_value] in *. rewrite skip_ws_head by done. rewrite <- app_assoc in *. cbn [app] in *.
    change (isb 123 Byte.x5b) with false. change (isb 91 Byte.x5b) with true. cbv iota.
    destruct (Z.ltb_spec maxNestingDepth (depth + 1)); [lia|].
    destruct l as [|j l]; [done|].
    assert (Hh : ∃ c t, commas (map text (j :: l)) ++ Byte.x5d :: rest = c :: t ∧
      is_space c = false ∧ isb 93 c = false).
    { apply Forall_cons in Hl as [Hj _]. destruct (text_head _ _ Hj) as (c & t & Et & Hc & Hc2).
      destruct l as [|j2 l]; cbn [map commas]; rewrite Et; eexists c, _; by split. }
    destruct Hh as (c & t & Et & Hc & Hc2). rewrite Et, skip_ws_head, Hc2, <- Et by done.
    rewrite scan_elements_text; [done|done| |].
    + eapply Forall_impl; [apply Forall_and; split; [exact IH|exact Hl]|]. cbn. intros j' [H1 H2]. by apply H1.
    + cbn [length] in Hf. lia.
  - destruct Hw as [Hd Hl]. apply foldr_Forall in Hl.
    cbn [app scan_value] in *. rewrite skip_ws_head by done. rewrite <- app_assoc in *. cbn [app] in *.
    change (isb 123 Byte.x7b) with true. cbv iota.
    destruct (Z.ltb_spec maxNestingDepth (depth + 1)); [lia|].
    destruct ms as [|[k j] ms]; [done|].
    change (λ kj : string * json, string_text kj.1 ++ Byte.x3a :: text kj.2) with member_text in *.
    assert (Hh : ∃ t, commas (map member_text ((k, j) :: ms)) ++ Byte.x7d :: rest = Byte.x22 :: t).
    { destruct ms as [|m2 ms]; eexists; reflexivity. }
    destruct Hh as (t & Et). rewrite Et, skip_ws_head by done. change (isb 125 Byte.x22) with false. cbv iota.
    rewrite <- Et. rewrite scan_members_text; [done|done| |].
    + eapply Forall_impl; [apply Forall_and; split; [exact IH|exact Hl]|]. cbn.
      intros [k' j'] [H1 H2]. by apply H1.
    + cbn [length] in Hf. lia.
Qed.

(** Scanning a written value gives the value, its strings made well formed. *)
Lemma json_scan_text_valid j : writable 0 j → json_scan (text j) = inl (json_valid j).
Proof.
  intros Hw. unfold json_scan. pose proof (text_reads_back j 0 Hw (scan_fuel (text j)) []) as H.
  rewrite app_nil_r in H. by rewrite H.
Qed.

Lemma json_scan_text j : writable 0 j → json_utf8 j → json_scan (text j) = inl j.
Proof. intros H1 H2. by rewrite json_scan_text_valid, json_valid_id. Qed.
