(* ===== verification/JsonRescan.v ===== *)
(** * JsonRescan: what is scanned can be written

    A value read from a JSON text is one the printer can write and the scanner
    then reads again, whatever the text was. *)
From S2P Require Import Prelude Float GoLib Utf8 Strconv Json JsonScan JsonText.
From stdpp Require Import pretty.
Open Scope Z_scope.

Lemma scalar_RuneError : scalar RuneError.
Proof. unfold scalar, RuneError. lia. Qed.

Lemma byte_EncodeRune c : byte.unsigned c < 0x80 → [c] = utf8_encode [byte.unsigned c].
Proof.
  intros H. pose proof (byte.unsigned_range c). cbn. unfold EncodeRune. rewrite in_range_true by lia.
  cbn. by rewrite byte.of_Z_unsigned.
Qed.

(** An escape stands for one scalar value. *)
Lemma escape_scalar b out n : escape b = Some (out, n) → ∃ r, scalar r ∧ out = EncodeRune r.
Proof.
  destruct b as [|c b]; [done|]. unfold escape. destruct (simple_escape c) as [x|] eqn:Es.
  { intros [= <- _]. exists (byte.unsigned x).
    assert (Hx : byte.unsigned x < 0x80).
    { unfold simple_escape in Es. repeat case_match; simplify_eq; cbn; lia. }
    pose proof (byte.unsigned_range x). split; [unfold scalar; lia|].
    pose proof (byte_EncodeRune x Hx) as He. cbn in He. by rewrite app_nil_r in He. }
  destruct (isb 117 c); [|done]. destruct (getu4 b) as [rr|]; [|done]. cbn [mbind option_bind].
  assert (Hok : ∀ r, ∃ r', scalar r' ∧ EncodeRune r = EncodeRune r').
  { intros r. exists (to_scalar r). split; [apply to_scalar_scalar|apply EncodeRune_to_scalar]. }
  repeat case_match; intros; simplify_eq; apply Hok.
Qed.

Lemma scan_string_valid b : ∀ k s rest, scan_string k b = Some (s, rest) → valid_utf8 (of_bytes s).
Proof.
  induction b as [|c b IH]; intros k s rest; cbn [scan_string]; [done|].
  assert (Hcons : ∀ r t, (∃ r', scalar r' ∧ EncodeRune r = EncodeRune r') → valid_utf8 (of_bytes t) →
    valid_utf8 (of_bytes (EncodeRune r ++ t))).
  { intros r t (r' & Hr & ->) (rs & Hrs & Ht). rewrite to_of_bytes in Ht. exists (r' :: rs).
    rewrite to_of_bytes, Ht. split; [by constructor|done]. }
  destruct k as [|k]; [|apply IH]. destruct (isb 34 c); [intros [= <- _]; apply valid_utf8_empty|].
  destruct (isb 92 c).
  - destruct (escape b) as [[out n]|] eqn:Ee; [|done]. cbn.
    destruct (scan_string n b) as [[s' r']|] eqn:E; [|done]. intros [= <- _].
    apply escape_scalar in Ee as (r & Hr & ->). apply Hcons; [by exists r|by eapply IH].
  - destruct (_ <? _); [done|]. destruct (DecodeRune _) as [r w].
    destruct (scan_string (w - 1) b) as [[s' r']|] eqn:E; [|done]. intros [= <- _].
    apply Hcons; [|by eapply IH]. exists (to_scalar r).
    split; [apply to_scalar_scalar|apply EncodeRune_to_scalar].
Qed.

(** A piece of a number that reads the same in front of anything that ends it. *)
Lemma digits_run_all b t r : digits_run b = (t, r) → Forall (λ c, is_decimal c = true) t.
Proof.
  unfold digits_run. revert t r. induction b as [|c b IH]; intros t r; cbn; [by intros [= <- _]|].
  destruct (is_decimal c) eqn:E; [|by intros [= <- _]].
  destruct (accept_run is_decimal b) as [t' r']. intros [= <- _]. constructor; [done|by eapply IH].
Qed.

Lemma digits_run_again t rest : Forall (λ c, is_decimal c = true) t →
  match rest with [] => True | c :: _ => is_decimal c = false end → digits_run (t ++ rest) = (t, rest).
Proof.
  intros Ht Hr. unfold digits_run. induction Ht as [|c t Hc _ IH]; cbn.
  - destruct rest as [|c rest]; [done|]. cbn. by rewrite Hr.
  - by rewrite Hc, IH.
Qed.

Lemma head_decimal b t r : is_decimal_head b = true → digits_run b = (t, r) →
  ∃ c t', t = c :: t' ∧ is_decimal c = true.
Proof.
  destruct b as [|c b]; [done|]. cbn. intros Hc. unfold digits_run. cbn. rewrite Hc.
  destruct (accept_run is_decimal b) as [t' r']. intros [= <- _]. eauto.
Qed.

Definition frac_end (rest : bytes) : Prop :=
  match rest with [] => True | c :: _ => is_decimal c = false ∧ isb 46 c = false end.

Lemma scan_int_again b ip r rest : scan_int b = Some (ip, r) → (isb 48 (default Byte.x30 (head ip)) = true ∨
    match rest with [] => True | c :: _ => is_decimal c = false end) →
  scan_int (ip ++ rest) = Some (ip, rest).
Proof.
  destruct b as [|c b]; [done|]. cbn [scan_int]. destruct (isb 48 c) eqn:E0.
  { intros [= <- _] _. cbn. by rewrite E0. }
  destruct (is_decimal c) eqn:Ed; [|done]. destruct (digits_run (c :: b)) as [t r'] eqn:Er.
  intros [= -> ->] Hrest. pose proof (digits_run_all _ _ _ Er) as Hall.
  unfold digits_run in Er. cbn in Er. rewrite Ed in Er.
  destruct (accept_run is_decimal b) as [t' r'']. injection Er as <- _.
  cbn [app scan_int]. rewrite E0, Ed. f_equal.
  apply (digits_run_again (c :: t')); [done|]. destruct Hrest as [H|H]; [|done]. cbn in H. congruence.
Qed.

Lemma scan_fraction_again b fp r rest : scan_fraction b = Some (fp, r) → frac_end rest →
  scan_fraction (fp ++ rest) = Some (fp, rest).
Proof.
  intros H Hr. destruct fp as [|c fp].
  { destruct rest as [|c rest]; [done|]. destruct Hr as [_ Hr]. cbn. by rewrite Hr. }
  destruct b as [|c' b]; [done|]. cbn [scan_fraction] in H. destruct (isb 46 c') eqn:E; [|done].
  destruct (is_decimal_head b) eqn:Eh; [|done]. destruct (digits_run b) as [t r'] eqn:Er.
  injection H as -> -> <-. destruct (head_decimal _ _ _ Eh Er) as (d & t' & Ht & Hd).
  pose proof (digits_run_all _ _ _ Er) as Hall. cbn [app scan_fraction]. rewrite E.
  replace (is_decimal_head (fp ++ rest)) with true by (by rewrite Ht).
  rewrite digits_run_again; [done|done|]. destruct rest; [done|]. apply Hr.
Qed.

Lemma scan_exponent_again b ex r rest : scan_exponent b = Some (ex, r) → number_end rest →
  scan_exponent (ex ++ rest) = Some (ex, rest) ∧ (ex ≠ [] → frac_end (ex ++ rest)).
Proof.
  intros H Hr. destruct ex as [|c ex].
  { split; [|done]. destruct rest as [|c rest]; [done|]. destruct Hr as (_ & _ & Hr). cbn. by rewrite Hr. }
  destruct b as [|c' b]; [done|]. cbn [scan_exponent] in H. destruct (letter 101 c') eqn:E; [|done].
  assert (Hsg : ∃ sg b', match accept is_sign b with Some (s, b') => ([s], b') | None => ([], b) end = (sg, b') ∧
    (sg = [] ∨ ∃ s, sg = [s] ∧ is_sign s = true)).
  { destruct b as [|s b]; [by exists [], []; split; [|left]|]. cbn. destruct (is_sign s) eqn:Es.
    - exists [s], b. split; [done|right]. by exists s.
    - by exists [], (s :: b); split; [|left]. }
  destruct Hsg as (sg & b' & Hsg & Hs). rewrite Hsg in H.
  destruct (is_decimal_head b') eqn:Eh; [|done]. destruct (digits_run b') as [t r'] eqn:Er.
  injection H as -> <- <-. destruct (head_decimal _ _ _ Eh Er) as (d & t' & Ht & Hd).
  pose proof (digits_run_all _ _ _ Er) as Hall.
  assert (Hrest : match rest with [] => True | c :: _ => is_decimal c = false end) by (by apply number_end_head).
  split.
  - cbn [app scan_exponent]. rewrite E. rewrite <- app_assoc.
    assert (Hsg' : match accept is_sign (sg ++ t ++ rest) with Some (s, b') => ([s], b') | None => ([], sg ++ t ++ rest) end
      = (sg, t ++ rest)).
    { destruct Hs as [->|(s & -> & Hs)]; cbn; [|by rewrite Hs]. rewrite Ht. cbn.
      replace (is_sign d) with false; [done|]. unfold is_decimal in Hd.
      apply bool_decide_eq_true in Hd as [x Hx]. unfold is_sign. by rewrite !(isb_digit _ _ _ Hx) by lia. }
    rewrite Hsg'. replace (is_decimal_head (t ++ rest)) with true by (by rewrite Ht).
    by rewrite digits_run_again.
  - intros _. cbn. unfold letter in E. split.
    + unfold is_decimal. apply bool_decide_eq_false. intros [x Hx%digit_Some]. lia.
    + unfold isb. lia.
Qed.

Lemma scan_number_lit b lit rest : scan_number b = Some (lit, rest) → number_lit lit.
Proof.
  unfold scan_number.
  assert (Hs : ∃ sg b', match accept (isb 45) b with Some (s, b) => ([s], b) | None => ([], b) end = (sg, b') ∧
    (sg = [] ∨ ∃ s, sg = [s] ∧ isb 45 s = true)).
  { destruct b as [|c b]; [by exists [], []; split; [|left]|]. cbn. destruct (isb 45 c) eqn:E.
    - exists [c], b. split; [done|right]. by exists c.
    - by exists [], (c :: b); split; [|left]. }
  destruct Hs as (sg & b0 & Hsg & Hs). rewrite Hsg.
  destruct (scan_int b0) as [[ip b1]|] eqn:E1; [|done]. cbn.
  destruct (scan_fraction b1) as [[fp b2]|] eqn:E2; [|done]. cbn.
  destruct (scan_exponent b2) as [[ex b3]|] eqn:E3; [|done]. cbn. intros [= <- _].
  assert (Hip : ∃ c t, ip = c :: t ∧ is_decimal c = true).
  { destruct b0 as [|c b0]; [done|]. cbn [scan_int] in E1. destruct (isb 48 c) eqn:E0.
    - injection E1 as <- _. exists c, []. split; [done|]. apply isb_eq in E0 as ->. by vm_compute.
    - destruct (is_decimal c) eqn:Ed; [|done]. injection E1 as E1.
      by apply (head_decimal (c :: b0) ip b1). }
  destruct Hip as (c & t & Hip & Hc). split.
  { destruct Hs as [->|(s & -> & Hs)]; [rewrite Hip; by eexists _, _; split; [|left]|].
    by eexists _, _; split; [|right]. }
  intros rest' Hr. rewrite <- !app_assoc.
  destruct (scan_exponent_again _ _ _ rest' E3 Hr) as [Hex Hexh].
  assert (Hfe : frac_end (ex ++ rest')).
  { destruct ex as [|x ex]; [|by apply Hexh]. destruct rest'; [done|]. destruct Hr as (? & ? & _). done. }
  pose proof (scan_fraction_again _ _ _ _ E2 Hfe) as Hfr.
  assert (Hie : match fp ++ ex ++ rest' with [] => True | c :: _ => is_decimal c = false end).
  { destruct fp as [|x fp]; [destruct (ex ++ rest'); [done|apply Hfe]|].
    destruct b1 as [|y b1]; [done|]. cbn in E2. destruct (isb 46 y) eqn:E; [|done].
    destruct (is_decimal_head b1); [|done]. destruct (digits_run b1). injection E2 as -> _ _. cbn.
    apply isb_eq in E as ->. by vm_compute. }
  pose proof (scan_int_again _ _ _ _ E1 (or_intror Hie)) as Hin.
  assert (Hsg' : match accept (isb 45) (sg ++ ip ++ fp ++ ex ++ rest') with
      Some (s, b) => ([s], b) | None => ([], sg ++ ip ++ fp ++ ex ++ rest') end = (sg, ip ++ fp ++ ex ++ rest')).
  { destruct Hs as [->|(s & -> & Hs)]; cbn; [|by rewrite Hs]. rewrite Hip. cbn.
    unfold is_decimal in Hc. apply bool_decide_eq_true in Hc as [x Hx].
    by rewrite (isb_digit _ _ _ Hx) by lia. }
  unfold scan_number. rewrite Hsg', Hin. cbn. rewrite Hfr. cbn. rewrite Hex. cbn. done.
Qed.

Definition scanned_ok (depth : Z) (j : json) : Prop := writable depth j ∧ json_utf8 j.

Lemma scanned_writable fuel :
  (∀ d b j rest, scan_value fuel d b = Parsed j rest → scanned_ok d j) ∧
  (∀ d b l rest, scan_elements fuel d b = Parsed l rest → Forall (scanned_ok d) l) ∧
  (∀ d b ms rest, scan_members fuel d b = Parsed ms rest →
    Forall (λ kj : string * json, valid_utf8 kj.1 ∧ scanned_ok d kj.2) ms).
Proof.
  induction fuel as [|fuel (IHv & IHe & IHm)]; [done|].
  split; [|split]; intros d b a rest H; cbn [scan_value scan_elements scan_members] in H; scan_inv;
    repeat match goal with
    | H : scan_value _ _ _ = Parsed _ _ |- _ => apply IHv in H
    | H : scan_elements _ _ _ = Parsed _ _ |- _ => apply IHe in H
    | H : scan_members _ _ _ = Parsed _ _ |- _ => apply IHm in H
    | H : scan_string _ _ = Some _ |- _ => apply scan_string_valid in H
    | H : scan_number _ = Some _ |- _ => apply scan_number_lit in H
    | H : (_ <? _) = false |- _ => apply Z.ltb_ge in H
    end; eauto;
    unfold scanned_ok; cbn [writable json_utf8 foldr]; rewrite ?foldr_Forall, ?to_of_bytes; try done;
    (split; [split; [done|]|]); (eapply Forall_impl; [eassumption|]); unfold scanned_ok; cbn; tauto.
Qed.

(** Whatever text is scanned, writing the value and scanning it again changes
    nothing: strings come out as well-formed UTF-8 and numbers as literals. *)
Lemma json_scan_writable b j : json_scan b = inl j → writable 0 j ∧ json_utf8 j.
Proof.
  unfold json_scan. destruct (scan_value _ _ _) as [j' rest| |] eqn:E; [|done..].
  destruct (skip_ws rest); [|done]. intros [= <-]. by eapply scanned_writable.
Qed.
