(* ===== verification/AnyJson.v ===== *)
(** * AnyJson: interface{} values through encoding/json and back

    A payload decoded into [interface{}] and marshalled again decodes to the
    same value: what [to_any] makes of a scanned text has float64 numbers,
    well-formed strings, objects in key order and bounded nesting ([decoded]),
    and of such a value everything that can be written is read back. *)
From S2P Require Import Prelude Float GoLib Utf8 Strconv Rounding Json JsonScan JsonText.
From stdpp Require Import sorting.
Open Scope Z_scope.

(** Induction with the hypothesis for every element and entry. *)
Section any_nested_ind.
Context (P : any → Prop) (Hnil : P ANil) (Hbool : ∀ b, P (ABool b)) (Hf64 : ∀ f, P (AFloat64 f))
  (Hf32 : ∀ f, P (AFloat32 f)) (Hint : ∀ n, P (AInt n)) (Hint64 : ∀ n, P (AInt64 n))
  (Hnumber : ∀ lit, P (ANumber lit)) (Hstring : ∀ s, P (AString s))
  (Hslice : ∀ l, Forall P l → P (ASlice l)) (Hmap : ∀ m, Forall (λ ka, P ka.2) m → P (AMap m)).

Fixpoint any_nested_ind (a : any) : P a :=
  match a with
  | ANil => Hnil
  | ABool b => Hbool b
  | AFloat64 f => Hf64 f
  | AFloat32 f => Hf32 f
  | AInt n => Hint n
  | AInt64 n => Hint64 n
  | ANumber lit => Hnumber lit
  | AString s => Hstring s
  | ASlice l => Hslice l ((fix go l : Forall P l :=
      match l with
      | [] => List.Forall_nil _
      | a :: l => List.Forall_cons _ a l (any_nested_ind a) (go l)
      end) l)
  | AMap m => Hmap m ((fix go m : Forall (λ ka, P ka.2) m :=
      match m with
      | [] => List.Forall_nil _
      | ka :: m => List.Forall_cons _ ka m (any_nested_ind ka.2) (go m)
      end) m)
  end.
End any_nested_ind.

(** ** Maps in key order *)

Definition before {V} (x y : string * V) : Prop := String.le x.1 y.1 ∧ x.1 ≠ y.1.
Abbreviation in_order := (StronglySorted (@before any)).

#[export] Instance before_trans {V} : Transitive (@before V).
Proof.
  intros x y z [H1 H2] [H3 H4]. split; [by etransitivity|]. intros He. apply H2.
  apply (anti_symm String.le); [done|]. by rewrite He.
Qed.

Lemma any_insert_elem k v m x : x ∈ any_insert k v m → x = (k, v) ∨ (x ∈ m ∧ x.1 ≠ k) ∨ x ∈ m.
Proof.
  induction m as [|[k' v'] m IH]; cbn [any_insert]; [intros ->%list_elem_of_singleton; by left|].
  repeat case_decide; rewrite ?elem_of_cons; [naive_solver..|]. intros [->|[->|[[]|]]%IH]; auto.
Qed.

Lemma any_insert_order k v m : in_order m → in_order (any_insert k v m).
Proof.
  induction m as [|[k' v'] m IH]; cbn [any_insert]; [intros _; by repeat constructor|].
  intros [Hf Hm]%StronglySorted_cons. case_decide as Hk; [subst; by apply StronglySorted_cons|].
  case_decide as Hle.
  - apply StronglySorted_cons. split; [|by apply StronglySorted_cons].
    assert (Hb : before (k, v) (k', v')) by done. constructor; [done|].
    eapply Forall_impl; [exact Hf|]. intros x Hx. by transitivity (k', v').
  - apply StronglySorted_cons. split; [|by apply IH]. rewrite Forall_forall in *. intros x Hx.
    apply any_insert_elem in Hx as [->|[[Hx _]|Hx]]; [|by apply Hf..].
    split; [|by cbn]. cbn. by destruct (total String.le k k').
Qed.

Lemma any_insert_last k v m : Forall (λ x, before x (k, v)) m → any_insert k v m = m ++ [(k, v)].
Proof.
  induction 1 as [|[k' v'] m [H1 H2] _ IH]; [done|]. cbn [any_insert fst] in *.
  rewrite decide_False by congruence. rewrite decide_False; [by rewrite IH|].
  intros H3. apply H2. by apply (anti_symm String.le).
Qed.

Lemma any_map_order ms : in_order (any_map ms).
Proof.
  unfold any_map. assert (H : in_order []) by constructor. revert H. generalize (@nil (string * any)).
  induction ms as [|[k v] ms IH]; intros m Hm; [done|]. cbn. by apply IH, any_insert_order.
Qed.

Lemma any_map_elem ms x : x ∈ any_map ms → x ∈ ms.
Proof.
  unfold any_map. assert (Hg : ∀ m, x ∈ foldl (λ m kv, any_insert kv.1 kv.2 m) m ms → x ∈ m ∨ x ∈ ms).
  { induction ms as [|[k v] ms IH]; intros m; cbn; [by left|]. intros [H|H]%IH; [|set_solver].
    apply any_insert_elem in H. set_solver. }
  intros [H|H]%Hg; [by apply not_elem_of_nil in H|done].
Qed.

Lemma any_map_id ms : in_order ms → any_map ms = ms.
Proof.
  unfold any_map. change ms with ([] ++ ms) at 1 3. generalize (@nil (string * any)) as m.
  induction ms as [|[k v] ms IH]; intros m Hm; cbn [foldl]; [by rewrite app_nil_r|].
  cbn [fst snd]. rewrite any_insert_last.
  - specialize (IH (m ++ [(k, v)])). rewrite <- !app_assoc in IH. by apply IH.
  - rewrite Forall_forall. intros x Hx. eapply StronglySorted_app_1_elem_of; [exact Hm|exact Hx|by left].
Qed.

(** ** What decoding yields *)

(** A value that came out of a text, inside [d] open brackets. *)
Fixpoint decoded (d : Z) (a : any) : Prop :=
  match a with
  | ANil | ABool _ => True
  | AFloat64 f => inU 64 f ∧ is_finite f
  | AString s => valid_utf8 s
  | ASlice l => d + 1 <= maxNestingDepth ∧ foldr (λ a P, decoded (d + 1) a ∧ P) True l
  | AMap m => d + 1 <= maxNestingDepth ∧ in_order m ∧
      foldr (λ ka P, (valid_utf8 ka.1 ∧ decoded (d + 1) ka.2) ∧ P) True m
  | _ => False
  end.

(** Decoding every element, or the value of every member; the first error wins. *)
Section Sum.
Context {A B : Type} (f : A → B + error).
Fixpoint sum_list (l : list A) : list B + error :=
  match l with
  | [] => inl []
  | x :: l => match f x with
      | inl a => match sum_list l with inl r => inl (a :: r) | inr e => inr e end
      | inr e => inr e
      end
  end.
Fixpoint sum_members (ms : list (string * A)) : list (string * B) + error :=
  match ms with
  | [] => inl []
  | (k, x) :: ms => match f x with
      | inl a => match sum_members ms with inl r => inl ((k, a) :: r) | inr e => inr e end
      | inr e => inr e
      end
  end.

Lemma sum_list_spec l r : sum_list l = inl r ↔ Forall2 (λ x a, f x = inl a) l r.
Proof.
  revert r. induction l as [|x l IH]; intros r; cbn.
  - split; [by intros [= <-]|]. by intros ->%Forall2_nil_inv_l.
  - split.
    + destruct (f x) eqn:E; [|done]. destruct (sum_list l) eqn:El; [|done]. intros [= <-].
      constructor; [done|]. by apply IH.
    + intros (a & r' & Hx & Hl & ->)%Forall2_cons_inv_l. apply IH in Hl. by rewrite Hx, Hl.
Qed.

Lemma sum_members_spec ms r :
  sum_members ms = inl r ↔ Forall2 (λ kx ka, kx.1 = ka.1 ∧ f kx.2 = inl ka.2) ms r.
Proof.
  revert r. induction ms as [|[k x] ms IH]; intros r; cbn.
  - split; [by intros [= <-]|]. by intros ->%Forall2_nil_inv_l.
  - split.
    + destruct (f x) eqn:E; [|done]. destruct (sum_members ms) eqn:El; [|done]. intros [= <-].
      constructor; [done|]. by apply IH.
    + intros ([k' a] & r' & [Hk Hx] & Hl & ->)%Forall2_cons_inv_l. cbn in *. subst.
      apply IH in Hl. by rewrite Hx, Hl.
Qed.

End Sum.

Section Decode.
Context (type_error : json → error).
Local Abbreviation to_any := (to_any type_error).

Lemma to_any_array l : to_any (JArray l) =
  match sum_list to_any l with inl r => inl (ASlice r) | inr e => inr e end.
Proof. reflexivity. Qed.
Lemma to_any_object ms : to_any (JObject ms) =
  match sum_members to_any ms with inl r => inl (AMap (any_map r)) | inr e => inr e end.
Proof. reflexivity. Qed.

Lemma to_any_decoded j : ∀ d a, writable d j → json_utf8 j → to_any j = inl a → decoded d a.
Proof.
  induction j as [|b|lit|s|l IH|ms IH] using json_nested_ind; intros d a Hw Hu.
  - by intros [= <-].
  - by intros [= <-].
  - cbn. destruct (ParseFloat lit) as [f|] eqn:E; [|done]. intros [= <-]. split; [by apply ParseFloat_U64 in E|].
    apply (ParseFloat_finite lit); [by apply number_lit_special|done].
  - by intros [= <-].
  - rewrite to_any_array. destruct (sum_list to_any l) as [r|] eqn:E; [|done]. intros [= <-].
    apply sum_list_spec in E. cbn in Hw, Hu. destruct Hw as [Hd Hw]. rewrite foldr_Forall in Hw, Hu.
    split; [done|]. apply foldr_Forall.
    induction E as [|j a l r Hj _ IHr]; [constructor|].
    apply Forall_cons in IH as [IHj IH], Hw as [Hwj Hw], Hu as [Huj Hu]. constructor; eauto.
  - rewrite to_any_object. destruct (sum_members to_any ms) as [r|] eqn:E; [|done]. intros [= <-].
    apply sum_members_spec in E. cbn in Hw, Hu. destruct Hw as [Hd Hw]. rewrite foldr_Forall in Hw, Hu.
    split; [done|]. split; [apply any_map_order|]. apply foldr_Forall, Forall_forall.
    intros ka Hka%any_map_elem. revert ka Hka. rewrite <- Forall_forall.
    induction E as [|[k j] [k' a] ms r [Hk Hj] _ IHr]; [constructor|].
    apply Forall_cons in IH as [IHj IH], Hw as [Hwj Hw], Hu as [Huj Hu]. cbn in *. subst k'.
    constructor; [|by auto]. cbn. split; [by apply Huj|]. eapply IHj; [exact Hwj|by apply Huj|done].
Qed.

(** Every decoded value can be written. *)
Lemma decoded_written a : ∀ d, decoded d a → is_Some (json_of_any a).
Proof.
  induction a as [|b|f|f|n|n|lit|s|l IH|m IH] using any_nested_ind; intros d Ha; cbn in Ha; try done; cbn.
  - destruct Ha as [Hf Hfin]. destruct (proj1 (json_float_total f Hf) Hfin) as (s & -> & _). done.
  - destruct Ha as [_ Ha]. rewrite foldr_Forall in Ha. apply fmap_is_Some, mapM_is_Some.
    apply Forall_and in Ha || idtac. rewrite Forall_forall in *. eauto.
  - destruct Ha as (_ & _ & Ha). rewrite foldr_Forall in Ha. apply fmap_is_Some, mapM_is_Some.
    rewrite Forall_forall in *. intros [k v] Hin. cbn. apply fmap_is_Some.
    apply (IH (k, v) Hin (d + 1)). by apply (Ha (k, v) Hin).
Qed.

Lemma decoded_back a : ∀ d j, decoded d a → json_of_any a = Some j →
  writable d j ∧ json_utf8 j ∧ to_any j = inl a.
Proof.
  induction a as [|b|f|f|n|n|lit|s|l IH|m IH] using any_nested_ind; intros d j Ha; cbn in Ha; try done.
  - by intros [= <-].
  - by intros [= <-].
  - cbn. destruct (json_float f) as [s|] eqn:E; [|done]. cbn. intros [= <-]. cbn.
    split; [by eapply number_lit_float|]. split; [done|]. by rewrite (json_float_reads _ _ (proj1 Ha) E).
  - by intros [= <-].
  - cbn. destruct Ha as [Hd Ha]. rewrite foldr_Forall in Ha.
    destruct (mapM json_of_any l) as [js|] eqn:E; [|done]. cbn. intros [= <-]. apply mapM_Some in E.
    assert (Hall : Forall (writable (d + 1)) js ∧ Forall json_utf8 js ∧ Forall2 (λ j a, to_any j = inl a) js l).
    { induction E as [|a j l js Hj _ IHl]; [done|].
      apply Forall_cons in IH as [IHa IH], Ha as [Ha1 Ha].
      destruct (IHl IH Ha) as (? & ? & ?). destruct (IHa _ _ Ha1 Hj) as (? & ? & ?). by repeat constructor. }
    destruct Hall as (H1 & H2 & H3). cbn [writable json_utf8]. rewrite !foldr_Forall.
    split; [done|]. split; [done|]. rewrite to_any_array. by rewrite (proj2 (sum_list_spec _ _ _) H3).
  - cbn. destruct Ha as (Hd & Ho & Ha). rewrite foldr_Forall in Ha.
    destruct (mapM _ m) as [js|] eqn:E; [|done]. cbn. intros [= <-]. apply mapM_Some in E.
    assert (Hall : Forall (λ kj, writable (d + 1) kj.2) js ∧ Forall (λ kj, valid_utf8 kj.1 ∧ json_utf8 kj.2) js ∧
      Forall2 (λ kj ka, kj.1 = ka.1 ∧ to_any kj.2 = inl ka.2) js m).
    { clear Ho. induction E as [|[k a] kj m js Hj _ IHl]; [done|].
      apply Forall_cons in IH as [IHa IH], Ha as [[Hk Ha1] Ha]. cbn in *.
      apply fmap_Some in Hj as (j & Hj & ->).
      destruct (IHl IH Ha) as (? & ? & ?). destruct (IHa _ _ Ha1 Hj) as (? & ? & ?). by repeat constructor. }
    destruct Hall as (H1 & H2 & H3). cbn [writable json_utf8]. rewrite !foldr_Forall.
    split; [done|]. split; [done|]. rewrite to_any_object, (proj2 (sum_members_spec _ _ _) H3).
    by rewrite any_map_id.
Qed.
End Decode.
