(* ===== verification/JsonUtf8.v ===== *)
(** * JsonUtf8: what encoding/json writes is well-formed UTF-8

    Whatever the strings, the text of a value is a sequence of encoded runes:
    malformed input is escaped as U+FFFD.  So a log line goes through the JSON
    of the Loki push unchanged. *)
From S2P Require Import Prelude Float GoLib Utf8 Strconv Json JsonScan JsonText AnyJson.
Open Scope Z_scope.

Definition utf8_bytes (b : bytes) : Prop := ∃ rs, Forall scalar rs ∧ b = utf8_encode rs.

Lemma utf8_nil : utf8_bytes [].
Proof. by exists []. Qed.
Lemma utf8_app b1 b2 : utf8_bytes b1 → utf8_bytes b2 → utf8_bytes (b1 ++ b2).
Proof.
  intros (r1 & H1 & ->) (r2 & H2 & ->). exists (r1 ++ r2). split; [by apply Forall_app|].
  by rewrite utf8_encode_app.
Qed.
Lemma utf8_concat l : Forall utf8_bytes l → utf8_bytes (concat l).
Proof. induction 1; [apply utf8_nil|by apply utf8_app]. Qed.
Lemma utf8_rune r : scalar r → utf8_bytes (EncodeRune r).
Proof. intros Hr. exists [r]. split; [by constructor|]. cbn. by rewrite app_nil_r. Qed.

Definition ascii_bytes (b : bytes) : Prop := Forall (λ c, byte.unsigned c < 0x80) b.

Lemma utf8_ascii b : ascii_bytes b → utf8_bytes b.
Proof.
  intros Hb. destruct (valid_utf8_ascii (of_bytes b)) as (rs & Hrs & Heq).
  - unfold isASCII. rewrite to_of_bytes. apply forallb_forall. intros c Hc%list_elem_of_In.
    unfold ascii_bytes in Hb. rewrite Forall_forall in Hb. apply Z.ltb_lt. by apply Hb.
  - rewrite to_of_bytes in Heq. by exists rs.
Qed.
Lemma utf8_cons c b : byte.unsigned c < 0x80 → utf8_bytes b → utf8_bytes (c :: b).
Proof. intros Hc Hb. apply (utf8_app [c]); [apply utf8_ascii; by constructor|done]. Qed.

#[export] Hint Resolve utf8_nil utf8_app utf8_concat utf8_rune utf8_cons : utf8.

(** ** Strings *)

Lemma hex_digit_ascii n : 0 <= n < 16 → byte.unsigned (hex_digit n) < 0x80.
Proof.
  intros Hn. unfold hex_digit. rewrite unsigned_byte; destruct (Z.ltb_spec n 10); lia.
Qed.

Lemma unicode_escape_ascii r : 0 <= r < 2 ^ 16 → ascii_bytes (unicode_escape r).
Proof.
  intros Hr. unfold unicode_escape, ascii_bytes. apply Forall_app. split; [by repeat constructor|].
  assert (Hl : ∀ x, 0 <= Z.land x 15 < 16).
  { intros x. change 15 with (Z.ones 4). rewrite Z.land_ones by lia. apply Z.mod_pos_bound. lia. }
  cbn [map]. repeat apply Forall_cons_2; try apply Forall_nil_2; apply hex_digit_ascii; try apply Hl.
  rewrite Z.shiftr_div_pow2 by lia. split; [apply Z.div_pos; lia|apply Z.div_lt_upper_bound; lia].
Qed.

Lemma write_rune_utf8 x : rune_ok x → utf8_bytes (write_rune x).
Proof.
  destruct x as [r raw]. intros Hx. unfold write_rune.
  assert (Hascii : ∀ b, forallb (λ c, byte.unsigned c <? 0x80) b = true → utf8_bytes b).
  { intros b Hb. apply utf8_ascii, Forall_forall. intros c Hc%list_elem_of_In.
    rewrite forallb_forall in Hb. apply Z.ltb_lt. by apply Hb. }
  destruct (Z.ltb_spec r 0x80) as [Hr|Hr].
  - destruct Hx as [[Hs Hraw]|[Hrr _]]; cbn in *; [|unfold RuneError in *; lia]. subst raw.
    destruct Hs as [H0 _]. assert (Hs : scalar r) by (unfold scalar; lia).
    destruct (html_safe r); [by apply utf8_rune|]. destruct (_ || _); [apply utf8_cons; [done|by apply utf8_rune]|].
    repeat match goal with |- utf8_bytes (if ?c then _ else _) => destruct c; [by apply Hascii|] end.
    apply utf8_ascii, unicode_escape_ascii. lia.
  - destruct ((r =? RuneError) && (len raw =? 1)) eqn:E; [by apply Hascii|].
    destruct ((r =? 0x2028) || (r =? 0x2029)) eqn:E2; [apply utf8_ascii, unicode_escape_ascii; lia|].
    destruct Hx as [[Hs Hraw]|[Hrr Hl]]; cbn in *; [subst; by apply utf8_rune|].
    unfold len in E. rewrite Hrr, Hl in E. discriminate E.
Qed.

Lemma string_text_utf8 s : utf8_bytes (string_text s).
Proof.
  unfold string_text. apply utf8_cons; [done|]. apply utf8_app; [|by apply utf8_ascii; repeat constructor].
  apply utf8_concat, Forall_map. eapply Forall_impl; [apply runes_ok|].
  intros [[i r] raw] H. by apply write_rune_utf8.
Qed.

(** ** Numbers *)

Lemma accept_run_Forall p b : Forall (λ c, p c = true) (accept_run p b).1.
Proof.
  induction b as [|c b IH]; [constructor|]. cbn. destruct (p c) eqn:E; [|constructor].
  destruct (accept_run p b). by constructor.
Qed.

Lemma is_decimal_ascii c : is_decimal c = true → byte.unsigned c < 0x80.
Proof. unfold is_decimal. intros [d Hd]%bool_decide_eq_true. apply digit_Some in Hd. lia. Qed.

Lemma digits_run_ascii b ds r : digits_run b = (ds, r) → ascii_bytes ds.
Proof.
  unfold digits_run. intros H. pose proof (accept_run_Forall is_decimal b) as Hf. rewrite H in Hf.
  eapply Forall_impl; [exact Hf|]. apply is_decimal_ascii.
Qed.

Lemma letter_ascii x c : letter x c = true → 32 <= x < 0x80 → byte.unsigned c < 0x80.
Proof. unfold letter. destruct (Z.eqb_spec (byte.unsigned c) x), (Z.eqb_spec (byte.unsigned c) (x - 32)); cbn; lia || done. Qed.

Lemma isb_ascii x c : isb x c = true → x < 0x80 → byte.unsigned c < 0x80.
Proof. unfold isb. intros ->%Z.eqb_eq. done. Qed.

Lemma number_lit_ascii lit : number_lit lit → ascii_bytes lit.
Proof.
  intros [_ H]. specialize (H [] I). rewrite app_nil_r in H. unfold scan_number in H.
  destruct (match accept (isb 45) lit with Some _ => _ | None => _ end) as [sg b1] eqn:Esg.
  destruct (scan_int b1) as [[ip b2]|] eqn:Eip; [|done]. cbn [mbind option_bind] in H.
  destruct (scan_fraction b2) as [[fp b3]|] eqn:Efp; [|done]. cbn [mbind option_bind] in H.
  destruct (scan_exponent b3) as [[ex b4]|] eqn:Eex; [|done]. cbn [mbind option_bind] in H.
  injection H as H _. rewrite <- H. unfold ascii_bytes. rewrite !Forall_app. clear H. split_and!.
  - unfold accept in Esg. destruct lit as [|c lit]; [by injection Esg as <- _|].
    destruct (isb 45 c) eqn:E; injection Esg as <- _; [|constructor]. constructor; [|constructor]. by apply (isb_ascii 45).
  - unfold scan_int in Eip. destruct b1 as [|c b1]; [done|]. destruct (isb 48 c) eqn:E.
    + injection Eip as <- _. constructor; [|constructor]. by apply (isb_ascii 48).
    + destruct (is_decimal c); [|done]. injection Eip as Eip. by eapply digits_run_ascii.
  - unfold scan_fraction in Efp. destruct b2 as [|c b2]; [by injection Efp as <- _|].
    destruct (isb 46 c) eqn:E; [|by injection Efp as <- _]. destruct (is_decimal_head b2); [|done].
    destruct (digits_run b2) as [ds r] eqn:Er. injection Efp as <- _.
    constructor; [by apply (isb_ascii 46)|by eapply digits_run_ascii].
  - unfold scan_exponent in Eex. destruct b3 as [|c b3]; [by injection Eex as <- _|].
    destruct (letter 101 c) eqn:E; [|by injection Eex as <- _].
    destruct (match accept is_sign b3 with Some _ => _ | None => _ end) as [s b5] eqn:Es.
    destruct (is_decimal_head b5); [|done]. destruct (digits_run b5) as [ds r] eqn:Er. injection Eex as <- _.
    constructor; [by apply (letter_ascii 101)|]. apply Forall_app. split; [|by eapply digits_run_ascii].
    unfold accept in Es. destruct b3 as [|c' b3]; [by injection Es as <- _|].
    destruct (is_sign c') eqn:E'; injection Es as <- _; [|constructor]. constructor; [|constructor].
    apply orb_true_iff in E' as [E'|E']; by apply (isb_ascii _ _ E').
Qed.

(** ** Values *)

Lemma commas_utf8 l : Forall utf8_bytes l → utf8_bytes (commas l).
Proof.
  induction 1 as [|x l Hx Hl IH]; [apply utf8_nil|]. cbn [commas]. destruct l as [|y l]; [done|].
  apply utf8_app; [done|]. by apply utf8_cons.
Qed.

Lemma any_text_utf8 a : ∀ j, json_of_any a = Some j → utf8_bytes (text j).
Proof.
  assert (Hnum : ∀ s, number_lit (to_bytes s) → utf8_bytes (to_bytes s)) by (intros; by apply utf8_ascii, number_lit_ascii).
  induction a as [|b|f|f|n|n|lit|s|l IH|m IH] using any_nested_ind; intros j; cbn [json_of_any]; try done.
  - intros [= <-]. apply utf8_ascii. by repeat constructor.
  - intros [= <-]. apply utf8_ascii. destruct b; by repeat constructor.
  - intros (s & Hs & ->)%fmap_Some. cbn [text]. apply Hnum. by eapply number_lit_float.
  - intros [= <-]. apply Hnum, number_lit_int.
  - intros [= <-]. apply Hnum, number_lit_int.
  - intros [= <-]. apply string_text_utf8.
  - intros (js & Hjs & ->)%fmap_Some. apply mapM_Some in Hjs. cbn [text].
    apply utf8_cons; [done|]. apply utf8_app; [|by apply utf8_ascii; repeat constructor].
    apply commas_utf8, Forall_map. induction Hjs as [|a j l js Hj _ IHl]; [constructor|].
    apply Forall_cons in IH as [IHa IH]. constructor; [by apply IHa|by apply IHl].
  - intros (js & Hjs & ->)%fmap_Some. apply mapM_Some in Hjs. cbn [text].
    apply utf8_cons; [done|]. apply utf8_app; [|by apply utf8_ascii; repeat constructor].
    apply commas_utf8, Forall_map. induction Hjs as [|[k a] kj m js Hj _ IHm]; [constructor|].
    apply Forall_cons in IH as [IHa IH]. apply fmap_Some in Hj as (j & Hj & ->). constructor; [|by apply IHm].
    cbn [fst snd]. apply utf8_app; [apply string_text_utf8|]. apply utf8_cons; [done|]. by apply IHa.
Qed.

(** The line of a log entry is well-formed. *)
Lemma json_Marshal_utf8 ms : valid_utf8 (json_Marshal ms).
Proof.
  unfold json_Marshal. destruct (json_of_any (AMap ms)) as [j|] eqn:E; [|apply valid_utf8_empty].
  apply any_text_utf8 in E as (rs & Hrs & ->). by apply valid_utf8_encode.
Qed.
