(* ===== verification/Parser.v ===== *)
(** * Parser: internal/parser/parser.go

    Decoding an OME message into metric samples or a log entry, from the bytes
    of the Kafka record.  Arguments are the Unicode case table and the texts of
    error messages, which are only logged. *)
From S2P Require Import Prelude Float GoLib Utf8 Strconv GoTime Json JsonScan JsonText.
From stdpp Require Import pretty.
From Stdlib Require Import Strings.Ascii.
Open Scope Z_scope.

Inductive MessageKind :=
  | KindTelemetry | KindHealth | KindAlerts | KindAuditLogs | KindInventory | KindUnknown.

#[export] Instance MessageKind_eq_dec : EqDecision MessageKind.
Proof. solve_decision. Defined.

(** The string constant behind each kind. *)
Definition kind_string (k : MessageKind) : string :=
  match k with
  | KindTelemetry => "telemetry" | KindHealth => "health" | KindAlerts => "alerts"
  | KindAuditLogs => "auditlogs" | KindInventory => "inventory" | KindUnknown => "unknown"
  end.

Record MetricSample := mkMetricSample {
  m_Name : string; m_Labels : gmap string string; m_Value : float64; m_Timestamp : time }.

Record LogEntry := mkLogEntry {
  l_Timestamp : time; l_Line : string; l_StreamLabels : gmap string string }.

Record ParsedMessage := mkParsedMessage {
  p_Kind : MessageKind; p_Topic : string; p_Timestamp : time;
  p_Metrics : list MetricSample; p_LogEntry : option LogEntry }.

#[export] Instance MetricSample_eq_dec : EqDecision MetricSample.
Proof. solve_decision. Defined.
#[export] Instance LogEntry_eq_dec : EqDecision LogEntry.
Proof. solve_decision. Defined.

(** ** Payloads *)

Record OMETelemetryMetric := mkTMetric {
  MetricName : string; MetricValue : any; Unit : string }.

Record OMETelemetryMessage := mkTelemetry {
  t_DeviceID : Z; t_DeviceName : string; t_ServiceTag : string; t_Model : string;
  t_DeviceType : string; t_IPAddress : string; t_Timestamp : string;
  MetricList : list OMETelemetryMetric }.

Record OMEHealthMessage := mkHealth {
  h_DeviceID : Z; h_DeviceName : string; h_ServiceTag : string; h_Model : string;
  h_DeviceType : string; h_IPAddress : string; h_Timestamp : string;
  RollupStatus : Z; ConnectionStatus : string; PowerState : Z;
  ComponentHealthMap : gmap string Z }.

Record OMEAlertMessage := mkAlert {
  EventID : Z; EventCategory : string; EventSource : string; a_Severity : string;
  a_SubCategory : string; a_Message : string; RecommendedAction : string;
  AcknowledgedBy : string; a_Timestamp : string; a_DeviceID : Z; a_DeviceName : string;
  a_ServiceTag : string; a_Model : string; a_IPAddress : string }.

Record OMEAuditLogMessage := mkAudit {
  LogID : Z; Category : string; g_SubCategory : string; g_Severity : string;
  g_Message : string; UserName : string; g_IPAddress : string; g_Timestamp : string }.

Record OMEInventoryMessage := mkInventory {
  i_DeviceID : Z; i_DeviceName : string; i_ServiceTag : string; i_Model : string;
  i_DeviceType : string; i_IPAddress : string; i_Timestamp : string;
  Inventory : option (gmap string any) }.

(** Go's zero values. *)
Definition zeroTMetric : OMETelemetryMetric := mkTMetric "" ANil "".
Definition zeroTelemetry : OMETelemetryMessage := mkTelemetry 0 "" "" "" "" "" "" [].
Definition zeroHealth : OMEHealthMessage := mkHealth 0 "" "" "" "" "" "" 0 "" 0 ∅.
Definition zeroAlert : OMEAlertMessage := mkAlert 0 "" "" "" "" "" "" "" "" 0 "" "" "" "".
Definition zeroAudit : OMEAuditLogMessage := mkAudit 0 "" "" "" "" "" "" "".
Definition zeroInventory : OMEInventoryMessage := mkInventory 0 "" "" "" "" "" "" None.

(** ** Helpers *)

Definition topicKind (topic : string) : MessageKind :=
  match SplitN2 topic "."%char with
  | [_; rest] =>
      if decide (rest = "telemetry"%string) then KindTelemetry
      else if decide (rest = "health"%string) then KindHealth
      else if decide (rest = "alerts"%string) then KindAlerts
      else if decide (rest = "auditlogs"%string) then KindAuditLogs
      else if decide (rest = "inventory"%string) then KindInventory
      else KindUnknown
  | _ => KindUnknown
  end.

(** [for k, v := range src { out[k] = v }]: any order gives the same map. *)
Definition copyLabels (src : gmap string string) : gmap string string :=
  map_fold (λ k v out, <[k := v]> out) ∅ src.

Definition is_letter (r : Z) : bool := in_range 97 122 r || in_range 65 90 r || (r =? 95).

Definition sanitize_rune (i r : Z) : Z :=
  if is_letter r then r
  else if in_range 48 57 r && (0 <? i) then r
  else 95.

(** One field of a struct is found and decoded. *)
Ltac find_one :=
  cbn [dec_fields];
  match goal with
  | |- context [find_field ?fs ?k] =>
      let d := eval hnf in (find_field fs k) in change (find_field fs k) with d
  end.

Ltac dec_one := find_one; cbn -[dec_int pretty]; rewrite ?dec_int_pretty by done; reflexivity.

Section Parser.
(** The case table, and the texts that only reach error messages: an
    [UnmarshalTypeError], [%q] and [%T]. *)
Context (unicode_ToLower : Z → Z)
  (type_error : json → error) (Quote : string → string) (type_name : any → string).

Definition sanitizeMetricName (s : string) : string :=
  ToLower unicode_ToLower
    (of_bytes (concat (map (λ x : Z * Z * bytes, EncodeRune (sanitize_rune x.1.1 x.1.2)) (runes s)))).

Definition omeTimeFormats : list string :=
  [RFC3339; RFC3339Nano; "2006-01-02T15:04:05"; "2006-01-02T15:04:05Z"; "2006-01-02 15:04:05"]%string.

Fixpoint try_formats (fmts : list string) (s : string) : option time :=
  match fmts with
  | [] => None
  | f :: fmts => match time_Parse f s with inl t => Some t | inr _ => try_formats fmts s end
  end.

(** [now] is what [time.Now()] returns; Go returns it with an error. *)
Definition parseOMETime (now : time) (s : string) : time * option error :=
  match try_formats omeTimeFormats s with
  | Some t => (t, None)
  | None => (now, Some ("could not parse time " +:+ Quote s))
  end.

Definition toFloat64 (v : any) : float64 + error :=
  match v with
  | AFloat64 val => inl val
  | AFloat32 val => inl val
  | AInt val => inl (float64_of_int val)
  | AInt64 val => inl (float64_of_int val)
  | ANumber lit => ParseFloat lit
  | AString val =>
      match Fields val with
      | f :: _ =>
          match Sscanf_f f with
          | inl x => inl x
          | inr _ => inr ("non-numeric string: " +:+ Quote val)
          end
      | [] => inr ("non-numeric string: " +:+ Quote val)
      end
  | _ => inr ("unsupported type " +:+ type_name v)
  end.

(** ** The types [json.Unmarshal] is given *)

Local Abbreviation str := (dec_string type_error).
Local Abbreviation int := (dec_int type_error).

Definition tmetric_fields : struct_fields OMETelemetryMetric := [
  field "MetricName" str MetricName (λ v '(mkTMetric _ b c), mkTMetric v b c);
  field "MetricValue" (dec_any type_error) MetricValue (λ v '(mkTMetric a _ c), mkTMetric a v c);
  field "Unit" str Unit (λ v '(mkTMetric a b _), mkTMetric a b v) ].

Definition telemetry_fields : struct_fields OMETelemetryMessage := [
  field "DeviceId" int t_DeviceID (λ v '(mkTelemetry _ b c d e f g h), mkTelemetry v b c d e f g h);
  field "DeviceName" str t_DeviceName (λ v '(mkTelemetry a _ c d e f g h), mkTelemetry a v c d e f g h);
  field "ServiceTag" str t_ServiceTag (λ v '(mkTelemetry a b _ d e f g h), mkTelemetry a b v d e f g h);
  field "Model" str t_Model (λ v '(mkTelemetry a b c _ e f g h), mkTelemetry a b c v e f g h);
  field "DeviceType" str t_DeviceType (λ v '(mkTelemetry a b c d _ f g h), mkTelemetry a b c d v f g h);
  field "IPAddress" str t_IPAddress (λ v '(mkTelemetry a b c d e _ g h), mkTelemetry a b c d e v g h);
  field "Timestamp" str t_Timestamp (λ v '(mkTelemetry a b c d e f _ h), mkTelemetry a b c d e f v h);
  field "MetricList" (dec_slice type_error zeroTMetric (dec_struct type_error tmetric_fields)) MetricList
    (λ v '(mkTelemetry a b c d e f g _), mkTelemetry a b c d e f g v) ].

Definition health_fields : struct_fields OMEHealthMessage := [
  field "DeviceId" int h_DeviceID (λ v '(mkHealth _ b c d e f g h i j k), mkHealth v b c d e f g h i j k);
  field "DeviceName" str h_DeviceName (λ v '(mkHealth a _ c d e f g h i j k), mkHealth a v c d e f g h i j k);
  field "ServiceTag" str h_ServiceTag (λ v '(mkHealth a b _ d e f g h i j k), mkHealth a b v d e f g h i j k);
  field "Model" str h_Model (λ v '(mkHealth a b c _ e f g h i j k), mkHealth a b c v e f g h i j k);
  field "DeviceType" str h_DeviceType (λ v '(mkHealth a b c d _ f g h i j k), mkHealth a b c d v f g h i j k);
  field "IPAddress" str h_IPAddress (λ v '(mkHealth a b c d e _ g h i j k), mkHealth a b c d e v g h i j k);
  field "Timestamp" str h_Timestamp (λ v '(mkHealth a b c d e f _ h i j k), mkHealth a b c d e f v h i j k);
  field "RollupStatus" int RollupStatus (λ v '(mkHealth a b c d e f g _ i j k), mkHealth a b c d e f g v i j k);
  field "ConnectionStatus" str ConnectionStatus (λ v '(mkHealth a b c d e f g h _ j k), mkHealth a b c d e f g h v j k);
  field "PowerState" int PowerState (λ v '(mkHealth a b c d e f g h i _ k), mkHealth a b c d e f g h i v k);
  field "ComponentHealthMap" (dec_map type_error 0 int) ComponentHealthMap
    (λ v '(mkHealth a b c d e f g h i j _), mkHealth a b c d e f g h i j v) ].

Definition alert_fields : struct_fields OMEAlertMessage := [
  field "EventId" int EventID (λ v '(mkAlert _ b c d e f g h i j k l m n), mkAlert v b c d e f g h i j k l m n);
  field "EventCategory" str EventCategory (λ v '(mkAlert a _ c d e f g h i j k l m n), mkAlert a v c d e f g h i j k l m n);
  field "EventSource" str EventSource (λ v '(mkAlert a b _ d e f g h i j k l m n), mkAlert a b v d e f g h i j k l m n);
  field "Severity" str a_Severity (λ v '(mkAlert a b c _ e f g h i j k l m n), mkAlert a b c v e f g h i j k l m n);
  field "SubCategory" str a_SubCategory (λ v '(mkAlert a b c d _ f g h i j k l m n), mkAlert a b c d v f g h i j k l m n);
  field "Message" str a_Message (λ v '(mkAlert a b c d e _ g h i j k l m n), mkAlert a b c d e v g h i j k l m n);
  field "RecommendedAction" str RecommendedAction (λ v '(mkAlert a b c d e f _ h i j k l m n), mkAlert a b c d e f v h i j k l m n);
  field "AcknowledgedBy" str AcknowledgedBy (λ v '(mkAlert a b c d e f g _ i j k l m n), mkAlert a b c d e f g v i j k l m n);
  field "Timestamp" str a_Timestamp (λ v '(mkAlert a b c d e f g h _ j k l m n), mkAlert a b c d e f g h v j k l m n);
  field "DeviceId" int a_DeviceID (λ v '(mkAlert a b c d e f g h i _ k l m n), mkAlert a b c d e f g h i v k l m n);
  field "DeviceName" str a_DeviceName (λ v '(mkAlert a b c d e f g h i j _ l m n), mkAlert a b c d e f g h i j v l m n);
  field "ServiceTag" str a_ServiceTag (λ v '(mkAlert a b c d e f g h i j k _ m n), mkAlert a b c d e f g h i j k v m n);
  field "Model" str a_Model (λ v '(mkAlert a b c d e f g h i j k l _ n), mkAlert a b c d e f g h i j k l v n);
  field "IpAddress" str a_IPAddress (λ v '(mkAlert a b c d e f g h i j k l m _), mkAlert a b c d e f g h i j k l m v) ].

Definition audit_fields : struct_fields OMEAuditLogMessage := [
  field "LogId" int LogID (λ v '(mkAudit _ b c d e f g h), mkAudit v b c d e f g h);
  field "Category" str Category (λ v '(mkAudit a _ c d e f g h), mkAudit a v c d e f g h);
  field "SubCategory" str g_SubCategory (λ v '(mkAudit a b _ d e f g h), mkAudit a b v d e f g h);
  field "Severity" str g_Severity (λ v '(mkAudit a b c _ e f g h), mkAudit a b c v e f g h);
  field "Message" str g_Message (λ v '(mkAudit a b c d _ f g h), mkAudit a b c d v f g h);
  field "UserName" str UserName (λ v '(mkAudit a b c d e _ g h), mkAudit a b c d e v g h);
  field "IpAddress" str g_IPAddress (λ v '(mkAudit a b c d e f _ h), mkAudit a b c d e f v h);
  field "Timestamp" str g_Timestamp (λ v '(mkAudit a b c d e f g _), mkAudit a b c d e f g v) ].

Definition inventory_fields : struct_fields OMEInventoryMessage := [
  field "DeviceId" int i_DeviceID (λ v '(mkInventory _ b c d e f g h), mkInventory v b c d e f g h);
  field "DeviceName" str i_DeviceName (λ v '(mkInventory a _ c d e f g h), mkInventory a v c d e f g h);
  field "ServiceTag" str i_ServiceTag (λ v '(mkInventory a b _ d e f g h), mkInventory a b v d e f g h);
  field "Model" str i_Model (λ v '(mkInventory a b c _ e f g h), mkInventory a b c v e f g h);
  field "DeviceType" str i_DeviceType (λ v '(mkInventory a b c d _ f g h), mkInventory a b c d v f g h);
  field "IPAddress" str i_IPAddress (λ v '(mkInventory a b c d e _ g h), mkInventory a b c d e v g h);
  field "Timestamp" str i_Timestamp (λ v '(mkInventory a b c d e f _ h), mkInventory a b c d e f v h);
  field "Inventory" (dec_map_nil type_error ANil (dec_any type_error)) Inventory
    (λ v '(mkInventory a b c d e f g _), mkInventory a b c d e f g v) ].

(** [json.Unmarshal(value, &msg)] into a zero [msg]. *)
Definition unmarshal {A} (fs : struct_fields A) (zero : A) (value : bytes) : A + error :=
  match json_scan value with
  | inr err => inr err
  | inl j => dec_struct type_error fs j zero
  end.

(** ** The members [json.Marshal] writes, in the order of the struct

    [omitempty] leaves a field with its zero value out. *)
Definition out_int (k : string) (n : Z) : list (string * any) := [(k, AInt64 n)].
Definition out_str (k s : string) : list (string * any) := [(k, AString s)].
Definition omit_int (k : string) (n : Z) : list (string * any) := if n =? 0 then [] else out_int k n.
Definition omit_str (k s : string) : list (string * any) :=
  if decide (s = ""%string) then [] else out_str k s.

Definition alert_members (m : OMEAlertMessage) : list (string * any) :=
  out_int "EventId" (EventID m) ++ out_str "EventCategory" (EventCategory m) ++
  out_str "EventSource" (EventSource m) ++ out_str "Severity" (a_Severity m) ++
  out_str "SubCategory" (a_SubCategory m) ++ out_str "Message" (a_Message m) ++
  omit_str "RecommendedAction" (RecommendedAction m) ++ omit_str "AcknowledgedBy" (AcknowledgedBy m) ++
  out_str "Timestamp" (a_Timestamp m) ++ omit_int "DeviceId" (a_DeviceID m) ++
  omit_str "DeviceName" (a_DeviceName m) ++ omit_str "ServiceTag" (a_ServiceTag m) ++
  omit_str "Model" (a_Model m) ++ omit_str "IpAddress" (a_IPAddress m).

Definition audit_members (m : OMEAuditLogMessage) : list (string * any) :=
  out_int "LogId" (LogID m) ++ out_str "Category" (Category m) ++
  out_str "SubCategory" (g_SubCategory m) ++ out_str "Severity" (g_Severity m) ++
  out_str "Message" (g_Message m) ++ out_str "UserName" (UserName m) ++
  out_str "IpAddress" (g_IPAddress m) ++ out_str "Timestamp" (g_Timestamp m).

(** encoding/json writes the keys of a map in sorted order. *)
Definition sorted_members (m : gmap string any) : list (string * any) :=
  omap (λ k, (λ v, (k, v)) <$> m !! k) (sort_Strings (map_to_list m).*1).

Definition inventory_members (m : OMEInventoryMessage) : list (string * any) :=
  out_int "DeviceId" (i_DeviceID m) ++ out_str "DeviceName" (i_DeviceName m) ++
  out_str "ServiceTag" (i_ServiceTag m) ++ out_str "Model" (i_Model m) ++
  out_str "DeviceType" (i_DeviceType m) ++ out_str "IPAddress" (i_IPAddress m) ++
  out_str "Timestamp" (i_Timestamp m) ++ [("Inventory"%string, match Inventory m with Some i => AMap (sorted_members i) | None => ANil end)].

(** ** Parse *)

Definition telemetryLabels (topic : string) (msg : OMETelemetryMessage) : gmap string string :=
  {["device_id" := pretty (t_DeviceID msg); "device_name" := t_DeviceName msg;
    "service_tag" := t_ServiceTag msg; "model" := t_Model msg; "device_type" := t_DeviceType msg;
    "ip_address" := t_IPAddress msg; "topic" := topic]}%string.

Definition telemetry_sample (base : gmap string string) (ts : time) (m : OMETelemetryMetric)
    (val : float64) : MetricSample :=
  let lbls := copyLabels base in
  let lbls := if decide (Unit m = ""%string) then lbls else <["unit"%string := Unit m]> lbls in
  {| m_Name := sanitizeMetricName ("ome_telemetry_" +:+ MetricName m);
     m_Labels := lbls; m_Value := val; m_Timestamp := ts |}.

(** The loop over [msg.MetricList]: a non-numeric metric is skipped. *)
Fixpoint telemetry_metrics (base : gmap string string) (ts : time) (ms : list OMETelemetryMetric)
    : list MetricSample :=
  match ms with
  | [] => []
  | m :: ms =>
      match toFloat64 (MetricValue m) with
      | inr _ => telemetry_metrics base ts ms
      | inl val => telemetry_sample base ts m val :: telemetry_metrics base ts ms
      end
  end.

Definition parseTelemetry (now : time) (topic : string) (value : bytes) : ParsedMessage + error :=
  match unmarshal telemetry_fields zeroTelemetry value with
  | inr err => inr ("unmarshal telemetry: " +:+ err)
  | inl msg =>
      let '(ts, _) := parseOMETime now (t_Timestamp msg) in
      inl {| p_Kind := KindTelemetry; p_Topic := topic; p_Timestamp := ts;
             p_Metrics := telemetry_metrics (telemetryLabels topic msg) ts (MetricList msg);
             p_LogEntry := None |}
  end.

Definition healthLabels (topic : string) (msg : OMEHealthMessage) : gmap string string :=
  {["device_id" := pretty (h_DeviceID msg); "device_name" := h_DeviceName msg;
    "service_tag" := h_ServiceTag msg; "model" := h_Model msg; "device_type" := h_DeviceType msg;
    "ip_address" := h_IPAddress msg; "topic" := topic]}%string.

Definition component_sample (base : gmap string string) (ts : time) (cs : string * Z) : MetricSample :=
  {| m_Name := "ome_health_component_status";
     m_Labels := <["component"%string := cs.1]> (copyLabels base);
     m_Value := float64_of_int cs.2; m_Timestamp := ts |}.

(** [order] is the order in which Go visits [msg.ComponentHealthMap]. *)
Definition health_metrics (order : gmap string Z → list string) (topic : string) (ts : time)
    (msg : OMEHealthMessage) : list MetricSample :=
  let base := healthLabels topic msg in
  [ {| m_Name := "ome_health_rollup_status"; m_Labels := copyLabels base;
       m_Value := float64_of_int (RollupStatus msg); m_Timestamp := ts |};
    {| m_Name := "ome_health_power_state"; m_Labels := copyLabels base;
       m_Value := float64_of_int (PowerState msg); m_Timestamp := ts |} ] ++
  map (component_sample base ts)
    (entries (ComponentHealthMap msg) (order (ComponentHealthMap msg))).

Definition parseHealth (now : time) (order : gmap string Z → list string) (topic : string)
    (value : bytes) : ParsedMessage + error :=
  match unmarshal health_fields zeroHealth value with
  | inr err => inr ("unmarshal health: " +:+ err)
  | inl msg =>
      let '(ts, _) := parseOMETime now (h_Timestamp msg) in
      inl {| p_Kind := KindHealth; p_Topic := topic; p_Timestamp := ts;
             p_Metrics := health_metrics order topic ts msg; p_LogEntry := None |}
  end.

Definition alertLabels (topic : string) (msg : OMEAlertMessage) : gmap string string :=
  {["topic" := topic; "job" := "ome_alerts"; "severity" := ToLower unicode_ToLower (a_Severity msg);
    "category" := EventCategory msg; "sub_category" := a_SubCategory msg;
    "device_name" := a_DeviceName msg; "service_tag" := a_ServiceTag msg;
    "device_type" := "server"]}%string.

Definition auditLabels (topic : string) (msg : OMEAuditLogMessage) : gmap string string :=
  {["topic" := topic; "job" := "ome_auditlogs"; "severity" := ToLower unicode_ToLower (g_Severity msg);
    "category" := Category msg; "sub_category" := g_SubCategory msg;
    "username" := UserName msg; "ip_address" := g_IPAddress msg]}%string.

Definition inventoryLabels (topic : string) (msg : OMEInventoryMessage) : gmap string string :=
  {["topic" := topic; "job" := "ome_inventory"; "device_name" := i_DeviceName msg;
    "service_tag" := i_ServiceTag msg; "model" := i_Model msg; "device_type" := i_DeviceType msg;
    "ip_address" := i_IPAddress msg]}%string.

(** The message the three log parsers build. *)
Definition log_message (kind : MessageKind) (topic : string) (ts : time) (line : string)
    (lbls : gmap string string) : ParsedMessage :=
  {| p_Kind := kind; p_Topic := topic; p_Timestamp := ts; p_Metrics := [];
     p_LogEntry := Some {| l_Timestamp := ts; l_Line := line; l_StreamLabels := lbls |} |}.

Definition parseAlert (now : time) (topic : string) (value : bytes) : ParsedMessage + error :=
  match unmarshal alert_fields zeroAlert value with
  | inr err => inr ("unmarshal alert: " +:+ err)
  | inl msg =>
      let '(ts, _) := parseOMETime now (a_Timestamp msg) in
      inl (log_message KindAlerts topic ts (json_Marshal (alert_members msg)) (alertLabels topic msg))
  end.

Definition parseAuditLog (now : time) (topic : string) (value : bytes) : ParsedMessage + error :=
  match unmarshal audit_fields zeroAudit value with
  | inr err => inr ("unmarshal auditlog: " +:+ err)
  | inl msg =>
      let '(ts, _) := parseOMETime now (g_Timestamp msg) in
      inl (log_message KindAuditLogs topic ts (json_Marshal (audit_members msg)) (auditLabels topic msg))
  end.

Definition parseInventory (now : time) (topic : string) (value : bytes) : ParsedMessage + error :=
  match unmarshal inventory_fields zeroInventory value with
  | inr err => inr ("unmarshal inventory: " +:+ err)
  | inl msg =>
      let '(ts, _) := parseOMETime now (i_Timestamp msg) in
      inl (log_message KindInventory topic ts (json_Marshal (inventory_members msg)) (inventoryLabels topic msg))
  end.

Definition Parse (now : time) (order : gmap string Z → list string) (topic : string) (value : bytes)
    : ParsedMessage + error :=
  match topicKind topic with
  | KindTelemetry => parseTelemetry now topic value
  | KindHealth => parseHealth now order topic value
  | KindAlerts => parseAlert now topic value
  | KindAuditLogs => parseAuditLog now topic value
  | KindInventory => parseInventory now topic value
  | KindUnknown => inr ("unknown topic kind for topic " +:+ Quote topic)
  end.

(** ** Facts about the helpers *)

Lemma copyLabels_id src : copyLabels src = src.
Proof.
  unfold copyLabels. apply (map_fold_weak_ind (λ out m, out = m)); [done|]. by intros k v m out _ ->.
Qed.

(** *** Metric names *)

Definition lower_char (c : byte) : byte := byte.of_Z (ascii_ToLower (byte.unsigned c)).

(** [[a-z0-9_]], the first character not a digit. *)
Definition name_char (i : nat) (c : byte) : Prop :=
  let r := byte.unsigned c in
  97 <= r <= 122 ∨ r = 95 ∨ (48 <= r <= 57 ∧ (0 < i)%nat).
Definition name_bytes (b : bytes) : Prop := ∀ i c, b !! i = Some c → name_char i c.

Definition sanitized (i r : Z) : byte := lower_char (byte.of_Z (sanitize_rune i r)).

Lemma in_range_spec lo hi r : (in_range lo hi r = true ∧ lo <= r <= hi) ∨
  (in_range lo hi r = false ∧ ¬ lo <= r <= hi).
Proof. unfold in_range. destruct (Z.leb_spec lo r), (Z.leb_spec r hi); cbn; lia. Qed.

(** Case analysis on every range test of the goal. *)
Ltac range_cases :=
  repeat match goal with
  | |- context [in_range ?lo ?hi ?r] =>
      let H := fresh in destruct (in_range_spec lo hi r) as [[H ?]|[H ?]]; rewrite !H; clear H
  end.

Lemma sanitize_rune_spec i r s : s = sanitize_rune i r →
  (97 <= s <= 122 ∨ 65 <= s <= 90 ∨ s = 95 ∨ (48 <= s <= 57 ∧ 0 < i)) ∧
  ((97 <= r <= 122 ∨ r = 95 ∨ (48 <= r <= 57 ∧ 0 < i)) → s = r).
Proof.
  intros ->. unfold sanitize_rune, is_letter.
  range_cases; destruct (Z.eqb_spec r 95), (Z.ltb_spec 0 i); cbn [andb orb]; lia.
Qed.

Lemma ascii_ToLower_spec r : (65 <= r <= 90 ∧ ascii_ToLower r = r + 32) ∨
  (¬ 65 <= r <= 90 ∧ ascii_ToLower r = r).
Proof. unfold ascii_ToLower. range_cases; lia. Qed.

Lemma sanitize_rune_ascii i r : 0 <= sanitize_rune i r < 128.
Proof. pose proof (sanitize_rune_spec i r _ eq_refl). lia. Qed.

Lemma EncodeRune_ascii r : 0 <= r < 128 → EncodeRune r = [byte.of_Z r].
Proof.
  intros H. unfold EncodeRune, in_range.
  destruct (Z.leb_spec 0 r), (Z.leb_spec r 0x7F); try lia. done.
Qed.

Lemma unsigned_ascii r : 0 <= r < 128 → byte.unsigned (byte.of_Z r) = r.
Proof. intros H. rewrite byte.unsigned_of_Z. apply Z.mod_small. lia. Qed.

(** The bytes of a sanitized name, one per rune. *)
Lemma sanitize_bytes s : to_bytes (sanitizeMetricName s) =
  map (λ x : Z * Z * bytes, sanitized x.1.1 x.1.2) (runes s).
Proof.
  unfold sanitizeMetricName.
  replace (concat (map _ (runes s)))
    with (map (λ x : Z * Z * bytes, byte.of_Z (sanitize_rune x.1.1 x.1.2)) (runes s)).
  2: { induction (runes s) as [|x l IH]; [done|]. cbn [map concat].
       by rewrite EncodeRune_ascii, IH by apply sanitize_rune_ascii. }
  unfold ToLower, isASCII. rewrite !to_of_bytes.
  replace (forallb _ _) with true; [by rewrite map_map|].
  symmetry. apply forallb_forall. intros c (x & <- & _)%in_map_iff.
  pose proof (sanitize_rune_ascii x.1.1 x.1.2). rewrite unsigned_ascii by done. lia.
Qed.

Lemma sanitized_char i r n : (n = 0%nat ↔ i = 0) → 0 <= i → name_char n (sanitized i r).
Proof.
  intros Hn Hi. unfold name_char, sanitized, lower_char.
  pose proof (sanitize_rune_ascii i r) as Ha. rewrite (unsigned_ascii _ Ha).
  pose proof (sanitize_rune_spec i r _ eq_refl). pose proof (ascii_ToLower_spec (sanitize_rune i r)).
  rewrite unsigned_ascii; lia.
Qed.

Lemma DecodeRune_width c b : (0 < (DecodeRune (c :: b)).2)%nat.
Proof.
  unfold DecodeRune. cbn [take map]. repeat case_match; cbn; lia.
Qed.

Lemma runes_loop_index fuel i b n x : runes_loop fuel i b !! n = Some x →
  (n = 0%nat ∧ x.1.1 = i) ∨ ((0 < n)%nat ∧ i < x.1.1).
Proof.
  revert i b n. induction fuel as [|fuel IH]; intros i b n; [done|].
  destruct b as [|c b]; [done|]. cbn [runes_loop].
  pose proof (DecodeRune_width c b) as Hw. destruct (DecodeRune (c :: b)) as [r w]. cbn in Hw.
  destruct n as [|n]; cbn; [intros [= <-]; by left|]. intros H. right. apply IH in H. lia.
Qed.

Lemma sanitize_name_bytes s : name_bytes (to_bytes (sanitizeMetricName s)).
Proof.
  intros n c. rewrite sanitize_bytes. intros H.
  apply list_lookup_fmap_Some in H as (x & -> & Hx). apply runes_loop_index in Hx.
  apply sanitized_char; lia.
Qed.

(** An ASCII string is iterated byte by byte. *)
Lemma runes_loop_ascii b fuel i : (length b <= fuel)%nat → Forall (λ c, byte.unsigned c < 128) b →
  runes_loop fuel i b = imap (λ n c, (i + Z.of_nat n, byte.unsigned c, [c])) b.
Proof.
  revert fuel i. induction b as [|c b IH]; intros fuel i Hf Hb; [by destruct fuel|].
  apply Forall_cons in Hb as [Hc Hb]. destruct fuel as [|fuel]; [cbn in Hf; lia|].
  assert (Hd : DecodeRune (c :: b) = (byte.unsigned c, 1%nat)).
  { unfold DecodeRune. cbn [take map]. destruct (Z.ltb_spec (byte.unsigned c) 0x80); [done|lia]. }
  cbn [runes_loop]. rewrite Hd. cbn [take drop imap]. rewrite IH by (cbn in Hf; lia || done).
  f_equal; [by rewrite Z.add_0_r|]. apply imap_ext. intros n x _. cbn. do 2 f_equal. lia.
Qed.

Lemma name_char_ascii n c : name_char n c → byte.unsigned c < 128.
Proof.
  unfold name_char. pose proof (byte.unsigned_range c). lia.
Qed.

Lemma sanitized_name_char n c : name_char n c → sanitized (Z.of_nat n) (byte.unsigned c) = c.
Proof.
  intros H. pose proof (name_char_ascii _ _ H) as Ha. pose proof (byte.unsigned_range c).
  pose proof (sanitize_rune_spec (Z.of_nat n) (byte.unsigned c) _ eq_refl) as [_ Hs].
  unfold sanitized, lower_char. unfold name_char in H. rewrite Hs, unsigned_ascii by lia.
  pose proof (ascii_ToLower_spec (byte.unsigned c)) as [?|[_ ->]]; [lia|].
  apply byte.of_Z_unsigned.
Qed.

Lemma sanitize_name s : name_bytes (to_bytes s) → sanitizeMetricName s = s.
Proof.
  intros H. rewrite <- (of_to_bytes (sanitizeMetricName s)), sanitize_bytes.
  rewrite <- (of_to_bytes s) at 2. f_equal. unfold runes. rewrite runes_loop_ascii; [|lia|].
  - apply list_eq. intros n.
    etransitivity; [apply list_lookup_fmap|]. rewrite list_lookup_imap.
    destruct (to_bytes s !! n) as [c|] eqn:Hc; [|done]. cbn. f_equal.
    by apply sanitized_name_char, H.
  - rewrite Forall_lookup. intros n c Hc. by eapply name_char_ascii, H.
Qed.

(** *** Topics *)

Lemma topicKind_cut topic k : k ≠ KindUnknown →
  topicKind topic = k ↔ ∃ id, cut "."%char topic = Some (id, kind_string k).
Proof.
  intros Hk. unfold topicKind, SplitN2.
  destruct (cut "."%char topic) as [[id rest]|].
  - split.
    + intros H. exists id. repeat case_decide; subst; done.
    + intros (id' & Heq). simplify_eq. by destruct k.
  - split; [intros; by subst|]. by intros (id & Heq).
Qed.

Lemma cut_no_char sep s a b : cut sep s = Some (a, b) → no_char sep a.
Proof.
  unfold no_char. revert a. induction s as [|c s IH]; intros a; cbn [cut]; [done|].
  case_decide as Hc; [intros; by simplify_eq|].
  destruct (cut sep s) as [[a' b']|]; [|done]. intros. simplify_eq. cbn [cut].
  rewrite decide_False by done. by rewrite (IH a' eq_refl).
Qed.

(** *** Samples and entries *)

(** What every sample of a message of [topic] at [ts] satisfies. *)
Record sample_ok (topic : string) (ts : time) (m : MetricSample) : Prop := {
  sample_topic : m_Labels m !! "topic"%string = Some topic;
  sample_names : m_Labels m !! ""%string = None;
  sample_name : name_bytes (to_bytes (m_Name m));
  sample_time : m_Timestamp m = ts }.

Record entry_ok (topic : string) (ts : time) (e : LogEntry) : Prop := {
  entry_topic : l_StreamLabels e !! "topic"%string = Some topic;
  entry_names : l_StreamLabels e !! ""%string = None;
  entry_job : l_StreamLabels e !! "job"%string = Some ("ome_" +:+ kind_string (topicKind topic))%string;
  entry_time : l_Timestamp e = ts }.

Lemma telemetry_metrics_ok topic ts msg ms :
  Forall (sample_ok topic ts) (telemetry_metrics (telemetryLabels topic msg) ts ms).
Proof.
  induction ms as [|m ms IH]; cbn; [constructor|]. destruct (toFloat64 _); [|done].
  constructor; [|done]. unfold telemetry_sample. rewrite copyLabels_id. split; cbn [m_Labels m_Name m_Timestamp].
  - case_decide; [done|]. by rewrite lookup_insert_ne.
  - case_decide; [done|]. by rewrite lookup_insert_ne.
  - apply sanitize_name_bytes.
  - done.
Qed.

Lemma name_bytes_check s :
  forallb (λ ic : nat * byte, let r := byte.unsigned ic.2 in
    in_range 97 122 r || (r =? 95) || (in_range 48 57 r && (0 <? ic.1)%nat))
    (imap pair (to_bytes s)) = true → name_bytes (to_bytes s).
Proof.
  intros H%Is_true_true_2. rewrite forallb_True, Forall_lookup in H. intros n c Hc.
  specialize (H n (n, c)). rewrite list_lookup_imap, Hc in H. specialize (H eq_refl).
  apply Is_true_true in H. cbn [fst snd] in H. unfold name_char.
  revert H. range_cases; destruct (Z.eqb_spec (byte.unsigned c) 95), (Nat.ltb_spec 0 n);
    cbn [andb orb]; intros; first [done|lia].
Qed.

Lemma health_metrics_ok order topic ts msg :
  Forall (sample_ok topic ts) (health_metrics order topic ts msg).
Proof.
  unfold health_metrics. rewrite copyLabels_id. repeat apply Forall_cons_2.
  - split; [done|done|by apply name_bytes_check|done].
  - split; [done|done|by apply name_bytes_check|done].
  - apply Forall_fmap, Forall_true. intros cs. unfold component_sample. cbn. rewrite copyLabels_id.
    split; cbn [m_Labels m_Name m_Timestamp];
      [by rewrite lookup_insert_ne|by rewrite lookup_insert_ne|by apply name_bytes_check|done].
Qed.

(** What a parsed message looks like, by kind. *)
Definition message_ok (topic : string) (pm : ParsedMessage) : Prop :=
  p_Topic pm = topic ∧ p_Kind pm = topicKind topic ∧
  match p_Kind pm with
  | KindTelemetry | KindHealth =>
      p_LogEntry pm = None ∧ Forall (sample_ok topic (p_Timestamp pm)) (p_Metrics pm)
  | KindAlerts | KindAuditLogs | KindInventory =>
      p_Metrics pm = [] ∧ ∃ e, p_LogEntry pm = Some e ∧ entry_ok topic (p_Timestamp pm) e
  | KindUnknown => False
  end.

Lemma Parse_ok now order topic value pm :
  Parse now order topic value = inl pm → message_ok topic pm.
Proof.
  unfold Parse, message_ok. destruct (topicKind topic) eqn:Ek; [..|done];
    unfold parseTelemetry, parseHealth, parseAlert, parseAuditLog, parseInventory;
    (destruct (unmarshal _ _ _) as [msg|]; [|done]); destruct (parseOMETime _ _) as [ts e];
    intros; simplify_eq; cbn; rewrite ?Ek; (split; [done|]; split; [done|]).
  - split; [done|]. apply telemetry_metrics_ok.
  - split; [done|]. apply health_metrics_ok.
  - split; [done|]. eexists. split; [done|]. split; cbn; rewrite ?Ek; done.
  - split; [done|]. eexists. split; [done|]. split; cbn; rewrite ?Ek; done.
  - split; [done|]. eexists. split; [done|]. split; cbn; rewrite ?Ek; done.
Qed.

(** *** Iteration over the component map *)

Lemma health_metrics_perm o1 o2 topic ts msg :
  valid_order (ComponentHealthMap msg) (o1 (ComponentHealthMap msg)) →
  valid_order (ComponentHealthMap msg) (o2 (ComponentHealthMap msg)) →
  health_metrics o1 topic ts msg ≡ₚ health_metrics o2 topic ts msg.
Proof.
  intros H1 H2. unfold health_metrics. apply Permutation_app_head, Permutation_map.
  by rewrite !entries_perm.
Qed.

(** *** The members written decode to the struct they came from *)

Lemma dec_fields_app {A} (fs : struct_fields A) ms1 ms2 a a' :
  dec_fields fs ms1 a = inl a' → dec_fields fs (ms1 ++ ms2) a = dec_fields fs ms2 a'.
Proof.
  revert a. induction ms1 as [|[k j] ms1 IH]; intros a; cbn; [by intros [= ->]|].
  destruct (find_field fs k) as [d|]; [|apply IH]. destruct (d j a); [apply IH|done].
Qed.

Lemma dec_fields_cons {A} (fs : struct_fields A) kj ms a a' :
  dec_fields fs [kj] a = inl a' → dec_fields fs (kj :: ms) a = dec_fields fs ms a'.
Proof. apply (dec_fields_app fs [kj]). Qed.

(** *** Arrays and maps of a payload *)

(** A telemetry payload: the header's members and one object per metric. *)
Definition metric_json (m : string * json * string) : json :=
  JObject [("MetricName", JString m.1.1); ("MetricValue", m.1.2); ("Unit", JString m.2)]%string.
Definition telemetry_json (h : OMETelemetryMessage) (ms : list (string * json * string)) : json :=
  JObject [("DeviceId", JNumber (pretty (t_DeviceID h))); ("DeviceName", JString (t_DeviceName h));
    ("ServiceTag", JString (t_ServiceTag h)); ("Model", JString (t_Model h));
    ("DeviceType", JString (t_DeviceType h)); ("IPAddress", JString (t_IPAddress h));
    ("Timestamp", JString (t_Timestamp h)); ("MetricList", JArray (map metric_json ms))]%string.

Lemma metric_json_decode m a :
  to_any type_error m.1.2 = inl a →
  dec_struct type_error tmetric_fields (metric_json m) zeroTMetric = inl (mkTMetric m.1.1 a m.2).
Proof.
  intros Ha. unfold metric_json, dec_struct.
  erewrite dec_fields_cons; [|dec_one].
  erewrite dec_fields_cons; [|find_one; cbn -[to_any]; unfold dec_any; rewrite Ha; reflexivity].
  dec_one.
Qed.

Lemma metric_list_decode ms as' :
  Forall2 (λ m a, to_any type_error m.1.2 = inl a) ms as' →
  dec_slice type_error zeroTMetric (dec_struct type_error tmetric_fields)
    (JArray (map metric_json ms)) [] = inl (zip_with (λ m a, mkTMetric m.1.1 a m.2) ms as').
Proof.
  intros H. unfold dec_slice. induction H as [|m a ms as' Ha _ IH]; [done|].
  cbn [map dec_elems head tail default zip_with].
  change (default zeroTMetric None) with zeroTMetric.
  rewrite (metric_json_decode _ _ Ha). by rewrite IH.
Qed.

Lemma telemetry_json_decode h ms as' : inS 64 (t_DeviceID h) →
  Forall2 (λ m a, to_any type_error m.1.2 = inl a) ms as' →
  dec_struct type_error telemetry_fields (telemetry_json h ms) zeroTelemetry =
    inl (mkTelemetry (t_DeviceID h) (t_DeviceName h) (t_ServiceTag h) (t_Model h) (t_DeviceType h)
      (t_IPAddress h) (t_Timestamp h) (zip_with (λ m a, mkTMetric m.1.1 a m.2) ms as')).
Proof.
  intros Hid Hms. unfold telemetry_json, dec_struct.
  do 7 (erewrite dec_fields_cons; [|dec_one]).
  find_one. cbn -[dec_slice metric_json]. by rewrite (metric_list_decode _ _ Hms).
Qed.

(** The samples the numeric metrics stand for. *)
Definition numeric (v : any) : option float64 :=
  match toFloat64 v with inl f => Some f | inr _ => None end.

Lemma telemetry_metrics_omap base ts ms : telemetry_metrics base ts ms =
  omap (λ m, telemetry_sample base ts m <$> numeric (MetricValue m)) ms.
Proof.
  induction ms as [|m ms IH]; [done|]. cbn. unfold numeric.
  destruct (toFloat64 (MetricValue m)); cbn; by rewrite IH.
Qed.

(** A health payload. *)
Definition health_json (h : OMEHealthMessage) (cs : list (string * Z)) : json :=
  JObject [("DeviceId", JNumber (pretty (h_DeviceID h))); ("DeviceName", JString (h_DeviceName h));
    ("ServiceTag", JString (h_ServiceTag h)); ("Model", JString (h_Model h));
    ("DeviceType", JString (h_DeviceType h)); ("IPAddress", JString (h_IPAddress h));
    ("Timestamp", JString (h_Timestamp h)); ("RollupStatus", JNumber (pretty (RollupStatus h)));
    ("ConnectionStatus", JString (ConnectionStatus h)); ("PowerState", JNumber (pretty (PowerState h)));
    ("ComponentHealthMap", JObject (map (λ c, (c.1, JNumber (pretty c.2))) cs))]%string.

Lemma dec_members_ints cs (m : gmap string Z) : Forall (λ c, inS 64 c.2) cs →
  dec_members 0 (dec_int type_error) (map (λ c, (c.1, JNumber (pretty c.2))) cs) m =
    inl (foldl (λ m c, <[c.1 := c.2]> m) m cs).
Proof.
  intros H. revert m. induction H as [|[k n] cs Hn _ IH]; intros m; [done|].
  cbn [map dec_members fst snd foldl]. by rewrite dec_int_pretty.
Qed.

Lemma foldl_insert {V} (cs : list (string * V)) (m : gmap string V) : NoDup cs.*1 →
  foldl (λ m c, <[c.1 := c.2]> m) m cs = list_to_map cs ∪ m.
Proof.
  revert m. induction cs as [|[k n] cs IH]; intros m; [cbn; by rewrite (left_id_L ∅ (∪))|].
  cbn. intros [Hk Hnd]%NoDup_cons. rewrite IH by done.
  rewrite <- insert_union_l. rewrite <- insert_union_r; [done|]. by apply not_elem_of_list_to_map.
Qed.

Lemma health_json_decode h cs : inS 64 (h_DeviceID h) → inS 64 (RollupStatus h) → inS 64 (PowerState h) →
  Forall (λ c, inS 64 c.2) cs → NoDup cs.*1 →
  dec_struct type_error health_fields (health_json h cs) zeroHealth =
    inl (mkHealth (h_DeviceID h) (h_DeviceName h) (h_ServiceTag h) (h_Model h) (h_DeviceType h)
      (h_IPAddress h) (h_Timestamp h) (RollupStatus h) (ConnectionStatus h) (PowerState h)
      (list_to_map cs)).
Proof.
  intros H1 H2 H3 Hcs Hnd. unfold health_json, dec_struct.
  do 10 (erewrite dec_fields_cons; [|dec_one]).
  find_one. cbn -[dec_members dec_int pretty].
  rewrite dec_members_ints by done. by rewrite foldl_insert, (right_id_L ∅ (∪)).
Qed.

(** ** Properties *)

(** C36. A message that parses is well formed: it keeps its topic, its kind is
    the topic's, it is never both metrics and a log entry -- telemetry and
    health carry samples and no entry, the other kinds carry exactly one entry
    and no samples -- and every sample or entry has the message's time stamp,
    names its topic in a label, has no empty label name, and (for samples) a
    valid Prometheus metric name. *)
Theorem Parse_wellformed (now : time) (order : gmap string Z → list string) (topic : string)
    (value : bytes) (pm : ParsedMessage) :
  Parse now order topic value = inl pm → message_ok topic pm.
Proof. apply Parse_ok. Qed.

(** A topic has a known kind exactly when the part after its FIRST dot is
    the kind's name: [<identifier>.<kind>] with an identifier free of dots. *)
Theorem topicKind_spec (topic : string) (k : MessageKind) : k ≠ KindUnknown →
  topicKind topic = k ↔
  ∃ id, no_char "."%char id ∧ topic = (id +:+ String "."%char (kind_string k))%string.
Proof.
  intros Hk. rewrite topicKind_cut by done. split.
  - intros (id & Hc). exists id. split; [by eapply cut_no_char|by apply cut_Some].
  - intros (id & Hid & ->). exists id. by apply cut_app.
Qed.

(** [sanitizeMetricName] yields a valid lower-case metric name --
    [[a-z_][a-z0-9_]*], one character per rune of its input, malformed UTF-8
    included -- and leaves such names alone, so it is idempotent. *)
Theorem sanitize_valid (s : string) :
  name_bytes (to_bytes (sanitizeMetricName s)) ∧
  length (to_bytes (sanitizeMetricName s)) = length (runes s) ∧
  sanitizeMetricName (sanitizeMetricName s) = sanitizeMetricName s.
Proof.
  split; [apply sanitize_name_bytes|]. split; [by rewrite sanitize_bytes, length_map|].
  apply sanitize_name, sanitize_name_bytes.
Qed.

(** C10. A telemetry payload, from JSON to samples: whatever the metrics' values
    are, the samples are those of the numeric ones, in the order of the list,
    each with its value, its sanitized name, the device's labels and -- when
    given -- its unit; the others are skipped without an error. *)
Theorem telemetry_end_to_end (now : time) (order : gmap string Z → list string) (topic : string)
    (value : bytes) (h : OMETelemetryMessage) (ms : list (string * json * string)) (vals : list any) :
  topicKind topic = KindTelemetry → inS 64 (t_DeviceID h) →
  json_scan value = inl (telemetry_json h ms) →
  Forall2 (λ m a, to_any type_error m.1.2 = inl a) ms vals →
  ∃ pm ts, Parse now order topic value = inl pm ∧ ts = (parseOMETime now (t_Timestamp h)).1 ∧
    p_LogEntry pm = None ∧
    p_Metrics pm =
      omap (λ mv, (λ f, {| m_Name := sanitizeMetricName ("ome_telemetry_" +:+ mv.1.1.1);
          m_Labels := (if decide (mv.1.2 = ""%string) then id else insert "unit"%string mv.1.2)
            (telemetryLabels topic h);
          m_Value := f; m_Timestamp := ts |}) <$> numeric mv.2) (zip ms vals).
Proof.
  intros Hk Hid Hscan Hms. unfold Parse. rewrite Hk.
  unfold parseTelemetry, unmarshal. rewrite Hscan, (telemetry_json_decode h ms vals) by done.
  cbn [t_Timestamp]. destruct (parseOMETime now (t_Timestamp h)) as [ts err] eqn:Ets.
  eexists _, ts. split; [done|]. cbn [p_LogEntry p_Metrics MetricList fst]. do 2 (split; [done|]).
  change (telemetryLabels topic (mkTelemetry _ _ _ _ _ _ _ _)) with (telemetryLabels topic h).
  rewrite telemetry_metrics_omap. clear Hscan.
  induction Hms as [|m a ms vals Ha _ IH]; [done|]. cbn [zip_with omap list_omap].
  cbn [MetricValue fst snd]. rewrite IH. unfold telemetry_sample. cbn [MetricName Unit].
  rewrite copyLabels_id. destruct (numeric a); [|done]. cbn. by case_decide.
Qed.

(** C11. A health payload, from JSON to samples: one sample for the rollup status,
    one for the power state and one for each component, the same multiset
    whatever order Go visits the component map in; and every status code of
    magnitude below 2^53 is the exact value of its sample. *)
Theorem health_end_to_end (now : time) (order : gmap string Z → list string) (topic : string)
    (value : bytes) (h : OMEHealthMessage) (cs : list (string * Z)) :
  topicKind topic = KindHealth →
  inS 64 (h_DeviceID h) → inS 64 (RollupStatus h) → inS 64 (PowerState h) →
  Forall (λ c, inS 64 c.2) cs → NoDup cs.*1 →
  json_scan value = inl (health_json h cs) →
  (∀ m, valid_order m (order m)) →
  ∃ pm ts, Parse now order topic value = inl pm ∧ ts = (parseOMETime now (h_Timestamp h)).1 ∧
    p_Metrics pm ≡ₚ
      {| m_Name := "ome_health_rollup_status"; m_Labels := healthLabels topic h;
         m_Value := float64_of_int (RollupStatus h); m_Timestamp := ts |} ::
      {| m_Name := "ome_health_power_state"; m_Labels := healthLabels topic h;
         m_Value := float64_of_int (PowerState h); m_Timestamp := ts |} ::
      ((λ c, {| m_Name := "ome_health_component_status";
         m_Labels := <["component"%string := c.1]> (healthLabels topic h);
         m_Value := float64_of_int c.2; m_Timestamp := ts |}) <$> cs) ∧
    (∀ n, Z.abs n < 2 ^ 53 → int_of_bits (float64_of_int n) = Some n).
Proof.
  intros Hk H1 H2 H3 Hcs Hnd Hscan Horder. unfold Parse. rewrite Hk.
  unfold parseHealth, unmarshal. rewrite Hscan, (health_json_decode h cs) by done.
  cbn [h_Timestamp]. destruct (parseOMETime now (h_Timestamp h)) as [ts err] eqn:Ets.
  eexists _, ts. split; [done|]. split; [done|]. split; [|apply float64_of_int_exact].
  cbn [p_Metrics]. unfold health_metrics. cbn [ComponentHealthMap RollupStatus PowerState].
  rewrite copyLabels_id. change (healthLabels topic (mkHealth _ _ _ _ _ _ _ _ _ _ _))
    with (healthLabels topic h). cbn [app]. do 2 apply perm_skip.
  etransitivity; [apply Permutation_map, entries_perm, Horder|].
  rewrite map_to_list_to_map by done. unfold component_sample. by rewrite copyLabels_id.
Qed.

End Parser.

(** ** Witnesses *)

Definition no_Quote (s : string) : string := s.
Definition no_type_name (a : any) : string := "interface {}"%string.
Definition sample_type_error (j : json) : error := "json: cannot unmarshal"%string.

(** A JSON text, written with apostrophes for its double quotes. *)
Definition json_bytes (s : string) : bytes :=
  map (λ c, if isb 39 c then Byte.x22 else c) (to_bytes s).

Definition sample_Parse : time → _ → string → bytes → ParsedMessage + error :=
  Parse id sample_type_error no_Quote no_type_name.

Lemma Parse_wellformed_witness : ∃ pm,
  sample_Parse 5 some_order "dc1.health" (json_bytes "{}") = inl pm ∧ message_ok "dc1.health" pm.
Proof.
  eexists. split; [vm_compute; reflexivity|].
  apply (Parse_wellformed id sample_type_error no_Quote no_type_name 5 some_order "dc1.health" (json_bytes "{}")).
  vm_compute. reflexivity.
Defined.

Lemma topicKind_spec_witness : topicKind "ome.inventory" = KindInventory ↔
  ∃ id, no_char "."%char id ∧ "ome.inventory"%string = (id +:+ String "."%char "inventory")%string.
Proof. apply (topicKind_spec "ome.inventory" KindInventory). discriminate. Defined.

Definition sample_telemetry : OMETelemetryMessage :=
  mkTelemetry 10074 "r740" "ABC1234" "PowerEdge R740" "server" "10.0.0.7" "2024-01-01T00:00:00Z" [].
Definition sample_metric_list : list (string * json * string) :=
  [("CPU Usage %", JNumber "42.5", "percent"); ("State", JBool true, "");
   ("Inlet-Temp", JString " 23 C", "")]%string.
Definition sample_vals : list any := [AFloat64 0x4045400000000000; ABool true; AString " 23 C"].
Definition sample_telemetry_bytes : bytes :=
  json_bytes "{'DeviceId':10074,'DeviceName':'r740','ServiceTag':'ABC1234','Model':'PowerEdge R740',
    'DeviceType':'server','IPAddress':'10.0.0.7','Timestamp':'2024-01-01T00:00:00Z','MetricList':[
    {'MetricName':'CPU Usage %','MetricValue':42.5,'Unit':'percent'},
    {'MetricName':'State','MetricValue':true,'Unit':''},
    {'MetricName':'Inlet-Temp','MetricValue':' 23 C','Unit':''}]}".

Lemma telemetry_end_to_end_witness : ∃ pm,
  sample_Parse 5 some_order "ome.telemetry" sample_telemetry_bytes = inl pm ∧
  (λ m, (m_Name m, m_Value m, m_Timestamp m)) <$> p_Metrics pm =
    [("ome_telemetry_cpu_usage__", 0x4045400000000000, 1704067200000000000);
     ("ome_telemetry_inlet_temp", float64_of_int 23, 1704067200000000000)]%string.
Proof.
  destruct (telemetry_end_to_end id sample_type_error no_Quote no_type_name 5 some_order
    "ome.telemetry" sample_telemetry_bytes sample_telemetry sample_metric_list sample_vals)
    as (pm & ts & Hp & Hts & _ & Hm).
  - reflexivity.
  - vm_compute. split; congruence.
  - vm_compute. reflexivity.
  - repeat (apply Forall2_cons; split; [vm_compute; reflexivity|]). apply Forall2_nil_2.
  - exists pm. split; [exact Hp|]. rewrite Hm, Hts. vm_compute. reflexivity.
Defined.

Definition sample_health : OMEHealthMessage :=
  mkHealth 10074 "r740" "ABC1234" "PowerEdge R740" "server" "10.0.0.7" "" 1000 "connected" 17 ∅.
Definition sample_health_bytes : bytes :=
  json_bytes "{'DeviceId':10074,'DeviceName':'r740','ServiceTag':'ABC1234','Model':'PowerEdge R740',
    'DeviceType':'server','IPAddress':'10.0.0.7','Timestamp':'','RollupStatus':1000,
    'ConnectionStatus':'connected','PowerState':17,'ComponentHealthMap':{'PSU':3000,'Fan':1000}}".

Lemma health_end_to_end_witness : ∃ pm,
  sample_Parse 5 some_order "ome.health" sample_health_bytes = inl pm ∧
  (λ m, int_of_bits (m_Value m)) <$> p_Metrics pm ≡ₚ [Some 1000; Some 17; Some 3000; Some 1000].
Proof.
  destruct (health_end_to_end id sample_type_error no_Quote no_type_name 5 some_order
    "ome.health" sample_health_bytes sample_health [("PSU", 3000); ("Fan", 1000)]%string) as (pm & ts & Hp & _ & Hm & Hex).
  - reflexivity.
  - vm_compute; split; congruence.
  - vm_compute; split; congruence.
  - vm_compute; split; congruence.
  - repeat constructor; vm_compute; congruence.
  - by_decision.
  - vm_compute. reflexivity.
  - intros m. apply some_order_valid.
  - exists pm. split; [exact Hp|]. rewrite Hm. reflexivity.
Defined.
