(* ===== verification/Readings.v ===== *)
(** * Readings: timestamps and metric values, from text to number

    What [parseOMETime] makes of the shapes OME writes a time in, and what
    [toFloat64] makes of a metric value with a unit. *)
From S2P Require Import Prelude Float GoLib Utf8 Strconv Rounding GoTime Json Parser.
From stdpp Require Import pretty.
Open Scope Z_scope.

(** ** Fields of a well-formed string *)

Definition text_of (rs : list Z) : string := of_bytes (utf8_encode rs).

Lemma raw_of_pairs l rs : map (λ x : Z * Z * bytes, (x.1.2, x.2)) l = map (λ r, (r, EncodeRune r)) rs →
  raw_of l = text_of rs.
Proof.
  intros H. unfold raw_of, text_of, utf8_encode. f_equal. f_equal.
  transitivity (map snd (map (λ x : Z * Z * bytes, (x.1.2, x.2)) l)); [by rewrite map_map|].
  rewrite H, map_map. done.
Qed.

(** The first field of runes [l], read after the runes [cur] of a field. *)
Lemma fields_loop_head l : ∀ cur rs word post,
  map (λ x : Z * Z * bytes, (x.1.2, x.2)) l = map (λ r, (r, EncodeRune r)) (word ++ post) →
  map (λ x : Z * Z * bytes, (x.1.2, x.2)) (rev cur) = map (λ r, (r, EncodeRune r)) rs →
  rs ++ word ≠ [] → Forall (λ r, IsSpace r = false) word →
  match post with [] => True | r :: _ => IsSpace r = true end →
  ∃ rest, fields_loop cur l = text_of (rs ++ word) :: rest.
Proof.
  induction l as [|[[i r] raw] l IH]; intros cur rs word post Hl Hc Hne Hw Hp.
  - destruct word as [|w word]; [|done]. destruct post; [|done]. rewrite app_nil_r in *.
    destruct cur as [|x cur]; [destruct rs; done|]. exists []. cbn [fields_loop].
    by rewrite (raw_of_pairs _ _ Hc).
  - destruct word as [|w word].
    + destruct post as [|p post]; [done|]. cbn in Hl. injection Hl as -> _ Hl. cbn [fields_loop]. rewrite Hp.
      rewrite app_nil_r in *. destruct cur as [|x cur]; [destruct rs; done|].
      exists (fields_loop [] l). by rewrite (raw_of_pairs _ _ Hc).
    + cbn in Hl. injection Hl as -> -> Hl. apply Forall_cons in Hw as [Hw1 Hw]. cbn [fields_loop]. rewrite Hw1.
      rewrite cons_middle, app_assoc. eapply IH; [exact Hl| | |exact Hw|exact Hp].
      * cbn [rev]. rewrite !map_app, Hc. done.
      * by destruct rs.
Qed.

Lemma fields_loop_spaces l : ∀ sp rs,
  map (λ x : Z * Z * bytes, (x.1.2, x.2)) l = map (λ r, (r, EncodeRune r)) (sp ++ rs) →
  Forall (λ r, IsSpace r = true) sp →
  ∃ l', fields_loop [] l = fields_loop [] l' ∧
    map (λ x : Z * Z * bytes, (x.1.2, x.2)) l' = map (λ r, (r, EncodeRune r)) rs.
Proof.
  induction l as [|[[i r] raw] l IH]; intros sp rs Hl Hs; destruct sp as [|s sp]; try done; try (by eexists).
  cbn in Hl. injection Hl as -> _ Hl. apply Forall_cons in Hs as [Hs1 Hs]. cbn [fields_loop]. rewrite Hs1. eauto.
Qed.

(** [strings.Fields] of spaces, a word, and whatever follows a space. *)
Lemma Fields_head sp word post : Forall scalar (sp ++ word ++ post) →
  Forall (λ r, IsSpace r = true) sp → word ≠ [] → Forall (λ r, IsSpace r = false) word →
  match post with [] => True | r :: _ => IsSpace r = true end →
  ∃ rest, Fields (text_of (sp ++ word ++ post)) = text_of word :: rest.
Proof.
  intros Hsc Hs Hne Hw Hp. unfold Fields.
  pose proof (runes_valid (text_of (sp ++ word ++ post)) _ Hsc) as Hr.
  specialize (Hr ltac:(unfold text_of; by rewrite to_of_bytes)).
  destruct (fields_loop_spaces _ _ _ Hr Hs) as (l' & -> & Hl').
  by apply (fields_loop_head l' [] [] word post).
Qed.

(** ** The runes of a decimal *)

Lemma pretty_chars (n : Z) : Forall (λ c, 45 <= byte.unsigned c <= 57) (to_bytes (pretty n)).
Proof. rewrite pretty_Z_text. by eapply decimal_text_chars; [apply digits_pretty_N|]. Qed.

Lemma chars_ASCII (b : bytes) : Forall (λ c, 45 <= byte.unsigned c <= 57) b → isASCII (of_bytes b) = true.
Proof.
  intros H. unfold isASCII. rewrite to_of_bytes. apply forallb_forall. intros c Hc%list_elem_of_In.
  rewrite Forall_forall in H. specialize (H c Hc). lia.
Qed.

Lemma pretty_ASCII (n : Z) : isASCII (pretty n) = true.
Proof. rewrite <- (of_to_bytes (pretty n)). apply chars_ASCII, pretty_chars. Qed.

Lemma chars_no_space (b : bytes) : Forall (λ c, 45 <= byte.unsigned c <= 57) b →
  Forall (λ r, IsSpace r = false) (ascii_runes (of_bytes b)).
Proof.
  unfold ascii_runes. rewrite to_of_bytes. intros H. apply Forall_map. eapply Forall_impl; [exact H|].
  intros c Hc. cbn beta in *. unfold IsSpace, in_range. lia.
Qed.

(** A decimal in the words of a text: it ends at its unit, what follows a space
    is not read, and the number is [strconv.ParseFloat]'s. *)
Lemma Fields_decimal neg ip fp i v sp unit post :
  digits 0 ip = Some i → digits i fp = Some v → ip ≠ [] →
  Forall scalar (sp ++ unit ++ post) → Forall (λ r, IsSpace r = true) sp →
  Forall (λ r, IsSpace r = false) unit → ends_float (utf8_encode unit) →
  match post with [] => True | r :: _ => IsSpace r = true end →
  ∃ word rest,
    Fields (text_of (sp ++ (ascii_runes (of_bytes (decimal_text neg ip fp None)) ++ unit) ++ post)) = word :: rest ∧
    Sscanf_f word = ParseFloat (of_bytes (decimal_text neg ip fp None)).
Proof.
  intros Hi Hv Hne Hsc Hs Hu He Hp. pose proof (decimal_text_chars neg ip fp _ i v Hi Hv) as Hc.
  set (t := of_bytes (decimal_text neg ip fp None)).
  destruct (ascii_runes_encode t (chars_ASCII _ Hc)) as [Hr Ht].
  destruct (Fields_head sp (ascii_runes t ++ unit) post) as [rest Hf]; [|done| | |done|].
  - rewrite !Forall_app in *. tauto.
  - intros Hnil%(f_equal length). unfold ascii_runes, t in Hnil.
    rewrite length_app, length_map, to_of_bytes in Hnil. unfold decimal_text in Hnil.
    rewrite !length_app in Hnil. destruct ip; [done|]. cbn in Hnil. lia.
  - rewrite Forall_app. split; [by apply chars_no_space|done].
  - eexists _, rest. split; [exact Hf|].
    assert (Hw : text_of (ascii_runes t ++ unit) = (t +:+ text_of unit)%string).
    { rewrite <- (of_to_bytes (t +:+ text_of unit)). unfold text_of.
      by rewrite utf8_encode_app, <- Ht, to_bytes_app, to_of_bytes. }
    rewrite Hw. eapply Sscanf_decimal; [done..|]. unfold text_of. by rewrite to_of_bytes.
Qed.

(** ** Times as OME writes them *)

Definition time_text (sep : byte) (y mo d h mi s : Z) (ns : option Z) (zone : bytes) : string :=
  of_bytes (clock_text sep y mo d h mi s ns ++ zone).

Section Readings.
Context (Quote : string → string) (type_name : any → string).

(** ** Properties *)

(** C18. The three shapes OME writes a time in -- RFC 3339 with a zone, without
    one, and with a blank for the T; with or without nanoseconds -- are read as
    the instant they denote, in UTC when no zone is given, and never replaced by
    the current time. *)
Theorem timestamp_shapes (now : time) (y mo d h mi s : Z) (ns : option Z) (off : option (bool * Z * Z)) :
  valid_clock y mo d h mi s ns → valid_zone off →
  parseOMETime Quote now (time_text Byte.x54 y mo d h mi s ns (zone_text off)) =
    (Date y mo d h mi s (default 0 ns) - zone_seconds off * 1000000000, None) ∧
  parseOMETime Quote now (time_text Byte.x54 y mo d h mi s ns []) =
    (Date y mo d h mi s (default 0 ns), None) ∧
  parseOMETime Quote now (time_text Byte.x20 y mo d h mi s ns []) =
    (Date y mo d h mi s (default 0 ns), None).
Proof.
  intros Hc Hz. unfold parseOMETime, omeTimeFormats, time_text. rewrite !app_nil_r. split; [|split].
  - cbn [try_formats]. by rewrite time_Parse_zoned.
  - destruct (time_Parse_unzoned y mo d h mi s ns Hc) as (H1 & H2 & H3). cbn zeta in *.
    cbn [try_formats]. by rewrite H1, H2, H3.
  - destruct (time_Parse_blank y mo d h mi s ns Hc) as (H1 & H2). cbn zeta in *.
    repeat (apply Forall_cons in H1 as [? H1]). cbn [try_formats].
    by repeat match goal with H : time_Parse _ _ = _ |- _ => rewrite H; clear H end.
Qed.

(** C30. A metric sent as text, like [ 23.50 W ] or [-3C]: spaces, a decimal, a unit
    that does not continue the number, and anything after a space is read as
    the double nearest to the decimal (of digits [v], with the point before the
    last [len fp]), with its sign; an integer below 2^53 exactly. *)
Theorem unit_values (neg : bool) (ip fp : bytes) (i v : Z) (sp unit post : list Z) :
  digits 0 ip = Some i → digits i fp = Some v → ip ≠ [] →
  Forall scalar (sp ++ unit ++ post) → Forall (λ r, IsSpace r = true) sp →
  Forall (λ r, IsSpace r = false) unit → ends_float (utf8_encode unit) →
  match post with [] => True | r :: _ => IsSpace r = true end →
  let value := toFloat64 Quote type_name
    (AString (text_of (sp ++ (ascii_runes (of_bytes (decimal_text neg ip fp None)) ++ unit) ++ post))) in
  (∀ m e, canonical m e → near (v * 2 ^ 1074) (10 ^ len fp) m e →
     value = inl (bits_of_spec (finite neg m e))) ∧
  (fp = [] → v < 2 ^ 53 → ∃ f, value = inl f ∧ int_of_bits f = Some (if neg then - v else v)).
Proof.
  intros Hi Hv Hne Hsc Hs Hu He Hp.
  destruct (Fields_decimal neg ip fp i v sp unit post) as (word & rest & Hf & Hw); [done..|].
  assert (Hi0 : 0 <= i) by (by apply (digits_mono 0 ip)).
  assert (Hv0 : 0 <= v) by (transitivity i; [done|by apply (digits_mono i fp)]).
  cbn zeta. unfold toFloat64. rewrite Hf, Hw. split.
  - intros m e Hc Hn. rewrite (ParseFloat_text neg ip fp None i v 0 (finite neg m e)); try done.
    + symmetry. apply round_scaled_decimal; [unfold len; lia|done|done].
    + destruct Hc as (Hm & _). by destruct m.
  - intros -> Hlt. injection Hv as ->.
    destruct (round_scaled_exact neg v Hv0 Hlt) as [Hinf Hx].
    eexists. split; [|exact Hx]. by erewrite (ParseFloat_text neg ip [] None v v 0) by done.
Qed.
End Readings.

(** ** Witnesses *)

Lemma timestamp_shapes_witness :
  parseOMETime no_Quote 0 "2024-02-29T23:59:59.000000007+05:30" = (1709231399000000007, None) ∧
  parseOMETime no_Quote 0 "2024-02-29T23:59:59" = (1709251199000000000, None) ∧
  parseOMETime no_Quote 0 "2024-02-29 23:59:59" = (1709251199000000000, None).
Proof.
  split; [|split].
  - apply (timestamp_shapes no_Quote 0 2024 2 29 23 59 59 (Some 7) (Some (false, 5, 30))); by vm_compute.
  - apply (timestamp_shapes no_Quote 0 2024 2 29 23 59 59 None None); by vm_compute.
  - apply (timestamp_shapes no_Quote 0 2024 2 29 23 59 59 None None); by vm_compute.
Defined.

Lemma unit_values_witness :
  toFloat64 no_Quote no_type_name (AString " -42W per slot") = inl (float64_of_int (-42)) ∧
  toFloat64 no_Quote no_type_name (AString "23.50 W") = ParseFloat "23.5".
Proof.
  split.
  - destruct (unit_values no_Quote no_type_name true [Byte.x34; Byte.x32] [] 42 42 [32] [87]
      [32; 112; 101; 114; 32; 115; 108; 111; 116]) as [H _];
      [done|done|done| |by repeat constructor..|by vm_compute|done|].
    + cbn [app]. repeat apply Forall_cons_2; [..|apply Forall_nil_2]; unfold scalar; lia.
    + transitivity (@inl float64 error (bits_of_spec (finite true (42 * 2 ^ 47) (- 47))));
      [apply H; [unfold canonical; lia|by vm_compute]|by vm_compute].
  - destruct (unit_values no_Quote no_type_name false [Byte.x32; Byte.x33] [Byte.x35; Byte.x30] 23 2350 [] []
      [32; 87]) as [H _]; [done|done|done| |by repeat constructor..|done|].
    + cbn [app]. repeat apply Forall_cons_2; [..|apply Forall_nil_2]; unfold scalar; lia.
    + transitivity (@inl float64 error (bits_of_spec (finite false (47 * 2 ^ 47) (- 48))));
      [apply H; [unfold canonical; lia|by vm_compute]|by vm_compute].
Defined.
