(* ===== verification/Values.v ===== *)
(** * Values: every parsed sample carries a float64

    A [float64] is modelled as its bit pattern; here: whatever the payload, the
    value of a sample the parser returns is a pattern of 64 bits. *)
From S2P Require Import Prelude Float GoLib Strconv Json JsonScan JsonText Parser.
From Stdlib Require Import Floats.SpecFloat.
Open Scope Z_scope.

(** ** Numbers *)

Lemma sign_bit_U64 s : inU 64 (sign_bit s).
Proof. by destruct s. Qed.

Lemma float64_of_int_U64 n : inU 64 (float64_of_int n).
Proof.
  unfold float64_of_int, binary_normalize, binary_round.
  destruct n; [done|..]; destruct (shl_align _ _ _); apply binary_round_aux_U64.
Qed.

Lemma Ldexp_U64 f e : inU 64 f → inU 64 (Ldexp f e).
Proof.
  intros Hf. unfold Ldexp. destruct (spec_of_bits f) as [| | |s m ex]; try done.
  destruct (_ <? -1075); [apply sign_bit_U64|]. destruct (1023 <? _); [by destruct s|].
  unfold binary_round. destruct (shl_align _ _ _). apply binary_round_aux_U64.
Qed.

Lemma Sscanf_f_U64 s f : Sscanf_f s = inl f → inU 64 f.
Proof.
  unfold Sscanf_f. destruct (if hasX _ then _ else _) as [[m e]|].
  - destruct (ParseFloat _) as [g|] eqn:E; [|done]. destruct (Atoi e); [|done]. intros [= <-].
    by eapply Ldexp_U64, ParseFloat_U64.
  - apply ParseFloat_U64.
Qed.

Definition float_any (v : any) : Prop :=
  match v with AFloat64 f | AFloat32 f => inU 64 f | _ => True end.

Section Values.
Context (type_error : json → error) (Quote : string → string) (type_name : any → string)
  (unicode_ToLower : Z → Z).

Lemma to_any_float j v : to_any type_error j = inl v → float_any v.
Proof.
  destruct j; cbn; intros H; repeat case_match; simplify_eq/=; try done. by eapply ParseFloat_U64.
Qed.

Lemma toFloat64_U64 v f : float_any v → toFloat64 Quote type_name v = inl f → inU 64 f.
Proof.
  destruct v; cbn; intros Hv H; simplify_eq/=; try done; try apply float64_of_int_U64.
  - by eapply ParseFloat_U64.
  - destruct (Fields s); [done|]. destruct (Sscanf_f _) eqn:E; [|done]. simplify_eq/=. by eapply Sscanf_f_U64.
Qed.

(** ** Telemetry *)

Definition metric_value_ok (m : OMETelemetryMetric) : Prop := float_any (MetricValue m).

(** An invariant of the elements is one of the slice. *)
Lemma dec_elems_Forall {A} (P : A → Prop) zero dec l : P zero →
  (∀ j a a', P a → dec j a = inl a' → P a') → ∀ old r, Forall P old →
  dec_elems zero dec l old = inl r → Forall P r.
Proof.
  intros Hz Hd. induction l as [|j l IH]; intros old r Ho; cbn; [by intros [= <-]|].
  destruct (dec j _) as [a|] eqn:Ej; [|done]. destruct (dec_elems _ _ _ _) as [r'|] eqn:El; [|done].
  intros [= <-]. constructor.
  - eapply Hd; [|exact Ej]. by destruct Ho.
  - eapply IH; [|exact El]. by destruct Ho.
Qed.

Lemma tmetric_decoded j m m' : metric_value_ok m →
  dec_struct type_error (tmetric_fields type_error) j m = inl m' → metric_value_ok m'.
Proof.
  intros Hm. unfold dec_struct. destruct j as [| | | | |ms]; try done; [by intros [= <-]|].
  apply (dec_fields_inv metric_value_ok (λ _, True)); [|by apply Forall_true|done].
  repeat apply Forall_cons_2; try apply Forall_nil_2; intros j [a v u] b' _ Hb; unfold metric_value_ok in *; cbn in *.
  - destruct (dec_string _ _ _); [|done]. by intros [= <-].
  - unfold dec_any. destruct (to_any type_error j) as [v'|] eqn:E; [|done]. intros [= <-]. by eapply to_any_float.
  - destruct (dec_string _ _ _); [|done]. by intros [= <-].
Qed.

Lemma telemetry_decoded value msg :
  unmarshal type_error (telemetry_fields type_error) zeroTelemetry value = inl msg →
  Forall metric_value_ok (MetricList msg).
Proof.
  unfold Parser.unmarshal. destruct (json_scan value) as [j|]; [|done].
  unfold dec_struct. destruct j as [| | | | |ms]; try done; [by intros [= <-]|].
  apply (dec_fields_inv (λ msg, Forall metric_value_ok (MetricList msg)) (λ _, True)); [|by apply Forall_true|done].
  repeat apply Forall_cons_2; try apply Forall_nil_2; intros j [a b c d e f g l] b' _ Hb; cbn in *.
  8: { destruct (dec_slice _ _ _ _ _) as [l'|] eqn:E; [|done]. intros [= <-]. cbn. unfold dec_slice in E.
       destruct j as [| | | |js|]; try done; [by injection E as <-|].
       eapply dec_elems_Forall; [|apply tmetric_decoded|exact Hb|exact E]. done. }
  all: try (destruct (dec_int _ _ _); [|done]; by intros [= <-]).
  all: destruct (dec_string _ _ _); [|done]; by intros [= <-].
Qed.

Lemma telemetry_metrics_U64 base ts ms : Forall metric_value_ok ms →
  Forall (λ s, inU 64 (m_Value s)) (telemetry_metrics unicode_ToLower Quote type_name base ts ms).
Proof.
  induction 1 as [|m ms Hm _ IH]; [constructor|]. cbn.
  destruct (toFloat64 _ _ _) as [f|] eqn:E; [|done]. constructor; [|done]. cbn. by eapply toFloat64_U64.
Qed.

Lemma health_metrics_U64 order topic ts msg :
  Forall (λ s, inU 64 (m_Value s)) (health_metrics order topic ts msg).
Proof.
  unfold health_metrics. apply Forall_app. split.
  - repeat apply Forall_cons_2; try apply Forall_nil_2; apply float64_of_int_U64.
  - apply Forall_forall. intros s (c & -> & _)%list_elem_of_fmap. apply float64_of_int_U64.
Qed.

Lemma Parse_values now order topic value pm :
  Parse unicode_ToLower type_error Quote type_name now order topic value = inl pm →
  Forall (λ s, inU 64 (m_Value s)) (p_Metrics pm).
Proof.
  unfold Parse, parseTelemetry, parseHealth, parseAlert, parseAuditLog, parseInventory.
  destruct (topicKind topic); destruct (unmarshal _ _ _ _) as [msg|] eqn:E || idtac; try done;
    destruct (parseOMETime _ _ _); intros [= <-]; try apply Forall_nil_2; cbn.
  - by eapply telemetry_metrics_U64, telemetry_decoded.
  - apply health_metrics_U64.
Qed.
End Values.
