(* ===== verification/LogLines.v ===== *)
(** * LogLines: what Loki stores is what was received

    The log line of an alert, an audit log entry or an inventory report is the
    JSON of the decoded message.  This file shows that nothing is lost by
    writing it: the line is a JSON text that unmarshals to the very message,
    the free-form part of an inventory report included. *)
From S2P Require Import Prelude Float GoLib Utf8 Strconv Json JsonScan JsonText JsonRescan AnyJson JsonUtf8 Parser.
From stdpp Require Import pretty.
From Stdlib Require Import Strings.Ascii.
Open Scope Z_scope.

(** ** Members that may be left out *)

Section Steps.
Context {A : Type} (fs : struct_fields A).
Implicit Types (a : A) (rest : list (string * any)).

Lemma dec_out_str k s rest a a' : dec_fields fs [(k, JString s)] a = inl a' →
  dec_fields fs (scalar_members (out_str k s ++ rest)) a = dec_fields fs (scalar_members rest) a'.
Proof. intros H. unfold scalar_members. rewrite map_app. by apply dec_fields_app. Qed.

Lemma dec_out_int k n rest a a' : dec_fields fs [(k, JNumber (pretty n))] a = inl a' →
  dec_fields fs (scalar_members (out_int k n ++ rest)) a = dec_fields fs (scalar_members rest) a'.
Proof. intros H. unfold scalar_members. rewrite map_app. by apply dec_fields_app. Qed.

(** An omitted member leaves the zero value its field has. *)
Lemma dec_omit_str k s rest a a' : dec_fields fs [(k, JString s)] a = inl a' →
  (s = ""%string → a' = a) →
  dec_fields fs (scalar_members (omit_str k s ++ rest)) a = dec_fields fs (scalar_members rest) a'.
Proof.
  intros H Hz. unfold omit_str. case_decide as Hs; [by rewrite Hz|by apply dec_out_str].
Qed.

Lemma dec_omit_int k n rest a a' : dec_fields fs [(k, JNumber (pretty n))] a = inl a' →
  (n = 0 → a' = a) →
  dec_fields fs (scalar_members (omit_int k n ++ rest)) a = dec_fields fs (scalar_members rest) a'.
Proof.
  intros H Hz. unfold omit_int. destruct (Z.eqb_spec n 0) as [Hn|]; [by rewrite Hz|by apply dec_out_int].
Qed.
End Steps.

Section LogLines.
Context (unicode_ToLower : Z → Z)
  (type_error : json → error) (Quote : string → string) (type_name : any → string).
Local Abbreviation alert_fields := (Parser.alert_fields type_error).
Local Abbreviation audit_fields := (Parser.audit_fields type_error).
Local Abbreviation inventory_fields := (Parser.inventory_fields type_error).
Local Abbreviation unmarshal := (Parser.unmarshal type_error).
Local Abbreviation Parse := (Parser.Parse unicode_ToLower type_error Quote type_name).

Ltac dec_step :=
  first
    [ erewrite dec_out_str; [|dec_one]
    | erewrite dec_out_int; [|dec_one]
    | erewrite dec_omit_str; [|dec_one|by intros ->]
    | erewrite dec_omit_int; [|dec_one|by intros ->] ].

Lemma alert_members_decode m : inS 64 (EventID m) → inS 64 (a_DeviceID m) →
  dec_struct type_error alert_fields (json_of_members (alert_members m)) zeroAlert = inl m.
Proof.
  intros H1 H2. unfold dec_struct, json_of_members, alert_members, zeroAlert.
  rewrite <- (app_nil_r (omit_str "IpAddress" _)). do 14 dec_step. by destruct m.
Qed.

Lemma audit_members_decode m : inS 64 (LogID m) →
  dec_struct type_error audit_fields (json_of_members (audit_members m)) zeroAudit = inl m.
Proof.
  intros H1. unfold dec_struct, json_of_members, audit_members, zeroAudit.
  rewrite <- (app_nil_r (out_str "Timestamp" _)). do 8 dec_step. by destruct m.
Qed.

Definition inventory_scalars (m : OMEInventoryMessage) : list (string * any) :=
  out_int "DeviceId" (i_DeviceID m) ++ out_str "DeviceName" (i_DeviceName m) ++
  out_str "ServiceTag" (i_ServiceTag m) ++ out_str "Model" (i_Model m) ++
  out_str "DeviceType" (i_DeviceType m) ++ out_str "IPAddress" (i_IPAddress m) ++
  out_str "Timestamp" (i_Timestamp m).
Definition inventory_value (i : option (gmap string any)) : any :=
  match i with Some i => AMap (sorted_members i) | None => ANil end.

Lemma inventory_members_split m :
  inventory_members m = inventory_scalars m ++ [("Inventory"%string, inventory_value (Inventory m))].
Proof. done. Qed.

Lemma inventory_scalars_decode m : inS 64 (i_DeviceID m) →
  dec_fields inventory_fields (scalar_members (inventory_scalars m)) zeroInventory =
    inl (mkInventory (i_DeviceID m) (i_DeviceName m) (i_ServiceTag m) (i_Model m) (i_DeviceType m)
      (i_IPAddress m) (i_Timestamp m) None).
Proof.
  intros H. unfold inventory_scalars, zeroInventory.
  rewrite <- (app_nil_r (out_str "Timestamp" _)). do 7 dec_step. done.
Qed.

(** *** What comes out of the decoder *)

Lemma dec_int_inS j old n : inS 64 old → dec_int type_error j old = inl n → inS 64 n.
Proof.
  unfold dec_int. destruct j; try done; [by intros ? [= <-]|].
  destruct (ParseInt lit) eqn:E; [|done]. intros _ [= <-]. by eapply ParseInt_range_ok.
Qed.

Lemma dec_string_utf8 j old s : scanned_ok 1 j → valid_utf8 old →
  dec_string type_error j old = inl s → valid_utf8 s.
Proof. intros [_ Hj]. unfold dec_string. destruct j; try done; [by intros ? [= <-]|]. by intros _ [= <-]. Qed.

(** The entries of a decoded inventory. *)
Definition inventory_ok (i : option (gmap string any)) : Prop :=
  map_Forall (λ k v, valid_utf8 k ∧ decoded 2 v) (default ∅ i).

Lemma dec_inventory_ok j old i : scanned_ok 1 j → inventory_ok old →
  dec_map_nil type_error ANil (dec_any type_error) j old = inl i → inventory_ok i.
Proof.
  intros [Hw Hu] Ho. unfold dec_map_nil. destruct j as [| | | | |ms]; try done; [by intros [= <-]|].
  destruct (dec_members _ _ _ _) as [i'|] eqn:E; [|done]. intros [= <-]. unfold inventory_ok in *. cbn [default].
  revert Ho E. generalize (default ∅ old). cbn in Hw, Hu. destruct Hw as [_ Hw]. rewrite foldr_Forall in Hw, Hu.
  induction ms as [|[k j] ms IH]; intros m Hm; cbn; [by intros [= <-]|].
  apply Forall_cons in Hw as [Hj Hw], Hu as [[Hk Huj] Hu]. unfold dec_any at 1.
  destruct (to_any type_error j) as [a|] eqn:Ea; [|done]. apply (IH Hw Hu). apply map_Forall_insert_2; [|done].
  split; [done|]. by eapply to_any_decoded.
Qed.

(** What an object's members must be like for its fields to be decoded well. *)
Lemma unmarshal_inv {A} (P : A → Prop) (fs : struct_fields A) zero value a :
  P zero → Forall (λ f : string * decoder A, ∀ j b b', scanned_ok 1 j → P b → f.2 j b = inl b' → P b') fs →
  unmarshal fs zero value = inl a → P a.
Proof.
  intros H0 Hfs. unfold Parser.unmarshal. destruct (json_scan value) as [j|] eqn:Ej; [|done].
  apply json_scan_writable in Ej as [Hw Hu]. unfold dec_struct. destruct j as [| | | | |ms]; try done; [by intros [= <-]|].
  cbn in Hw, Hu. destruct Hw as [_ Hw]. rewrite foldr_Forall in Hw, Hu.
  apply (dec_fields_inv P (scanned_ok 1)); [done| |done].
  eapply Forall_impl; [apply Forall_and; split; [exact Hw|exact Hu]|]. intros [k j] [H1 [_ H2]]. by split.
Qed.

Definition alert_typed (m : OMEAlertMessage) : Prop :=
  inS 64 (EventID m) ∧ inS 64 (a_DeviceID m) ∧
  Forall valid_utf8 [EventCategory m; EventSource m; a_Severity m; a_SubCategory m; a_Message m;
    RecommendedAction m; AcknowledgedBy m; a_Timestamp m; a_DeviceName m; a_ServiceTag m;
    a_Model m; a_IPAddress m].
Definition audit_typed (m : OMEAuditLogMessage) : Prop :=
  inS 64 (LogID m) ∧
  Forall valid_utf8 [Category m; g_SubCategory m; g_Severity m; g_Message m; UserName m; g_IPAddress m;
    g_Timestamp m].
Definition inventory_typed (m : OMEInventoryMessage) : Prop :=
  inS 64 (i_DeviceID m) ∧ inventory_ok (Inventory m) ∧
  Forall valid_utf8 [i_DeviceName m; i_ServiceTag m; i_Model m; i_DeviceType m; i_IPAddress m; i_Timestamp m].

Lemma zero_inS : inS 64 0.
Proof. by vm_compute. Qed.

Lemma zero_inventory : inventory_ok None.
Proof. apply map_Forall_empty. Qed.

(** A field's decoder keeps a struct typed. *)
Ltac field_typed :=
  (match goal with |- match ?x with _ => _ end = _ → _ => destruct x eqn:Hd end; [|done]);
  intros [= <-]; cbn in *;
  repeat match goal with H : _ ∧ _ |- _ => destruct H | H : Forall _ (_ :: _) |- _ => apply Forall_cons in H end;
  split_and?; repeat apply Forall_cons_2;
  eauto using dec_int_inS, dec_string_utf8, dec_inventory_ok, Forall_nil_2.
Ltac zero_typed :=
  split_and?; repeat apply Forall_cons_2; auto using zero_inS, zero_inventory, valid_utf8_empty, Forall_nil_2.

Lemma unmarshal_alert_typed value m : unmarshal alert_fields zeroAlert value = inl m → alert_typed m.
Proof.
  apply unmarshal_inv; [unfold alert_typed; cbn; zero_typed|]. unfold Parser.alert_fields, field, alert_typed.
  repeat apply Forall_cons_2; [..|apply Forall_nil_2];
    cbn [snd]; intros ? [a1 a2 a3 a4 a5 a6 a7 a8 a9 a10 a11 a12 a13 a14] b' Hj Hb; field_typed.
Qed.

Lemma unmarshal_audit_typed value m : unmarshal audit_fields zeroAudit value = inl m → audit_typed m.
Proof.
  apply unmarshal_inv; [unfold audit_typed; cbn; zero_typed|]. unfold Parser.audit_fields, field, audit_typed.
  repeat apply Forall_cons_2; [..|apply Forall_nil_2];
    cbn [snd]; intros ? [a1 a2 a3 a4 a5 a6 a7 a8] b' Hj Hb; field_typed.
Qed.

Lemma unmarshal_inventory_typed value m :
  unmarshal inventory_fields zeroInventory value = inl m → inventory_typed m.
Proof.
  apply unmarshal_inv; [unfold inventory_typed; cbn; zero_typed|]. unfold Parser.inventory_fields, field, inventory_typed.
  repeat apply Forall_cons_2; [..|apply Forall_nil_2];
    cbn [snd]; intros ? [a1 a2 a3 a4 a5 a6 a7 a8] b' Hj Hb; field_typed.
Qed.

(** *** The text of a log line *)

Definition scalar_member (ka : string * any) : Prop :=
  isASCII ka.1 = true ∧
  match ka.2 with AInt64 n => inS 64 n | AString s => valid_utf8 s | _ => False end.

Lemma out_int_ok k n : isASCII k = true → inS 64 n → Forall scalar_member (out_int k n).
Proof. intros. apply Forall_cons_2; [by split|apply Forall_nil_2]. Qed.
Lemma out_str_ok k s : isASCII k = true → valid_utf8 s → Forall scalar_member (out_str k s).
Proof. intros. apply Forall_cons_2; [by split|apply Forall_nil_2]. Qed.
Lemma omit_int_ok k n : isASCII k = true → inS 64 n → Forall scalar_member (omit_int k n).
Proof. intros. unfold omit_int. case_match; [constructor|by apply out_int_ok]. Qed.
Lemma omit_str_ok k s : isASCII k = true → valid_utf8 s → Forall scalar_member (omit_str k s).
Proof. intros. unfold omit_str. case_decide; [constructor|by apply out_str_ok]. Qed.

(** An object of integers and well-formed strings is written and read back. *)
Lemma Marshal_scalars ms : Forall scalar_member ms →
  json_scan (to_bytes (json_Marshal ms)) = inl (json_of_members ms).
Proof.
  intros Hms. unfold json_Marshal.
  assert (Hj : json_of_any (AMap ms) = Some (json_of_members ms)).
  { cbn [json_of_any]. unfold json_of_members. apply fmap_Some. exists (scalar_members ms). split; [|done].
    apply mapM_Some. induction Hms as [|[k a] ms [_ Ha] _ IH]; constructor; [|done]. by destruct a. }
  rewrite Hj, to_of_bytes. apply json_scan_text.
  - cbn. split; [done|]. apply foldr_Forall. unfold scalar_members. apply Forall_map.
    eapply Forall_impl; [exact Hms|]. intros [k a] [_ Ha]. destruct a; try done. apply number_lit_int.
  - cbn. apply foldr_Forall. unfold scalar_members. apply Forall_map.
    eapply Forall_impl; [exact Hms|]. intros [k a] [Hk Ha]. cbn in *. split; [by apply valid_utf8_ascii|].
    by destruct a.
Qed.

Lemma alert_line m : alert_typed m →
  json_scan (to_bytes (json_Marshal (alert_members m))) = inl (json_of_members (alert_members m)).
Proof.
  intros (H1 & H2 & H3). apply Marshal_scalars.
  repeat (apply Forall_cons in H3 as [? H3]). unfold alert_members.
  repeat first [apply Forall_app; split];
    first [by apply out_int_ok|by apply out_str_ok|by apply omit_int_ok|by apply omit_str_ok].
Qed.

Lemma audit_line m : audit_typed m →
  json_scan (to_bytes (json_Marshal (audit_members m))) = inl (json_of_members (audit_members m)).
Proof.
  intros (H1 & H3). apply Marshal_scalars.
  repeat (apply Forall_cons in H3 as [? H3]). unfold audit_members.
  repeat first [apply Forall_app; split]; first [by apply out_int_ok|by apply out_str_ok].
Qed.

Lemma inventory_scalars_ok m : inventory_typed m → Forall scalar_member (inventory_scalars m).
Proof.
  intros (H1 & _ & H3). repeat (apply Forall_cons in H3 as [? H3]). unfold inventory_scalars.
  repeat first [apply Forall_app; split]; first [by apply out_int_ok|by apply out_str_ok].
Qed.

(** *** The entries of an inventory *)

Lemma entries_in_order (i : gmap string any) ks : StronglySorted String.le ks → NoDup ks → in_order (entries i ks).
Proof.
  induction 1 as [|k ks _ IH Hk]; intros Hnd; [constructor|].
  apply NoDup_cons in Hnd as [Hn Hnd]. cbn. destruct (i !! k) as [v|] eqn:E; cbn; [|by apply IH].
  apply StronglySorted_cons. split; [|by apply IH]. rewrite Forall_forall in Hk. apply Forall_forall.
  intros [k' v'] [Hk' _]%entries_elem. split; [by apply Hk|]. cbn. by intros ->.
Qed.

Lemma sorted_valid (i : gmap string any) : valid_order i (sort_Strings (map_to_list i).*1).
Proof.
  split; [rewrite sort_Strings_perm; apply NoDup_fst_map_to_list|].
  intros k [v Hv]. rewrite sort_Strings_perm, list_elem_of_fmap. exists (k, v). by rewrite elem_of_map_to_list.
Qed.

Lemma sorted_members_in_order i : in_order (sorted_members i).
Proof.
  apply entries_in_order; [|apply sorted_valid].
  apply Sorted_StronglySorted; [apply _|apply sort_Strings_sorted].
Qed.

Lemma inventory_decoded i : inventory_ok i → decoded 1 (inventory_value i).
Proof.
  destruct i as [i|]; [|done]. intros Hi. cbn [inventory_value decoded]. split; [done|].
  split; [apply sorted_members_in_order|]. apply foldr_Forall, Forall_forall.
  intros [k v] [_ Hv]%entries_elem. by apply Hi.
Qed.

Lemma dec_members_any jms m acc :
  Forall2 (λ kj ka, kj.1 = ka.1 ∧ to_any type_error kj.2 = inl ka.2) jms m →
  dec_members ANil (dec_any type_error) jms acc = inl (foldl (λ m c, <[c.1 := c.2]> m) acc m).
Proof.
  intros H. revert acc. induction H as [|[k j] [k' a] jms m [Hk Hj] _ IH]; intros acc; [done|].
  cbn in *. subst k'. unfold dec_any at 1. by rewrite Hj.
Qed.

Lemma inventory_value_decode i j : inventory_ok i → json_of_any (inventory_value i) = Some j →
  writable 1 j ∧ json_utf8 j ∧ dec_map_nil type_error ANil (dec_any type_error) j None = inl i.
Proof.
  intros Hi Hj. pose proof (decoded_back type_error _ _ _ (inventory_decoded i Hi) Hj) as (Hw & Hu & _).
  split; [done|]. split; [done|]. destruct i as [i|]; [|by cbn in Hj; simplify_eq].
  cbn [inventory_value json_of_any] in Hj. apply fmap_Some in Hj as (jms & Hj & ->). apply mapM_Some in Hj.
  assert (Hall : Forall2 (λ kj ka, kj.1 = ka.1 ∧ to_any type_error kj.2 = inl ka.2) jms (sorted_members i)).
  { apply inventory_decoded in Hi. cbn in Hi. destruct Hi as (_ & _ & Hi). rewrite foldr_Forall in Hi.
    induction Hj as [|[k a] kj m jms Hj _ IH]; [constructor|]. apply Forall_cons in Hi as [[_ Ha] Hi].
    apply fmap_Some in Hj as (j & Hj & ->). cbn in *. destruct Hw as [Hd [_ Hw]], Hu as [_ Hu].
    constructor; [split; [done|]; by eapply decoded_back|by apply IH]. }
  cbn [dec_map_nil default]. rewrite (dec_members_any _ _ _ Hall). do 2 f_equal.
  rewrite foldl_insert by apply entries_NoDup, sorted_valid.
  rewrite (right_id_L ∅ (∪)). apply entries_map_list, sorted_valid.
Qed.

(** An inventory report can always be written: its numbers are finite. *)
Lemma inventory_written m : inventory_typed m →
  is_Some (mapM (λ ka : string * any, pair ka.1 <$> json_of_any ka.2) (inventory_members m)).
Proof.
  intros Hm. pose proof (inventory_scalars_ok m Hm) as Hok. destruct Hm as (_ & Hi & _).
  rewrite inventory_members_split. apply mapM_is_Some, Forall_app. split.
  - eapply Forall_impl; [exact Hok|]. intros [k a] [_ Ha]. cbn in *. apply fmap_is_Some. by destruct a.
  - apply Forall_singleton, fmap_is_Some. eapply decoded_written. by apply inventory_decoded.
Qed.

(** The line of an inventory report. *)
Lemma inventory_line m : inventory_typed m →
  unmarshal inventory_fields zeroInventory (to_bytes (json_Marshal (inventory_members m))) = inl m.
Proof.
  intros Hm. destruct (inventory_written m Hm) as [js E]. unfold json_Marshal. cbn [json_of_any].
  rewrite E. rewrite inventory_members_split in E. cbn [fmap option_fmap option_map]. rewrite to_of_bytes.
  apply mapM_Some, Forall2_app_inv_l in E as (js1 & js2 & H1 & H2 & ->).
  apply Forall2_cons_inv_l in H2 as ([k j] & js3 & Hj & H3 & ->). apply Forall2_nil_inv_l in H3 as ->.
  apply fmap_Some in Hj as (j' & Hj & [= -> ->]).
  assert (js1 = scalar_members (inventory_scalars m)) as ->.
  { pose proof (inventory_scalars_ok m Hm) as Hok. clear -H1 Hok.
    induction H1 as [|[k a] kj ms js Hj _ IH]; [done|]. apply Forall_cons in Hok as [[_ Ha] Hok]. cbn in *.
    rewrite IH by done. f_equal. destruct a; try done; by simplify_eq/=. }
  pose proof (inventory_scalars_ok m Hm) as Hok. destruct Hm as (Hid & Hi & _).
  destruct (inventory_value_decode _ _ Hi Hj) as (Hw & Hu & Hdec).
  unfold Parser.unmarshal. rewrite json_scan_text.
  - unfold dec_struct. rewrite (dec_fields_app _ _ _ _ _ (inventory_scalars_decode m Hid)).
    find_one. cbn -[dec_map_nil]. rewrite Hdec. by destruct m.
  - cbn [writable]. split; [done|]. apply foldr_Forall, Forall_app. split; [|by repeat constructor].
    unfold scalar_members. apply Forall_map. eapply Forall_impl; [exact Hok|].
    intros [k a] [_ Ha]. destruct a; try done. apply number_lit_int.
  - cbn [json_utf8]. apply foldr_Forall, Forall_app. split; [|constructor; [split; [by apply valid_utf8_ascii|done]|constructor]].
    unfold scalar_members. apply Forall_map. eapply Forall_impl; [exact Hok|].
    intros [k a] [Hk Ha]. cbn in *. split; [by apply valid_utf8_ascii|]. by destruct a.
Qed.

(** Two texts that unmarshal, to one message. *)
Definition same_message {A} (fs : struct_fields A) (zero : A) (value : bytes) (line : string) : Prop :=
  ∃ msg, unmarshal fs zero value = inl msg ∧ unmarshal fs zero (to_bytes line) = inl msg.

(** The line is well-formed UTF-8. *)
Lemma Parse_line_utf8 now order topic value pm e :
  Parse now order topic value = inl pm → p_LogEntry pm = Some e → valid_utf8 (l_Line e).
Proof.
  unfold Parser.Parse. destruct (topicKind topic);
    unfold parseTelemetry, parseHealth, parseAlert, parseAuditLog, parseInventory; try done;
    (destruct (unmarshal _ _ value) as [msg|]; [|done]); destruct (parseOMETime _ _ _) as [ts err];
    intros [= <-]; cbn [p_LogEntry log_message]; try done; intros [= <-]; apply json_Marshal_utf8.
Qed.

(** ** Properties *)

(** C16. Nothing is lost on the way to Loki: the line of a log entry is a JSON
    text -- escapes, omitted fields, nested inventory and all -- that
    unmarshals to the very message received, whatever bytes it was received as.
    The error of json.Marshal the parser discards never happens. *)
Theorem log_line_roundtrip (now : time) (order : gmap string Z → list string) (topic : string)
    (value : bytes) (pm : ParsedMessage) (e : LogEntry) :
  Parse now order topic value = inl pm → p_LogEntry pm = Some e →
  match p_Kind pm with
  | KindAlerts => same_message alert_fields zeroAlert value (l_Line e)
  | KindAuditLogs => same_message audit_fields zeroAudit value (l_Line e)
  | KindInventory => same_message inventory_fields zeroInventory value (l_Line e)
  | _ => False
  end.
Proof.
  unfold Parser.Parse. destruct (topicKind topic);
    unfold parseTelemetry, parseHealth, parseAlert, parseAuditLog, parseInventory; try done;
    (destruct (unmarshal _ _ value) as [msg|] eqn:Em; [|done]); destruct (parseOMETime _ _ _) as [ts err];
    intros [= <-]; cbn [p_LogEntry p_Kind log_message]; try done; intros [= <-];
    cbn [l_Line] in *; exists msg; (split; [done|]).
  - apply unmarshal_alert_typed in Em. unfold Parser.unmarshal. rewrite alert_line by done.
    by apply alert_members_decode; destruct Em as (? & ? & _).
  - apply unmarshal_audit_typed in Em. unfold Parser.unmarshal. rewrite audit_line by done.
    by apply audit_members_decode; destruct Em as (? & _).
  - apply unmarshal_inventory_typed in Em. by apply inventory_line.
Qed.
End LogLines.

(** ** Witnesses *)

Local Abbreviation sample_unmarshal := (unmarshal sample_type_error).
Definition sample_inventory_bytes : bytes :=
  json_bytes "{'DeviceId':1,'DeviceName':'r740','Inventory':{'b':[1.5,-0,null,{'y':1e3,'x':true}],'a':'\u003c&'}}".

Lemma log_line_roundtrip_witness : ∃ pm e m i,
  sample_Parse 0 some_order "ome.inventory" sample_inventory_bytes = inl pm ∧ p_LogEntry pm = Some e ∧
  sample_unmarshal (inventory_fields sample_type_error) zeroInventory (to_bytes (l_Line e)) = inl m ∧
  Inventory m = Some i ∧ i !! "a"%string = Some (AString "<&").
Proof.
  set (r := sample_Parse 0 some_order "ome.inventory" sample_inventory_bytes).
  assert (Hr : match r with inl pm => match p_LogEntry pm with
      Some e => bool_decide (p_Kind pm = KindInventory) | None => false end | inr _ => false end = true)
    by (vm_compute; reflexivity).
  destruct r as [pm|] eqn:Hp; [|done]. destruct (p_LogEntry pm) as [e|] eqn:He; [|done].
  apply bool_decide_eq_true in Hr as Hk.
  pose proof (log_line_roundtrip id sample_type_error no_Quote no_type_name 0 some_order "ome.inventory"
    sample_inventory_bytes pm e Hp He) as H. rewrite Hk in H. destruct H as (m & Hu & Hl).
  assert (Hm : match sample_unmarshal (inventory_fields sample_type_error) zeroInventory sample_inventory_bytes with
      inl m => match Inventory m with Some i =>
        match i !! "a"%string with Some (AString s) => bool_decide (s = "<&"%string) | _ => false end | None => false end
      | inr _ => false end = true) by (vm_compute; reflexivity).
  rewrite Hu in Hm. destruct (Inventory m) as [i|] eqn:Ei; [|done].
  destruct (i !! "a"%string) as [[]|] eqn:Ea; try done. apply bool_decide_eq_true in Hm. subst.
  exists pm, e, m, i. by repeat split.
Defined.
