(* ===== verification/LokiWriter.v ===== *)
(** * LokiWriter: pkg/lokiwriter/writer.go

    Grouping log entries into streams by label fingerprint and pushing them in
    one request.  [decode_push] reads the body of a request the way Loki does;
    decoding what [Push] sends gives the streams back.  The HTTP client is an
    argument. *)
From S2P Require Import Prelude GoLib Utf8 Json JsonScan JsonText.
From stdpp Require Import pretty.
From Stdlib Require Import Strings.Ascii.
Open Scope Z_scope.

(** ** HTTP

    What the two forwarders use of net/http: building a request (which can
    fail on the URL) and performing it, which gives a status code or an error. *)
Record HTTPRequest := mkHTTPRequest {
  req_Method : string; req_URL : string; req_Header : list (string * string); req_Body : bytes }.

Record http_client := mkClient {
  NewRequest : string → option error;
  Do : HTTPRequest → Z + error }.

(** [resp.StatusCode/100 != 2] *)
Definition status_2xx (code : Z) : bool := Z.quot code 100 =? 2.

Record Entry := mkEntry {
  e_StreamLabels : gmap string string; e_Timestamp : time; e_Line : string }.

Record stream := mkStream {
  Stream : gmap string string; Values : list (list string) }.

#[export] Instance stream_eq_dec : EqDecision stream.
Proof. solve_decision. Defined.

(** [order] is the order in which this call visits the label map: Go picks one
    anew for every [range], for equal maps too. *)
Definition fingerprint (order : gmap string string → list string) (labels : gmap string string) : string :=
  let keys := map fst (entries labels (order labels)) in
  let keys := sort_Strings keys in
  foldl (λ sb k, sb +:+ k +:+ "=" +:+ default "" (labels !! k) +:+ ",")%string ""%string keys.

(** The labels sorted by key. *)
Definition sorted_keys (labels : gmap string string) : list string :=
  sort_Strings (map fst (map_to_list labels)).
Definition sorted_pairs (labels : gmap string string) : list (string * string) :=
  map (λ k, (k, default ""%string (labels !! k))) (sorted_keys labels).

(** ** The push request as JSON

    [pushRequest] and [stream] through their tags; encoding/json writes a map
    sorted by key, and a slice nothing was appended to as null. *)
Definition json_of_labels (labels : gmap string string) : json :=
  JObject (map (λ kv, (kv.1, JString kv.2)) (sorted_pairs labels)).
Definition json_of_values (vs : list (list string)) : json :=
  match vs with [] => JNull | _ => JArray (map (λ v, JArray (map JString v)) vs) end.
Definition json_of_stream (s : stream) : json :=
  JObject [("stream", json_of_labels (Stream s)); ("values", json_of_values (Values s))]%string.

Definition pushRequest (streams : list stream) : json :=
  JObject [("streams"%string, JArray (map json_of_stream streams))].

(** [json.Marshal(req)]: nothing in a push request is unsupported. *)
Definition Marshal_push (streams : list stream) : bytes + error := inl (text (pushRequest streams)).

(** One turn of the grouping loop, its call of [fingerprint] visiting the labels
    in [order]. *)
Definition group_entry (order : gmap string string → list string) (grouped : gmap string stream)
    (e : Entry) : gmap string stream :=
  let fp := fingerprint order (e_StreamLabels e) in
  let grouped := match grouped !! fp with
    | Some _ => grouped
    | None => <[fp := mkStream (e_StreamLabels e) []]> grouped
    end in
  let tsNs := pretty (UnixNano (e_Timestamp e)) in
  alter (λ s, mkStream (Stream s) (Values s ++ [[tsNs; e_Line e]])) fp grouped.

Section Push.
(** [order i] is the order of the [i]-th entry's fingerprint. *)
Context (order : nat → gmap string string → list string)
  (group_order : gmap string stream → list string)
  (client : http_client) (url : string).

Fixpoint group_loop (i : nat) (grouped : gmap string stream) (es : list Entry) : gmap string stream :=
  match es with
  | [] => grouped
  | e :: es => group_loop (S i) (group_entry (order i) grouped e) es
  end.

Definition group (es : list Entry) : gmap string stream := group_loop 0 ∅ es.

(** The streams, in the order the map is visited. *)
Definition streams_of (grouped : gmap string stream) : list stream :=
  map snd (entries grouped (group_order grouped)).

(** The requests performed, and the error returned. *)
Definition Push (es : list Entry) : list HTTPRequest * option error :=
  match Marshal_push (streams_of (group es)) with
  | inr err => ([], Some ("marshal loki push request: " +:+ err))
  | inl body =>
      match NewRequest client url with
      | Some err => ([], Some err)
      | None =>
          let httpReq := mkHTTPRequest "POST" url [("Content-Type", "application/json")]%string body in
          ([httpReq],
           match Do client httpReq with
           | inr err => Some ("loki HTTP request: " +:+ err)
           | inl code => if status_2xx code then None else Some ("loki returned HTTP " +:+ pretty code)
           end)
      end
  end.
End Push.

(** ** Fingerprints *)

Definition pair_text (kv : string * string) : string :=
  (kv.1 +:+ "=" +:+ kv.2 +:+ ",")%string.
Definition pairs_text (l : list (string * string)) : string :=
  foldr (λ kv s, pair_text kv +:+ s) ""%string l.

Lemma app_assoc_string (a b c : string) : ((a +:+ b) +:+ c = a +:+ (b +:+ c))%string.
Proof.
  induction a as [|x a IH]; [done|].
  change (String x ((a +:+ b) +:+ c) = String x (a +:+ (b +:+ c)))%string. by rewrite IH.
Qed.

Lemma app_nil_string (a : string) : (a +:+ "")%string = a.
Proof. induction a as [|x a IH]; [done|]. change (String x (a +:+ "") = String x a)%string. by rewrite IH. Qed.

(** The text a fingerprint is, whatever the order. *)
Definition fp_text (labels : gmap string string) : string := pairs_text (sorted_pairs labels).

Lemma fingerprint_text order labels : valid_order labels (order labels) →
  fingerprint order labels = fp_text labels.
Proof.
  intros Ho. unfold fingerprint, fp_text, sorted_pairs, sorted_keys.
  rewrite (sort_Strings_unique _ (map fst (map_to_list labels)))
    by by apply Permutation_map, entries_perm.
  set (ks := sort_Strings _). clearbody ks.
  assert (Hf : ∀ acc, foldl (λ sb k, sb +:+ k +:+ "=" +:+ default "" (labels !! k) +:+ ",")%string acc ks =
    (acc +:+ pairs_text (map (λ k, (k, default ""%string (labels !! k))) ks))%string).
  { induction ks as [|k ks IH]; intros acc; [by rewrite app_nil_string|].
    cbn [foldl map]. rewrite IH. cbn [pairs_text foldr]. unfold pair_text. cbn [fst snd].
    by rewrite !app_assoc_string. }
  by rewrite Hf.
Qed.

Lemma sorted_pairs_keys labels : map fst (sorted_pairs labels) = sorted_keys labels.
Proof. unfold sorted_pairs. rewrite map_map. apply map_id. Qed.

Lemma sorted_keys_NoDup labels : NoDup (sorted_keys labels).
Proof. unfold sorted_keys. rewrite (sort_Strings_perm _). apply NoDup_fst_map_to_list. Qed.

Lemma sorted_keys_elem labels k : k ∈ sorted_keys labels ↔ is_Some (labels !! k).
Proof.
  unfold sorted_keys. rewrite (sort_Strings_perm _), list_elem_of_fmap. split.
  - intros ([k' v] & -> & H). apply elem_of_map_to_list in H. eauto.
  - intros [v Hv]. exists (k, v). by rewrite elem_of_map_to_list.
Qed.

Lemma sorted_pairs_map labels : list_to_map (sorted_pairs labels) = labels.
Proof.
  apply map_eq. intros k.
  assert (Hnd : NoDup (map fst (sorted_pairs labels))) by (rewrite sorted_pairs_keys; apply sorted_keys_NoDup).
  destruct (labels !! k) as [v|] eqn:E.
  - apply elem_of_list_to_map_1; [exact Hnd|]. apply list_elem_of_fmap. exists k.
    rewrite E. split; [done|]. apply sorted_keys_elem. eauto.
  - apply not_elem_of_list_to_map_1. rewrite sorted_pairs_keys, sorted_keys_elem, E. by intros [? ?].
Qed.

(** Labels the text format can carry: no [=] in a name, no [,] in a value. *)
Definition plain_pair (kv : string * string) : Prop :=
  no_char "="%char kv.1 ∧ no_char ","%char kv.2.
Definition plain (labels : gmap string string) : Prop := map_Forall (λ k v, plain_pair (k, v)) labels.

Lemma pairs_text_inj l1 l2 : Forall plain_pair l1 → Forall plain_pair l2 →
  pairs_text l1 = pairs_text l2 → l1 = l2.
Proof.
  intros H1. revert l2. induction H1 as [|[k1 v1] l1 [Hk1 Hv1] _ IH]; intros l2 H2 Heq.
  - destruct l2 as [|[k2 v2] l2]; [done|]. cbn in Heq. destruct k2; discriminate Heq.
  - destruct H2 as [|[k2 v2] l2 [Hk2 Hv2] H2]; [cbn in Heq; destruct k1; discriminate Heq|].
    cbn [pairs_text foldr] in Heq. unfold pair_text in Heq. cbn [fst snd] in *.
    rewrite !app_assoc_string in Heq.
    change ("=" +:+ ?x)%string with (String "="%char x) in Heq.
    assert (He : Some (k1, (v1 +:+ String ","%char (pairs_text l1))%string) =
      Some (k2, (v2 +:+ String ","%char (pairs_text l2))%string)).
    { rewrite <- (cut_app "=" k1 _ Hk1), <- (cut_app "=" k2 _ Hk2). f_equal. exact Heq. }
    injection He as -> Hv.
    assert (He : Some (v1, pairs_text l1) = Some (v2, pairs_text l2)).
    { rewrite <- (cut_app "," v1 _ Hv1), <- (cut_app "," v2 _ Hv2). by f_equal. }
    injection He as -> Ht. f_equal. by apply IH.
Qed.

(** ** Grouping *)

(** The pair Loki stores for an entry. *)
Definition value_of (e : Entry) : list string := [pretty (UnixNano (e_Timestamp e)); e_Line e].

Section Grouping.
Context (order : nat → gmap string string → list string).
Context (Horder : ∀ i ls, valid_order ls (order i ls)).
Local Abbreviation fp e := (fp_text (e_StreamLabels e)).

Definition with_fp (k : string) (es : list Entry) : list Entry := filter (λ e, fp e = k) es.

(** The stream a fingerprint's entries make: labels of the first, values of all. *)
Definition stream_of (es : list Entry) : option stream :=
  match es with [] => None | e :: _ => Some (mkStream (e_StreamLabels e) (map value_of es)) end.

Lemma stream_of_snoc es e : stream_of (es ++ [e]) =
  Some (match stream_of es with
        | Some s => mkStream (Stream s) (Values s ++ [value_of e])
        | None => mkStream (e_StreamLabels e) [value_of e]
        end).
Proof. destruct es as [|e' es]; cbn; [done|]. by rewrite map_app. Qed.

Lemma group_loop_app es1 es2 : ∀ i m,
  group_loop order i m (es1 ++ es2) = group_loop order (i + length es1) (group_loop order i m es1) es2.
Proof using Type.
  induction es1 as [|e es1 IH]; intros i m; cbn [app group_loop length]; [by rewrite Nat.add_0_r|].
  by rewrite IH, Nat.add_succ_comm.
Qed.

(** One more entry, under the text of its labels. *)
Definition add_entry (m : gmap string stream) (e : Entry) : gmap string stream :=
  alter (λ s, mkStream (Stream s) (Values s ++ [value_of e])) (fp e)
    (match m !! fp e with Some _ => m | None => <[fp e := mkStream (e_StreamLabels e) []]> m end).

Lemma group_snoc es e : group order (es ++ [e]) = add_entry (group order es) e.
Proof using Horder.
  unfold group. rewrite group_loop_app. cbn [group_loop]. unfold group_entry.
  by rewrite fingerprint_text by apply Horder.
Qed.

Lemma group_lookup es k : group order es !! k = stream_of (with_fp k es).
Proof using Horder.
  induction es as [|e es IH] using rev_ind; [apply lookup_empty|].
  rewrite group_snoc. unfold add_entry, with_fp in *. rewrite filter_app. cbn [filter list_filter].
  change (filter (λ e, fp e = k) [e]) with (if decide (fp e = k) then [e] else []).
  case_decide as Hk.
  - rewrite Hk. rewrite stream_of_snoc, lookup_alter_eq, <- IH.
    destruct (group order es !! k) as [s|] eqn:E; [by rewrite E|]. by rewrite lookup_insert_eq.
  - rewrite app_nil_r, <- IH, lookup_alter_ne by done.
    destruct (group order es !! fp e); [done|]. by rewrite lookup_insert_ne.
Qed.

(** What [f] reads off all the streams of a map. *)
Definition gather {X} (f : stream → list X) (m : gmap string stream) : list X :=
  concat (map (λ ks, f ks.2) (map_to_list m)).

Lemma gather_insert {X} (f : stream → list X) m k s : m !! k = None →
  gather f (<[k := s]> m) ≡ₚ f s ++ gather f m.
Proof using Type. intros Hk. unfold gather. by rewrite (map_to_list_insert m k s Hk). Qed.

Lemma gather_alter {X} (f : stream → list X) m k s s' x : m !! k = Some s → f s' ≡ₚ f s ++ [x] →
  gather f (<[k := s']> m) ≡ₚ gather f m ++ [x].
Proof using Type.
  intros Hk Hf. rewrite <- insert_delete_eq, gather_insert by apply lookup_delete_eq.
  rewrite <- (insert_delete_id m k s Hk) at 2. rewrite gather_insert by apply lookup_delete_eq.
  rewrite Hf, <- !app_assoc. f_equiv. apply Permutation_app_comm.
Qed.

Lemma alter_present (f : stream → stream) (m : gmap string stream) k s : m !! k = Some s →
  alter f k m = <[k := f s]> m.
Proof using Type. intros Hk. rewrite <- (insert_id m k s Hk) at 1. apply alter_insert_eq. Qed.

(** The lines of a stream, each under the stream's labels. *)
Definition stream_lines (s : stream) : list (gmap string string * list string) :=
  map (pair (Stream s)) (Values s).

(** One more entry: one more item. *)
Lemma group_gather_snoc {X} (f : stream → list X) es e x :
  (∀ ls, f (mkStream ls []) = []) →
  (∀ s, group order es !! fp e = Some s ∨ s = mkStream (e_StreamLabels e) [] →
    f (mkStream (Stream s) (Values s ++ [value_of e])) ≡ₚ f s ++ [x]) →
  gather f (group order (es ++ [e])) ≡ₚ gather f (group order es) ++ [x].
Proof using Horder.
  intros H0 Hf. rewrite group_snoc. unfold add_entry.
  destruct (group order es !! fp e) as [s|] eqn:E.
  - rewrite (alter_present _ _ _ s) by done. apply gather_alter with s; [done|]. apply Hf. by left.
  - set (s0 := mkStream (e_StreamLabels e) []).
    rewrite alter_insert_eq.
    rewrite gather_insert by done. rewrite (Hf s0) by by right. unfold s0. rewrite H0, app_nil_l. apply Permutation_app_comm.
Qed.

Lemma group_values es : gather Values (group order es) ≡ₚ map value_of es.
Proof using Horder.
  induction es as [|e es IH] using rev_ind; [done|].
  rewrite map_app, <- IH. by apply group_gather_snoc.
Qed.

(** Every line is under its own labels when no two label sets of the batch
    share a fingerprint. *)
Lemma group_lines es :
  (∀ e1 e2, e1 ∈ es → e2 ∈ es → fp e1 = fp e2 → e_StreamLabels e1 = e_StreamLabels e2) →
  gather stream_lines (group order es) ≡ₚ map (λ e, (e_StreamLabels e, value_of e)) es.
Proof using Horder.
  induction es as [|e es IH] using rev_ind; [done|]. intros Hinj.
  rewrite map_app, <- IH by (intros; apply Hinj; rewrite ?elem_of_app; auto).
  apply group_gather_snoc; [done|]. intros s Hs. unfold stream_lines. cbn [Stream Values]. rewrite map_app. cbn [map].
  replace (Stream s) with (e_StreamLabels e) at 2; [done|]. destruct Hs as [Hs | ->]; [|done].
  rewrite group_lookup in Hs. unfold stream_of in Hs. destruct (with_fp (fp e) es) as [|e' l] eqn:E; [done|].
  injection Hs as <-. cbn [Stream]. assert (He : e' ∈ with_fp (fp e) es) by (rewrite E; by left).
  apply list_elem_of_filter in He as [Hfp Hin]. symmetry. apply Hinj; [apply elem_of_app; by left|apply elem_of_app; right; by left|done].
Qed.
End Grouping.

Lemma streams_of_perm group_order m : valid_order m (group_order m) →
  streams_of group_order m ≡ₚ map snd (map_to_list m).
Proof. intros H. unfold streams_of. by apply Permutation_map, entries_perm. Qed.

Lemma streams_of_elem group_order m s : valid_order m (group_order m) →
  s ∈ streams_of group_order m ↔ ∃ k, m !! k = Some s.
Proof.
  intros H. rewrite (streams_of_perm _ _ H), list_elem_of_fmap. split.
  - intros ([k s'] & -> & Hin%elem_of_map_to_list). eauto.
  - intros [k Hk]. exists (k, s). by rewrite elem_of_map_to_list.
Qed.

Lemma fp_text_inj l1 l2 : plain l1 → plain l2 → fp_text l1 = fp_text l2 → l1 = l2.
Proof.
  intros H1 H2 Heq.
  rewrite <- (sorted_pairs_map l1), <- (sorted_pairs_map l2). f_equal.
  assert (Hp : ∀ l, plain l → Forall plain_pair (sorted_pairs l)).
  { intros l Hl. unfold sorted_pairs. apply Forall_fmap, Forall_forall. intros k Hk. cbn.
    apply sorted_keys_elem in Hk as [v Hv]. rewrite Hv. by apply Hl. }
  by apply pairs_text_inj; auto.
Qed.

(** ** Reading a push request

    What Loki makes of a body: a reference decoder of the documented format. *)
Definition string_of_json (j : json) : option string := match j with JString s => Some s | _ => None end.
Definition strings_of_json (j : json) : option (list string) :=
  match j with JArray l => mapM string_of_json l | _ => None end.
Definition labels_of_json (j : json) : option (list (string * string)) :=
  match j with JObject ms => mapM (λ kj, pair kj.1 <$> string_of_json kj.2) ms | _ => None end.
Definition values_of_json (j : json) : option (list (list string)) :=
  match j with JNull => Some [] | JArray l => mapM strings_of_json l | _ => None end.
Definition stream_of_json (j : json) : option stream :=
  match j with
  | JObject [(k1, ls); (k2, vs)] =>
      if decide (k1 = "stream" ∧ k2 = "values")%string
      then ls ← labels_of_json ls; vs ← values_of_json vs; Some (mkStream (list_to_map ls) vs)
      else None
  | _ => None
  end.
Definition decode_push (body : bytes) : option (list stream) :=
  match json_scan body with
  | inl (JObject [(k, JArray l)]) => if decide (k = "streams"%string) then mapM stream_of_json l else None
  | _ => None
  end.

(** A stream as JSON carries it: malformed UTF-8 becomes U+FFFD. *)
Definition valid_stream (s : stream) : stream :=
  mkStream (list_to_map (map (λ kv, (to_valid kv.1, to_valid kv.2)) (sorted_pairs (Stream s))))
    (map (map to_valid) (Values s)).

Definition utf8_stream (s : stream) : Prop :=
  map_Forall (λ k v, valid_utf8 k ∧ valid_utf8 v) (Stream s) ∧ Forall (Forall valid_utf8) (Values s).

Lemma map_to_valid_id l : Forall valid_utf8 l → map to_valid l = l.
Proof. induction 1 as [|x l Hx _ IH]; [done|]. cbn [map]. by rewrite IH, to_valid_id. Qed.

Lemma valid_stream_id s : utf8_stream s → valid_stream s = s.
Proof.
  destruct s as [ls vs]. intros [Hl Hv]. unfold valid_stream. cbn [Stream Values] in *. f_equal.
  - rewrite <- (sorted_pairs_map ls) at 2. f_equal.
    assert (Hp : Forall (λ kv, valid_utf8 kv.1 ∧ valid_utf8 kv.2) (sorted_pairs ls)).
    { apply Forall_fmap, Forall_forall. intros k [v Hk]%sorted_keys_elem. cbn. rewrite Hk. by apply Hl. }
    induction Hp as [|[k v] l [Hk1 Hk2] _ IH]; [done|]. cbn [map fst snd] in *. by rewrite IH, !to_valid_id.
  - induction Hv as [|v vs Hx _ IH]; [done|]. cbn [map]. by rewrite IH, map_to_valid_id.
Qed.

Lemma map_valid_stream_id l : Forall utf8_stream l → map valid_stream l = l.
Proof. induction 1 as [|s l Hs _ IH]; [done|]. cbn [map]. by rewrite IH, valid_stream_id. Qed.

(** A body is three arrays and objects deep around strings. *)
Lemma pushRequest_writable streams : writable 0 (pushRequest streams).
Proof.
  assert (Hs : ∀ d l, foldr (λ j P, writable d j ∧ P) True (map JString l)).
  { intros d l. apply foldr_Forall, Forall_fmap, Forall_true. done. }
  cbn [pushRequest writable foldr]. split; [done|]. split; [|done]. split; [done|].
  apply foldr_Forall, Forall_fmap, Forall_true. intros [ls vs]. unfold compose.
  cbn [json_of_stream json_of_labels writable foldr Stream Values snd]. split; [done|]. split; [|split; [|done]].
  - split; [done|]. apply foldr_Forall, Forall_fmap, Forall_true. done.
  - destruct vs as [|v vs]; [done|]. split; [done|].
    apply foldr_Forall, Forall_fmap, Forall_true. intros w. split; [done|]. apply Hs.
Qed.

Lemma decode_labels ls : labels_of_json (json_valid (json_of_labels ls)) =
  Some (map (λ kv, (to_valid kv.1, to_valid kv.2)) (sorted_pairs ls)).
Proof.
  cbn [json_of_labels json_valid labels_of_json]. induction (sorted_pairs ls) as [|[k v] l IH]; [done|].
  cbn -[to_valid]. cbn -[to_valid] in IH. by rewrite IH.
Qed.

Lemma decode_strings v : strings_of_json (json_valid (JArray (map JString v))) = Some (map to_valid v).
Proof.
  cbn [json_valid strings_of_json]. induction v as [|x v IH]; [done|].
  cbn -[to_valid]. cbn -[to_valid] in IH. by rewrite IH.
Qed.

Lemma decode_values vs : values_of_json (json_valid (json_of_values vs)) = Some (map (map to_valid) vs).
Proof.
  unfold json_of_values. destruct vs as [|v0 vs']; [done|]. set (vs := v0 :: vs'). clearbody vs.
  cbn [json_valid values_of_json]. induction vs as [|v vs IH]; [done|].
  cbn [map mapM]. rewrite decode_strings. cbn [mbind option_bind]. by rewrite IH.
Qed.

Lemma decode_stream s : stream_of_json (json_valid (json_of_stream s)) = Some (valid_stream s).
Proof.
  unfold stream_of_json, json_of_stream. cbn [json_valid map fst snd].
  rewrite decide_True by by_decision. rewrite decode_labels, decode_values. done.
Qed.

Lemma decode_Marshal_push streams :
  decode_push (text (pushRequest streams)) = Some (map valid_stream streams).
Proof.
  unfold decode_push. rewrite json_scan_text_valid by apply pushRequest_writable.
  unfold pushRequest. cbn [json_valid map fst snd]. rewrite decide_True by by_decision.
  induction streams as [|s streams IH]; [done|].
  cbn [map mapM]. rewrite decode_stream. cbn [mbind option_bind]. by rewrite IH.
Qed.

Definition sample_streams : list stream :=
  [mkStream {["job" := "ome_alerts"; "host" := "a<b"]}%string [["17"; of_bytes [Byte.x22; Byte.x0a]]%string]].
Example push_text : text (pushRequest sample_streams) =
  to_bytes ("{" +:+ quoted "streams" +:+ ":[{" +:+ quoted "stream" +:+ ":{" +:+ quoted "host" +:+ ":"
    +:+ quoted "a\u003cb" +:+ "," +:+ quoted "job" +:+ ":" +:+ quoted "ome_alerts" +:+ "}," +:+ quoted "values"
    +:+ ":[[" +:+ quoted "17" +:+ "," +:+ quoted ("\" +:+ dq +:+ "\n") +:+ "]]}]}")%string.
Proof. vm_compute. reflexivity. Qed.
Example push_decodes : decode_push (text (pushRequest sample_streams)) = Some sample_streams.
Proof. vm_compute. reflexivity. Qed.

(** ** Properties *)

(** The fingerprint of a label set does not depend on the order in which Go
    visits the map: it is the text of the pairs sorted by name. *)
Theorem fingerprint_stable (o1 o2 : gmap string string → list string) (labels : gmap string string) :
  valid_order labels (o1 labels) → valid_order labels (o2 labels) →
  fingerprint o1 labels = fingerprint o2 labels.
Proof. intros H1 H2. by rewrite !fingerprint_text. Qed.

(** Grouping loses and duplicates nothing: whatever the label sets, the values
    of the streams pushed are, together, the time stamps and lines of the
    entries -- and within a stream they come in the order of the entries. *)
Theorem Push_conserves_entries (order : nat → gmap string string → list string)
    (group_order : gmap string stream → list string) (es : list Entry) :
  (∀ i ls, valid_order ls (order i ls)) →
  valid_order (group order es) (group_order (group order es)) →
  concat (map Values (streams_of group_order (group order es))) ≡ₚ map value_of es ∧
  ∀ s, s ∈ streams_of group_order (group order es) →
    ∃ k, Values s = map value_of (with_fp k es).
Proof.
  intros Ho Hg. split.
  - rewrite (streams_of_perm _ _ Hg), <- (group_values order Ho), map_map. done.
  - intros s (k & Hk)%(streams_of_elem _ _ _ Hg). exists k.
    rewrite group_lookup in Hk by done. unfold stream_of in Hk.
    destruct (with_fp k es); by simplify_eq.
Qed.

(** C27. When no label name contains [=] and no value contains a comma, streams
    are exactly the label sets, in whatever order each call of [fingerprint]
    visits its labels -- equal maps in different orders included: one stream
    for each label set that occurs, holding the entries with these labels in
    order. *)
Theorem Push_groups_by_labels (order : nat → gmap string string → list string)
    (group_order : gmap string stream → list string) (es : list Entry) :
  (∀ i ls, valid_order ls (order i ls)) →
  valid_order (group order es) (group_order (group order es)) →
  Forall (λ e, plain (e_StreamLabels e)) es →
  NoDup (map Stream (streams_of group_order (group order es))) ∧
  (∀ ls, ls ∈ map Stream (streams_of group_order (group order es)) ↔ ∃ e, e ∈ es ∧ e_StreamLabels e = ls) ∧
  ∀ s, s ∈ streams_of group_order (group order es) →
    Values s = map value_of (filter (λ e, e_StreamLabels e = Stream s) es).
Proof.
  intros Ho Hg Hplain. rewrite Forall_forall in Hplain.
  assert (Hs : ∀ k s, group order es !! k = Some s →
    ∃ e, e ∈ es ∧ e_StreamLabels e = Stream s ∧ fp_text (Stream s) = k ∧
      Values s = map value_of (with_fp k es)).
  { intros k s. rewrite group_lookup by done. unfold stream_of. destruct (with_fp k es) as [|e l] eqn:E; [done|].
    intros [= <-]. assert (Hin : e ∈ with_fp k es) by (rewrite E; by left).
    apply list_elem_of_filter in Hin as [Hfp Hin]. by exists e. }
  split; [|split].
  - assert (Hnd : NoDup (entries (group order es) (group_order (group order es))).*1)
      by apply entries_NoDup, Hg.
    assert (Hk : Forall (λ ks, fp_text (Stream ks.2) = ks.1)
      (entries (group order es) (group_order (group order es)))).
    { rewrite Forall_forall. intros [k s] [_ Hk]%entries_elem. by apply Hs in Hk as (e & _ & _ & ? & _). }
    unfold streams_of. rewrite map_map.
    induction (entries (group order es) (group_order (group order es))) as [|[k s] l IH]; [constructor|].
    apply NoDup_cons in Hnd as [Hk1 Hnd]. apply Forall_cons in Hk as [Hk2 Hk3]. cbn in *.
    constructor; [|by apply IH]. rewrite list_elem_of_fmap. intros ([k' s'] & Heq & Hin). cbn in Heq.
    rewrite Forall_forall in Hk3. apply Hk1. rewrite <- Hk2, Heq.
    specialize (Hk3 _ Hin). cbn in Hk3. rewrite Hk3.
    apply list_elem_of_fmap. by exists (k', s').
  - intros ls. rewrite list_elem_of_fmap. split.
    + intros (s & -> & Hin). apply (streams_of_elem _ _ _ Hg) in Hin as [k Hk].
      apply Hs in Hk as (e & ? & ? & _). eauto.
    + intros (e & Hin & <-). assert (He : e ∈ with_fp (fp_text (e_StreamLabels e)) es)
        by by apply list_elem_of_filter.
      destruct (group order es !! fp_text (e_StreamLabels e)) as [s|] eqn:E.
      * exists s. split; [|apply (streams_of_elem _ _ _ Hg); eauto].
        apply Hs in E as (e' & Hin' & Heq & Hfp & _). rewrite <- Heq in *.
        apply fp_text_inj; auto.
      * rewrite group_lookup in E by done. destruct (with_fp _ _); [by apply not_elem_of_nil in He|done].
  - intros s [k Hk]%(streams_of_elem _ _ _ Hg). apply Hs in Hk as (e & Hin & Heq & <- & ->).
    f_equal. unfold with_fp. apply filter_ext_elem. intros e' Hin'. split.
    + intros Hfp. apply fp_text_inj; auto. rewrite <- Heq. auto.
    + by intros ->.
Qed.

(** [Push] performs exactly one POST, to the configured URL with the JSON of
    all streams, and returns nil exactly when the answer is a 2xx status; it
    performs none only when the URL does not parse. *)
Theorem Push_result (order : nat → gmap string string → list string)
    (group_order : gmap string stream → list string)
    (client : http_client) (url : string) (es : list Entry) :
  match Push order group_order client url es with
  | ([], err) => err ≠ None ∧ NewRequest client url ≠ None
  | ([req], err) => req_Method req = "POST"%string ∧ req_URL req = url ∧
      req_Body req = text (pushRequest (streams_of group_order (group order es))) ∧
      (err = None ↔ ∃ code, Do client req = inl code ∧ 200 <= code < 300)
  | _ => False
  end.
Proof.
  assert (Hq : ∀ c, status_2xx c = true ↔ 200 <= c < 300).
  { intros c. unfold status_2xx. rewrite Z.eqb_eq. split; intros; Z.to_euclidean_division_equations; lia. }
  unfold Push, Marshal_push.
  destruct (NewRequest client url) eqn:En; [done|].
  do 3 (split; [done|]). destruct (Do client _) as [code|e].
  - split.
    + intros Hn. exists code. split; [done|]. apply Hq. by destruct (status_2xx code).
    + intros (c & [= <-] & Hc). by rewrite (proj2 (Hq _) Hc).
  - split; [done|]. by intros (? & ? & _).
Qed.

(** The fingerprint is not injective: two different label sets, one with a
    value containing a comma, are merged into one stream, and the second
    entry's line is stored under the first entry's labels. *)
Theorem fingerprint_collision : ∃ e1 e2 : Entry,
  e_StreamLabels e1 ≠ e_StreamLabels e2 ∧
  ∀ order group_order, (∀ i ls, valid_order ls (order i ls)) →
    (∀ m, valid_order m (group_order m)) →
    streams_of group_order (group order [e1; e2]) =
      [mkStream (e_StreamLabels e1) [value_of e1; value_of e2]].
Proof.
  set (l1 := {["job" := "ome_alerts,level=info"]}%string : gmap string string).
  set (l2 := {["job" := "ome_alerts"; "level" := "info"]}%string : gmap string string).
  exists (mkEntry l1 1 "first"), (mkEntry l2 2 "second"). split; [by_decision|].
  intros order group_order Ho Hg.
  assert (Heq : fp_text l1 = fp_text l2) by reflexivity.
  set (e1 := mkEntry l1 1 "first"). set (e2 := mkEntry l2 2 "second").
  assert (Hm : group order [e1; e2] =
    {[fp_text l1 := mkStream l1 [value_of e1; value_of e2]]}).
  { apply map_eq. intros k. rewrite group_lookup by done. unfold with_fp. rewrite !filter_cons.
    cbn [e_StreamLabels e1 e2]. rewrite <- Heq.
    destruct (decide (fp_text l1 = k)) as [<-|Hne].
    - by rewrite lookup_singleton_eq.
    - by rewrite lookup_singleton_ne. }
  pose proof (streams_of_perm group_order _ (Hg (group order [e1; e2]))) as Hp.
  rewrite Hm, map_to_list_singleton in *. cbn [map snd] in Hp. apply Permutation_singleton_r in Hp. done.
Qed.

(** ** Witnesses *)

Definition sample_entries : list Entry :=
  [mkEntry {["job" := "ome_alerts"; "level" := "info"]}%string 1700000000000000000 "a";
   mkEntry {["job" := "ome_alerts"; "level" := "info"]}%string 1700000000000000001 "b";
   mkEntry {["job" := "ome_auditlogs"]}%string 1700000000000000002 "c"].

Lemma fingerprint_stable_witness :
  fingerprint some_order {["b" := "2"; "a" := "1"]}%string =
  fingerprint (λ ls, reverse (some_order ls)) {["b" := "2"; "a" := "1"]}%string.
Proof.
  apply fingerprint_stable; [apply some_order_valid|].
  destruct (some_order_valid ({["b" := "2"; "a" := "1"]}%string : gmap string string)) as [H1 H2].
  split; [by rewrite reverse_Permutation|]. intros k Hk. rewrite elem_of_reverse. auto.
Defined.

(** The second call for one label set goes the other way round. *)
Definition turning_order (i : nat) (ls : gmap string string) : list string :=
  if Nat.even i then some_order ls else reverse (some_order ls).
Lemma turning_order_valid i ls : valid_order ls (turning_order i ls).
Proof.
  unfold turning_order. destruct (some_order_valid ls) as [H1 H2]. destruct (Nat.even i); [done|].
  split; [by rewrite reverse_Permutation|]. intros k Hk. rewrite elem_of_reverse. auto.
Qed.

Lemma Push_conserves_entries_witness :
  concat (map Values (streams_of some_order (group turning_order sample_entries))) ≡ₚ
    [["1700000000000000000"; "a"]; ["1700000000000000001"; "b"]; ["1700000000000000002"; "c"]]%string.
Proof. apply (Push_conserves_entries turning_order some_order sample_entries), some_order_valid. apply turning_order_valid. Defined.

Lemma Push_groups_by_labels_witness :
  len (streams_of some_order (group turning_order sample_entries)) = 2 ∧
  Forall (λ s, Values s = map value_of (filter (λ e, e_StreamLabels e = Stream s) sample_entries))
    (streams_of some_order (group turning_order sample_entries)).
Proof.
  split; [by vm_compute|]. apply Forall_forall, (Push_groups_by_labels turning_order some_order sample_entries).
  - apply turning_order_valid.
  - apply some_order_valid.
  - apply (bool_decide_eq_true_1 _). by vm_compute.
Defined.
