(* ===== verification/Batch.v ===== *)
(** * Batch: the pending queue of internal/forwarder/forwarder.go

    Both forwarders keep a slice [pending] under a mutex, which Submit appends
    to and flush takes whole, and ship the batch outside the mutex.  This file
    models that queue once: its critical sections, Submit and flush run by one
    goroutine, and the interleaving of any number of goroutines -- the message
    pipeline and the cache's retry loop submitting, the flush loop ticking --
    as a step relation. *)
From S2P Require Import Prelude.
Open Scope Z_scope.

Section Batch.
Context {A : Type} (BatchSize : Z).

(** ** Critical sections *)

(** [f.pending = append(f.pending, samples...); sz := len(f.pending)] *)
Definition enqueue (xs pending : list A) : list A * Z :=
  let pending := pending ++ xs in (pending, len pending).

(** [if len(f.pending) == 0 { return }; batch := f.pending; f.pending = nil] *)
Definition take_batch (pending : list A) : option (list A) * list A :=
  if len pending =? 0 then (None, pending) else (Some pending, []).

(** [if sz >= f.cfg.BatchSize { f.flush() }] *)
Definition full (sz : Z) : bool := BatchSize <=? sz.

(** Submit by one goroutine: the batch it flushes, if any, and what is left. *)
Definition Submit (xs pending : list A) : option (list A) * list A :=
  let '(pending, sz) := enqueue xs pending in
  if full sz then take_batch pending else (None, pending).

(** ** Interleaving *)

Inductive loop_state := Running | Closing | Stopped.

(** What the goroutines share, and where they stand.  [owed] counts the
    goroutines that found the queue full and have not yet entered flush;
    [inflight] holds the batches taken and not yet shipped, [finished] those
    whose flush has returned; [taken] and [submitted] record the history. *)
Record system := mkSystem {
  pending : list A; owed : nat; inflight : list (list A); finished : list (list A);
  loop : loop_state; taken : list (list A); submitted : list A }.

Definition init : system := mkSystem [] 0 [] [] Running [] [].

Inductive event :=
  | EvSubmit (xs : list A)   (* Submit, up to the unlock *)
  | EvFlush                  (* a Submit that found the queue full enters flush *)
  | EvTick                   (* flushLoop: select takes a tick *)
  | EvClose                  (* Close: the done channel is closed *)
  | EvFinal                  (* flushLoop: the last flush *)
  | EvShip (i : nat).        (* the flush holding the i-th batch in flight returns *)

(** The first half of flush, under the mutex. *)
Definition flush_take (s : system) : system :=
  match take_batch (pending s) with
  | (Some b, rest) => mkSystem rest (owed s) (inflight s ++ [b]) (finished s) (loop s)
      (taken s ++ [b]) (submitted s)
  | (None, _) => s
  end.

Definition set_owed (n : nat) (s : system) : system :=
  mkSystem (pending s) n (inflight s) (finished s) (loop s) (taken s) (submitted s).
Definition set_loop (l : loop_state) (s : system) : system :=
  mkSystem (pending s) (owed s) (inflight s) (finished s) l (taken s) (submitted s).

(** [None]: the event is not enabled.  A tick that is already in the ticker's
    channel may be taken even when the done channel is closed. *)
Definition step (s : system) (e : event) : option system :=
  match e with
  | EvSubmit xs =>
      let '(p, sz) := enqueue xs (pending s) in
      Some (mkSystem p (if full sz then S (owed s) else owed s) (inflight s) (finished s) (loop s)
        (taken s) (submitted s ++ xs))
  | EvFlush => match owed s with O => None | S n => Some (flush_take (set_owed n s)) end
  | EvTick => match loop s with Stopped => None | _ => Some (flush_take s) end
  | EvClose => match loop s with Running => Some (set_loop Closing s) | _ => None end
  | EvFinal => match loop s with Closing => Some (flush_take (set_loop Stopped s)) | _ => None end
  | EvShip i =>
      b ← inflight s !! i;
      Some (mkSystem (pending s) (owed s) (delete i (inflight s)) (finished s ++ [b]) (loop s)
        (taken s) (submitted s))
  end.

Inductive reachable : system → Prop :=
  | reach_init : reachable init
  | reach_step s e s' : reachable s → step s e = Some s' → reachable s'.

Fixpoint run (s : system) (es : list event) : option system :=
  match es with
  | [] => Some s
  | e :: es => s ← step s e; run s es
  end.

(** ** Invariants *)

Record inv (s : system) : Prop := {
  inv_order : concat (taken s) ++ pending s = submitted s;
  inv_batches : taken s ≡ₚ inflight s ++ finished s;
  inv_nonempty : Forall (λ b, b ≠ []) (taken s);
  inv_full : pending s ≠ [] → BatchSize <= len (pending s) → (0 < owed s)%nat }.

Lemma take_batch_spec p : (p = [] ∧ take_batch p = (None, [])) ∨ (p ≠ [] ∧ take_batch p = (Some p, [])).
Proof. unfold take_batch. destruct p as [|x p]; [by left|]. right. split; [done|]. by destruct (Z.eqb_spec (len (x :: p)) 0); [len_lia|]. Qed.

Lemma Submit_cases xs p b rest : Submit xs p = (b, rest) →
  default [] b ++ rest = p ++ xs ∧ match b with Some b => b ≠ [] | None => True end.
Proof.
  unfold Submit, enqueue. destruct (full _); [|by intros [= <- <-]].
  destruct (take_batch_spec (p ++ xs)) as [[Hp Ht]|[Hp Ht]]; rewrite Ht; intros [= <- <-]; cbn; [done|].
  by rewrite app_nil_r.
Qed.

Lemma flush_take_inv s : concat (taken s) ++ pending s = submitted s →
  taken s ≡ₚ inflight s ++ finished s → Forall (λ b, b ≠ []) (taken s) →
  inv (flush_take s) ∧ pending (flush_take s) = [] ∧ submitted (flush_take s) = submitted s ∧
  owed (flush_take s) = owed s ∧ loop (flush_take s) = loop s.
Proof.
  intros H1 H2 H3. unfold flush_take.
  destruct (take_batch_spec (pending s)) as [[Hp ->]|[Hp ->]]; [|cbn].
  - split; [|done]. split; try done.
  - split; [|done]. split; cbn; [|..|done].
    + rewrite concat_app. cbn. by rewrite !app_nil_r.
    + rewrite H2. rewrite <- !app_assoc. apply Permutation_app_head, Permutation_app_comm.
    + apply Forall_app. split; [done|]. by constructor.
Qed.

Lemma step_inv s e s' : inv s → step s e = Some s' → inv s'.
Proof.
  intros [H1 H2 H3 H4]. destruct e as [xs| | | | |i]; cbn.
  - intros [= <-]. split; cbn; [by rewrite app_assoc, H1|done|done|].
    intros _ Hf. unfold full. destruct (Z.leb_spec BatchSize (len (pending s ++ xs))); [lia|].
    lia.
  - destruct (owed s) as [|n]; [done|]. intros [= <-]. by apply flush_take_inv.
  - destruct (loop s); [..|done]; intros [= <-]; by apply flush_take_inv.
  - destruct (loop s); [|done..]. by intros [= <-].
  - destruct (loop s); [done| |done]. intros [= <-]. by apply flush_take_inv.
  - destruct (inflight s !! i) as [b|] eqn:Ei; [|done]. cbn. intros [= <-].
    split; cbn; [done| |done|done]. rewrite H2.
    etransitivity; [apply Permutation_app_tail, (delete_Permutation _ _ _ Ei)|].
    cbn. rewrite app_assoc. apply Permutation_cons_append.
Qed.

Lemma reachable_inv s : reachable s → inv s.
Proof.
  induction 1 as [|s e s' _ IH Hs]; [|by eapply step_inv].
  split; cbn; try done.
Qed.

(** ** Draining *)

Lemma run_app s es1 es2 : run s (es1 ++ es2) = (s' ← run s es1; run s' es2).
Proof.
  revert s. induction es1 as [|e es1 IH]; intros s; [done|]. cbn.
  destruct (step s e); [apply IH|done].
Qed.

(** Shipping the batches in flight, oldest first. *)
Lemma ship_all s : ∃ s', run s (replicate (length (inflight s)) (EvShip 0)) = Some s' ∧
  inflight s' = [] ∧ pending s' = pending s ∧ finished s' = finished s ++ inflight s ∧
  submitted s' = submitted s.
Proof.
  remember (inflight s) as l eqn:Hl. revert s Hl. induction l as [|b l IH]; intros s Hl.
  { exists s. rewrite app_nil_r. by repeat split. }
  cbn. rewrite <- Hl. cbn.
  destruct (IH (mkSystem (pending s) (owed s) l (finished s ++ [b]) (loop s) (taken s) (submitted s)) eq_refl)
    as (s' & Hr & Hi & Hp & Hf & Hsub). exists s'. cbn in *.
  rewrite <- app_assoc in Hf. done.
Qed.

Lemma no_submission_frozen s es s' : loop s = Stopped → owed s = 0%nat →
  Forall (λ e, match e with EvSubmit _ => False | _ => True end) es → run s es = Some s' →
  pending s' = pending s.
Proof.
  intros Hl Ho Hes. revert s Hl Ho. induction Hes as [|e es He _ IH]; intros s Hl Ho; cbn; [by intros [= ->]|].
  destruct e as [xs| | | | |i]; cbn; rewrite ?Hl, ?Ho; try done.
  destruct (inflight s !! i); [|done]. cbn. intros H. by apply IH in H.
Qed.

(** ** Properties *)

(** C6. Under every interleaving of submitting goroutines, flushes, ticks,
    shipping and Close, nothing is lost, duplicated or reordered on the way out
    of the queue: the batches taken so far, followed by what is pending, are
    the submitted items in order; every batch taken is non-empty and is either
    still being shipped or finished, once; and whenever the queue is full some
    goroutine has yet to flush it. *)
Theorem queue_exactly_once (s : system) : reachable s →
  concat (taken s) ++ pending s = submitted s ∧
  taken s ≡ₚ inflight s ++ finished s ∧
  Forall (λ b, b ≠ []) (taken s) ∧
  (pending s ≠ [] → BatchSize <= len (pending s) → (0 < owed s)%nat).
Proof. intros [H1 H2 H3 H4]%reachable_inv. done. Qed.

(** While the flush loop runs the queue can always be drained without
    further submissions: one tick and the completion of the flushes in flight
    lead to an empty queue with everything ever submitted shipped. *)
Theorem queue_drains (s : system) : reachable s → loop s = Running →
  ∃ es s', run s es = Some s' ∧ Forall (λ e, match e with EvSubmit _ => False | _ => True end) es ∧
    pending s' = [] ∧ inflight s' = [] ∧ concat (finished s') ≡ₚ submitted s ∧ submitted s' = submitted s.
Proof.
  intros Hr%reachable_inv Hl. destruct Hr as [H1 H2 H3 _].
  destruct (flush_take_inv s H1 H2 H3) as ([T1 T2 _ _] & Hp & Hsub & _ & _).
  destruct (ship_all (flush_take s)) as (s' & Hrun & Hi & Hp' & Hf & Hsub').
  exists (EvTick :: replicate (length (inflight (flush_take s))) (EvShip 0)), s'.
  cbn. rewrite Hl. cbn. split; [exact Hrun|]. split.
  { constructor; [done|]. by apply Forall_replicate. }
  split; [by rewrite Hp'|]. split; [done|]. split; [|by rewrite Hsub'].
  rewrite Hf, Permutation_app_comm, <- T2, <- Hsub, <- T1, Hp. by rewrite app_nil_r.
Qed.

(** Submit by one goroutine leaves fewer than BatchSize items pending, and
    flushes exactly when the batch size is reached, with everything pending. *)
Theorem Submit_bound (xs p : list A) : 0 < BatchSize →
  let '(b, rest) := Submit xs p in
  len rest < BatchSize ∧ default [] b ++ rest = p ++ xs ∧
  (b ≠ None ↔ BatchSize <= len (p ++ xs)).
Proof.
  intros HB. unfold Submit, enqueue, full. destruct (Z.leb_spec BatchSize (len (p ++ xs))) as [H|H].
  - destruct (take_batch_spec (p ++ xs)) as [[Hp _]|[Hp ->]].
    + rewrite Hp in H. len_lia.
    + split; [len_lia|]. cbn. rewrite app_nil_r. done.
  - split; [done|]. split; [done|]. split; [done|]. intros; lia.
Qed.

(** After shutdown the queue has no reader: items submitted once the flush
    loop has stopped, and too few to fill a batch, stay in memory for ever. *)
Theorem stopped_queue_strands (s : system) (xs : list A) (es : list event) (s1 s2 : system) :
  loop s = Stopped → owed s = 0%nat → len (pending s ++ xs) < BatchSize →
  step s (EvSubmit xs) = Some s1 →
  Forall (λ e, match e with EvSubmit _ => False | _ => True end) es → run s1 es = Some s2 →
  pending s2 = pending s ++ xs.
Proof.
  intros Hl Ho Hlen Hs Hes Hrun. cbn in Hs. unfold full in Hs.
  destruct (Z.leb_spec BatchSize (len (pending s ++ xs))); [lia|]. simplify_eq.
  by apply no_submission_frozen in Hrun.
Qed.
End Batch.

(** ** Witnesses *)

Definition sample_run : list (@event Z) :=
  [EvSubmit [1]; EvSubmit [2; 3]; EvTick; EvSubmit [4]; EvFlush; EvShip 1].

Definition after (es : list (@event Z)) : @system Z := default init (run 2 init es).

Lemma run_reachable {A} B (s s' : @system A) es : reachable B s → run B s es = Some s' → reachable B s'.
Proof.
  revert s. induction es as [|e es IH]; intros s Hs; cbn; [by intros [= <-]|].
  destruct (step B s e) as [s1|] eqn:E; [|done]. apply IH. by eapply reach_step.
Qed.

Lemma sample_reachable : reachable 2 (after sample_run).
Proof. apply (run_reachable 2 init _ sample_run); [constructor|reflexivity]. Qed.

Lemma queue_exactly_once_witness :
  concat (taken (after sample_run)) ++ pending (after sample_run) = [1; 2; 3; 4].
Proof. apply (queue_exactly_once 2 (after sample_run) sample_reachable). Defined.

Lemma queue_drains_witness : ∃ es s', run 2 (after sample_run) es = Some s' ∧
  pending s' = [] ∧ concat (finished s') ≡ₚ [1; 2; 3; 4].
Proof.
  destruct (queue_drains 2 (after sample_run) sample_reachable eq_refl) as (es & s' & H1 & _ & H2 & _ & H3 & _).
  exists es, s'. split; [exact H1|]. split; [exact H2|exact H3].
Defined.

Lemma Submit_bound_witness : 0 < 2 ∧ let '(b, rest) := Submit 2 [7; 8] [6] in len rest < 2 ∧ b = Some [6; 7; 8].
Proof. split; [reflexivity|]. split; [apply (Submit_bound 2 [7; 8] [6]); reflexivity|reflexivity]. Defined.

Lemma stopped_queue_strands_witness : ∃ s1, step 2 (after [EvClose; EvFinal]) (EvSubmit [9]) = Some s1 ∧
  pending s1 = [9].
Proof.
  eexists. split; [reflexivity|].
  apply (stopped_queue_strands 2 (after [EvClose; EvFinal]) [9] []
    (mkSystem [9] 0 [] [] Stopped [] [9])); [reflexivity..|constructor|reflexivity].
Defined.
