(* ===== verification/Forwarder.v ===== *)
(** * Forwarder: internal/forwarder/forwarder.go

    What flush does with a batch: merging extra labels, relabeling, encoding,
    and sending to remote_write or Loki; the constructors and Close.  The queue
    in front of it is [Batch].  Snappy, TLS material and the HTTP client are
    arguments. *)
From S2P Require Import Prelude Regexp Float GoLib Config Relabel Prompb Parser LokiWriter Batch.
From stdpp Require Import pretty.
From Stdlib Require Import Strings.Ascii.
Open Scope Z_scope.

(** ** base64.StdEncoding *)

Definition b64_char (n : Z) : byte :=
  let n := Z.land n 63 in
  byte.of_Z (if n <? 26 then 65 + n else if n <? 52 then 71 + n else if n <? 62 then n - 4
    else if n =? 62 then 43 else 47).

Fixpoint b64_encode (b : bytes) : bytes :=
  match b with
  | x :: y :: z :: b =>
      let n := Z.lor (Z.shiftl (byte.unsigned x) 16) (Z.lor (Z.shiftl (byte.unsigned y) 8) (byte.unsigned z)) in
      b64_char (Z.shiftr n 18) :: b64_char (Z.shiftr n 12) :: b64_char (Z.shiftr n 6) :: b64_char n :: b64_encode b
  | [x; y] =>
      let n := Z.lor (Z.shiftl (byte.unsigned x) 16) (Z.shiftl (byte.unsigned y) 8) in
      [b64_char (Z.shiftr n 18); b64_char (Z.shiftr n 12); b64_char (Z.shiftr n 6); Byte.x3d]
  | [x] =>
      let n := Z.shiftl (byte.unsigned x) 16 in
      [b64_char (Z.shiftr n 18); b64_char (Z.shiftr n 12); Byte.x3d; Byte.x3d]
  | [] => []
  end.
Definition EncodeToString (s : string) : string := of_bytes (b64_encode (to_bytes s)).

Example base64_user : EncodeToString "user:pass" = "dXNlcjpwYXNz"%string.
Proof. reflexivity. Qed.
Example base64_pad : EncodeToString "a:b1" = "YTpiMQ=="%string.
Proof. reflexivity. Qed.

Section Forwarders.
Context {RE : Regexp} (unicode_ToLower : Z → Z).

(** ** Labels *)

(** [for k, v := range extra { m[k] = v }; for k, v := range own { m[k] = v }]:
    each loop writes distinct keys, so their order is immaterial. *)
Definition mergeLabels (extra own : gmap string string) : gmap string string :=
  map_fold (λ k v m, <[k := v]> m) (map_fold (λ k v m, <[k := v]> m) ∅ extra) own.

Lemma map_fold_insert_union (m acc : gmap string string) :
  map_fold (λ k v m, <[k := v]> m) acc m = m ∪ acc.
Proof.
  apply (map_fold_weak_ind (λ r m, r = m ∪ acc)); [by rewrite (left_id_L ∅ (∪))|].
  intros k v m' r _ ->. by rewrite insert_union_l.
Qed.

Lemma mergeLabels_union extra own : mergeLabels extra own = own ∪ extra.
Proof. unfold mergeLabels. rewrite !map_fold_insert_union. by rewrite (right_id_L ∅ (∪)). Qed.

(** ** Metrics *)

Record MetricsForwarder := mkMetricsForwarder {
  mf_cfg : RemoteWriteConfig; mf_extraLabels : gmap string string; mf_relabelEng : Engine;
  mf_pending : list MetricSample }.

(** The order in which Go visits the maps of the [i]-th sample of a batch: one
    for each relabeling rule, one for writing the labels out. *)
Record orders := mkOrders { o_relabel : nat → oracle; o_labels : nat → labels → list string }.

Definition valid_orders (o : orders) : Prop :=
  (∀ i, valid_oracle (o_relabel o i)) ∧ ∀ i ls, valid_order ls (o_labels o i ls).

Definition metric_labels (extra : gmap string string) (s : MetricSample) : labels :=
  <["__name__"%string := m_Name s]> (mergeLabels extra (m_Labels s)).

(** One turn of the loop over the batch: [None] when the engine drops it. *)
Definition metric_series (o : orders) (extra : gmap string string) (e : Engine) (i : nat)
    (s : MetricSample) : option TimeSeries :=
  lbls ← Apply unicode_ToLower (o_relabel o i) e (metric_labels extra s);
  let pbLbls := map (λ kv, mkLabel kv.1 kv.2) (entries lbls (o_labels o i lbls)) in
  Some {| Labels := pbLbls;
          Samples := [{| s_Value := m_Value s; s_Timestamp := UnixMilli (m_Timestamp s) |}] |}.

Fixpoint batch_series (o : orders) (extra : gmap string string) (e : Engine) (i : nat)
    (batch : list MetricSample) : list TimeSeries :=
  match batch with
  | [] => []
  | s :: batch =>
      match metric_series o extra e i s with
      | None => batch_series o extra e (S i) batch
      | Some ts => ts :: batch_series o extra e (S i) batch
      end
  end.

(** What becomes of a batch: the requests performed and how it ended.  Every
    error is logged and the batch discarded. *)
Inductive fate :=
  | NothingToSend
  | MarshalFailed (err : error)
  | SendFailed (err : error)
  | Sent.

Section Ship.
Context (snappy_Encode : bytes → bytes) (client : http_client).

Definition auth_headers (c : RemoteWriteConfig) : list (string * string) :=
  if decide (rw_Username c = ""%string) then []
  else [("Authorization", "Basic " +:+ EncodeToString (rw_Username c +:+ ":" +:+ rw_Password c))]%string.

Definition send (c : RemoteWriteConfig) (body : bytes) : list HTTPRequest * option error :=
  match NewRequest client (rw_URL c) with
  | Some err => ([], Some err)
  | None =>
      let req := mkHTTPRequest "POST" (rw_URL c)
        ([("Content-Type", "application/x-protobuf"); ("Content-Encoding", "snappy");
          ("X-Prometheus-Remote-Write-Version", "0.1.0")]%string ++ auth_headers c) body in
      ([req],
       match Do client req with
       | inr err => Some err
       | inl code => if status_2xx code then None else Some ("remote_write returned HTTP " +:+ pretty code)
       end)
  end.

(** flush after the batch is taken. *)
Definition ship_metrics (o : orders) (f : MetricsForwarder) (batch : list MetricSample)
    : list HTTPRequest * fate :=
  let ts := batch_series o (mf_extraLabels f) (mf_relabelEng f) 0 batch in
  if len ts =? 0 then ([], NothingToSend)
  else
    match Marshal {| Timeseries := ts |} with
    | inr err => ([], MarshalFailed err)
    | inl data =>
        let '(reqs, err) := send (mf_cfg f) (snappy_Encode data) in
        (reqs, match err with Some e => SendFailed e | None => Sent end)
    end.

Definition with_pending (f : MetricsForwarder) (p : list MetricSample) : MetricsForwarder :=
  mkMetricsForwarder (mf_cfg f) (mf_extraLabels f) (mf_relabelEng f) p.

Definition metrics_flush (o : orders) (f : MetricsForwarder) : MetricsForwarder * list HTTPRequest * fate :=
  match take_batch (mf_pending f) with
  | (None, _) => (f, [], NothingToSend)
  | (Some batch, rest) =>
      let f := with_pending f rest in
      let '(reqs, r) := ship_metrics o f batch in (f, reqs, r)
  end.

Definition metrics_Submit (o : orders) (f : MetricsForwarder) (samples : list MetricSample)
    : MetricsForwarder * list HTTPRequest * fate :=
  let '(p, sz) := enqueue samples (mf_pending f) in
  let f := with_pending f p in
  if full (rw_BatchSize (mf_cfg f)) sz then metrics_flush o f else (f, [], NothingToSend).
End Ship.

(** ** Logs *)

Record LogForwarder := mkLogForwarder {
  lf_cfg : LokiConfig; lf_extraLabels : gmap string string; lf_relabelEng : Engine;
  lf_url : string; lf_pending : list LogEntry }.

Definition log_entry (o : orders) (extra : gmap string string) (e : Engine) (i : nat)
    (x : LogEntry) : option Entry :=
  lbls ← Apply unicode_ToLower (o_relabel o i) e (mergeLabels extra (l_StreamLabels x));
  Some {| e_StreamLabels := lbls; e_Timestamp := l_Timestamp x; e_Line := l_Line x |}.

Fixpoint batch_entries (o : orders) (extra : gmap string string) (e : Engine) (i : nat)
    (batch : list LogEntry) : list Entry :=
  match batch with
  | [] => []
  | x :: batch =>
      match log_entry o extra e i x with
      | None => batch_entries o extra e (S i) batch
      | Some en => en :: batch_entries o extra e (S i) batch
      end
  end.

Section Push.
Context (fp_order : nat → gmap string string → list string) (group_order : gmap string stream → list string)
  (client : http_client).

Definition ship_logs (o : orders) (f : LogForwarder) (batch : list LogEntry) : list HTTPRequest * fate :=
  let es := batch_entries o (lf_extraLabels f) (lf_relabelEng f) 0 batch in
  if len es =? 0 then ([], NothingToSend)
  else
    let '(reqs, err) := Push fp_order group_order client (lf_url f) es in
    (reqs, match err with Some e => SendFailed e | None => Sent end).

Definition with_log_pending (f : LogForwarder) (p : list LogEntry) : LogForwarder :=
  mkLogForwarder (lf_cfg f) (lf_extraLabels f) (lf_relabelEng f) (lf_url f) p.

Definition log_flush (o : orders) (f : LogForwarder) : LogForwarder * list HTTPRequest * fate :=
  match take_batch (lf_pending f) with
  | (None, _) => (f, [], NothingToSend)
  | (Some batch, rest) =>
      let f := with_log_pending f rest in
      let '(reqs, r) := ship_logs o f batch in (f, reqs, r)
  end.

Definition log_Submit (o : orders) (f : LogForwarder) (entry : LogEntry)
    : LogForwarder * list HTTPRequest * fate :=
  let '(p, sz) := enqueue [entry] (lf_pending f) in
  let f := with_log_pending f p in
  if full (lk_BatchSize (lf_cfg f)) sz then log_flush o f else (f, [], NothingToSend).
End Push.

(** ** Constructors *)

Section New.
(** [os.ReadFile] of the CA bundle and [tls.LoadX509KeyPair]. *)
Context (ReadFile : string → bytes + error) (LoadX509KeyPair : string → string → unit + error).

Definition buildHTTPClient (c : TLSConfig) : option error :=
  match (if decide (CAFile c = ""%string) then None
         else match ReadFile (CAFile c) with inr err => Some ("reading CA file: " +:+ err)%string | inl _ => None end) with
  | Some err => Some err
  | None =>
      if decide (CertFile c ≠ ""%string ∧ KeyFile c ≠ ""%string)
      then match LoadX509KeyPair (CertFile c) (KeyFile c) with
           | inr err => Some ("loading client cert/key: " +:+ err)%string
           | inl _ => None
           end
      else None
  end.

(** [time.NewTicker] panics on a non-positive interval. *)
Definition NewTicker (d : Z) : outcome unit := if 0 <? d then Ok tt else Panic PanicTicker.

Definition NewMetricsForwarder (rwCfg : RemoteWriteConfig) (extra : gmap string string)
    (relabelCfgs : list RelabelConfig) : outcome (MetricsForwarder + error) :=
  match Relabel.New relabelCfgs with
  | inr err => Ok (inr ("compiling relabel rules: " +:+ err))
  | inl eng =>
      match buildHTTPClient (rw_TLS rwCfg) with
      | Some err => Ok (inr ("building HTTP client: " +:+ err))
      | None =>
          _ ← NewTicker (rw_FlushInterval rwCfg);
          Ok (inl (mkMetricsForwarder rwCfg extra eng []))
      end
  end.

Definition NewLogForwarder (lokiCfg : LokiConfig) (extra : gmap string string)
    (relabelCfgs : list RelabelConfig) : outcome (LogForwarder + error) :=
  match Relabel.New relabelCfgs with
  | inr err => Ok (inr ("compiling log relabel rules: " +:+ err))
  | inl eng =>
      match buildHTTPClient (lk_TLS lokiCfg) with
      | Some err => Ok (inr ("building Loki HTTP client: " +:+ err))
      | None =>
          _ ← NewTicker (lk_FlushInterval lokiCfg);
          Ok (inl (mkLogForwarder lokiCfg extra eng (lk_URL lokiCfg) []))
      end
  end.
End New.

(** ** Facts *)

(** The samples of a batch that survive relabeling, with their final labels. *)
Fixpoint survivors (o : orders) (extra : gmap string string) (e : Engine) (i : nat)
    (batch : list MetricSample) : list (labels * MetricSample) :=
  match batch with
  | [] => []
  | s :: batch =>
      match Apply unicode_ToLower (o_relabel o i) e (metric_labels extra s) with
      | None => survivors o extra e (S i) batch
      | Some lbls => (lbls, s) :: survivors o extra e (S i) batch
      end
  end.

(** A series carries a sample: exactly its labels, each once, and its point. *)
Definition carries (ts : TimeSeries) (ls : labels * MetricSample) : Prop :=
  ((λ l, (Name l, Value l)) <$> Labels ts) ≡ₚ map_to_list ls.1 ∧
  Samples ts = [{| s_Value := m_Value ls.2; s_Timestamp := UnixMilli (m_Timestamp ls.2) |}].

Lemma batch_series_carries o extra e i batch : valid_orders o →
  Forall2 carries (batch_series o extra e i batch) (survivors o extra e i batch).
Proof.
  intros [Hr Hl]. revert i. induction batch as [|s batch IH]; intros i; [constructor|]. cbn.
  unfold metric_series. destruct (Apply _ _ _ _) as [lbls|]; [|apply IH]. cbn.
  constructor; [|apply IH]. split; [|done]. cbn [Labels fst].
  rewrite <- (entries_perm lbls (o_labels o i lbls)) by apply Hl.
  rewrite <- list_fmap_compose. rewrite <- (list_fmap_id (entries lbls _)) at 2.
  apply reflexive_eq, list_fmap_ext. by intros _ [k v] _.
Qed.

Lemma carries_named ts ls : carries ts ls → series_named ts ↔ names_ok ls.1.
Proof.
  intros [Hp _]. unfold series_named, names_ok, named. rewrite Forall_forall. split.
  - intros H. apply eq_None_not_Some. intros [v Hv].
    apply elem_of_map_to_list in Hv. rewrite <- Hp in Hv.
    apply list_elem_of_fmap in Hv as (l & Heq & Hin). injection Heq as Hn _. by apply (H l Hin).
  - intros Hnone l Hin Hn. assert (Hv : (Name l, Value l) ∈ map_to_list ls.1).
    { rewrite <- Hp. apply list_elem_of_fmap. eauto. }
    apply elem_of_map_to_list in Hv. rewrite Hn in Hv. congruence.
Qed.

Lemma Marshal_survivors o extra e batch : valid_orders o →
  (∃ err, Marshal {| Timeseries := batch_series o extra e 0 batch |} = inr err) ↔
  Exists (λ ls, ¬ names_ok ls.1) (survivors o extra e 0 batch).
Proof.
  intros Ho. pose proof (batch_series_carries o extra e 0 batch Ho) as Hc.
  assert (Hiff : Forall series_named (batch_series o extra e 0 batch) ↔
    Forall (λ ls, names_ok ls.1) (survivors o extra e 0 batch)).
  { induction Hc as [|ts ls l1 l2 Hts _ IH]; [by rewrite !Forall_nil|].
    by rewrite !Forall_cons, IH, carries_named. }
  split.
  - intros [err He]. apply not_Forall_Exists; [apply _|]. intros H. apply Hiff in H.
    pose proof (Marshal_ok (mkWriteRequest (batch_series o extra e 0 batch)) H). congruence.
  - intros Hex. destruct (Marshal _) as [b|err] eqn:E; [|eauto]. apply Marshal_inv in E. cbn in E.
    apply Hiff in E. apply Exists_not_Forall in Hex. exfalso. apply Hex. 
    eapply Forall_impl; [exact E|]. cbn. tauto.
Qed.

Lemma survivors_names o extra e i batch :
  Forall (λ r, action_of unicode_ToLower r ≠ LabelMap) (rules e) → names_ok extra →
  Forall (λ s, names_ok (m_Labels s)) batch →
  Forall (λ ls, names_ok ls.1) (survivors o extra e i batch).
Proof.
  intros He Hx Hb. revert i. induction Hb as [|s batch Hs _ IH]; intros i; [constructor|]. cbn.
  destruct (Apply _ _ _ _) as [lbls|] eqn:Ea; [|apply IH]. constructor; [|apply IH]. cbn.
  eapply apply_rules_names; [exact He|exact Ea|]. unfold names_ok, metric_labels in *.
  rewrite lookup_insert_ne by done. rewrite mergeLabels_union, lookup_union, Hs, Hx. done.
Qed.

(** The log entries that survive, with their final labels. *)
Fixpoint log_survivors (o : orders) (extra : gmap string string) (e : Engine) (i : nat)
    (batch : list LogEntry) : list (labels * LogEntry) :=
  match batch with
  | [] => []
  | x :: batch =>
      match Apply unicode_ToLower (o_relabel o i) e (mergeLabels extra (l_StreamLabels x)) with
      | None => log_survivors o extra e (S i) batch
      | Some lbls => (lbls, x) :: log_survivors o extra e (S i) batch
      end
  end.

Definition entry_of (lx : labels * LogEntry) : Entry :=
  mkEntry lx.1 (l_Timestamp lx.2) (l_Line lx.2).

Lemma batch_entries_survivors o extra e i batch :
  batch_entries o extra e i batch = map entry_of (log_survivors o extra e i batch).
Proof.
  revert i. induction batch as [|x batch IH]; intros i; [done|]. cbn. unfold log_entry.
  destruct (Apply _ _ _ _) as [lbls|]; cbn; by rewrite IH.
Qed.

Lemma batch_series_typed o extra e i batch : Forall (λ s, inU 64 (m_Value s)) batch →
  typed {| Timeseries := batch_series o extra e i batch |}.
Proof.
  intros Hb. unfold typed. cbn [Timeseries]. revert i.
  induction Hb as [|s batch Hs _ IH]; intros i; [constructor|]. cbn. unfold metric_series.
  destruct (Apply _ _ _ _) as [lbls|]; [|apply IH]. cbn. constructor; [|apply IH].
  constructor; [|constructor]. split; [exact Hs|]. by apply wrapS_range.
Qed.

Lemma status_2xx_spec code : status_2xx code = true ↔ 200 <= code < 300.
Proof.
  unfold status_2xx. rewrite Z.eqb_eq. split; intros; Z.to_euclidean_division_equations; lia.
Qed.

Lemma len_0 {A} (l : list A) : (len l =? 0) = true ↔ l = [].
Proof. unfold len. rewrite Z.eqb_eq. destruct l; cbn; split; (done || lia). Qed.

(** *** Which backend a request is for *)

Definition has_type (t : string) (r : HTTPRequest) : bool :=
  bool_decide (("Content-Type", t)%string ∈ req_Header r).
Definition metrics_request : HTTPRequest → bool := has_type "application/x-protobuf".
Definition log_request : HTTPRequest → bool := has_type "application/json".

Lemma ship_metrics_requests (snappy_Encode : bytes → bytes) (client : http_client) (o : orders)
    (f : MetricsForwarder) (batch : list MetricSample) :
  Forall (λ r, metrics_request r = true ∧ log_request r = false)
    (ship_metrics snappy_Encode client o f batch).1.
Proof.
  unfold ship_metrics. destruct (_ =? 0); [constructor|]. destruct (Marshal _) as [data|]; [|constructor].
  unfold send. destruct (NewRequest _ _); [constructor|]. cbn [fst]. apply Forall_singleton.
  unfold metrics_request, log_request, has_type, auth_headers. cbn [req_Header].
  rewrite bool_decide_eq_true, bool_decide_eq_false. case_decide; set_solver.
Qed.

Lemma ship_logs_requests (fp_order : nat → gmap string string → list string)
    (group_order : gmap string stream → list string) (client : http_client) (o : orders)
    (f : LogForwarder) (batch : list LogEntry) :
  Forall (λ r, metrics_request r = false ∧ log_request r = true)
    (ship_logs fp_order group_order client o f batch).1.
Proof.
  unfold ship_logs. destruct (_ =? 0); [constructor|]. unfold Push.
  destruct (Marshal_push _) as [body|]; [|constructor]. destruct (NewRequest _ _); [constructor|].
  apply Forall_singleton. done.
Qed.

Lemma metrics_Submit_queue (snappy_Encode : bytes → bytes) (client : http_client) (o : orders)
    (f : MetricsForwarder) (samples : list MetricSample) :
  let '(b, rest) := Submit (rw_BatchSize (mf_cfg f)) samples (mf_pending f) in
  let '(f', reqs, r) := metrics_Submit snappy_Encode client o f samples in
  f' = with_pending f rest ∧
  (reqs, r) = match b with
    | Some batch => ship_metrics snappy_Encode client o f batch
    | None => ([], NothingToSend)
    end.
Proof.
  unfold Submit, metrics_Submit, enqueue. destruct (full _ _); [|done].
  unfold metrics_flush. cbn [mf_pending with_pending].
  destruct (take_batch_spec (mf_pending f ++ samples)) as [[Hp ->]|[Hp ->]].
  - by rewrite Hp.
  - change (ship_metrics snappy_Encode client o (with_pending (with_pending f _) _))
      with (ship_metrics snappy_Encode client o f).
    by destruct (ship_metrics _ _ _ _ _).
Qed.

Lemma log_Submit_queue (fp_order : nat → gmap string string → list string)
    (group_order : gmap string stream → list string)
    (client : http_client) (o : orders) (f : LogForwarder) (entry : LogEntry) :
  let '(b, rest) := Submit (lk_BatchSize (lf_cfg f)) [entry] (lf_pending f) in
  let '(f', reqs, r) := log_Submit fp_order group_order client o f entry in
  f' = with_log_pending f rest ∧
  (reqs, r) = match b with
    | Some batch => ship_logs fp_order group_order client o f batch
    | None => ([], NothingToSend)
    end.
Proof.
  unfold Submit, log_Submit, enqueue. destruct (full _ _); [|done].
  unfold log_flush. cbn [lf_pending with_log_pending].
  destruct (take_batch_spec (lf_pending f ++ [entry])) as [[Hp ->]|[Hp ->]].
  - by rewrite Hp.
  - change (ship_logs fp_order group_order client o (with_log_pending (with_log_pending f _) _))
      with (ship_logs fp_order group_order client o f).
    by destruct (ship_logs _ _ _ _ _ _).
Qed.

(** When a batch leads to a request, and what is in it. *)
Lemma ship_metrics_request snappy_Encode client o f batch reqs r :
  ship_metrics snappy_Encode client o f batch = (reqs, r) →
  let wr := {| Timeseries := batch_series o (mf_extraLabels f) (mf_relabelEng f) 0 batch |} in
  (reqs = [] ∧ (Timeseries wr = [] ∨ (∃ err, Marshal wr = inr err) ∨ NewRequest client (rw_URL (mf_cfg f)) ≠ None)) ∨
  ∃ req data, reqs = [req] ∧ Marshal wr = inl data ∧ req_Body req = snappy_Encode data.
Proof.
  unfold ship_metrics. cbn zeta. set (ts := batch_series _ _ _ _ _). cbn [Timeseries].
  destruct (len ts =? 0) eqn:El; [intros [= <- _]; left; split; [done|left; by apply len_0]|].
  destruct (Marshal {| Timeseries := ts |}) as [data|err]; [|intros [= <- _]; left; eauto].
  unfold send. destruct (NewRequest client _); intros [= <- _]; [left; eauto|]. right. by eexists _, data.
Qed.

Lemma ship_logs_request fp_order group_order client o f batch reqs r :
  ship_logs fp_order group_order client o f batch = (reqs, r) →
  let es := batch_entries o (lf_extraLabels f) (lf_relabelEng f) 0 batch in
  (reqs = [] ∧ (es = [] ∨ NewRequest client (lf_url f) ≠ None)) ∨
  ∃ req, reqs = [req] ∧ es ≠ [] ∧ Marshal_push (streams_of group_order (group fp_order es)) = inl (req_Body req).
Proof.
  unfold ship_logs. cbn zeta. set (es := batch_entries _ _ _ _ _).
  destruct (len es =? 0) eqn:El; [intros [= <- _]; left; split; [done|left; by apply len_0]|].
  unfold Push. destruct (Marshal_push _) as [body|err] eqn:Em; [|done].
  destruct (NewRequest client (lf_url f)); intros [= <- _]; [left; eauto|]. right. eexists. split; [done|].
  split; [|done]. intros Hnil. by rewrite Hnil in El.
Qed.

(** ** Properties *)

(** Label precedence on a metric: [__name__] is the metric's name, then come
    the metric's own labels, and an extra label only fills a gap. *)
Theorem metric_label_precedence (extra : gmap string string) (s : MetricSample) (k : string) :
  metric_labels extra s !! k =
    if decide (k = "__name__"%string) then Some (m_Name s)
    else match m_Labels s !! k with Some v => Some v | None => extra !! k end.
Proof.
  unfold metric_labels. case_decide as Hk; [subst; by rewrite lookup_insert_eq|].
  rewrite lookup_insert_ne by done. rewrite mergeLabels_union, lookup_union.
  destruct (m_Labels s !! k), (extra !! k); done.
Qed.

(** C3. What the metrics backend receives: when a batch leads to a request, its
    body decompresses and decodes to one series per sample the relabeling rules
    keep, in order, each with exactly the labels the rules leave and the
    sample's value and millisecond time stamp. *)
Theorem metrics_request_content (snappy_Encode : bytes → bytes) (snappy_Decode : bytes → option bytes)
    (client : http_client) (o : orders) (f : MetricsForwarder) (batch : list MetricSample)
    (req : HTTPRequest) (r : fate) :
  (∀ d, snappy_Decode (snappy_Encode d) = Some d) →
  valid_orders o → Forall (λ s, inU 64 (m_Value s)) batch →
  (∀ d, Marshal {| Timeseries := batch_series o (mf_extraLabels f) (mf_relabelEng f) 0 batch |} = inl d →
    len d < 2 ^ 63) →
  ship_metrics snappy_Encode client o f batch = ([req], r) →
  ∃ data wr, snappy_Decode (req_Body req) = Some data ∧ decodeWriteRequest data = Some wr ∧
    Forall2 carries (Timeseries wr) (survivors o (mf_extraLabels f) (mf_relabelEng f) 0 batch).
Proof.
  intros Hsn Ho Hb Hlen Hs. apply ship_metrics_request in Hs as [[Hs _]|(req' & data & Hr & Em & Hbody)]; [done|].
  injection Hr as <-. exists data. eexists. rewrite Hbody. split; [apply Hsn|]. split.
  - apply decode_Marshal; [by apply batch_series_typed|done|by apply Hlen].
  - by apply batch_series_carries.
Qed.

(** C26. The fate of a batch: nothing is sent exactly when the rules drop every
    sample; encoding fails exactly when some surviving sample has an empty
    label name -- and then the whole batch is discarded without a request; it
    counts as sent exactly when one POST is answered by a 2xx status.  There is
    at most one request, a POST to the configured URL, and there is none exactly
    when no sample survives, the encoding fails or the URL does not parse.  In
    every other case (the error is SendFailed) the batch is lost after that one
    attempt. *)
Theorem metrics_fate (snappy_Encode : bytes → bytes) (client : http_client) (o : orders)
    (f : MetricsForwarder) (batch : list MetricSample) : valid_orders o →
  let kept := survivors o (mf_extraLabels f) (mf_relabelEng f) 0 batch in
  let poisoned := Exists (λ ls, ¬ names_ok ls.1) kept in
  let '(reqs, r) := ship_metrics snappy_Encode client o f batch in
  (r = NothingToSend ↔ kept = []) ∧
  ((∃ err, r = MarshalFailed err) ↔ poisoned) ∧
  (r = Sent ↔ kept ≠ [] ∧ ¬ poisoned ∧
     ∃ req code, reqs = [req] ∧ Do client req = inl code ∧ 200 <= code < 300) ∧
  (reqs = [] ↔ kept = [] ∨ poisoned ∨ NewRequest client (rw_URL (mf_cfg f)) ≠ None) ∧
  ∀ req, req ∈ reqs → reqs = [req] ∧ req_Method req = "POST"%string ∧ req_URL req = rw_URL (mf_cfg f).
Proof.
  intros Ho. cbn zeta. unfold ship_metrics.
  pose proof (batch_series_carries o (mf_extraLabels f) (mf_relabelEng f) 0 batch Ho) as Hc.
  pose proof (Marshal_survivors o (mf_extraLabels f) (mf_relabelEng f) batch Ho) as Hm.
  set (ts := batch_series _ _ _ _ _) in *. set (kept := survivors _ _ _ _ _) in *.
  set (poisoned := Exists _ kept) in *.
  destruct (len ts =? 0) eqn:El.
  { assert (Hk : kept = []) by (apply len_0 in El; rewrite El in Hc; by apply Forall2_nil_inv_l in Hc).
    assert (Hp : ¬ poisoned) by (unfold poisoned; rewrite Hk; by intros ?%Exists_nil).
    split_and!; [done|split; [by intros [? ?]|done]|split; [done|by intros [? _]]|split; [by left|done]|].
    by intros req ?%not_elem_of_nil. }
  assert (Hk : kept ≠ []).
  { intros Hk. rewrite Hk in Hc. apply Forall2_nil_inv_r in Hc. by rewrite Hc in El. }
  destruct (Marshal {| Timeseries := ts |}) as [data|err] eqn:Em.
  2: { assert (Hp : poisoned) by (apply Hm; eauto).
    split_and!; [done|split; [done|by eexists]|split; [done|by intros (_ & ? & _)]|split; [by right; left|done]|].
    by intros req ?%not_elem_of_nil. }
  assert (Hp : ¬ poisoned) by (intros [? ?]%Hm; congruence). clear Hm Hc.
  unfold send. destruct (NewRequest client _) eqn:En.
  { split_and!; [done|split; [by intros [? ?]|done]|split; [done|by intros (_ & _ & ? & ? & ? & _)]|split; [by right; right|done]|].
    by intros req ?%not_elem_of_nil. }
  set (req := mkHTTPRequest _ _ _ _).
  assert (Hreq : ∀ r, r ∈ [req] → [req] = [r] ∧ req_Method r = "POST"%string ∧ req_URL r = rw_URL (mf_cfg f))
    by (by intros r ->%list_elem_of_singleton).
  assert (Hsome : [req] = [] ↔ kept = [] ∨ poisoned ∨ None (A:=error) ≠ None) by (split; [done|by intros [|[|]]]).
  assert (Hone : ∀ r, [req] = [r] → r = req) by (by intros r [= ->]).
  destruct (Do client req) as [code|err] eqn:Ed.
  - pose proof (status_2xx_spec code) as Hs. destruct (status_2xx code);
      (split_and!; [done|split; [by intros [? ?]|done]| |exact Hsome|exact Hreq]).
    + split; [|done]. intros _. split; [done|]. split; [done|]. exists req, code.
      split; [done|]. split; [done|by apply Hs].
    + split; [done|]. intros (_ & _ & r & c & ->%Hone & Hd & Hcode). rewrite Ed in Hd. injection Hd as ->.
      by apply Hs in Hcode.
  - split_and!; [done|split; [by intros [? ?]|done]| |exact Hsome|exact Hreq].
    split; [done|]. intros (_ & _ & r & c & ->%Hone & Hd & _). congruence.
Qed.

(** Without labelmap rules, and with no empty name among the extra labels, no
    batch of parsed samples is ever lost to the encoder. *)
Theorem metrics_never_poisoned (snappy_Encode : bytes → bytes) (client : http_client) (o : orders)
    (f : MetricsForwarder) (batch : list MetricSample) (err : error) :
  valid_orders o →
  Forall (λ r, action_of unicode_ToLower r ≠ LabelMap) (rules (mf_relabelEng f)) →
  names_ok (mf_extraLabels f) → Forall (λ s, names_ok (m_Labels s)) batch →
  (ship_metrics snappy_Encode client o f batch).2 ≠ MarshalFailed err.
Proof.
  intros Ho He Hx Hb Hfate. pose proof (survivors_names o _ _ 0 _ He Hx Hb) as Hn.
  unfold ship_metrics in Hfate. destruct (len _ =? 0); [done|].
  destruct (Marshal _) eqn:Em.
  - destruct (send _ _ _) as [reqs [e'|]]; done.
  - assert (Hex : Exists (λ ls, ¬ names_ok ls.1) (survivors o (mf_extraLabels f) (mf_relabelEng f) 0 batch)).
    { apply Marshal_survivors; [done|]. eauto. }
    apply Exists_not_Forall in Hex. apply Hex. eapply Forall_impl; [exact Hn|]. cbn. tauto.
Qed.

(** Submit implements the queue: the samples pending afterwards and the batch
    shipped are those of [Batch.Submit], whatever becomes of the batch -- in
    particular a batch whose POST fails is neither put back nor stored. *)
Theorem metrics_Submit_refines (snappy_Encode : bytes → bytes) (client : http_client) (o : orders)
    (f : MetricsForwarder) (samples : list MetricSample) :
  let '(b, rest) := Submit (rw_BatchSize (mf_cfg f)) samples (mf_pending f) in
  let '(f', reqs, r) := metrics_Submit snappy_Encode client o f samples in
  f' = with_pending f rest ∧
  (reqs, r) = match b with
    | Some batch => ship_metrics snappy_Encode client o f batch
    | None => ([], NothingToSend)
    end.
Proof. apply metrics_Submit_queue. Qed.

(** Starting the metrics forwarder: it fails with an error exactly when a
    rule does not compile or TLS material cannot be read, and otherwise crashes
    the process when the flush interval is not positive -- which a loaded
    configuration permits when the file says a negative duration. *)
Theorem NewMetricsForwarder_spec (ReadFile : string → bytes + error)
    (LoadX509KeyPair : string → string → unit + error) (rwCfg : RemoteWriteConfig)
    (extra : gmap string string) (rs : list RelabelConfig) :
  match NewMetricsForwarder ReadFile LoadX509KeyPair rwCfg extra rs with
  | Ok (inl f) => mf_cfg f = rwCfg ∧ mf_extraLabels f = extra ∧ mf_pending f = [] ∧
      Relabel.New rs = inl (mf_relabelEng f) ∧ 0 < rw_FlushInterval rwCfg
  | Ok (inr _) => (∃ e, Relabel.New rs = inr e) ∨
      buildHTTPClient ReadFile LoadX509KeyPair (rw_TLS rwCfg) ≠ None
  | Panic p => p = PanicTicker ∧ rw_FlushInterval rwCfg <= 0
  | OutOfFuel => False
  end.
Proof.
  unfold NewMetricsForwarder. destruct (Relabel.New rs) as [eng|err]; [|left; eauto].
  destruct (buildHTTPClient _ _ _) as [err|]; [by right|].
  unfold NewTicker. destruct (Z.ltb_spec 0 (rw_FlushInterval rwCfg)); [done|]. cbn. auto.
Qed.
End Forwarders.

(** ** Witnesses *)

Definition fwd_orders : orders := mkOrders (λ _, forward_order) (λ _, some_order).
Lemma fwd_orders_valid : valid_orders fwd_orders.
Proof. split; intros i; [apply forward_valid|apply some_order_valid]. Qed.

Definition up : http_client := mkClient (λ _, None) (λ _, inl 204).
Definition down : http_client := mkClient (λ _, None) (λ _, inr "connection refused"%string).

Definition sample_rw : RemoteWriteConfig :=
  mkRemoteWriteConfig "http://vm:8428/api/v1/write" (30 * Second) "" "" (mkTLSConfig false "" "" "") 2 (10 * Second).
Definition sample_rules : list RelabelConfig :=
  [mk_rule ["__name__"] "" "ome_internal_up" "" "drop"; mk_rule ["service_tag"] "instance" "" "" "replace"]%string.
Definition sample_fwd : MetricsForwarder :=
  mkMetricsForwarder sample_rw {["environment" := "production"]}%string (engine_of sample_rules) [].
Definition sample_point (n : string) (v : Z) : MetricSample :=
  mkMetricSample n {["service_tag" := "ABC1234"]}%string (float64_of_int v) 1700000000000000000.
Definition sample_batch : list MetricSample :=
  [sample_point "ome_internal_up" 1; sample_point "ome_health_power_state" 17].

Lemma metrics_request_content_witness :
  ∃ req r wr, ship_metrics no_table id up fwd_orders sample_fwd sample_batch = ([req], r) ∧
    decodeWriteRequest (req_Body req) = Some wr ∧
    map Samples (Timeseries wr) = [[mkSample (float64_of_int 17) 1700000000000]].
Proof.
  assert (Hs : ∃ req r, ship_metrics no_table id up fwd_orders sample_fwd sample_batch = ([req], r))
    by (eexists _, _; vm_compute; reflexivity).
  destruct Hs as (req & r & Hs).
  destruct (metrics_request_content no_table id Some up fwd_orders sample_fwd sample_batch req r)
    as (data & wr & [= <-] & Hd & Hc).
  - done.
  - apply fwd_orders_valid.
  - repeat constructor; by vm_compute.
  - assert (Hm : match Marshal {| Timeseries := batch_series no_table fwd_orders (mf_extraLabels sample_fwd)
      (mf_relabelEng sample_fwd) 0 sample_batch |} with inl d => len d <? 2 ^ 63 | inr _ => true end = true)
      by (vm_compute; reflexivity).
    intros d Hd. rewrite Hd in Hm. by apply Z.ltb_lt.
  - exact Hs.
  - exists req, r, wr. split; [exact Hs|]. split; [exact Hd|].
    assert (Hk : map snd (survivors no_table fwd_orders (mf_extraLabels sample_fwd) (mf_relabelEng sample_fwd)
      0 sample_batch) = [sample_point "ome_health_power_state" 17]) by by_decision.
    destruct (survivors _ _ _ _ _ _) as [|[lb sm] [|? ?]]; [done| |done].
    cbn [map snd] in Hk. injection Hk as ->.
    apply Forall2_cons_inv_r in Hc as (ts & l & [_ Hp] & Hl & ->).
    apply Forall2_nil_inv_r in Hl as ->. cbn [map]. rewrite Hp. vm_compute. reflexivity.
Defined.

Lemma metrics_fate_witness :
  let '(reqs, r) := ship_metrics no_table id down fwd_orders sample_fwd sample_batch in
  len reqs = 1 ∧ r ≠ Sent ∧ r ≠ NothingToSend.
Proof.
  pose proof (metrics_fate no_table id down fwd_orders sample_fwd sample_batch fwd_orders_valid) as H.
  assert (Hk : len (survivors no_table fwd_orders (mf_extraLabels sample_fwd) (mf_relabelEng sample_fwd) 0 sample_batch) = 1)
    by (by vm_compute).
  assert (Hl : len (ship_metrics no_table id down fwd_orders sample_fwd sample_batch).1 = 1) by (by vm_compute).
  cbn zeta in H. destruct (ship_metrics no_table id down fwd_orders sample_fwd sample_batch) as [reqs r].
  destruct H as (H1 & _ & H3 & _). split; [exact Hl|]. split.
  - intros (_ & _ & req & code & _ & Hd & _)%H3. discriminate Hd.
  - intros Hn%H1. rewrite Hn in Hk. discriminate Hk.
Defined.

Lemma metrics_never_poisoned_witness :
  (ship_metrics no_table id up fwd_orders sample_fwd sample_batch).2 ≠
    MarshalFailed "label name must not be empty".
Proof.
  apply (metrics_never_poisoned no_table).
  - apply fwd_orders_valid.
  - repeat constructor; by vm_compute.
  - by vm_compute.
  - repeat constructor; by vm_compute.
Defined.

Definition sample_log_fwd : LogForwarder :=
  mkLogForwarder (mkLokiConfig "http://loki:3100" 0 (mkTLSConfig false "" "" "") 1 Second) ∅
    (engine_of sample_log_rules) "http://loki:3100" [].
Definition sample_log : LogEntry := mkLogEntry 5 "{}" sample_labels.
