(* ===== verification/Posts.v ===== *)
(** * Posts: what the two backends read of a sequence of batches

    The bodies POSTed for batches flushed one after the other, read back by the
    reference decoders, against the samples and entries the rules keep --
    without the orders Go happens to visit its maps in. *)
From S2P Require Import Prelude Regexp Float GoLib Utf8 Config Relabel Prompb Parser Readings LokiWriter Forwarder.
From stdpp Require Import pretty.
Open Scope Z_scope.

Section Posts.
Context {RE : Regexp} (unicode_ToLower : Z → Z) (snappy_Encode : bytes → bytes)
  (snappy_Decode : bytes → option bytes) (client : http_client).

Definition no_labelmap (e : Engine) : Prop :=
  Forall (λ r, action_of unicode_ToLower r ≠ LabelMap) (rules e).

(** The labels a rule set leaves, whatever the order of iteration. *)
Definition relabelled (e : Engine) (ls : labels) : option labels :=
  Apply unicode_ToLower (λ _, some_order) e ls.

Lemma Apply_relabelled o e ls : valid_oracle o → no_labelmap e →
  Apply unicode_ToLower o e ls = relabelled e ls.
Proof.
  intros Ho He. apply apply_rules_det; [done| |by apply no_labelmap_det].
  intros i m. apply some_order_valid.
Qed.

(** ** Metrics *)

Definition kept_sample (e : Engine) (extra : gmap string string) (s : MetricSample) : option (labels * MetricSample) :=
  (λ ls, (ls, s)) <$> relabelled e (metric_labels extra s).

Lemma survivors_kept o extra e i batch : valid_orders o → no_labelmap e →
  survivors unicode_ToLower o extra e i batch = omap (kept_sample e extra) batch.
Proof.
  intros [Ho _] He. revert i. induction batch as [|s batch IH]; intros i; [done|]. cbn.
  unfold kept_sample at 1. rewrite (Apply_relabelled _ _ _ (Ho i) He).
  destruct (relabelled e _); cbn; by rewrite IH.
Qed.

(** What the encoder needs of a sample. *)
Definition sample_good (s : MetricSample) : Prop := inU 64 (m_Value s) ∧ names_ok (m_Labels s).

(** A body and the request a receiver reads in it. *)
Definition reads_series (req : HTTPRequest) (wr : WriteRequest) : Prop :=
  ∃ data, snappy_Decode (req_Body req) = Some data ∧ decodeWriteRequest data = Some wr.

(** Bodies fit the address space. *)
Definition bodies_fit (reqs : list HTTPRequest) : Prop :=
  Forall (λ req, ∀ data, snappy_Decode (req_Body req) = Some data → len data < 2 ^ 63) reqs.

Context (Hsnappy : ∀ d, snappy_Decode (snappy_Encode d) = Some d).

Lemma ship_metrics_posts o f batch :
  valid_orders o → no_labelmap (mf_relabelEng f) → names_ok (mf_extraLabels f) → Forall sample_good batch →
  NewRequest client (rw_URL (mf_cfg f)) = None →
  let reqs := (ship_metrics unicode_ToLower snappy_Encode client o f batch).1 in
  bodies_fit reqs → ∃ wrs, Forall2 reads_series reqs wrs ∧
    Forall2 carries (concat (map Timeseries wrs)) (omap (kept_sample (mf_relabelEng f) (mf_extraLabels f)) batch).
Proof using Hsnappy.
  intros Ho He Hx Hb Hurl. cbv zeta. apply Forall_and in Hb as [Hv Hn].
  pose proof (batch_series_carries unicode_ToLower o (mf_extraLabels f) (mf_relabelEng f) 0 batch Ho) as Hc.
  pose proof (Marshal_survivors unicode_ToLower o (mf_extraLabels f) (mf_relabelEng f) batch Ho) as Hm.
  pose proof (survivors_names unicode_ToLower o _ _ 0 _ He Hx Hn) as Hnames.
  rewrite (survivors_kept _ _ _ _ _ Ho He) in *.
  destruct (ship_metrics _ _ _ _ _ _) as [reqs r] eqn:Es. cbn [fst].
  apply ship_metrics_request in Es as [[-> Hwhy]|(req & data & -> & Em & Hbody)]; cbn [Timeseries] in *.
  - intros _. exists []. split; [constructor|]. cbn. destruct Hwhy as [Hnil|[Herr|Hreq]]; [|exfalso..].
    + by rewrite Hnil in Hc.
    + apply Hm, Exists_not_Forall in Herr. apply Herr. eapply Forall_impl; [exact Hnames|]. cbn. tauto.
    + by apply Hreq.
  - unfold bodies_fit. rewrite Forall_singleton. intros Hfit. rewrite Hbody, Hsnappy in Hfit. specialize (Hfit _ eq_refl).
    eexists [{| Timeseries := _ |}]. split; [|cbn [map concat]; rewrite app_nil_r; exact Hc]. constructor; [|constructor].
    exists data. rewrite Hbody. split; [apply Hsnappy|].
    apply decode_Marshal; [by apply batch_series_typed|exact Em|exact Hfit].
Qed.

Lemma omap_app_list {A B} (f : A → option B) (l1 l2 : list A) : omap f (l1 ++ l2) = omap f l1 ++ omap f l2.
Proof using Type. induction l1 as [|x l1 IH]; [done|]. cbn. destruct (f x); cbn; by rewrite IH. Qed.

(** One flush after the other. *)
Lemma batches_posts {E} (orders_of : E → orders) f (bs : list (E * list MetricSample)) :
  no_labelmap (mf_relabelEng f) → names_ok (mf_extraLabels f) → NewRequest client (rw_URL (mf_cfg f)) = None →
  Forall (λ eb, valid_orders (orders_of eb.1)) bs → Forall sample_good (concat (map snd bs)) →
  let reqs := concat (map (λ eb, (ship_metrics unicode_ToLower snappy_Encode client (orders_of eb.1) f eb.2).1) bs) in
  bodies_fit reqs → ∃ wrs, Forall2 reads_series reqs wrs ∧
    Forall2 carries (concat (map Timeseries wrs))
      (omap (kept_sample (mf_relabelEng f) (mf_extraLabels f)) (concat (map snd bs))).
Proof using Hsnappy.
  intros He Hx Hurl Ho. cbv zeta. induction Ho as [|[e b] bs Hob _ IH]; cbn [map concat fst snd].
  { intros _ _. exists []. split; constructor. }
  unfold bodies_fit in *. rewrite !Forall_app. intros [Hb Hbs] [Hfit Hfits].
  destruct (ship_metrics_posts (orders_of e) f b) as (w1 & H1 & H2); try done.
  destruct (IH Hbs Hfits) as (w2 & H3 & H4). exists (w1 ++ w2). split; [by apply Forall2_app|].
  rewrite map_app, concat_app, omap_app_list. by apply Forall2_app.
Qed.

(** ** Logs *)

Definition kept_entry (e : Engine) (extra : gmap string string) (x : LogEntry) : option (labels * LogEntry) :=
  (λ ls, (ls, x)) <$> relabelled e (mergeLabels extra (l_StreamLabels x)).

Lemma log_survivors_kept o extra e i batch : valid_orders o → no_labelmap e →
  log_survivors unicode_ToLower o extra e i batch = omap (kept_entry e extra) batch.
Proof using Type.
  intros [Ho _] He. revert i. induction batch as [|x batch IH]; intros i; [done|]. cbn.
  unfold kept_entry at 1. rewrite (Apply_relabelled _ _ _ (Ho i) He).
  destruct (relabelled e _); cbn; by rewrite IH.
Qed.

(** An entry as a receiver reads it: in its labels, malformed UTF-8 has become
    U+FFFD. *)
Definition valid_labels (ls : labels) : labels := Stream (valid_stream (mkStream ls [])).
Definition line_of (lx : labels * LogEntry) : list string :=
  [pretty (UnixNano (l_Timestamp lx.2)); l_Line lx.2].

(** What JSON needs of an entry. *)
Definition entry_good (x : LogEntry) : Prop := valid_utf8 (l_Line x).
Definition labelled_line (lx : labels * LogEntry) : labels * list string := (valid_labels lx.1, line_of lx).

Definition reads_streams (req : HTTPRequest) (ss : list stream) : Prop := decode_push (req_Body req) = Some ss.

Lemma kept_good e extra batch : Forall entry_good batch →
  Forall (λ lx, entry_good lx.2) (omap (kept_entry e extra) batch).
Proof using Type.
  induction 1 as [|x batch Hx _ IH]; [constructor|]. cbn. unfold kept_entry at 1.
  destruct (relabelled e _); [by constructor|done].
Qed.

Lemma values_valid ss : concat (map Values (map valid_stream ss)) = map (map to_valid) (concat (map Values ss)).
Proof using Type. induction ss as [|s ss IH]; [done|]. cbn [map concat]. by rewrite map_app, <- IH. Qed.

Lemma lines_valid ss : concat (map stream_lines (map valid_stream ss)) =
  map (λ lv, (valid_labels lv.1, map to_valid lv.2)) (concat (map stream_lines ss)).
Proof using Type.
  induction ss as [|s ss IH]; [done|]. cbn [map concat]. rewrite map_app, <- IH. f_equal.
  unfold stream_lines, valid_stream. cbn [Stream Values]. by rewrite !map_map.
Qed.

(** What a receiver gets for entries: every line once; and under its own labels
    when no two label sets share a fingerprint, as with plain ones. *)
Definition streams_carry (ss : list stream) (kept : list (labels * LogEntry)) : Prop :=
  concat (map Values ss) ≡ₚ map line_of kept ∧
  (Forall (λ lx, plain lx.1) kept → concat (map stream_lines ss) ≡ₚ map labelled_line kept).

Lemma streams_carry_app ss1 ss2 k1 k2 : streams_carry ss1 k1 → streams_carry ss2 k2 →
  streams_carry (ss1 ++ ss2) (k1 ++ k2).
Proof using Type.
  intros [H1 H2] [H3 H4]. split; rewrite !map_app, !concat_app; [by f_equiv|].
  intros [Hp1 Hp2]%Forall_app. f_equiv; auto.
Qed.

Context (fp_order : nat → gmap string string → list string) (group_order : gmap string stream → list string).

(** A line as it is read: malformed UTF-8 has become U+FFFD. *)
Definition received_line (lx : labels * LogEntry) : list string := map to_valid (line_of lx).

(** The streams of a batch, as they are read. *)
Lemma grouped_received kept :
  (∀ i ls, valid_order ls (fp_order i ls)) → (∀ m, valid_order m (group_order m)) →
  let ss := map valid_stream (streams_of group_order (group fp_order (map entry_of kept))) in
  concat (map Values ss) ≡ₚ map received_line kept ∧
  (Forall (λ lx, plain lx.1) kept →
    concat (map stream_lines ss) ≡ₚ map (λ lx, (valid_labels lx.1, received_line lx)) kept).
Proof using Type.
  intros Hf Hg. cbv zeta. split.
  - rewrite values_valid, (streams_of_perm _ _ (Hg _)).
    pose proof (group_values fp_order Hf (map entry_of kept)) as Hv. unfold gather in Hv.
    by rewrite map_map, Hv, !map_map.
  - intros Hp. rewrite lines_valid, (streams_of_perm _ _ (Hg _)).
    assert (Hl : gather stream_lines (group fp_order (map entry_of kept)) ≡ₚ
      map (λ e, (e_StreamLabels e, value_of e)) (map entry_of kept)).
    { apply group_lines; [done|]. rewrite Forall_forall in Hp.
      intros e1 e2 (x1 & -> & H1)%list_elem_of_fmap (x2 & -> & H2)%list_elem_of_fmap.
      apply fp_text_inj; by apply Hp. }
    unfold gather in Hl. by rewrite map_map, Hl, !map_map.
Qed.

Lemma received_good lx : entry_good lx.2 → received_line lx = line_of lx.
Proof using Type.
  intros Hx. unfold received_line, line_of. cbn [map fst snd].
  by rewrite !to_valid_id by (exact Hx || apply valid_utf8_ascii, pretty_ASCII).
Qed.

Lemma grouped_carry kept : Forall (λ lx, entry_good lx.2) kept →
  (∀ i ls, valid_order ls (fp_order i ls)) → (∀ m, valid_order m (group_order m)) →
  streams_carry (map valid_stream (streams_of group_order (group fp_order (map entry_of kept)))) kept.
Proof using Type.
  intros Hgood Hf Hg. destruct (grouped_received kept Hf Hg) as [H1 H2].
  assert (Hl : map received_line kept = map line_of kept).
  { clear H1 H2. induction Hgood as [|lx kept Hx _ IH]; [done|]. cbn [map]. by rewrite IH, received_good. }
  split; [by rewrite H1, Hl|]. intros Hp. rewrite H2 by done. apply reflexive_eq.
  clear -Hgood. induction Hgood as [|lx kept Hx _ IH]; [done|]. cbn [map]. rewrite IH. f_equal.
  unfold labelled_line. by rewrite received_good.
Qed.

Lemma ship_logs_posts o f batch :
  valid_orders o → (∀ i ls, valid_order ls (fp_order i ls)) → (∀ m, valid_order m (group_order m)) →
  no_labelmap (lf_relabelEng f) → NewRequest client (lf_url f) = None → Forall entry_good batch →
  ∃ sss, Forall2 reads_streams (ship_logs unicode_ToLower fp_order group_order client o f batch).1 sss ∧
    streams_carry (concat sss) (omap (kept_entry (lf_relabelEng f) (lf_extraLabels f)) batch).
Proof using Type.
  intros Ho Hf Hg He Hurl Hb. destruct (ship_logs _ _ _ _ _ _ _) as [reqs r] eqn:Es. cbn [fst].
  apply ship_logs_request in Es. rewrite batch_entries_survivors, (log_survivors_kept _ _ _ _ _ Ho He) in Es.
  destruct Es as [[-> [Hnil|Hreq]]|(req & -> & _ & Hbody)]; [|by destruct Hreq|].
  - exists []. split; [constructor|]. apply fmap_nil_inv in Hnil. rewrite Hnil. by split.
  - eexists [_]. split; [|cbn [concat]; rewrite app_nil_r; by apply grouped_carry; [apply kept_good|..]].
    constructor; [|constructor]. unfold reads_streams. unfold Marshal_push in Hbody. apply (inj inl) in Hbody.
    rewrite <- Hbody. apply decode_Marshal_push.
Qed.

(** ** Properties *)

End Posts.

Lemma log_batches_posts {RE : Regexp} unicode_ToLower client {E} (orders_of : E → orders)
    (fp_order : E → nat → gmap string string → list string) (group_order : E → gmap string stream → list string)
    f (bs : list (E * list LogEntry)) :
  no_labelmap unicode_ToLower (lf_relabelEng f) → NewRequest client (lf_url f) = None →
  Forall (λ eb, valid_orders (orders_of eb.1) ∧ (∀ i ls, valid_order ls (fp_order eb.1 i ls)) ∧
    ∀ m, valid_order m (group_order eb.1 m)) bs → Forall entry_good (concat (map snd bs)) →
  ∃ sss, Forall2 reads_streams (concat (map (λ eb, (ship_logs unicode_ToLower (fp_order eb.1) (group_order eb.1)
      client (orders_of eb.1) f eb.2).1) bs)) sss ∧
    streams_carry (concat sss) (omap (kept_entry unicode_ToLower (lf_relabelEng f) (lf_extraLabels f)) (concat (map snd bs))).
Proof.
  intros He Hurl Ho. induction Ho as [|[e b] bs (H1 & H2 & H3) _ IH]; cbn [map concat fst snd].
  { intros _. exists []. split; [constructor|]. by split. }
  intros [Hb Hbs]%Forall_app. destruct (IH Hbs) as (s2 & H4 & H5).
  destruct (ship_logs_posts unicode_ToLower client (fp_order e) (group_order e) (orders_of e) f b)
    as (s1 & H6 & H7); try done.
  exists (s1 ++ s2). split; [by apply Forall2_app|]. rewrite concat_app, omap_app_list. by apply streams_carry_app.
Qed.

(** ** Witness *)

