(* ===== verification/Cache.v ===== *)
(** * Cache: internal/cache/cache.go

    The disk queue: storing batches, evicting by size, replaying.  The cache
    directory is a map from file name to content; what the operating system may
    refuse (stat, read, remove, write) is an argument, and so is the codec of an
    entry, which is [CacheJson]. *)
From S2P Require Import Prelude GoLib Config Parser.
From stdpp Require Import pretty.
From Stdlib Require Import Strings.Ascii.
Open Scope Z_scope.

Inductive EntryKind := EntryKindMetrics | EntryKindLogs | EntryKindOther (s : string).

Record CachedEntry := mkCachedEntry {
  ce_ID : string; ce_Kind : EntryKind; ce_CreatedAt : time;
  ce_Metrics : list MetricSample; ce_Logs : list LogEntry }.

#[export] Instance EntryKind_eq_dec : EqDecision EntryKind.
Proof. solve_decision. Defined.
#[export] Instance CachedEntry_eq_dec : EqDecision CachedEntry.
Proof. solve_decision. Defined.

Abbreviation directory := (gmap string bytes).

(** A Cache; a nil one is [None] where it matters.  The callbacks are recorded
    by whether they are set; calling one is a [call]. *)
Record Cache := mkCache {
  k_cfg : CacheConfig; OnRetryMetrics : bool; OnRetryLogs : bool }.

Inductive call :=
  | CallMetrics (samples : list MetricSample)
  | CallLogs (entries : list LogEntry).

#[export] Instance call_eq_dec : EqDecision call.
Proof. solve_decision. Defined.

(** What the file system refuses: a failing write leaves a prefix behind. *)
Record faults := mkFaults {
  stat_fails : string → bool; read_fails : string → bool; remove_fails : string → bool;
  write_fails : string → option (error * nat); bad_pattern : option error }.

Definition no_faults : faults :=
  mkFaults (λ _, false) (λ _, false) (λ _, false) (λ _, None) None.

Record Stats_t := mkStats { EntryCount : Z; TotalBytes : Z; MaxBytes : Z }.

Section Cache.
Context (marshal_entry : CachedEntry → bytes + error)
  (unmarshal_entry : bytes → CachedEntry + error) (fs : faults).

(** ** The directory *)

(** The pattern [*.json]: any name that ends so. *)
Definition is_json (name : string) : bool :=
  let n := String.length name in
  (5 <=? n)%nat && bool_decide (String.substring (n - 5) 5 name = ".json"%string).

(** [filepath.Glob] and [sort.Strings]. *)
Definition listEntries (d : directory) : list string * option error :=
  match bad_pattern fs with
  | Some err => ([], Some err)
  | None => (sort_Strings (filter (λ n, is_json n = true) (map fst (map_to_list d))), None)
  end.

(** [info, _ := os.Stat(e); if info != nil { ... info.Size() }] *)
Definition stat_size (d : directory) (name : string) : Z :=
  if stat_fails fs name then 0 else match d !! name with Some b => len b | None => 0 end.

Definition remove (name : string) (d : directory) : directory :=
  if remove_fails fs name then d else delete name d.

Definition sum_sizes (d : directory) (names : list string) : Z :=
  foldl (λ total e, int_add total (stat_size d e)) 0 names.

Definition maxBytes (c : CacheConfig) : Z := wrapS 64 (wrapS 64 (c_MaxSizeMB c * 1024) * 1024).

(** [for totalBytes > maxBytes && len(entries) > 0 { ... }] *)
Fixpoint evict_loop (limit total : Z) (entries : list string) (d : directory) : directory :=
  match entries with
  | [] => d
  | oldest :: entries =>
      if limit <? total
      then evict_loop limit (int_sub total (stat_size d oldest)) entries (remove oldest d)
      else d
  end.

Definition evictIfNeeded (c : CacheConfig) (d : directory) : directory :=
  let '(entries, _) := listEntries d in
  evict_loop (maxBytes c) (sum_sizes d entries) entries d.

(** ** Storing *)

Definition WriteFile (name : string) (data : bytes) (d : directory) : directory * option error :=
  match write_fails fs name with
  | None => (<[name := data]> d, None)
  | Some (err, k) => (<[name := take k data]> d, Some err)
  end.

Definition write (c : CacheConfig) (entry : CachedEntry) (d : directory) : directory * option error :=
  let d := evictIfNeeded c d in
  match marshal_entry entry with
  | inr err => (d, Some err)
  | inl data => WriteFile (ce_ID entry +:+ ".json") data d
  end.

(** [now1] and [now2] are the two readings of the clock. *)
Definition StoreMetrics (c : option Cache) (now1 now2 : time) (samples : list MetricSample)
    (d : directory) : directory * option error :=
  match c with
  | None => (d, None)
  | Some c => write (k_cfg c)
      (mkCachedEntry ("metrics_" +:+ pretty (UnixNano now1)) EntryKindMetrics now2 samples []) d
  end.

Definition StoreLogs (c : option Cache) (now1 now2 : time) (entries : list LogEntry)
    (d : directory) : directory * option error :=
  match c with
  | None => (d, None)
  | Some c => write (k_cfg c)
      (mkCachedEntry ("logs_" +:+ pretty (UnixNano now1)) EntryKindLogs now2 [] entries) d
  end.

(** ** Replaying *)

(** One file of the list, once read. *)
Definition replay_entry (c : Cache) (cutoff : time) (path : string) (data : bytes) (d : directory)
    : directory * list call :=
  match unmarshal_entry data with
  | inr _ => (remove path d, [])
  | inl entry =>
      if ce_CreatedAt entry <? cutoff then (remove path d, [])
      else
        match ce_Kind entry with
        | EntryKindMetrics =>
            if OnRetryMetrics c && (0 <? len (ce_Metrics entry))
            then (remove path d, [CallMetrics (ce_Metrics entry)]) else (d, [])
        | EntryKindLogs =>
            if OnRetryLogs c && (0 <? len (ce_Logs entry))
            then (remove path d, [CallLogs (ce_Logs entry)]) else (d, [])
        | EntryKindOther _ => (d, [])
        end
  end.

(** The loop; [expired i] tells whether the 60 s context is done at turn [i]. *)
Fixpoint replay_loop (c : Cache) (cutoff : time) (expired : nat → bool) (i : nat)
    (entries : list string) (d : directory) : directory * list call :=
  match entries with
  | [] => (d, [])
  | path :: entries =>
      if expired i then (d, [])
      else
        match (if read_fails fs path then None else d !! path) with
        | None => replay_loop c cutoff expired (S i) entries d
        | Some data =>
            let '(d, calls) := replay_entry c cutoff path data d in
            let '(d, more) := replay_loop c cutoff expired (S i) entries d in
            (d, calls ++ more)
        end
  end.

Definition replayAll (c : Cache) (now : time) (expired : nat → bool) (d : directory)
    : directory * list call :=
  match listEntries d with
  | (_, Some _) => (d, [])
  | (entries, None) =>
      if len entries =? 0 then (d, [])
      else replay_loop c (now + wrapS 64 (- c_MaxAge (k_cfg c))) expired 0 entries d
  end.

Definition Stats (c : option Cache) (d : directory) : Stats_t :=
  match c with
  | None => mkStats 0 0 0
  | Some c =>
      let '(entries, _) := listEntries d in
      mkStats (len entries) (sum_sizes d entries) (maxBytes (k_cfg c))
  end.
End Cache.

(** ** New and Close *)

(** [MkdirAll] is what [os.MkdirAll] returns for the directory. *)
Definition New (MkdirAll : string → option error) (c : CacheConfig) : outcome (option Cache + error) :=
  if c_Enabled c then
    match MkdirAll (c_Dir c) with
    | Some err => Ok (inr ("creating cache dir " +:+ c_Dir c +:+ ": " +:+ err)%string)
    | None =>
        if 0 <? c_RetryInterval c then Ok (inl (Some (mkCache c false false))) else Panic PanicTicker
    end
  else Ok (inl None).

(** [closed] is the state of the [done] channel. *)
Definition Close (c : option Cache) (closed : bool) : outcome bool :=
  match c with
  | None => Ok closed
  | Some _ => if closed then Panic PanicCloseClosed else Ok true
  end.

(** ** Facts *)

Lemma length_app_string (s t : string) : String.length (s +:+ t) = (String.length s + String.length t)%nat.
Proof. induction s as [|a s IH]; [done|]. change (S (String.length (s +:+ t)) = S (String.length s + String.length t)). by rewrite IH. Qed.

Lemma substring_app (s t : string) n : String.substring (String.length s) n (s +:+ t) = String.substring 0 n t.
Proof. induction s as [|a s IH]; [done|]. exact IH. Qed.

Lemma is_json_suffix (s : string) : is_json (s +:+ ".json") = true.
Proof.
  unfold is_json. rewrite length_app_string. cbn [String.length].
  replace (String.length s + 5 - 5)%nat with (String.length s) by lia. rewrite substring_app.
  apply andb_true_iff. split; [apply Nat.leb_le; lia|done].
Qed.

Lemma listing_elem fs d n : bad_pattern fs = None →
  n ∈ (listEntries fs d).1 ↔ is_json n = true ∧ is_Some (d !! n).
Proof.
  intros Hb. unfold listEntries. rewrite Hb. cbn [fst].
  rewrite (sort_Strings_perm _), list_elem_of_filter, list_elem_of_fmap.
  split; intros [Hj H]; (split; [done|]).
  - destruct H as ([k b] & -> & Hin%elem_of_map_to_list). eauto.
  - destruct H as [b Hb']. exists (n, b). by rewrite elem_of_map_to_list.
Qed.

Lemma listing_NoDup fs d : NoDup (listEntries fs d).1.
Proof.
  unfold listEntries. destruct (bad_pattern fs); [constructor|]. cbn [fst].
  rewrite (sort_Strings_perm _). apply NoDup_filter, NoDup_fst_map_to_list.
Qed.

Lemma listing_sorted fs d : StronglySorted String.le (listEntries fs d).1.
Proof.
  unfold listEntries. destruct (bad_pattern fs); [constructor|]. cbn [fst].
  apply Sorted_StronglySorted; [apply _|apply sort_Strings_sorted].
Qed.

(** *** Names in the order of their times

    Files are listed by name; the decimal numbers in the names have nineteen
    digits from September 2001 on, as long as a nanosecond count fits an int64,
    and decimals of one length are in the order of their values. *)

Lemma compare_char (x y : N) : (x < y < 10)%N → Ascii.compare (pretty_N_char x) (pretty_N_char y) = Lt.
Proof.
  intros [Hxy Hy].
  assert (Hall : ∀ y, (y < 10)%N → y ∈ [0; 1; 2; 3; 4; 5; 6; 7; 8; 9]%N).
  { intros z Hz. rewrite !elem_of_cons. lia. }
  assert (H : Forall (λ y, Forall (λ x, if (x <? y)%N
      then Ascii.compare (pretty_N_char x) (pretty_N_char y) = Lt else True)
      [0; 1; 2; 3; 4; 5; 6; 7; 8; 9]%N) [0; 1; 2; 3; 4; 5; 6; 7; 8; 9]%N).
  { repeat constructor. }
  rewrite Forall_forall in H. specialize (H y (Hall y Hy)). rewrite Forall_forall in H.
  specialize (H x (Hall x ltac:(lia))). by destruct (N.ltb_spec x y); [|lia].
Qed.

Lemma compare_cons c s t : String.compare (String c s) (String c t) = String.compare s t.
Proof. cbn. replace (Ascii.compare c c) with Eq; [done|]. symmetry. apply N.compare_refl. Qed.

Lemma compare_app p s t : String.compare (p +:+ s) (p +:+ t) = String.compare s t.
Proof. induction p as [|c p IH]; [done|]. rewrite <- IH. apply compare_cons. Qed.

Lemma pretty_N_go_app x : ∀ s t, (pretty_N_go x s +:+ t)%string = pretty_N_go x (s +:+ t).
Proof.
  induction (N.lt_wf_0 x) as [x _ IH]; intros s t.
  destruct (decide (x = 0)%N) as [->|Hx]; [by rewrite !pretty_N_go_0|].
  rewrite !(pretty_N_go_step x) by lia. by rewrite IH by (apply N.div_lt; lia).
Qed.

Lemma pretty_N_go_prefix x s : pretty_N_go x s = (pretty_N_go x "" +:+ s)%string.
Proof. by rewrite pretty_N_go_app. Qed.

Lemma compare_pretty k : ∀ (a b : N) s t, (10 ^ N.of_nat k <= a < b)%N → (b < 10 ^ N.of_nat (S k))%N →
  String.compare (pretty_N_go a s) (pretty_N_go b t) = Lt.
Proof.
  induction k as [|k IH]; intros a b s t Ha Hb.
  - change (10 ^ N.of_nat 0)%N with 1%N in Ha. change (10 ^ N.of_nat 1)%N with 10%N in Hb.
    rewrite (pretty_N_go_step a), (pretty_N_go_step b) by lia.
    rewrite !N.div_small, !N.mod_small, !pretty_N_go_0 by lia. cbn. by rewrite compare_char by lia.
  - rewrite Nat2N.inj_succ, N.pow_succ_r' in Ha, Hb.
    assert (0 < 10 ^ N.of_nat k)%N by (apply N.neq_0_lt_0, N.pow_nonzero; lia).
    rewrite (pretty_N_go_step a), (pretty_N_go_step b) by lia.
    pose proof (N.div_mod a 10 ltac:(lia)). pose proof (N.div_mod b 10 ltac:(lia)).
    pose proof (N.mod_lt a 10 ltac:(lia)). pose proof (N.mod_lt b 10 ltac:(lia)).
    destruct (decide (a / 10 = b / 10)%N) as [He|Hne].
    + rewrite He, pretty_N_go_prefix, (pretty_N_go_prefix _ (String _ t)), compare_app. cbn.
      by rewrite compare_char by lia.
    + assert (a / 10 <= b / 10)%N by (apply N.Div0.div_le_mono; lia).
      apply IH; [split; [apply N.div_le_lower_bound|]|apply N.div_lt_upper_bound]; lia.
Qed.

Lemma app_string_assoc (r s t : string) : ((r +:+ s) +:+ t)%string = (r +:+ s +:+ t)%string.
Proof. induction r as [|c r IH]; [done|exact (f_equal (String c) IH)]. Qed.

(** The file a batch stored at [now] is written to, [p] being ["metrics_"] or
    ["logs_"]. *)
Definition entry_file (p : string) (now : time) : string := ((p +:+ pretty (UnixNano now)) +:+ ".json")%string.

Lemma entry_file_order p a b : 10 ^ 18 <= a < b → b < 2 ^ 63 →
  ¬ String.le (entry_file p b) (entry_file p a).
Proof.
  intros Ha Hb. unfold entry_file, UnixNano. rewrite !app_string_assoc, !(wrapS_small 64 eq_refl) by (unfold inS; lia).
  assert (Hp : ∀ z, 0 < z → (pretty z +:+ ".json")%string = pretty_N_go (Z.to_N z) ".json").
  { intros [|p'|p'] Hz; try lia. change (pretty (Z.pos p')) with (pretty (N.pos p')). unfold pretty, pretty_N.
    rewrite decide_False by done. apply pretty_N_go_app. }
  unfold String.le, String.leb. rewrite !Hp by lia. rewrite compare_app, String.compare_antisym.
  rewrite (compare_pretty 18); [by intros ?|..]; lia.
Qed.

(** *** Eviction *)

(** Bytes held by the files named, as an unbounded sum. *)
Fixpoint size_of (d : directory) (names : list string) : Z :=
  match names with
  | [] => 0
  | n :: names => len (default [] (d !! n)) + size_of d names
  end.

Lemma size_of_nonneg d names : 0 <= size_of d names.
Proof. induction names as [|n names IH]; cbn; [done|]. pose proof (len_nonneg (default [] (d !! n))). lia. Qed.

Lemma size_of_delete d n names : n ∉ names → size_of (delete n d) names = size_of d names.
Proof.
  induction names as [|m names IH]; [done|]. intros [Hne Hn]%not_elem_of_cons. cbn.
  rewrite lookup_delete_ne by done. by rewrite IH.
Qed.

Definition delete_all (names : list string) (d : directory) : directory :=
  foldl (λ d n, delete n d) d names.

(** The file system lets the cache look at and delete its own files. *)
Record own_dir (fs : faults) : Prop := {
  own_stat : ∀ n, stat_fails fs n = false;
  own_remove : ∀ n, remove_fails fs n = false;
  own_read : ∀ n, read_fails fs n = false;
  own_glob : bad_pattern fs = None }.

Lemma stat_size_own fs d n : own_dir fs → stat_size fs d n = len (default [] (d !! n)).
Proof. intros Ho. unfold stat_size. rewrite (own_stat fs Ho). by destruct (d !! n). Qed.

Lemma sum_sizes_own fs d names : own_dir fs → size_of d names < 2 ^ 63 →
  sum_sizes fs d names = size_of d names.
Proof.
  intros Ho Hlt. unfold sum_sizes.
  assert (Hg : ∀ acc, 0 <= acc → acc + size_of d names < 2 ^ 63 →
    foldl (λ total e, int_add total (stat_size fs d e)) acc names = acc + size_of d names).
  { clear Hlt. induction names as [|n names IH]; intros acc Hacc Hs; cbn in *; [lia|].
    rewrite stat_size_own by done. pose proof (len_nonneg (default [] (d !! n))).
    pose proof (size_of_nonneg d names). unfold int_add.
    rewrite (wrapS_small 64 eq_refl) by (unfold inS; lia). rewrite IH by lia. lia. }
  rewrite Hg by lia. lia.
Qed.

Lemma evict_loop_spec fs limit names d : own_dir fs → NoDup names → size_of d names < 2 ^ 63 →
  ∃ gone kept, names = gone ++ kept ∧
    evict_loop fs limit (size_of d names) names d = delete_all gone d ∧
    (size_of d kept <= limit ∨ kept = []) ∧
    (gone = [] ∨ ∃ g last, gone = g ++ [last] ∧ limit < size_of d (last :: kept)).
Proof.
  intros Ho Hnd. revert d. induction Hnd as [|n names Hn Hnd IH]; intros d Hs.
  { exists [], []. repeat split; auto. }
  cbn [evict_loop]. destruct (Z.ltb_spec limit (size_of d (n :: names))) as [Hlt|Hle].
  2: { exists [], (n :: names). repeat split; auto. }
  assert (Hsz : int_sub (size_of d (n :: names)) (stat_size fs d n) = size_of (delete n d) names).
  { rewrite stat_size_own, size_of_delete by done. cbn [size_of] in *.
    pose proof (len_nonneg (default [] (d !! n))). pose proof (size_of_nonneg d names).
    unfold int_sub. rewrite (wrapS_small 64 eq_refl) by (unfold inS; lia). lia. }
  rewrite Hsz. unfold remove. rewrite (own_remove fs Ho).
  destruct (IH (delete n d)) as (gone & kept & Hnames & Hev & Hb & Hmin).
  { rewrite size_of_delete by done. cbn in Hs. pose proof (len_nonneg (default [] (d !! n))).
    lia. }
  assert (Hk : ∀ l, n ∉ l → size_of (delete n d) l = size_of d l) by (intros; by apply size_of_delete).
  rewrite Hnames, not_elem_of_app in Hn. destruct Hn as [Hn1 Hn2].
  exists (n :: gone), kept. split; [by rewrite Hnames|]. split; [exact Hev|].
  split; [by rewrite <- Hk|]. right. destruct Hmin as [->|(g & l & -> & Hl)].
  - exists [], n. split; [done|]. by rewrite Hnames in Hlt.
  - exists (n :: g), l. split; [done|]. rewrite <- (Hk (l :: kept)); [exact Hl|].
    rewrite not_elem_of_app in Hn1. set_solver.
Qed.

Lemma delete_all_lookup names d n :
  delete_all names d !! n = if decide (n ∈ names) then None else d !! n.
Proof.
  revert d. induction names as [|m names IH]; intros d; cbn; [done|].
  unfold delete_all in IH. rewrite IH. destruct (decide (n = m)) as [->|Hne].
  - rewrite lookup_delete_eq. rewrite (decide_True (P := m ∈ m :: names)) by left. by case_decide.
  - rewrite lookup_delete_ne by done. apply decide_ext. set_solver.
Qed.

(** *** Replay *)

Section Replay.
Context (unmarshal_entry : bytes → CachedEntry + error) (fs : faults) (Hfs : own_dir fs).
Context (c : Cache) (cutoff : time).

(** What replaying decides about a file: whether it goes, and what is delivered. *)
Definition verdict (data : bytes) : bool * list call :=
  match unmarshal_entry data with
  | inr _ => (true, [])
  | inl e =>
      if ce_CreatedAt e <? cutoff then (true, [])
      else match ce_Kind e with
        | EntryKindMetrics =>
            if OnRetryMetrics c && (0 <? len (ce_Metrics e)) then (true, [CallMetrics (ce_Metrics e)]) else (false, [])
        | EntryKindLogs =>
            if OnRetryLogs c && (0 <? len (ce_Logs e)) then (true, [CallLogs (ce_Logs e)]) else (false, [])
        | EntryKindOther _ => (false, [])
        end
  end.

Lemma replay_entry_verdict path data d : replay_entry unmarshal_entry fs c cutoff path data d =
  ((if (verdict data).1 then delete path d else d), (verdict data).2).
Proof using Hfs.
  unfold replay_entry, verdict, remove. rewrite (own_remove fs Hfs).
  repeat case_match; cbn in *; simplify_eq; done.
Qed.

(** The files that stay. *)
Definition stays (names : list string) (nb : string * bytes) : Prop :=
  ¬ (nb.1 ∈ names ∧ (verdict nb.2).1 = true).

Lemma replay_loop_spec names i (d : directory) : NoDup names → (∀ n, n ∈ names → is_Some (d !! n)) →
  replay_loop unmarshal_entry fs c cutoff (λ _, false) i names d =
    (filter (stays names) d, concat (map (λ n, (verdict (default [] (d !! n))).2) names)).
Proof using Hfs.
  intros Hnd. revert i d. induction Hnd as [|n names Hn Hnd IH]; intros i d Hd; cbn.
  { f_equal. symmetry. apply map_filter_id. intros k v _ [H _]. by apply not_elem_of_nil in H. }
  rewrite (own_read fs Hfs). destruct (Hd n) as [data Hdata]; [by left|]. rewrite Hdata.
  rewrite replay_entry_verdict. cbn [default].
  set (d' := if (verdict data).1 then delete n d else d).
  assert (Hd' : ∀ m, m ∈ names → d' !! m = d !! m).
  { intros m Hm. unfold d'. destruct (verdict data).1; [|done].
    rewrite lookup_delete_ne; [done|]. by intros ->. }
  rewrite IH by (intros m Hm; rewrite Hd' by done; apply Hd; by right). f_equal.
  - apply map_eq. intros m. rewrite !map_lookup_filter. unfold d'.
    destruct (decide (m = n)) as [->|Hne].
    + rewrite Hdata. destruct (verdict data).1 eqn:Ev.
      * rewrite lookup_delete_eq. cbn. rewrite option_guard_False; [done|].
        unfold stays. cbn. intros H. apply H. split; [by left|done].
      * rewrite Hdata. cbn. rewrite !option_guard_True; [done|..]; unfold stays; cbn;
          intros [_ H]; congruence.
    + assert (Hl : (if (verdict data).1 then delete n d else d) !! m = d !! m)
        by (destruct (verdict data).1; [by rewrite lookup_delete_ne|done]).
      rewrite Hl. destruct (d !! m) as [b|]; [|done]. cbn. apply option_guard_iff.
      unfold stays. cbn. set_solver.
  - f_equal. f_equal. apply map_ext_in. intros m Hm%list_elem_of_In. by rewrite Hd'.
Qed.
Lemma replay_loop_ext (e1 e2 : nat → bool) names : (∀ i, e1 i = e2 i) → ∀ i d,
  replay_loop unmarshal_entry fs c cutoff e1 i names d = replay_loop unmarshal_entry fs c cutoff e2 i names d.
Proof using Type.
  intros He. induction names as [|n names IH]; intros i d; cbn; [done|].
  rewrite He. destruct (e2 i); [done|]. destruct (if read_fails fs n then None else d !! n); [|apply IH].
  destruct (replay_entry _ _ _ _ _ _ _) as [d1 calls]. by rewrite IH.
Qed.
End Replay.

(** A whole round. *)
Lemma replayAll_whole unmarshal_entry fs c now expired (d : directory) : own_dir fs → (∀ i, expired i = false) →
  let cutoff := now + wrapS 64 (- c_MaxAge (k_cfg c)) in
  let names := (listEntries fs d).1 in
  replayAll unmarshal_entry fs c now expired d =
    (filter (stays unmarshal_entry c cutoff names) d,
     concat (map (λ n, (verdict unmarshal_entry c cutoff (default [] (d !! n))).2) names)).
Proof.
  intros Hfs He. cbn zeta. unfold replayAll. pose proof (listing_NoDup fs d) as Hnd.
  assert (Hin : ∀ n, n ∈ (listEntries fs d).1 → is_Some (d !! n)).
  { intros n Hn. by apply (listing_elem fs d n (own_glob fs Hfs)) in Hn as [_ ?]. }
  assert (Herr : (listEntries fs d).2 = None) by (unfold listEntries; by rewrite (own_glob fs Hfs)).
  destruct (listEntries fs d) as [names err]. cbn [fst snd] in *. subst err.
  destruct (len names =? 0) eqn:El; [|rewrite (replay_loop_ext _ _ _ _ expired (λ _, false)) by done; by apply replay_loop_spec].
  destruct names; [|apply Z.eqb_eq in El; len_lia]. cbn. f_equal. symmetry.
  apply map_filter_id. intros k v _ [H _]. by apply not_elem_of_nil in H.
Qed.

(** Replaying only ever deletes, whatever fails and whenever it is cut short. *)
Lemma remove_subseteq fs n (d : directory) : remove fs n d ⊆ d.
Proof. unfold remove. destruct (remove_fails fs n); [done|apply delete_subseteq]. Qed.

Lemma replay_entry_subseteq um fs c cutoff path data d :
  (replay_entry um fs c cutoff path data d).1 ⊆ d.
Proof. unfold replay_entry. repeat case_match; cbn; done || apply remove_subseteq. Qed.

Lemma replay_loop_subseteq um fs c cutoff expired i names d :
  (replay_loop um fs c cutoff expired i names d).1 ⊆ d.
Proof.
  revert i d. induction names as [|n names IH]; intros i d; cbn; [done|].
  destruct (expired i); [done|]. destruct (if read_fails fs n then None else d !! n) as [data|]; [|apply IH].
  pose proof (replay_entry_subseteq um fs c cutoff n data d) as He.
  destruct (replay_entry um fs c cutoff n data d) as [d1 calls]. cbn in He.
  specialize (IH (S i) d1). destruct (replay_loop _ _ _ _ _ _ _ _) as [d2 more]. cbn in *.
  by etransitivity.
Qed.

Lemma replayAll_subseteq um fs c now expired d : (replayAll um fs c now expired d).1 ⊆ d.
Proof.
  unfold replayAll. destruct (listEntries fs d) as [names [err|]]; [done|].
  destruct (len names =? 0); [done|apply replay_loop_subseteq].
Qed.

(** ** Properties *)

Section Properties.
Context (marshal_entry : CachedEntry → bytes + error)
  (unmarshal_entry : bytes → CachedEntry + error) (fs : faults) (Hfs : own_dir fs).

Lemma evict_spec c d : size_of d (listEntries fs d).1 < 2 ^ 63 →
  ∃ gone kept, (listEntries fs d).1 = gone ++ kept ∧ evictIfNeeded fs c d = delete_all gone d ∧
    (size_of d kept <= maxBytes c ∨ kept = []) ∧
    (gone = [] ∨ ∃ g last, gone = g ++ [last] ∧ maxBytes c < size_of d (last :: kept)).
Proof using Hfs.
  intros Hs. unfold evictIfNeeded. destruct (listEntries fs d) as [names err] eqn:El.
  cbn [fst] in *. rewrite sum_sizes_own by done.
  apply evict_loop_spec; [done| |done]. replace names with (listEntries fs d).1 by by rewrite El.
  apply listing_NoDup.
Qed.

(** C34. Eviction: of the spooled files in name order it deletes the shortest
    prefix that brings the rest within the limit of MaxSizeMB mebibytes -- all of
    them if none fits -- and touches nothing else.  Of the batches of one kind
    the older go first: no batch is deleted while one stored before it stays. *)
Theorem evict_bound (c : CacheConfig) (d : directory) :
  0 <= c_MaxSizeMB c < 2 ^ 43 → size_of d (listEntries fs d).1 < 2 ^ 63 →
  ∃ gone kept, (listEntries fs d).1 = gone ++ kept ∧
    (∀ n, evictIfNeeded fs c d !! n = if decide (n ∈ gone) then None else d !! n) ∧
    (size_of d kept <= c_MaxSizeMB c * 1048576 ∨ kept = []) ∧
    (gone = [] ∨ ∃ g last, gone = g ++ [last] ∧ c_MaxSizeMB c * 1048576 < size_of d (last :: kept)) ∧
    (∀ p a b, 10 ^ 18 <= a < b → b < 2 ^ 63 →
       entry_file p a ∈ (listEntries fs d).1 → entry_file p b ∈ gone → entry_file p a ∈ gone).
Proof using Hfs.
  intros Hmb Hs. destruct (evict_spec c d Hs) as (gone & kept & H1 & H2 & H3 & H4).
  assert (Hm : maxBytes c = c_MaxSizeMB c * 1048576).
  { unfold maxBytes. rewrite !(wrapS_small 64 eq_refl);
      rewrite ?(wrapS_small 64 eq_refl); unfold inS; lia. }
  rewrite Hm in *. exists gone, kept. split_and!; [done| |done|done|].
  - intros n. rewrite H2. apply delete_all_lookup.
  - intros p a b Ha Hb Hin Hgb. rewrite H1, elem_of_app in Hin. destruct Hin as [|Hka]; [done|].
    pose proof (listing_sorted fs d) as Hsort. rewrite H1 in Hsort.
    by destruct (entry_file_order p a b Ha Hb (StronglySorted_app_1_elem_of _ _ _ _ _ Hsort Hgb Hka)).
Qed.

(** "Oldest first" holds only within a kind: the order is by name, and every
    spooled log batch goes before any metrics batch does, however much older
    the metrics are. *)
Theorem evict_prefers_logs (c : CacheConfig) (d : directory) (a b : string) :
  size_of d (listEntries fs d).1 < 2 ^ 63 →
  ("metrics_" +:+ a)%string ∈ (listEntries fs d).1 → ("logs_" +:+ b)%string ∈ (listEntries fs d).1 →
  evictIfNeeded fs c d !! ("metrics_" +:+ a)%string = None →
  evictIfNeeded fs c d !! ("logs_" +:+ b)%string = None.
Proof using Hfs.
  intros Hs Ha Hb He. destruct (evict_spec c d Hs) as (gone & kept & Hn & Hev & _).
  rewrite Hev, delete_all_lookup in *.
  assert (Hga : ("metrics_" +:+ a)%string ∈ gone).
  { case_decide; [done|]. apply (listing_elem fs d _ (own_glob fs Hfs)) in Ha as [_ [x Hx]]. congruence. }
  rewrite decide_True; [done|]. rewrite Hn, elem_of_app in Hb. destruct Hb as [|Hkb]; [done|].
  pose proof (listing_sorted fs d) as Hsort. rewrite Hn in Hsort.
  by pose proof (StronglySorted_app_1_elem_of _ _ _ _ _ Hsort Hga Hkb) as Hle.
Qed.

(** C33. A replay round that is not cut short decides every spooled file, in name
    order, on its own: unreadable JSON and expired entries are deleted and
    delivered nowhere; a live non-empty batch whose callback is set is handed to
    that callback exactly once and deleted -- before anyone knows whether the
    resend succeeds; everything else stays, and no other file is touched. *)
Theorem replay_verdicts (c : Cache) (now : time) (d : directory) :
  let cutoff := now + wrapS 64 (- c_MaxAge (k_cfg c)) in
  let names := (listEntries fs d).1 in
  replayAll unmarshal_entry fs c now (λ _, false) d =
    (filter (stays unmarshal_entry c cutoff names) d,
     concat (map (λ n, (verdict unmarshal_entry c cutoff (default [] (d !! n))).2) names)).
Proof using Hfs. by apply replayAll_whole. Qed.

(** An entry written into an empty directory. *)
Lemma write_empty (c : CacheConfig) (entry : CachedEntry) (data : bytes) :
  marshal_entry entry = inl data → write_fails fs (ce_ID entry +:+ ".json") = None →
  write marshal_entry fs c entry ∅ = ({[(ce_ID entry +:+ ".json")%string := data]}, None).
Proof using Hfs.
  intros Hm Hw. unfold write, evictIfNeeded, listEntries. rewrite (own_glob fs Hfs). cbn -[String.append].
  rewrite Hm. unfold WriteFile. by rewrite Hw.
Qed.

(** Replaying a directory with one live entry. *)
Lemma replay_single (c : Cache) (now : time) (name : string) (data : bytes) (entry : CachedEntry) (cl : call) :
  is_json name = true → unmarshal_entry data = inl entry →
  now + wrapS 64 (- c_MaxAge (k_cfg c)) <= ce_CreatedAt entry →
  match ce_Kind entry with
  | EntryKindMetrics => OnRetryMetrics c = true ∧ ce_Metrics entry ≠ [] ∧ cl = CallMetrics (ce_Metrics entry)
  | EntryKindLogs => OnRetryLogs c = true ∧ ce_Logs entry ≠ [] ∧ cl = CallLogs (ce_Logs entry)
  | EntryKindOther _ => False
  end →
  replayAll unmarshal_entry fs c now (λ _, false) {[name := data]} = (∅, [cl]).
Proof using Hfs.
  intros Hj Hu Hage Hk.
  assert (Hl : listEntries fs {[name := data]} = ([name], None)).
  { unfold listEntries. rewrite (own_glob fs Hfs), map_to_list_singleton. cbn [map fst].
    by rewrite filter_cons_True, filter_nil by done. }
  unfold replayAll. rewrite Hl. cbn [len length Z.of_nat Z.eqb]. cbn [replay_loop].
  rewrite (own_read fs Hfs), lookup_singleton_eq. unfold replay_entry. rewrite Hu.
  destruct (Z.ltb_spec (ce_CreatedAt entry) (now + wrapS 64 (- c_MaxAge (k_cfg c)))); [lia|].
  assert (Hlen : ∀ A (l : list A), l ≠ [] → (0 <? len l) = true).
  { intros A [|x l] Hl'; [done|]. apply Z.ltb_lt. len_lia. }
  destruct (ce_Kind entry); [| |done]; destruct Hk as (-> & Hne & ->); rewrite (Hlen _ _ Hne);
    cbn [andb]; unfold remove; by rewrite (own_remove fs Hfs), delete_singleton_eq.
Qed.

(** Round trip through the disk: a non-empty metrics batch stored in an empty
    directory is, on the next replay within MaxAge, delivered unchanged to the
    metrics callback, once, and the directory is empty again (for a codec that
    decodes what it encodes). *)
Theorem store_replay_roundtrip (c : Cache) (now1 now2 now : time) (samples : list MetricSample) (data : bytes) :
  let entry := mkCachedEntry ("metrics_" +:+ pretty (UnixNano now1)) EntryKindMetrics now2 samples [] in
  marshal_entry entry = inl data → unmarshal_entry data = inl entry →
  write_fails fs (ce_ID entry +:+ ".json") = None →
  OnRetryMetrics c = true → samples ≠ [] → now + wrapS 64 (- c_MaxAge (k_cfg c)) <= now2 →
  ∃ d, StoreMetrics marshal_entry fs (Some c) now1 now2 samples ∅ = (d, None) ∧
    replayAll unmarshal_entry fs c now (λ _, false) d = (∅, [CallMetrics samples]).
Proof using Hfs.
  intros entry Hm Hu Hw Hcb Hne Hage. eexists. split; [by apply (write_empty (k_cfg c) entry)|].
  apply (replay_single c now _ data entry); try done. apply is_json_suffix.
Qed.
End Properties.

(** Starting the cache: disabled it is nil and every operation on it a no-op;
    enabled it needs its directory, and crashes the process when the retry
    interval is not positive. *)
Theorem New_spec (MkdirAll : string → option error) (cfg : CacheConfig) :
  match New MkdirAll cfg with
  | Ok (inl None) => c_Enabled cfg = false
  | Ok (inl (Some c)) => c_Enabled cfg = true ∧ MkdirAll (c_Dir cfg) = None ∧
      0 < c_RetryInterval cfg ∧ k_cfg c = cfg ∧ OnRetryMetrics c = false ∧ OnRetryLogs c = false
  | Ok (inr _) => c_Enabled cfg = true ∧ MkdirAll (c_Dir cfg) ≠ None
  | Panic p => p = PanicTicker ∧ c_RetryInterval cfg <= 0
  | OutOfFuel => False
  end.
Proof.
  unfold New. destruct (c_Enabled cfg); [|done]. destruct (MkdirAll (c_Dir cfg)); [done|].
  destruct (Z.ltb_spec 0 (c_RetryInterval cfg)); [done|]. auto.
Qed.

(** ** Witnesses *)

Lemma no_faults_own : own_dir no_faults.
Proof. split; reflexivity. Qed.

Definition sample_cache_cfg (mb : Z) : CacheConfig := mkCacheConfig true "/tmp/cache" mb (30 * Second) (24 * Hour).

(** A newer, smaller log batch and an older metrics batch. *)
Definition sample_dir : directory :=
  {["metrics_1000.json" := [Byte.x01; Byte.x02]; "logs_2000.json" := [Byte.x03]; "notes.txt" := [Byte.x04]]}%string.

(** No room but for an empty file: the two others go, what is not a spool file
    stays. *)
Definition full_dir : directory := <["metrics_3000.json"%string := []]> sample_dir.

Lemma evict_bound_witness :
  let d := evictIfNeeded no_faults (sample_cache_cfg 0) full_dir in
  d !! "logs_2000.json"%string = None ∧ d !! "metrics_1000.json"%string = None ∧
  d !! "metrics_3000.json"%string = Some [] ∧ d !! "notes.txt"%string = Some [Byte.x04].
Proof.
  destruct (evict_bound no_faults no_faults_own (sample_cache_cfg 0) full_dir)
    as (gone & kept & H1 & H2 & H3 & H4 & _); [vm_compute; split; congruence|vm_compute; reflexivity|].
  replace (listEntries no_faults full_dir).1 with ["logs_2000.json"; "metrics_1000.json"; "metrics_3000.json"]%string
    in H1 by (vm_compute; reflexivity).
  assert (E : gone = ["logs_2000.json"; "metrics_1000.json"]%string).
  { destruct gone as [|a [|b [|c [|x gone]]]]; simplify_list_eq.
    - destruct H3 as [H3|H3]; [exfalso; vm_compute in H3; congruence|done].
    - destruct H3 as [H3|H3]; [exfalso; vm_compute in H3; congruence|done].
    - done.
    - destruct H4 as [H4|(g & last & E & H4)]; [done|].
      destruct g as [|? [|? [|? [|??]]]]; simplify_list_eq. exfalso; vm_compute in H4; congruence. }
  cbv zeta. rewrite !H2, E. split_and!; vm_compute; reflexivity.
Defined.

(** With no room at all, the newer log file goes as well. *)
Lemma evict_prefers_logs_witness :
  evictIfNeeded no_faults (sample_cache_cfg (-1)) sample_dir !! "logs_2000.json"%string = None.
Proof.
  apply (evict_prefers_logs no_faults no_faults_own (sample_cache_cfg (-1)) sample_dir "1000.json" "2000.json").
  - vm_compute. reflexivity.
  - by_decision.
  - by_decision.
  - by_decision.
Defined.

Definition sample_sample : MetricSample := mkMetricSample "ome_health_power_state" ∅ 0 5.
Definition sample_cached : CachedEntry :=
  mkCachedEntry "metrics_1700000000000000000" EntryKindMetrics 1700000000000000000 [sample_sample] [].

Lemma replay_verdicts_witness :
  (replayAll (λ _, inl sample_cached) no_faults (mkCache (sample_cache_cfg 1) true true)
    1700000000000000001 (λ _, false) sample_dir).2 = [CallMetrics [sample_sample]; CallMetrics [sample_sample]].
Proof.
  rewrite (replay_verdicts (λ _, inl sample_cached) no_faults no_faults_own). by_decision.
Defined.

Lemma store_replay_roundtrip_witness : ∃ d,
  StoreMetrics (λ _, inl [Byte.x01]) no_faults (Some (mkCache (sample_cache_cfg 1) true true))
    1700000000000000000 1700000000000000000 [sample_sample] ∅ = (d, None) ∧
  replayAll (λ _, inl sample_cached) no_faults (mkCache (sample_cache_cfg 1) true true)
    1700000060000000000 (λ _, false) d = (∅, [CallMetrics [sample_sample]]).
Proof.
  apply (store_replay_roundtrip (λ _, inl [Byte.x01]) (λ _, inl sample_cached) no_faults no_faults_own)
    with (data := [Byte.x01]); try reflexivity; [discriminate|vm_compute; congruence].
Defined.
