(* ===== verification/Retry.v ===== *)
(** * Retry: the retry loop of internal/cache/cache.go

    [retryLoop] as the sequence of events its select picks: ticks, each a
    replay round over the spool directory, until the cache is closed.  The main
    theorem accounts for every file over the whole life of the loop. *)
From S2P Require Import Prelude Config Parser Cache.
Open Scope Z_scope.

Section Retry.
Context (unmarshal_entry : bytes → CachedEntry + error) (fs : faults) (c : Cache).
Local Abbreviation replay_loop := (replay_loop unmarshal_entry fs c).
Local Abbreviation replayAll := (replayAll unmarshal_entry fs c).
Local Abbreviation verdict := (verdict unmarshal_entry c).

(** What the select picks: a tick, with the clock and the turns at which the
    60 s of the round are over, or the closed channel. *)
Inductive retry_event := RetryTick (now : time) (expired : nat → bool) | RetryDone.

(** The directory, the callbacks made and whether the loop has returned. *)
Fixpoint retryLoop (evs : list retry_event) (d : directory) : directory * list call * bool :=
  match evs with
  | [] => (d, [], false)
  | RetryDone :: _ => (d, [], true)
  | RetryTick now expired :: evs =>
      let '(d, calls) := replayAll now expired d in
      let '(d, more, returned) := retryLoop evs d in
      (d, calls ++ more, returned)
  end.

(** The rounds made: the ticks before the close. *)
Fixpoint rounds_made (evs : list retry_event) : list (time * (nat → bool)) :=
  match evs with
  | RetryTick now expired :: evs => (now, expired) :: rounds_made evs
  | _ => []
  end.

(** The age limit of a round at [now]. *)
Definition cutoff_at (now : time) : time := now + wrapS 64 (- c_MaxAge (k_cfg c)).

(** What [gone] says of a stretch of the loop: the files removed, each with an
    age limit under which its contents are to go, and the callbacks these
    contents lead to under that limit; no other file has changed. *)
Record accounts (d d' : directory) (calls : list call) (gone : list (string * time)) : Prop := {
  once : NoDup (map fst gone);
  removed : ∀ n, n ∈ map fst gone → is_Some (d !! n) ∧ d' !! n = None;
  decided : ∀ n t, (n, t) ∈ gone → (verdict t (default [] (d !! n))).1 = true;
  kept : ∀ n, n ∉ map fst gone → d' !! n = d !! n;
  delivered : calls = concat (map (λ nt, (verdict nt.2 (default [] (d !! nt.1))).2) gone) }.

(** The files that go in each round, with the limit of the round. *)
Definition round_by_round (evs : list retry_event) (parts : list (list string)) : list (string * time) :=
  concat (zip_with (λ r ns, map (λ n, (n, cutoff_at r.1)) ns) (rounds_made evs) parts).

Lemma accounts_nil d : accounts d d [] [].
Proof using Type. split; [constructor|intros n []%not_elem_of_nil|intros n t []%not_elem_of_nil|done|done]. Qed.

Lemma accounts_subseteq d d' calls gone : accounts d d' calls gone → d' ⊆ d.
Proof using Type.
  intros [_ R _ K _]. apply map_subseteq_spec. intros n x Hn.
  destruct (decide (n ∈ map fst gone)) as [H|H]; [destruct (R n H); congruence|]. by rewrite <- K.
Qed.

Lemma accounts_app d1 d2 d3 calls1 calls2 g1 g2 :
  accounts d1 d2 calls1 g1 → accounts d2 d3 calls2 g2 → accounts d1 d3 (calls1 ++ calls2) (g1 ++ g2).
Proof using Type.
  intros [N1 R1 V1 K1 D1] [N2 R2 V2 K2 D2].
  assert (Hdisj : ∀ n, n ∈ map fst g1 → n ∉ map fst g2).
  { intros n [_ H1]%R1 [[x H2] _]%R2. congruence. }
  split.
  - rewrite map_app. apply NoDup_app. split; [done|]. split; [exact Hdisj|done].
  - intros n. rewrite map_app, elem_of_app. intros [H|H].
    + destruct (R1 n H). rewrite K2 by auto. done.
    + destruct (R2 n H) as [Hs Hn]. split; [|done]. rewrite <- K1; [done|]. intros H1. by apply (Hdisj n).
  - intros n t [H|H]%elem_of_app; [by apply V1|].
    rewrite <- K1; [by apply V2|]. intros H1. apply (Hdisj n H1), list_elem_of_fmap. by exists (n, t).
  - intros n. rewrite map_app, not_elem_of_app. intros [H1 H2]. by rewrite K2, K1.
  - rewrite map_app, concat_app, <- D1, D2. f_equal. f_equal. apply map_ext_in. intros [n t] Hn. cbn.
    rewrite K1; [done|]. intros H1. apply (Hdisj n); [done|].
    apply list_elem_of_In, in_map_iff. by exists (n, t).
Qed.

(** A callback is given what some file of the directory holds. *)
Definition call_of (d : directory) (cl : call) : Prop := ∃ n data entry,
  d !! n = Some data ∧ unmarshal_entry data = inl entry ∧
  (cl = CallMetrics (ce_Metrics entry) ∨ cl = CallLogs (ce_Logs entry)).

Lemma call_of_subseteq d d' cl : d' ⊆ d → call_of d' cl → call_of d cl.
Proof using Type.
  intros Hd (n & data & entry & Hn & H). exists n, data, entry. split; [by eapply lookup_weaken|done].
Qed.

Lemma replay_loop_calls cutoff expired names : ∀ i d,
  Forall (call_of d) (replay_loop cutoff expired i names d).2.
Proof using Type.
  induction names as [|n names IH]; intros i d; cbn [Cache.replay_loop]; [constructor|].
  destruct (expired i); [constructor|].
  destruct (if read_fails fs n then None else d !! n) as [data|] eqn:Hd; [|apply IH].
  assert (Hdata : d !! n = Some data) by (by destruct (read_fails fs n)).
  assert (He : Forall (call_of d) (replay_entry unmarshal_entry fs c cutoff n data d).2).
  { unfold replay_entry. destruct (unmarshal_entry data) as [entry|] eqn:Eu; [|constructor].
    repeat case_match; cbn; try apply Forall_nil_2; apply Forall_singleton; exists n, data, entry; auto. }
  pose proof (replay_entry_subseteq unmarshal_entry fs c cutoff n data d) as Hs.
  destruct (replay_entry _ _ _ _ _ _ _) as [d1 calls]. cbn [fst snd] in *. specialize (IH (S i) d1).
  destruct (replay_loop cutoff expired (S i) names d1) as [d2 more]. apply Forall_app. split; [done|].
  eapply Forall_impl; [exact IH|]. intros cl. by apply call_of_subseteq.
Qed.

Lemma replayAll_calls now expired d : Forall (call_of d) (replayAll now expired d).2.
Proof using Type.
  unfold Cache.replayAll. destruct (listEntries fs d) as [names [err|]]; [constructor|].
  destruct (len names =? 0); [constructor|]. apply replay_loop_calls.
Qed.

Context (Hfs : own_dir fs).

(** One file: it goes and its contents are delivered, or it stays and they are
    not. *)
Lemma entry_accounts cutoff n data d : d !! n = Some data →
  accounts d (if (verdict cutoff data).1 then delete n d else d) (verdict cutoff data).2
    (if (verdict cutoff data).1 then [(n, cutoff)] else []).
Proof using Type.
  intros Hd. destruct (verdict cutoff data).1 eqn:E.
  - split; cbn.
    + apply NoDup_singleton.
    + intros m ->%list_elem_of_singleton. rewrite lookup_delete_eq. eauto.
    + intros m t [= -> ->]%list_elem_of_singleton. by rewrite Hd.
    + intros m Hm. rewrite lookup_delete_ne; [done|]. intros ->. by apply Hm, list_elem_of_singleton.
    + by rewrite Hd, app_nil_r.
  - assert (Hno : (verdict cutoff data).2 = []).
    { revert E. unfold Cache.verdict. repeat case_match; by intros. }
    rewrite Hno. apply accounts_nil.
Qed.

Lemma loop_accounts cutoff expired names : ∀ i d, ∃ ns,
  accounts d (replay_loop cutoff expired i names d).1 (replay_loop cutoff expired i names d).2
    (map (λ n, (n, cutoff)) ns).
Proof using Hfs.
  induction names as [|n names IH]; intros i d; cbn [Cache.replay_loop]; [exists []; apply accounts_nil|].
  destruct (expired i); [exists []; apply accounts_nil|]. rewrite (own_read fs Hfs).
  destruct (d !! n) as [data|] eqn:Hd; [|apply IH].
  rewrite (replay_entry_verdict unmarshal_entry fs Hfs). pose proof (entry_accounts cutoff n data d Hd) as H1.
  destruct (IH (S i) (if (verdict cutoff data).1 then delete n d else d)) as [ns H2].
  destruct (replay_loop cutoff expired (S i) names _) as [d2 more].
  exists ((if (verdict cutoff data).1 then [n] else []) ++ ns). rewrite map_app.
  eapply accounts_app; [|exact H2]. by destruct (verdict cutoff data).1.
Qed.

Lemma round_accounts now expired d : ∃ ns,
  accounts d (replayAll now expired d).1 (replayAll now expired d).2 (map (λ n, (n, cutoff_at now)) ns).
Proof using Hfs.
  unfold Cache.replayAll. destruct (listEntries fs d) as [names [err|]]; [exists []; apply accounts_nil|].
  destruct (len names =? 0); [exists []; apply accounts_nil|]. apply loop_accounts.
Qed.

(** A round that is not cut short leaves nothing that is to go. *)
Lemma round_complete now expired d n data : (∀ i, expired i = false) → is_json n = true → d !! n = Some data →
  (verdict (cutoff_at now) data).1 = true → (replayAll now expired d).1 !! n = None.
Proof using Hfs.
  intros He Hj Hn Hv. rewrite replayAll_whole by done. cbn [fst]. rewrite map_lookup_filter, Hn. cbn.
  rewrite option_guard_False; [done|]. unfold stays. cbn. intros H. apply H. split; [|done].
  apply (listing_elem fs d n (own_glob fs Hfs)). eauto.
Qed.

(** ** Properties *)

(** C28. Over the whole life of the retry loop -- any number of rounds, each at any
    time and cut short anywhere -- a spooled file is removed at most once, in a
    round whose age limit makes its contents go (corrupt, too old, or live and
    wanted by a callback that is set); the callbacks made are, round by round,
    exactly those the contents of the files of the round lead to under its
    limit: a live batch is handed over once, and nothing else is.  Every other
    file is still there, unchanged; a round that is not cut short removes every
    spooled file that is to go; and the loop returns exactly when it sees the
    cache closed. *)
Theorem retryLoop_at_most_once (evs : list retry_event) (d : directory) :
  let '(d', calls, returned) := retryLoop evs d in
  (∃ parts, length parts = length (rounds_made evs) ∧ accounts d d' calls (round_by_round evs parts)) ∧
  (∀ now expired n data, (now, expired) ∈ rounds_made evs → (∀ i, expired i = false) →
    is_json n = true → d !! n = Some data → (verdict (cutoff_at now) data).1 = true → d' !! n = None) ∧
  (returned = true ↔ RetryDone ∈ evs).
Proof using Hfs.
  revert d. induction evs as [|[now expired|] evs IH]; intros d; cbn [retryLoop].
  - split; [exists []; split; [done|apply accounts_nil]|]. split; [by intros ? ? ? ? ?%not_elem_of_nil|].
    split; [done|by intros ?%not_elem_of_nil].
  - destruct (round_accounts now expired d) as [ns H1]. pose proof (round_complete now expired d) as Hc.
    destruct (replayAll now expired d) as [d1 calls].
    specialize (IH d1). destruct (retryLoop evs d1) as [[d2 more] returned].
    destruct IH as [(parts & Hl & H2) [Hall Hr]]. cbn [fst snd] in *. split; [|split].
    + exists (ns :: parts). split; [cbn; by rewrite Hl|]. by eapply accounts_app.
    + intros t e n data Ht He Hj Hn Hv. cbn [rounds_made] in Ht. pose proof (accounts_subseteq _ _ _ _ H2) as Hs.
      assert (Hgone : d1 !! n = None → d2 !! n = None).
      { intros H. apply eq_None_not_Some. intros [x Hx]. eapply lookup_weaken in Hx; [|exact Hs]. congruence. }
      apply elem_of_cons in Ht as [[= -> ->]|Ht]; [by eapply Hgone, Hc|].
      destruct (d1 !! n) as [x|] eqn:E; [|by apply Hgone].
      pose proof (lookup_weaken _ _ _ _ E (accounts_subseteq _ _ _ _ H1)) as Hx. rewrite Hn in Hx. injection Hx as ->.
      by eapply Hall.
    + rewrite Hr, elem_of_cons. naive_solver.
  - split; [exists []; split; [done|apply accounts_nil]|]. split; [by intros ? ? ? ? ?%not_elem_of_nil|].
    split; [by left|done].
Qed.

(** The rounds after the close are never made: the events behind it do not
    matter. *)
Theorem retryLoop_stops (evs later : list retry_event) (d : directory) :
  retryLoop (evs ++ RetryDone :: later) d = retryLoop (evs ++ [RetryDone]) d.
Proof using Type.
  clear Hfs. revert d. induction evs as [|[now expired|] evs IH]; intros d; cbn; [done| |done].
  destruct (replayAll now expired d) as [d1 calls]. by rewrite IH.
Qed.
End Retry.

(** ** Witness

    The first round is cut short after one file, the second delivers the other,
    the third finds nothing. *)
Definition retry_rounds : list retry_event :=
  [RetryTick 1700000000000000001 (λ i, (0 <? i)%nat); RetryTick 1700000030000000001 (λ _, false);
   RetryTick 1700000060000000001 (λ _, false); RetryDone].

Lemma retryLoop_at_most_once_witness :
  let own := mkCache (sample_cache_cfg 1) true true in
  let '(d, calls, returned) := retryLoop (λ _, inl sample_cached) no_faults own retry_rounds sample_dir in
  returned = true ∧ len calls = 2 ∧ d !! "metrics_1000.json"%string = None ∧
  ∃ parts, length parts = 3%nat ∧
    accounts (λ _, inl sample_cached) own sample_dir d calls (round_by_round own retry_rounds parts).
Proof.
  pose proof (retryLoop_at_most_once (λ _, inl sample_cached) no_faults (mkCache (sample_cache_cfg 1) true true)
    no_faults_own retry_rounds sample_dir) as H. cbv zeta.
  assert (E : len (retryLoop (λ _, inl sample_cached) no_faults (mkCache (sample_cache_cfg 1) true true) retry_rounds sample_dir).1.2 = 2)
    by (by vm_compute).
  destruct (retryLoop _ _ _ retry_rounds sample_dir) as [[d calls] returned]. cbn [fst snd] in E.
  destruct H as [(parts & Hl & Ha) [Hall Hr]]. split; [apply Hr; do 3 right; by left|]. split; [exact E|]. split.
  - apply (Hall 1700000030000000001 (λ _, false) _ [Byte.x01; Byte.x02]); try done. right. by left.
  - by exists parts.
Defined.
