(* ===== verification/CacheJson.v ===== *)
(** * CacheJson: a cache entry as a JSON file

    [json.Marshal] of a [CachedEntry] and [json.Unmarshal] into one: the struct
    tags and field names, times, labels and values, down to the bytes of the
    spool file.  A stored batch is read back as it was, whatever zones its times
    are in; a batch that holds a NaN or an infinity cannot be stored at all. *)
From S2P Require Import Prelude Float GoLib Utf8 Strconv Rounding GoTime Json TimeText JsonScan JsonText AnyJson Config.
From S2P Require Import Parser Readings LokiWriter Cache.
From Stdlib Require Import Floats.SpecFloat.
From stdpp Require Import pretty.
Open Scope Z_scope.

Section Codec.
(** The message of an [UnmarshalTypeError]; the zone offset, in seconds, of the
    creation time and of the time of each item. *)
Context (type_error : json → error) (created_zone : Z) (zones : nat → Z).

(** ** Writing *)

Definition json_of_float (f : float64) : json + error :=
  match json_float f with
  | Some s => inl (JNumber s)
  | None => inr ("json: unsupported value: " +:+
      match spec_of_bits f with
      | S754_infinity neg => if neg then "-Inf" else "+Inf"
      | _ => "NaN"
      end)
  end%string.

Definition json_of_time (off : Z) (t : time) : json + error :=
  match MarshalJSON off t with
  | inl s => inl (JString s)
  | inr e => inr ("json: error calling MarshalJSON for type time.Time: " +:+ e)
  end%string.

Definition json_of_sample (it : nat * MetricSample) : json + error :=
  let s := it.2 in
  match json_of_float (m_Value s) with
  | inr e => inr e
  | inl v =>
      match json_of_time (zones it.1) (m_Timestamp s) with
      | inr e => inr e
      | inl t => inl (JObject [("Name", JString (m_Name s)); ("Labels", json_of_labels (m_Labels s));
                               ("Value", v); ("Timestamp", t)])
      end
  end%string.

Definition json_of_log (it : nat * LogEntry) : json + error :=
  let e := it.2 in
  match json_of_time (zones it.1) (l_Timestamp e) with
  | inr err => inr err
  | inl t => inl (JObject [("Timestamp", t); ("Line", JString (l_Line e));
                           ("StreamLabels", json_of_labels (l_StreamLabels e))])
  end%string.

Definition kind_text (k : EntryKind) : string :=
  match k with EntryKindMetrics => "metrics" | EntryKindLogs => "logs" | EntryKindOther s => s end.

(** A slice under [omitempty]. *)
Definition omit_empty {A} (tag : string) (f : nat * A → json + error) (l : list A)
    : list (string * json) + error :=
  match l with
  | [] => inl []
  | _ => match AnyJson.sum_list f (imap pair l) with inl js => inl [(tag, JArray js)] | inr e => inr e end
  end.

Definition json_of_entry (e : CachedEntry) : json + error :=
  match json_of_time created_zone (ce_CreatedAt e) with
  | inr err => inr err
  | inl t =>
      match omit_empty "metrics" json_of_sample (ce_Metrics e) with
      | inr err => inr err
      | inl ms =>
          match omit_empty "logs" json_of_log (ce_Logs e) with
          | inr err => inr err
          | inl ls => inl (JObject ([("id", JString (ce_ID e)); ("kind", JString (kind_text (ce_Kind e)));
                                     ("created_at", t)] ++ ms ++ ls))
          end
      end
  end%string.

(** [json.Marshal(entry)] *)
Definition marshal_entry (e : CachedEntry) : bytes + error :=
  match json_of_entry e with inl j => inl (text j) | inr err => inr err end.

(** ** Reading *)

Definition dec_float64 : decoder float64 := λ j old,
  match j with
  | JNumber lit => match ParseFloat lit with inl f => inl f | inr _ => inr (type_error j) end
  | JNull => inl old
  | _ => inr (type_error j)
  end.

Definition kind_of (s : string) : EntryKind :=
  if decide (s = "metrics"%string) then EntryKindMetrics
  else if decide (s = "logs"%string) then EntryKindLogs else EntryKindOther s.
Definition dec_kind : decoder EntryKind := λ j old,
  match dec_string type_error j (kind_text old) with inl s => inl (kind_of s) | inr e => inr e end.

(** The zero [time.Time] is 1 January of year 1. *)
Definition zero_time : time := Date 1 1 1 0 0 0 0.
Definition zero_sample : MetricSample := mkMetricSample "" ∅ 0 zero_time.
Definition zero_log : LogEntry := mkLogEntry zero_time "" ∅.
Definition zero_entry : CachedEntry := mkCachedEntry "" (EntryKindOther "") zero_time [] [].

Local Abbreviation dec_labels := (dec_map type_error ""%string (dec_string type_error)).

Definition sample_fields : struct_fields MetricSample :=
  [field "Name" (dec_string type_error) m_Name (λ x '(mkMetricSample _ b c d), mkMetricSample x b c d);
   field "Labels" dec_labels m_Labels (λ x '(mkMetricSample a _ c d), mkMetricSample a x c d);
   field "Value" dec_float64 m_Value (λ x '(mkMetricSample a b _ d), mkMetricSample a b x d);
   field "Timestamp" dec_time m_Timestamp (λ x '(mkMetricSample a b c _), mkMetricSample a b c x)].

Definition log_fields : struct_fields LogEntry :=
  [field "Timestamp" dec_time l_Timestamp (λ x '(mkLogEntry _ b c), mkLogEntry x b c);
   field "Line" (dec_string type_error) l_Line (λ x '(mkLogEntry a _ c), mkLogEntry a x c);
   field "StreamLabels" dec_labels l_StreamLabels (λ x '(mkLogEntry a b _), mkLogEntry a b x)].

Local Abbreviation dec_samples := (dec_slice type_error zero_sample (dec_struct type_error sample_fields)).
Local Abbreviation dec_logs := (dec_slice type_error zero_log (dec_struct type_error log_fields)).

Definition entry_fields : struct_fields CachedEntry :=
  [field "id" (dec_string type_error) ce_ID (λ x '(mkCachedEntry _ b c d e), mkCachedEntry x b c d e);
   field "kind" dec_kind ce_Kind (λ x '(mkCachedEntry a _ c d e), mkCachedEntry a x c d e);
   field "created_at" dec_time ce_CreatedAt (λ x '(mkCachedEntry a b _ d e), mkCachedEntry a b x d e);
   field "metrics" dec_samples ce_Metrics (λ x '(mkCachedEntry a b c _ e), mkCachedEntry a b c x e);
   field "logs" dec_logs ce_Logs (λ x '(mkCachedEntry a b c d _), mkCachedEntry a b c d x)].

(** [json.Unmarshal(data, &entry)] *)
Definition unmarshal_entry (data : bytes) : CachedEntry + error :=
  match json_scan data with
  | inr err => inr err
  | inl j => dec_struct type_error entry_fields j zero_entry
  end.

(** ** What can be stored *)

Definition utf8_labels (m : gmap string string) : Prop := map_Forall (λ k v, valid_utf8 k ∧ valid_utf8 v) m.
Definition utf8_sample (s : MetricSample) : Prop :=
  valid_utf8 (m_Name s) ∧ utf8_labels (m_Labels s) ∧ inU 64 (m_Value s).
Definition utf8_log (e : LogEntry) : Prop := valid_utf8 (l_Line e) ∧ utf8_labels (l_StreamLabels e).
Definition utf8_entry (e : CachedEntry) : Prop :=
  valid_utf8 (ce_ID e) ∧ kind_of (kind_text (ce_Kind e)) = ce_Kind e ∧ valid_utf8 (kind_text (ce_Kind e)) ∧
  Forall utf8_sample (ce_Metrics e) ∧ Forall utf8_log (ce_Logs e).

(** A value of the entry, inside [d] open brackets, that reads back. *)
Definition good (d : Z) (j : json) : Prop := writable d j ∧ json_utf8 j.

Lemma good_object d ms : d + 1 <= maxNestingDepth →
  Forall (λ kj : string * json, isASCII kj.1 = true ∧ good (d + 1) kj.2) ms → good d (JObject ms).
Proof using Type.
  intros Hd Hms. split; cbn.
  - split; [done|]. apply foldr_Forall. eapply Forall_impl; [exact Hms|]. by intros ? [_ [? _]].
  - apply foldr_Forall. eapply Forall_impl; [exact Hms|]. intros ? [? [_ ?]]. split; [by apply valid_utf8_ascii|done].
Qed.

Lemma good_array d l : d + 1 <= maxNestingDepth → Forall (good (d + 1)) l → good d (JArray l).
Proof using Type.
  intros Hd Hl. split; cbn.
  - split; [done|]. apply foldr_Forall. eapply Forall_impl; [exact Hl|]. by intros ? [].
  - apply foldr_Forall. eapply Forall_impl; [exact Hl|]. by intros ? [].
Qed.

Lemma good_labels d m : d + 1 <= maxNestingDepth → utf8_labels m → good d (json_of_labels m).
Proof using Type.
  intros Hd Hm.
  assert (Hp : Forall (λ kv : string * string, valid_utf8 kv.1 ∧ valid_utf8 kv.2) (sorted_pairs m)).
  { apply Forall_fmap, Forall_forall. intros k [v Hk]%sorted_keys_elem. cbn. rewrite Hk. by apply Hm. }
  split; cbn.
  - split; [done|]. apply foldr_Forall, Forall_fmap, Forall_true. done.
  - apply foldr_Forall, Forall_map. exact Hp.
Qed.

Lemma dec_labels_back m : dec_labels (json_of_labels m) ∅ = inl m.
Proof using Type.
  unfold dec_map, json_of_labels.
  assert (Hd : ∀ l acc, dec_members ""%string (dec_string type_error) (map (λ kv : string * string, (kv.1, JString kv.2)) l) acc =
    inl (foldl (λ m c, <[c.1 := c.2]> m) acc l)).
  { induction l as [|[k v] l IH]; intros acc; [done|]. cbn. apply IH. }
  rewrite Hd, foldl_insert, sorted_pairs_map, (right_id_L ∅ (∪)); [done|].
  change (NoDup (map fst (sorted_pairs m))). rewrite sorted_pairs_keys. apply sorted_keys_NoDup.
Qed.

Lemma json_of_float_back d f j old : inU 64 f → json_of_float f = inl j → good d j ∧ dec_float64 j old = inl f.
Proof using Type.
  unfold json_of_float. intros Hf. destruct (json_float f) as [s|] eqn:E; [|done]. intros [= <-].
  split; [split; [by eapply number_lit_float|done]|]. cbn. by rewrite (json_float_reads _ _ Hf E).
Qed.

Lemma json_of_time_back d off t j old : off mod 60 = 0 → json_of_time off t = inl j →
  good d j ∧ dec_time j old = inl t.
Proof using Type.
  unfold json_of_time. intros Hoff. destruct (MarshalJSON off t) as [s|] eqn:E; [|done]. intros [= <-].
  split; [|by eapply dec_time_MarshalJSON]. split; [done|]. cbn. eapply valid_utf8_ascii, MarshalJSON_ASCII, E.
Qed.

(** *** Items *)

Context (Hzones : ∀ i, zones i mod 60 = 0) (Hcreated : created_zone mod 60 = 0).

(** The members of an object with good values under ASCII names. *)
Ltac good_members :=
  apply good_object; [done|];
  repeat (apply Forall_cons_2; [split; [reflexivity|cbn [snd]]|]); [..|apply Forall_nil_2].

Lemma sample_back i s j : utf8_sample s → json_of_sample (i, s) = inl j →
  good 2 j ∧ dec_struct type_error sample_fields j zero_sample = inl s.
Proof using Hzones.
  intros (Hn & Hl & Hv). unfold json_of_sample. cbn [fst snd].
  destruct (json_of_float (m_Value s)) as [v|] eqn:Ev; [|done].
  destruct (json_of_time (zones i) (m_Timestamp s)) as [t|] eqn:Et; [|done]. intros [= <-].
  destruct (json_of_float_back 3 _ _ 0 Hv Ev) as [Hgv Hdv].
  destruct (json_of_time_back 3 _ _ _ zero_time (Hzones i) Et) as [Hgt Hdt].
  split; [good_members; [done|by apply good_labels|done|done]|].
  unfold dec_struct, zero_sample. find_one. cbn -[dec_fields dec_map json_of_labels dec_time dec_float64].
  find_one. cbn -[dec_fields dec_map json_of_labels dec_time dec_float64]. rewrite dec_labels_back.
  find_one. cbn -[dec_fields dec_time dec_float64]. rewrite Hdv.
  find_one. cbn -[dec_fields dec_time]. rewrite Hdt. by destruct s.
Qed.

Lemma log_back i e j : utf8_log e → json_of_log (i, e) = inl j →
  good 2 j ∧ dec_struct type_error log_fields j zero_log = inl e.
Proof using Hzones.
  intros (Hn & Hl). unfold json_of_log. cbn [fst snd].
  destruct (json_of_time (zones i) (l_Timestamp e)) as [t|] eqn:Et; [|done]. intros [= <-].
  destruct (json_of_time_back 3 _ _ _ zero_time (Hzones i) Et) as [Hgt Hdt].
  split; [good_members; [done|done|by apply good_labels]|].
  unfold dec_struct, zero_log. find_one. cbn -[dec_fields dec_map json_of_labels dec_time]. rewrite Hdt.
  find_one. cbn -[dec_fields dec_map json_of_labels].
  find_one. cbn -[dec_fields dec_map json_of_labels]. rewrite dec_labels_back. by destruct e.
Qed.

(** *** Slices *)

Lemma dec_elems_back {A} (zero : A) (dec : decoder A) js l :
  Forall2 (λ j a, dec j zero = inl a) js l → dec_elems zero dec js [] = inl l.
Proof using Type. induction 1 as [|j a js l Hj _ IH]; [done|]. cbn. by rewrite Hj, IH. Qed.

(** The member of a slice, present or left out, restores it. *)
Lemma omit_empty_back {A B} (fs : struct_fields B) tag (f : nat * A → json + error) (ok : A → Prop)
    (zero : A) (dec : decoder A) (set : list A → B → B) l ms b :
  (∀ i a j, ok a → f (i, a) = inl j → good 2 j ∧ dec j zero = inl a) →
  (∀ js, dec_fields fs [(tag, JArray js)] b =
    match dec_elems zero dec js [] with inl x => inl (set x b) | inr e => inr e end) →
  isASCII tag = true → set [] b = b → Forall ok l → omit_empty tag f l = inl ms →
  Forall (λ kj, isASCII kj.1 = true ∧ good 1 kj.2) ms ∧ dec_fields fs ms b = inl (set l b).
Proof using Type.
  intros Hf Hfs Htag Hset Hok. unfold omit_empty. destruct l as [|a0 l0] eqn:El.
  { intros [= <-]. split; [constructor|]. cbn. by rewrite Hset. }
  rewrite <- El in *. clear El. destruct (AnyJson.sum_list f (imap pair l)) as [js|] eqn:E; [|done]. intros [= <-].
  apply sum_list_spec in E.
  assert (Hall : Forall (good 2) js ∧ Forall2 (λ j a, dec j zero = inl a) js l).
  { revert f Hf E. clear Hfs. revert js. induction Hok as [|a l Ha _ IH]; intros js f Hf E; cbn [imap] in E.
    - apply Forall2_nil_inv_l in E as ->. by split.
    - apply Forall2_cons_inv_l in E as (j & js' & Hj & E & ->). destruct (Hf _ _ _ Ha Hj) as [H1 H2].
      destruct (IH js' (λ it, f (S it.1, it.2))) as [H3 H4]; [intros ? ? ? ?; by apply Hf| |by split; constructor].
      change (imap (pair ∘ S) l) with (imap (λ n, (λ it : nat * A, (S it.1, it.2)) ∘ pair n) l) in E.
      rewrite <- fmap_imap in E. by apply Forall2_fmap_l in E. }
  destruct Hall as [Hg Hd]. split.
  - constructor; [|constructor]. split; [done|]. by apply good_array.
  - rewrite Hfs. by rewrite (dec_elems_back _ _ _ _ Hd).
Qed.

(** *** Entries *)

(** What [Unmarshal] makes of what [Marshal] wrote is the entry. *)
Lemma json_entry_back e j : utf8_entry e → json_of_entry e = inl j → unmarshal_entry (text j) = inl e.
Proof using Hzones Hcreated.
  intros (Hid & Hkind & Hk & Hm & Hl). unfold json_of_entry.
  destruct (json_of_time created_zone (ce_CreatedAt e)) as [t|] eqn:Et; [|done].
  destruct (omit_empty "metrics" _ _) as [ms|] eqn:Em; [|done].
  destruct (omit_empty "logs" _ _) as [ls|] eqn:El; [|done]. intros [= <-].
  destruct (json_of_time_back 1 _ _ _ zero_time Hcreated Et) as [Hgt Hdt].
  eapply (omit_empty_back entry_fields "metrics" json_of_sample utf8_sample zero_sample
    (dec_struct type_error sample_fields) (λ x '(mkCachedEntry a b c _ e), mkCachedEntry a b c x e)
    _ _ (mkCachedEntry (ce_ID e) (ce_Kind e) (ce_CreatedAt e) [] [])) in Em as [Hgm Hdm];
    [|intros; by eapply sample_back|intros; find_one; cbn; by destruct (dec_elems _ _ _ _)|done..].
  eapply (omit_empty_back entry_fields "logs" json_of_log utf8_log zero_log
    (dec_struct type_error log_fields) (λ x '(mkCachedEntry a b c d _), mkCachedEntry a b c d x)
    _ _ (mkCachedEntry (ce_ID e) (ce_Kind e) (ce_CreatedAt e) (ce_Metrics e) [])) in El as [Hgl Hdl];
    [|intros; by eapply log_back|intros; find_one; cbn; by destruct (dec_elems _ _ _ _)|done..].
  assert (Hg : good 0 (JObject ([("id", JString (ce_ID e)); ("kind", JString (kind_text (ce_Kind e)));
    ("created_at", t)]%string ++ ms ++ ls))).
  { apply good_object; [done|]. apply Forall_app. split; [|by apply Forall_app].
    apply Forall_cons_2; [done|]. apply Forall_cons_2; [done|]. by apply Forall_cons_2. }
  cbn [app] in Hg. destruct Hg as [Hw Hu]. unfold unmarshal_entry. rewrite (json_scan_text _ Hw Hu).
  unfold dec_struct, zero_entry.
  find_one. cbn -[dec_fields dec_time]. find_one. cbn -[dec_fields dec_time]. rewrite Hkind.
  find_one. cbn -[dec_fields dec_time]. rewrite Hdt.
  rewrite (dec_fields_app _ _ _ _ _ Hdm), Hdl. by destruct e.
Qed.

Lemma entry_back e data : utf8_entry e → marshal_entry e = inl data → unmarshal_entry data = inl e.
Proof using Hzones Hcreated.
  intros He. unfold marshal_entry. destruct (json_of_entry e) as [j|] eqn:Ej; [|done].
  intros Hd. assert (data = text j) as -> by congruence. by apply json_entry_back.
Qed.

End Codec.

(** ** What can be written, and what cannot *)

(** A time whose year has four digits in its zone. *)
Definition shown (off : Z) (t : time) : Prop :=
  match MarshalJSON off t with inl _ => True | inr _ => False end.

Lemma json_of_time_shown off t : shown off t → ∃ j, json_of_time off t = inl j.
Proof. unfold shown, json_of_time. destruct (MarshalJSON off t); [eauto|done]. Qed.

Definition writable_sample (zones : nat → Z) (i : nat) (s : MetricSample) : Prop :=
  inU 64 (m_Value s) ∧ is_finite (m_Value s) ∧ shown (zones i) (m_Timestamp s).
Definition writable_log (zones : nat → Z) (i : nat) (e : LogEntry) : Prop := shown (zones i) (l_Timestamp e).

Lemma omit_empty_total {A} tag (f : nat * A → json + error) (l : list A) :
  (∀ i a, l !! i = Some a → ∃ j, f (i, a) = inl j) → ∃ ms, omit_empty tag f l = inl ms.
Proof.
  intros Hf. unfold omit_empty. destruct l as [|a0 l0] eqn:El; [eauto|]. rewrite <- El in *. clear El.
  assert (Hall : Forall (λ x, ∃ j, f x = inl j) (imap pair l)).
  { apply Forall_lookup. intros i x. rewrite list_lookup_imap.
    destruct (l !! i) as [a|] eqn:E; [|done]. cbn. intros [= <-]. by apply Hf. }
  assert (Hs : ∃ js, AnyJson.sum_list f (imap pair l) = inl js).
  { induction Hall as [|x xs [j Hj] _ [js IH]]; [by eexists|]. eexists. cbn. by rewrite Hj, IH. }
  destruct Hs as [js ->]. eauto.
Qed.

Lemma marshal_metrics created_zone zones id now samples : shown created_zone now →
  (∀ i s, samples !! i = Some s → writable_sample zones i s) →
  ∃ data, marshal_entry created_zone zones (mkCachedEntry id EntryKindMetrics now samples []) = inl data.
Proof.
  intros [t Ht]%json_of_time_shown Hs. unfold marshal_entry, json_of_entry. cbn [ce_CreatedAt ce_Metrics ce_Logs].
  rewrite Ht. destruct (omit_empty_total "metrics" (json_of_sample zones) samples) as [ms ->]; [|eauto].
  intros i s (Hv0 & Hfin & [t' Ht']%json_of_time_shown)%Hs.
  destruct (proj1 (json_float_total _ Hv0) Hfin) as (v & Hv & _).
  unfold json_of_sample, json_of_float. cbn [fst snd].
  rewrite Hv, Ht'. eauto.
Qed.

Lemma marshal_logs created_zone zones id now logs : shown created_zone now →
  (∀ i e, logs !! i = Some e → writable_log zones i e) →
  ∃ data, marshal_entry created_zone zones (mkCachedEntry id EntryKindLogs now [] logs) = inl data.
Proof.
  intros [t Ht]%json_of_time_shown Hs. unfold marshal_entry, json_of_entry. cbn [ce_CreatedAt ce_Metrics ce_Logs].
  rewrite Ht. cbn [omit_empty]. destruct (omit_empty_total "logs" (json_of_log zones) logs) as [ms ->]; [|eauto].
  intros i s [t' Ht']%Hs%json_of_time_shown. unfold json_of_log. cbn [fst snd]. rewrite Ht'. eauto.
Qed.

(** One value that JSON has no number for, and the batch is refused. *)
Lemma marshal_refuses created_zone zones id now samples s : s ∈ samples → json_float (m_Value s) = None →
  ∃ err, marshal_entry created_zone zones (mkCachedEntry id EntryKindMetrics now samples []) = inr err.
Proof.
  intros Hs Hv. unfold marshal_entry, json_of_entry. cbn [ce_CreatedAt ce_Metrics].
  destruct (json_of_time _ _) as [t|e]; [|eauto].
  destruct (omit_empty "metrics" _ samples) as [ms|e] eqn:Em; [|eauto]. exfalso.
  unfold omit_empty in Em. destruct samples as [|s0 samples0] eqn:El; [by apply not_elem_of_nil in Hs|].
  rewrite <- El in *. destruct (AnyJson.sum_list _ _) as [js|] eqn:E; [|done]. apply sum_list_spec in E.
  apply list_elem_of_lookup in Hs as [i Hi].
  assert (Hx : imap pair samples !! i = Some (i, s)) by (by rewrite list_lookup_imap, Hi).
  destruct (Forall2_lookup_l _ _ _ _ _ E Hx) as (j & _ & Hj).
  unfold json_of_sample, json_of_float in Hj. cbn [snd] in Hj. by rewrite Hv in Hj.
Qed.

(** ** Properties *)

Section Spool.
Context (type_error : json → error) (created_zone : Z) (zones : nat → Z).
Context (Hzones : ∀ i, zones i mod 60 = 0) (Hcreated : created_zone mod 60 = 0).
Local Abbreviation marshal := (marshal_entry created_zone zones).
Local Abbreviation unmarshal := (unmarshal_entry type_error).

Lemma id_valid p n : isASCII p = true → valid_utf8 (p +:+ pretty (n : Z)).
Proof using Type.
  intros Hp. apply valid_utf8_ascii. unfold isASCII in *. rewrite to_bytes_app, forallb_app, Hp. cbn [andb].
  apply forallb_forall. intros c Hc. apply list_elem_of_In in Hc. pose proof (pretty_chars n) as H.
  rewrite Forall_forall in H. specialize (H c Hc). cbn beta in H. lia.
Qed.

(** C35. Through the disk and back, byte for byte.  A non-empty batch of samples or
    of log entries -- well-formed strings, finite values, times of four-digit
    years in zones of whole minutes -- is stored in an empty directory as one
    JSON file, and the next replay within MaxAge hands it, unchanged, to the
    callback of its kind and leaves the directory empty: no label, value or
    nanosecond is lost. *)
Theorem spool_roundtrip (fs : faults) (c : Cache) (now1 now2 now : time)
    (samples : list MetricSample) (logs : list LogEntry) :
  own_dir fs → (∀ name, write_fails fs name = None) → shown created_zone now2 →
  now + wrapS 64 (- c_MaxAge (k_cfg c)) <= now2 →
  (Forall utf8_sample samples → (∀ i s, samples !! i = Some s → writable_sample zones i s) →
   samples ≠ [] → OnRetryMetrics c = true →
   ∃ d, StoreMetrics marshal fs (Some c) now1 now2 samples ∅ = (d, None) ∧ size d = 1%nat ∧
     replayAll unmarshal fs c now (λ _, false) d = (∅, [CallMetrics samples])) ∧
  (Forall utf8_log logs → (∀ i e, logs !! i = Some e → writable_log zones i e) →
   logs ≠ [] → OnRetryLogs c = true →
   ∃ d, StoreLogs marshal fs (Some c) now1 now2 logs ∅ = (d, None) ∧ size d = 1%nat ∧
     replayAll unmarshal fs c now (λ _, false) d = (∅, [CallLogs logs])).
Proof using Hzones Hcreated.
  intros Hfs Hw Hshow Hage.
  assert (Hstore : ∀ entry data cl, utf8_entry entry → ce_CreatedAt entry = now2 →
    marshal entry = inl data →
    match ce_Kind entry with
    | EntryKindMetrics => OnRetryMetrics c = true ∧ ce_Metrics entry ≠ [] ∧ cl = CallMetrics (ce_Metrics entry)
    | EntryKindLogs => OnRetryLogs c = true ∧ ce_Logs entry ≠ [] ∧ cl = CallLogs (ce_Logs entry)
    | EntryKindOther _ => False
    end →
    ∃ d, write marshal fs (k_cfg c) entry ∅ = (d, None) ∧ size d = 1%nat ∧
      replayAll unmarshal fs c now (λ _, false) d = (∅, [cl])).
  { intros entry data cl He Hc Hm Hk. rewrite (write_empty _ _ Hfs _ _ _ Hm) by done.
    eexists. split; [done|]. split; [apply map_size_singleton|].
    eapply replay_single; [done|apply is_json_suffix|by eapply entry_back|by rewrite Hc|done]. }
  split; intros Hu Hwr Hne Hcb.
  - destruct (marshal_metrics created_zone zones ("metrics_" +:+ pretty (UnixNano now1)) now2 samples Hshow Hwr)
      as [data Hm]. eapply Hstore; [|done|exact Hm|done].
    split_and!; [by apply id_valid|done|by apply valid_utf8_ascii|done..].
  - destruct (marshal_logs created_zone zones ("logs_" +:+ pretty (UnixNano now1)) now2 logs Hshow Hwr)
      as [data Hm]. eapply Hstore; [|done|exact Hm|done].
    split_and!; [by apply id_valid|done|by apply valid_utf8_ascii|done..].
Qed.

(** A batch with one NaN or infinite value cannot be stored: the write fails
    before the file is opened, and every sample of the batch is lost with it. *)
Theorem unwritable_batch (fs : faults) (c : Cache) (now1 now2 : time) (samples : list MetricSample)
    (s : MetricSample) (d : directory) :
  s ∈ samples → ¬ is_finite (m_Value s) →
  ∃ err, StoreMetrics marshal fs (Some c) now1 now2 samples d = (evictIfNeeded fs (k_cfg c) d, Some err).
Proof using Type.
  intros Hs Hv%json_float_refuses. unfold StoreMetrics, write.
  destruct (marshal_refuses created_zone zones ("metrics_" +:+ pretty (UnixNano now1)) now2 samples s Hs Hv) as [err He].
  exists err. by rewrite He.
Qed.
End Spool.

(** ** Witnesses *)

Definition spooled_sample : MetricSample :=
  mkMetricSample "ome_telemetry_inlettemp" {["service_tag" := "ABC1234"]}%string (float64_of_int 23)
    (Date 2024 2 29 12 0 0 250000000).

(** The file a batch of one sample, taken at UTC+1, becomes. *)
Example spooled_text :
  marshal_entry 0 (λ _, 3600)
    (mkCachedEntry "metrics_1" EntryKindMetrics (Date 2024 3 1 0 0 0 0) [spooled_sample] []) =
  inl (to_bytes ("{" +:+ quoted "id" +:+ ":" +:+ quoted "metrics_1" +:+ "," +:+ quoted "kind" +:+ ":" +:+
    quoted "metrics" +:+ "," +:+ quoted "created_at" +:+ ":" +:+ quoted "2024-03-01T00:00:00Z" +:+ "," +:+
    quoted "metrics" +:+ ":[{" +:+ quoted "Name" +:+ ":" +:+ quoted "ome_telemetry_inlettemp" +:+ "," +:+
    quoted "Labels" +:+ ":{" +:+ quoted "service_tag" +:+ ":" +:+ quoted "ABC1234" +:+ "}," +:+
    quoted "Value" +:+ ":23," +:+ quoted "Timestamp" +:+ ":" +:+ quoted "2024-02-29T13:00:00.25+01:00" +:+
    "}]}"))%string.
Proof. vm_compute. reflexivity. Qed.

Definition spool_cache : Cache := mkCache (sample_cache_cfg 1) true true.

Lemma spool_roundtrip_witness : ∃ d,
  StoreMetrics (marshal_entry 0 (λ _, 3600)) no_faults (Some spool_cache) 5 (Date 2024 3 1 0 0 0 0)
    [spooled_sample] ∅ = (d, None) ∧ size d = 1%nat ∧
  replayAll (unmarshal_entry (λ _, "type error"%string)) no_faults spool_cache (Date 2024 3 1 1 0 0 0) (λ _, false) d =
    (∅, [CallMetrics [spooled_sample]]).
Proof.
  destruct (spool_roundtrip (λ _, "type error"%string) 0 (λ _, 3600) (λ _, eq_refl) eq_refl no_faults spool_cache 5
    (Date 2024 3 1 0 0 0 0) (Date 2024 3 1 1 0 0 0) [spooled_sample] []) as [H _];
    [apply no_faults_own|intros; reflexivity|vm_compute; exact I|vm_compute; congruence|].
  apply H; [| |discriminate|reflexivity].
  - constructor; [|constructor]. split; [apply valid_utf8_ascii; reflexivity|]. split.
    + apply map_Forall_singleton. split; apply valid_utf8_ascii; reflexivity.
    + vm_compute. split; congruence.
  - intros [|i] s Hs; [|discriminate Hs]. injection Hs as <-. split; [vm_compute; split; congruence|split; vm_compute; exact I].
Defined.

(** A NaN among the values. *)
Definition nan_sample : MetricSample := mkMetricSample "ome_x" ∅ 0x7FF8000000000001 0.

Lemma unwritable_batch_witness : ∃ err,
  StoreMetrics (marshal_entry 0 (λ _, 0)) no_faults (Some spool_cache) 5 5 [spooled_sample; nan_sample] ∅ =
    (evictIfNeeded no_faults (k_cfg spool_cache) ∅, Some err).
Proof.
  apply (unwritable_batch 0 (λ _, 0) no_faults spool_cache 5 5 [spooled_sample; nan_sample] nan_sample ∅);
    [by right; left|vm_compute; by intros []].
Defined.
