(* ===== verification/Api.v ===== *)
(** * Api: the HTTP API of main.go

    The three routes, the JSON of the cache statistics, and the gauge
    ome_bridge_cache_entries, which only the statistics handler sets.  The
    Prometheus handler is third-party code and an argument; requests are taken
    with clean paths, on which the mux matches its patterns exactly. *)
From S2P Require Import Prelude Float GoLib Utf8 Config Json JsonScan JsonText Cache.
From stdpp Require Import pretty.
Open Scope Z_scope.

Record response := mkResponse { r_Status : Z; r_Header : list (string * string); r_Body : bytes }.

(** The tags of [cache.Stats]. *)
Definition json_of_stats (s : Stats_t) : json :=
  JObject [("entry_count", JNumber (pretty (EntryCount s))); ("total_bytes_used", JNumber (pretty (TotalBytes s)));
    ("max_bytes", JNumber (pretty (MaxBytes s)))]%string.

Definition handle_healthz : response := mkResponse 200 [] (to_bytes "ok").

Section Api.
Context (promhttp : float64 → response) (fs : faults).

(** [json.NewEncoder(w).Encode(stats)] ends the value with a newline. *)
Definition handle_cache_stats (c : option Cache) (d : directory) : response * float64 :=
  let stats := Stats fs c d in
  (mkResponse 200 [("Content-Type", "application/json")]%string (text (json_of_stats stats) ++ [Byte.x0a]),
   float64_of_int (EntryCount stats)).

(** The answer to a request, and the gauge afterwards. *)
Definition mux (c : option Cache) (d : directory) (gauge : float64) (path : string) : response * float64 :=
  if decide (path = "/metrics"%string) then (promhttp gauge, gauge)
  else if decide (path = "/healthz"%string) then (handle_healthz, gauge)
  else if decide (path = "/cache/stats"%string) then handle_cache_stats c d
  else (mkResponse 404 [] (to_bytes ("404 page not found" +:+ of_bytes [Byte.x0a])), gauge).

(** A run of requests, the directory changing underneath. *)
Fixpoint serve_http (c : option Cache) (reqs : list (directory * string)) (gauge : float64) : list response * float64 :=
  match reqs with
  | [] => ([], gauge)
  | (d, path) :: reqs =>
      let '(resp, gauge) := mux c d gauge path in
      let '(resps, gauge) := serve_http c reqs gauge in (resp :: resps, gauge)
  end.

(** ** Facts *)

Lemma stats_writable s : writable 0 (json_of_stats s).
Proof using Type. cbn [json_of_stats writable foldr snd]. repeat split; (done || apply number_lit_int). Qed.

Lemma json_scan_line j : writable 0 j → json_utf8 j → json_scan (text j ++ [Byte.x0a]) = inl j.
Proof using Type.
  intros Hw Hu. unfold json_scan.
  rewrite (text_reads_back j 0 Hw _ [Byte.x0a]); [by rewrite json_valid_id|done|unfold scan_fuel; lia].
Qed.

(** What the statistics are: the spool files, their sizes, the limit. *)
Definition stats_of (c : option Cache) (d : directory) (files : list string) : Stats_t :=
  match c with Some c => mkStats (len files) (size_of d files) (maxBytes (k_cfg c)) | None => mkStats 0 0 0 end.

(** ** Properties *)

(** /cache/stats answers 200 with a JSON object that decodes to the number of
    spool files in the directory, their total size and the size limit -- all
    zero when the cache is disabled -- and sets the gauge to that number. *)
Theorem cache_stats_reports (c : option Cache) (d : directory) :
  own_dir fs → size_of d (listEntries fs d).1 < 2 ^ 63 →
  ∃ files, NoDup files ∧ (∀ n, n ∈ files ↔ is_json n = true ∧ is_Some (d !! n)) ∧
    let '(resp, gauge) := handle_cache_stats c d in
    r_Status resp = 200 ∧ json_scan (r_Body resp) = inl (json_of_stats (stats_of c d files)) ∧
    gauge = float64_of_int (EntryCount (stats_of c d files)).
Proof using Type.
  intros Hfs Hs. exists (listEntries fs d).1. split; [apply listing_NoDup|].
  split; [intros n; apply listing_elem, own_glob, Hfs|].
  assert (He : Stats fs c d = stats_of c d (listEntries fs d).1).
  { destruct c as [c|]; [|done]. cbn. destruct (listEntries fs d) as [names err] eqn:El. cbn in *.
    by rewrite sum_sizes_own. }
  unfold handle_cache_stats. rewrite He. split; [done|]. split; [|done]. cbn [r_Body].
  apply json_scan_line; [apply stats_writable|]. cbn. repeat split; by apply valid_utf8_ascii.
Qed.

(** The gauge goes stale: whatever happens to the directory, and however often
    /metrics is scraped, it keeps its value until somebody asks for
    /cache/stats -- so a scraper that does not sees zero for ever. *)
Theorem gauge_stale (c : option Cache) (reqs : list (directory * string)) (gauge : float64) :
  Forall (λ dp, dp.2 ≠ "/cache/stats"%string) reqs → (serve_http c reqs gauge).2 = gauge.
Proof using Type.
  intros Hr. induction Hr as [|[d path] reqs Hp _ IH]; [done|]. cbn [serve_http].
  assert (Hg : (mux c d gauge path).2 = gauge) by (unfold mux; repeat case_decide; done).
  destruct (mux c d gauge path) as [resp g]. cbn in Hg. subst g.
  destruct (serve_http c reqs gauge) as [resps g]. by cbn in *.
Qed.
End Api.

(** ** Witnesses *)

Definition spool : directory := {["metrics_1.json" := to_bytes "{}"; "logs_1.json" := to_bytes "[1]"; "notes.txt" := []]}%string.
Definition own_cache : option Cache := Some (mkCache (sample_cache_cfg 1) true true).

Example stats_body : (handle_cache_stats no_faults own_cache spool).1 =
  mkResponse 200 [("Content-Type", "application/json")]%string
    (to_bytes ("{" +:+ quoted "entry_count" +:+ ":2," +:+ quoted "total_bytes_used" +:+ ":5,"
      +:+ quoted "max_bytes" +:+ ":1048576}" +:+ of_bytes [Byte.x0a])).
Proof. vm_compute. reflexivity. Qed.

Lemma cache_stats_reports_witness :
  ∃ files, NoDup files ∧ (∀ n, n ∈ files ↔ is_json n = true ∧ is_Some (spool !! n)) ∧
    json_scan (r_Body (handle_cache_stats no_faults own_cache spool).1) =
      inl (json_of_stats (mkStats (len files) (size_of spool files) 1048576)).
Proof.
  destruct (cache_stats_reports no_faults own_cache spool) as (files & H1 & H2 & _ & H3 & _);
    [by split|by vm_compute|].
  exists files. split; [exact H1|]. split; [exact H2|exact H3].
Defined.

Lemma gauge_stale_witness :
  (serve_http (λ _, handle_healthz) no_faults own_cache [(spool, "/metrics"); (spool, "/healthz")]%string 0).2 = 0.
Proof. apply gauge_stale. repeat constructor; discriminate. Defined.
