(* ===== verification/Pipeline.v ===== *)
(** * Pipeline: main.go

    Routing a Kafka message to the forwarders, the message loop, and the
    program seen as a whole: messages, flush ticks and cache retries acting on
    the two forwarders, the counters and the cache directory. *)
From S2P Require Import Prelude Regexp Float GoLib Config Relabel Json JsonScan JsonText Prompb Parser LokiWriter Batch Forwarder Cache.
From S2P Require Records.
From Stdlib Require Import Strings.Ascii.
Open Scope Z_scope.

(** [map[string]bool]; a missing key reads as false. *)
Definition buildTopicSet (topics : list string) : gmap string bool :=
  foldl (λ m t, <[TrimSpace t := true]> m) ∅ topics.
Definition in_topics (m : gmap string bool) (t : string) : bool := default false (m !! t).

Section Pipeline.
(** What the parsers and forwarders take as arguments. *)
Context {RE : Regexp} (unicode_ToLower : Z → Z)
  (type_error : json → error) (Quote : string → string) (type_name : any → string)
  (snappy_Encode : bytes → bytes) (metrics_client loki_client : http_client)
  (unmarshal_entry : bytes → CachedEntry + error) (fs : faults).

(** The clock and the map orders of one step. *)
Record env := mkEnv {
  now : time; components : gmap string Z → list string; relabeling : orders;
  fp_order : nat → gmap string string → list string; group_order : gmap string stream → list string }.

(** The running program: the forwarders, the counters by label values, what was
    sent and how each flush ended, the cache and its directory. *)
Record program := mkProgram {
  metricsFwd : MetricsForwarder; logFwd : LogForwarder;
  msgsReceived : gmap (string * string) Z; msgsDropped : gmap (string * string) Z;
  sent : list HTTPRequest; fates : list fate;
  diskCache : option Cache; cacheDir : directory }.

Definition inc (labels : string * string) (c : gmap (string * string) Z) : gmap (string * string) Z :=
  <[labels := default 0 (c !! labels) + 1]> c.

Definition Parse_msg (e : env) (msg : Records.Message) : ParsedMessage + error :=
  Parse unicode_ToLower type_error Quote type_name
    (now e) (components e) (Records.Topic msg) (default [] (Records.Value msg)).

Definition submit_metrics (e : env) (samples : list MetricSample) (p : program) : program :=
  let '(f, reqs, r) := metrics_Submit unicode_ToLower snappy_Encode metrics_client (relabeling e)
    (metricsFwd p) samples in
  mkProgram f (logFwd p) (msgsReceived p) (msgsDropped p) (sent p ++ reqs) (fates p ++ [r])
    (diskCache p) (cacheDir p).

Definition submit_log (e : env) (entry : LogEntry) (p : program) : program :=
  let '(f, reqs, r) := log_Submit unicode_ToLower (fp_order e) (group_order e) loki_client
    (relabeling e) (logFwd p) entry in
  mkProgram (metricsFwd p) f (msgsReceived p) (msgsDropped p) (sent p ++ reqs) (fates p ++ [r])
    (diskCache p) (cacheDir p).

Definition count_received (l : string * string) (p : program) : program :=
  mkProgram (metricsFwd p) (logFwd p) (inc l (msgsReceived p)) (msgsDropped p) (sent p) (fates p)
    (diskCache p) (cacheDir p).
Definition count_dropped (l : string * string) (p : program) : program :=
  mkProgram (metricsFwd p) (logFwd p) (msgsReceived p) (inc l (msgsDropped p)) (sent p) (fates p)
    (diskCache p) (cacheDir p).

Definition processMessage (metricsTopics logTopics : gmap string bool) (e : env) (msg : Records.Message)
    (p : program) : program :=
  match Parse_msg e msg with
  | inr _ => count_dropped (Records.Topic msg, "parse_error"%string) p
  | inl parsed =>
      let p := count_received (Records.Topic msg, kind_string (p_Kind parsed)) p in
      let p := if in_topics metricsTopics (Records.Topic msg) && (0 <? len (p_Metrics parsed))
               then submit_metrics e (p_Metrics parsed) p else p in
      if in_topics logTopics (Records.Topic msg)
      then match p_LogEntry parsed with Some entry => submit_log e entry p | None => p end
      else p
  end.

(** The loop of the pipeline goroutine over the messages it receives. *)
Fixpoint process (metricsTopics logTopics : gmap string bool) (msgs : list (env * Records.Message))
    (p : program) : program :=
  match msgs with
  | [] => p
  | (e, m) :: msgs => process metricsTopics logTopics msgs (processMessage metricsTopics logTopics e m p)
  end.

(** [OnRetryMetrics] and [OnRetryLogs]: the closures main installs. *)
Definition on_retry (e : env) (c : call) (p : program) : program :=
  match c with
  | CallMetrics samples => submit_metrics e samples p
  | CallLogs entries => foldl (λ p x, submit_log e x p) p entries
  end.

Definition set_dir (d : directory) (p : program) : program :=
  mkProgram (metricsFwd p) (logFwd p) (msgsReceived p) (msgsDropped p) (sent p) (fates p) (diskCache p) d.

(** One tick of a flush loop. *)
Definition metrics_tick (e : env) (p : program) : program :=
  let '(f, reqs, r) := metrics_flush unicode_ToLower snappy_Encode metrics_client (relabeling e) (metricsFwd p) in
  mkProgram f (logFwd p) (msgsReceived p) (msgsDropped p) (sent p ++ reqs) (fates p ++ [r])
    (diskCache p) (cacheDir p).
Definition log_tick (e : env) (p : program) : program :=
  let '(f, reqs, r) := log_flush unicode_ToLower (fp_order e) (group_order e) loki_client (relabeling e) (logFwd p) in
  mkProgram (metricsFwd p) f (msgsReceived p) (msgsDropped p) (sent p ++ reqs) (fates p ++ [r])
    (diskCache p) (cacheDir p).

(** What drives the forwarders, and a run of it: a message, a flush tick, one
    submission out of the cache, and the directory shrinking by a replay. *)
Inductive pevent :=
  | Received (e : env) (m : Records.Message)
  | MetricsTick (e : env)
  | LogTick (e : env)
  | RetriedMetrics (e : env) (samples : list MetricSample)
  | RetriedLog (e : env) (entry : LogEntry)
  | Respooled (e : env) (d : directory).
Definition event_env (ev : pevent) : env :=
  match ev with
  | Received e _ | MetricsTick e | LogTick e | RetriedMetrics e _ | RetriedLog e _ | Respooled e _ => e
  end.
Definition react (metricsTopics logTopics : gmap string bool) (ev : pevent) (p : program) : program :=
  match ev with
  | Received e m => processMessage metricsTopics logTopics e m p
  | MetricsTick e => metrics_tick e p
  | LogTick e => log_tick e p
  | RetriedMetrics e samples => submit_metrics e samples p
  | RetriedLog e entry => submit_log e entry p
  | Respooled _ d => set_dir d p
  end.
Definition history (mt lt : gmap string bool) (evs : list pevent) (p : program) : program :=
  foldl (λ p ev, react mt lt ev p) p evs.

(** A replay round as such events: the files go, and each callback submits. *)
Definition call_events (e : env) (c : call) : list pevent :=
  match c with
  | CallMetrics samples => [RetriedMetrics e samples]
  | CallLogs entries => map (RetriedLog e) entries
  end.
Definition replay_events (e : env) (d : directory) (calls : list call) : list pevent :=
  Respooled e d :: concat (map (call_events e) calls).

(** Everything that happens after start-up and before shutdown. *)
Inductive pstep (mt lt : gmap string bool) : program → program → Prop :=
  | step_message e m p : pstep mt lt p (processMessage mt lt e m p)
  | step_metrics_tick e p : pstep mt lt p (metrics_tick e p)
  | step_log_tick e p : pstep mt lt p (log_tick e p)
  | step_retry e p c expired d calls :
      diskCache p = Some c → replayAll unmarshal_entry fs c (now e) expired (cacheDir p) = (d, calls) →
      pstep mt lt p (foldl (λ p x, on_retry e x p) (set_dir d p) calls).

Definition psteps mt lt : program → program → Prop := rtc (pstep mt lt).

(** ** Facts *)

Lemma in_topics_build ts t : in_topics (buildTopicSet ts) t = true ↔ ∃ x, x ∈ ts ∧ TrimSpace x = t.
Proof.
  unfold in_topics, buildTopicSet.
  assert (Hg : ∀ m : gmap string bool, default false (foldl (λ m t, <[TrimSpace t := true]> m) m ts !! t) = true ↔
    default false (m !! t) = true ∨ ∃ x, x ∈ ts ∧ TrimSpace x = t).
  { induction ts as [|x ts IH]; intros m; cbn [foldl].
    - split; [by left|]. intros [?|(x & Hx & _)]; [done|]. by apply not_elem_of_nil in Hx.
    - rewrite IH. destruct (decide (TrimSpace x = t)) as [Heq|Hne].
      + rewrite Heq, lookup_insert_eq. split; [|by left]. intros _. right. exists x. split; [by left|done].
      + rewrite lookup_insert_ne by done. set_solver. }
  rewrite Hg. split; [|by right]. intros [H|?]; [|done]. by rewrite lookup_empty in H.
Qed.

Definition metrics_kind (k : MessageKind) : bool :=
  match k with KindTelemetry | KindHealth => true | _ => false end.
Definition log_kind (k : MessageKind) : bool :=
  match k with KindAlerts | KindAuditLogs | KindInventory => true | _ => false end.

Lemma default_routes (c : Config) (k : MessageKind) (id : string) :
  MetricsTopics (TopicRouting c) = [] → LogTopics (TopicRouting c) = [] →
  id = OMEIdentifier (Kafka (applyDefaults c)) →
  (∀ k, TrimSpace (id +:+ String "."%char (kind_string k)) = (id +:+ String "."%char (kind_string k))%string) →
  k ≠ KindUnknown →
  let t := (id +:+ String "."%char (kind_string k))%string in
  in_topics (buildTopicSet (MetricsTopics (TopicRouting (applyDefaults c)))) t =
    metrics_kind k ∧
  in_topics (buildTopicSet (LogTopics (TopicRouting (applyDefaults c)))) t =
    log_kind k.
Proof.
  intros Hm Hl Hid Htrim Hk t.
  set (name := λ k, (id +:+ String "."%char (kind_string k))%string) in *.
  assert (Hinj : ∀ k1 k2, name k1 = name k2 → k1 = k2).
  { intros k1 k2 Heq. unfold name in Heq. apply (inj (String.app id)) in Heq.
    by destruct k1, k2. }
  assert (HM : MetricsTopics (TopicRouting (applyDefaults c)) = map name [KindTelemetry; KindHealth]).
  { cbn [applyDefaults TopicRouting MetricsTopics]. rewrite Hm. cbn in Hid. by rewrite <- Hid. }
  assert (HL : LogTopics (TopicRouting (applyDefaults c)) = map name [KindAlerts; KindAuditLogs; KindInventory]).
  { cbn [applyDefaults TopicRouting LogTopics]. rewrite Hl. cbn in Hid. by rewrite <- Hid. }
  assert (Hin : ∀ ks, in_topics (buildTopicSet (map name ks)) t = true ↔ k ∈ ks).
  { intros ks. rewrite in_topics_build. split.
    - intros (x & Hx & Hxt). apply list_elem_of_fmap in Hx as (k' & -> & Hk').
      unfold name in Hxt at 1. rewrite Htrim in Hxt. apply Hinj in Hxt. by subst.
    - intros Hks. exists (name k). split; [by apply list_elem_of_fmap; exists k|apply Htrim]. }
  rewrite HM, HL. split; apply eq_true_iff_eq; rewrite Hin;
    destruct k; cbn; try done; set_solver.
Qed.

Lemma submit_metrics_frame e samples p :
  let p' := submit_metrics e samples p in
  logFwd p' = logFwd p ∧ msgsReceived p' = msgsReceived p ∧ msgsDropped p' = msgsDropped p ∧
  diskCache p' = diskCache p ∧ cacheDir p' = cacheDir p ∧ sent p `prefix_of` sent p'.
Proof.
  unfold submit_metrics. destruct (metrics_Submit _ _ _ _ _ _) as [[f reqs] r]. cbn.
  repeat (split; [done|]). by apply prefix_app_r.
Qed.

Lemma submit_log_frame e entry p :
  let p' := submit_log e entry p in
  metricsFwd p' = metricsFwd p ∧ msgsReceived p' = msgsReceived p ∧ msgsDropped p' = msgsDropped p ∧
  diskCache p' = diskCache p ∧ cacheDir p' = cacheDir p ∧ sent p `prefix_of` sent p'.
Proof.
  unfold submit_log. destruct (log_Submit _ _ _ _ _ _ _) as [[f reqs] r]. cbn.
  repeat (split; [done|]). by apply prefix_app_r.
Qed.

(** What no step of the program but a replay touches. *)
Definition same_cache (p p' : program) : Prop :=
  diskCache p' = diskCache p ∧ cacheDir p' = cacheDir p ∧
  ∀ l, l.2 ≠ "parse_error"%string → msgsDropped p' !! l = msgsDropped p !! l.

#[export] Instance same_cache_preorder : PreOrder same_cache.
Proof.
  split; [by intros p|]. intros p1 p2 p3 (H1 & H2 & H3) (H4 & H5 & H6).
  split; [congruence|]. split; [congruence|]. intros l Hl. by rewrite H6, H3.
Qed.

Lemma submit_metrics_same e samples p : same_cache p (submit_metrics e samples p).
Proof.
  destruct (submit_metrics_frame e samples p) as (_ & _ & H1 & H2 & H3 & _).
  split; [done|]. split; [done|]. intros l _. by rewrite H1.
Qed.

Lemma submit_log_same e entry p : same_cache p (submit_log e entry p).
Proof.
  destruct (submit_log_frame e entry p) as (_ & _ & H1 & H2 & H3 & _).
  split; [done|]. split; [done|]. intros l _. by rewrite H1.
Qed.

Lemma processMessage_same mt lt e m p : same_cache p (processMessage mt lt e m p).
Proof.
  unfold processMessage. destruct (Parse_msg e m) as [pm|err].
  - set (p1 := count_received _ p). assert (H1 : same_cache p p1) by done.
    set (p2 := if _ && _ then _ else p1).
    assert (H2 : same_cache p1 p2) by (unfold p2; case_match; [apply submit_metrics_same|done]).
    etransitivity; [exact H1|]. etransitivity; [exact H2|].
    destruct (in_topics lt _); [|done]. destruct (p_LogEntry pm); [apply submit_log_same|done].
  - split; [done|]. split; [done|]. intros l Hl. cbn. unfold inc.
    rewrite lookup_insert_ne; [done|]. intros <-. by apply Hl.
Qed.

Lemma metrics_tick_same e p : same_cache p (metrics_tick e p).
Proof. unfold metrics_tick. by destruct (metrics_flush _ _ _ _ _) as [[f reqs] r]. Qed.
Lemma log_tick_same e p : same_cache p (log_tick e p).
Proof. unfold log_tick. by destruct (log_flush _ _ _ _ _ _) as [[f reqs] r]. Qed.

Lemma on_retry_same e c p : same_cache p (on_retry e c p).
Proof.
  destruct c as [samples|entries]; cbn; [apply submit_metrics_same|].
  revert p. induction entries as [|x entries IH]; intros p; [done|]. cbn.
  etransitivity; [apply submit_log_same|apply IH].
Qed.

Lemma retries_same e calls p : same_cache p (foldl (λ p x, on_retry e x p) p calls).
Proof.
  revert p. induction calls as [|c calls IH]; intros p; [done|]. cbn.
  etransitivity; [apply on_retry_same|apply IH].
Qed.

Lemma pstep_cache mt lt p p' : pstep mt lt p p' →
  diskCache p' = diskCache p ∧ cacheDir p' ⊆ cacheDir p ∧
  ∀ l, l.2 ≠ "parse_error"%string → msgsDropped p' !! l = msgsDropped p !! l.
Proof.
  destruct 1 as [e m p|e p|e p|e p c expired d calls Hc Hr].
  - destruct (processMessage_same mt lt e m p) as (H1 & H2 & H3). by rewrite H2.
  - destruct (metrics_tick_same e p) as (H1 & H2 & H3). by rewrite H2.
  - destruct (log_tick_same e p) as (H1 & H2 & H3). by rewrite H2.
  - destruct (retries_same e calls (set_dir d p)) as (H1 & H2 & H3). rewrite H1, H2.
    split; [done|]. split; [|exact H3]. cbn.
    pose proof (replayAll_subseteq unmarshal_entry fs c (now e) expired (cacheDir p)) as Hs.
    by rewrite Hr in Hs.
Qed.

(** ** The two paths to a backend

    A path has a queue, the items an event contributes to it, the requests that
    are its own, and the requests its flush makes of a batch -- which depend on
    the program only through the forwarder's settings, and these no event
    changes.  An event appends its items and flushes the whole queue or
    nothing. *)
Definition own (mine : HTTPRequest → bool) (p : program) : list HTTPRequest :=
  filter (λ r, mine r = true) (sent p).

Record path (mt lt : gmap string bool) (B : Type) := mkPath {
  queue : program → list B;
  contributed : pevent → list B;
  mine : HTTPRequest → bool;
  requests : program → env → list B → list HTTPRequest;
  path_step : ∀ ev p, ∃ b,
    default [] b ++ queue (react mt lt ev p) = queue p ++ contributed ev ∧
    own mine (react mt lt ev p) = own mine p ++ default [] (requests p (event_env ev) <$> b) ∧ b ≠ Some [];
  path_setup : ∀ ev p, requests (react mt lt ev p) = requests p }.
Arguments queue {mt lt B}.
Arguments contributed {mt lt B}.
Arguments mine {mt lt B}.
Arguments requests {mt lt B}.

(** The batches flushed over a run, what they are made of, and the requests they
    led to: these and no others. *)
Lemma path_conserves {mt lt B} (P : path mt lt B) evs : ∀ p,
  ∃ bs : list (env * list B),
    concat (map snd bs) ++ queue P (history mt lt evs p) = queue P p ++ concat (map (contributed P) evs) ∧
    own (mine P) (history mt lt evs p) =
      own (mine P) p ++ concat (map (λ eb, requests P p eb.1 eb.2) bs) ∧
    Forall (λ eb, eb.1 ∈ map event_env evs ∧ eb.2 ≠ []) bs.
Proof.
  unfold history. induction evs as [|ev evs IH]; intros p; cbn [foldl map concat].
  { exists []. cbn. by rewrite !app_nil_r. }
  destruct (path_step _ _ _ P ev p) as (b & H1 & H2 & H3). pose proof (path_setup _ _ _ P ev p) as H4.
  set (p1 := react mt lt ev p) in *. destruct (IH p1) as (bs & H5 & H6 & H7).
  exists (match b with Some b => [(event_env ev, b)] | None => [] end ++ bs). split_and!.
  - rewrite map_app, concat_app, <- app_assoc, H5, !app_assoc, <- H1. f_equal.
    destruct b; cbn; by rewrite ?app_nil_r.
  - rewrite H6, H2, H4, map_app, concat_app, <- app_assoc. f_equal. f_equal.
    destruct b; cbn; by rewrite ?app_nil_r.
  - apply Forall_app. split.
    + destruct b as [b|]; [|constructor]. apply Forall_singleton. cbn. split; [by left|]. by intros ->.
    + eapply Forall_impl; [exact H7|]. intros eb [? ?]. split; [by right|done].
Qed.

Lemma process_history mt lt msgs : ∀ p,
  process mt lt msgs p = history mt lt (map (λ em, Received em.1 em.2) msgs) p.
Proof. induction msgs as [|[e m] msgs IH]; intros p; [done|]. cbn. apply IH. Qed.

Lemma on_retry_history mt lt e c p : on_retry e c p = history mt lt (call_events e c) p.
Proof.
  destruct c as [samples|entries]; [done|]. cbn [on_retry call_events]. revert p.
  induction entries as [|x entries IH]; intros p; [done|]. apply IH.
Qed.

(** A replay round is a run of these events. *)
Lemma replay_history mt lt e d calls p :
  foldl (λ p x, on_retry e x p) (set_dir d p) calls = history mt lt (replay_events e d calls) p.
Proof.
  unfold replay_events. change (history mt lt (Respooled e d :: ?evs) p) with (history mt lt evs (set_dir d p)).
  generalize (set_dir d p). induction calls as [|c calls IH]; intros q; [done|]. cbn [foldl map concat].
  unfold history. rewrite foldl_app. rewrite IH, (on_retry_history mt lt). done.
Qed.

(** The samples, and the log entries, an event contributes; a tick contributes
    none. *)
Definition routed (mt : gmap string bool) (em : env * Records.Message) : list MetricSample :=
  match Parse_msg em.1 em.2 with
  | inl pm => if in_topics mt (Records.Topic em.2) then p_Metrics pm else []
  | inr _ => []
  end.
Definition routed_log (lt : gmap string bool) (em : env * Records.Message) : list LogEntry :=
  match Parse_msg em.1 em.2 with
  | inl pm => if in_topics lt (Records.Topic em.2) then option_list (p_LogEntry pm) else []
  | inr _ => []
  end.
Definition event_samples (mt : gmap string bool) (ev : pevent) : list MetricSample :=
  match ev with Received e m => routed mt (e, m) | RetriedMetrics _ samples => samples | _ => [] end.
Definition event_entries (lt : gmap string bool) (ev : pevent) : list LogEntry :=
  match ev with Received e m => routed_log lt (e, m) | RetriedLog _ entry => [entry] | _ => [] end.

(** Requests of one kind, appended to a list. *)
Lemma own_app mine p p' reqs : sent p' = sent p ++ reqs → own mine p' = own mine p ++ filter (λ r, mine r = true) reqs.
Proof. unfold own. intros ->. apply filter_app. Qed.

Lemma filter_own (m : HTTPRequest → bool) reqs : Forall (λ r, m r = true) reqs → filter (λ r, m r = true) reqs = reqs.
Proof. induction 1 as [|r reqs Hr _ IH]; [done|]. by rewrite filter_cons_True, IH. Qed.
Lemma filter_other (m : HTTPRequest → bool) reqs : Forall (λ r, m r = false) reqs → filter (λ r, m r = true) reqs = [].
Proof. induction 1 as [|r reqs Hr _ IH]; [done|]. by rewrite filter_cons_False, IH by congruence. Qed.

Local Abbreviation ship_m e p := (λ b, (ship_metrics unicode_ToLower snappy_Encode metrics_client (relabeling e) (metricsFwd p) b).1).
Local Abbreviation ship_l e p := (λ b, (ship_logs unicode_ToLower (fp_order e) (group_order e) loki_client (relabeling e) (logFwd p) b).1).

Lemma own_ship_m e p b :
  filter (λ r, metrics_request r = true) (ship_m e p b) = ship_m e p b ∧
  filter (λ r, log_request r = true) (ship_m e p b) = [].
Proof.
  pose proof (ship_metrics_requests unicode_ToLower snappy_Encode metrics_client (relabeling e) (metricsFwd p) b) as H.
  split; [apply filter_own|apply filter_other]; eapply Forall_impl; try exact H; by intros ? [].
Qed.
Lemma own_ship_l e p b :
  filter (λ r, log_request r = true) (ship_l e p b) = ship_l e p b ∧
  filter (λ r, metrics_request r = true) (ship_l e p b) = [].
Proof.
  pose proof (ship_logs_requests unicode_ToLower (fp_order e) (group_order e) loki_client (relabeling e) (logFwd p) b) as H.
  split; [apply filter_own|apply filter_other]; eapply Forall_impl; try exact H; by intros ? [].
Qed.

(** What a Submit does to the queue and to the requests sent. *)
Lemma submit_metrics_queue e samples p : let p' := submit_metrics e samples p in
  ∃ b, default [] b ++ mf_pending (metricsFwd p') = mf_pending (metricsFwd p) ++ samples ∧
    (∃ rest, metricsFwd p' = with_pending (metricsFwd p) rest) ∧
    sent p' = sent p ++ default [] (ship_m e p <$> b) ∧ b ≠ Some [].
Proof.
  pose proof (metrics_Submit_queue unicode_ToLower snappy_Encode metrics_client (relabeling e)
    (metricsFwd p) samples) as Hq.
  unfold submit_metrics. destruct (Submit _ _ _) as [b rest] eqn:Es.
  destruct (metrics_Submit _ _ _ _ _ _) as [[f reqs] r]. cbn. destruct Hq as [-> Hr].
  exists b. apply Submit_cases in Es as [Ha Hb]. split; [exact Ha|]. split; [by exists rest|].
  destruct b as [b|]; cbn; [|by injection Hr as -> ->]. rewrite <- Hr. split; [done|].
  intros [= ->]. by destruct Hb.
Qed.

Lemma submit_log_queue e entry p : let p' := submit_log e entry p in
  ∃ b, default [] b ++ lf_pending (logFwd p') = lf_pending (logFwd p) ++ [entry] ∧
    (∃ rest, logFwd p' = with_log_pending (logFwd p) rest) ∧
    sent p' = sent p ++ default [] (ship_l e p <$> b) ∧ b ≠ Some [].
Proof.
  pose proof (log_Submit_queue unicode_ToLower (fp_order e) (group_order e) loki_client (relabeling e)
    (logFwd p) entry) as Hq.
  unfold submit_log. destruct (Submit _ _ _) as [b rest] eqn:Es.
  destruct (log_Submit _ _ _ _ _ _ _) as [[f reqs] r]. cbn. destruct Hq as [-> Hr].
  exists b. apply Submit_cases in Es as [Ha Hb]. split; [exact Ha|]. split; [by exists rest|].
  destruct b as [b|]; cbn; [|by injection Hr as -> ->]. rewrite <- Hr. split; [done|].
  intros [= ->]. by destruct Hb.
Qed.

(** The two halves of processMessage, after counting. *)
Definition metrics_half (mt : gmap string bool) (e : env) (t : string) (pm : ParsedMessage) (p : program) : program :=
  if in_topics mt t && (0 <? len (p_Metrics pm)) then submit_metrics e (p_Metrics pm) p else p.
Definition log_half (lt : gmap string bool) (e : env) (t : string) (pm : ParsedMessage) (p : program) : program :=
  if in_topics lt t then match p_LogEntry pm with Some entry => submit_log e entry p | None => p end else p.

Lemma processMessage_halves mt lt e m p pm : Parse_msg e m = inl pm →
  processMessage mt lt e m p = log_half lt e (Records.Topic m) pm (metrics_half mt e (Records.Topic m) pm
    (count_received (Records.Topic m, kind_string (p_Kind pm)) p)).
Proof. unfold processMessage. by intros ->. Qed.

Lemma metrics_half_spec mt e t pm p : let p' := metrics_half mt e t pm p in
  logFwd p' = logFwd p ∧ ∃ b,
    default [] b ++ mf_pending (metricsFwd p') =
      mf_pending (metricsFwd p) ++ (if in_topics mt t then p_Metrics pm else []) ∧
    (∃ rest, metricsFwd p' = with_pending (metricsFwd p) rest) ∧
    sent p' = sent p ++ default [] (ship_m e p <$> b) ∧ b ≠ Some [].
Proof.
  unfold metrics_half. destruct (in_topics mt t); cbn [andb].
  2: { split; [done|]. exists None. cbn. rewrite !app_nil_r. split_and!; try done.
       exists (mf_pending (metricsFwd p)). by destruct (metricsFwd p). }
  destruct (Z.ltb_spec 0 (len (p_Metrics pm))).
  - split; [apply submit_metrics_frame|apply submit_metrics_queue].
  - assert (p_Metrics pm = []) as -> by (destruct (p_Metrics pm); [done|len_lia]).
    split; [done|]. exists None. cbn. rewrite !app_nil_r. split_and!; try done.
    exists (mf_pending (metricsFwd p)). by destruct (metricsFwd p).
Qed.

Lemma log_half_spec lt e t pm p : let p' := log_half lt e t pm p in
  metricsFwd p' = metricsFwd p ∧ ∃ b,
    default [] b ++ lf_pending (logFwd p') =
      lf_pending (logFwd p) ++ (if in_topics lt t then option_list (p_LogEntry pm) else []) ∧
    (∃ rest, logFwd p' = with_log_pending (logFwd p) rest) ∧
    sent p' = sent p ++ default [] (ship_l e p <$> b) ∧ b ≠ Some [].
Proof.
  assert (Hid : ∃ rest, logFwd p = with_log_pending (logFwd p) rest).
  { exists (lf_pending (logFwd p)). by destruct (logFwd p). }
  unfold log_half. destruct (in_topics lt t);
    [destruct (p_LogEntry pm) as [x|]; [split; [apply submit_log_frame|apply submit_log_queue]|]|];
    (split; [done|]; exists None; cbn; by rewrite !app_nil_r).
Qed.

(** Handling a message, on both paths at once. *)
Lemma processMessage_paths mt lt e m p : let p' := processMessage mt lt e m p in
  ∃ bm bl,
    (default [] bm ++ mf_pending (metricsFwd p') = mf_pending (metricsFwd p) ++ routed mt (e, m) ∧
     (∃ rest, metricsFwd p' = with_pending (metricsFwd p) rest) ∧ bm ≠ Some []) ∧
    (default [] bl ++ lf_pending (logFwd p') = lf_pending (logFwd p) ++ routed_log lt (e, m) ∧
     (∃ rest, logFwd p' = with_log_pending (logFwd p) rest) ∧ bl ≠ Some []) ∧
    sent p' = sent p ++ default [] (ship_m e p <$> bm) ++ default [] (ship_l e p <$> bl).
Proof.
  cbv zeta. unfold routed, routed_log. cbn [fst snd]. destruct (Parse_msg e m) as [pm|err] eqn:Ep.
  - rewrite (processMessage_halves mt lt e m p pm Ep). set (p1 := count_received _ p).
    destruct (metrics_half_spec mt e (Records.Topic m) pm p1) as (Hl & bm & M1 & M2 & M3 & M4).
    set (p2 := metrics_half mt e (Records.Topic m) pm p1) in *.
    destruct (log_half_spec lt e (Records.Topic m) pm p2) as (Hm & bl & L1 & L2 & L3 & L4).
    rewrite Hl in *. exists bm, bl. rewrite Hm. split; [done|]. split; [done|].
    by rewrite L3, M3, <- app_assoc.
  - exists None, None. unfold processMessage. rewrite Ep. cbn. rewrite !app_nil_r.
    split_and!; try done; [exists (mf_pending (metricsFwd p)); by destruct (metricsFwd p)|
      exists (lf_pending (logFwd p)); by destruct (logFwd p)].
Qed.

(** A tick flushes its own queue and leaves the other path alone. *)
Lemma metrics_tick_paths e p : let p' := metrics_tick e p in
  let b := if decide (mf_pending (metricsFwd p) = []) then None else Some (mf_pending (metricsFwd p)) in
  metricsFwd p' = with_pending (metricsFwd p) [] ∧ logFwd p' = logFwd p ∧
  sent p' = sent p ++ default [] (ship_m e p <$> b).
Proof.
  cbv zeta. unfold metrics_tick, metrics_flush.
  destruct (take_batch_spec (mf_pending (metricsFwd p))) as [[Hp ->]|[Hp ->]].
  - cbn. rewrite decide_True by done. split; [|done]. destruct (metricsFwd p). cbn in *. by subst.
  - rewrite decide_False by done.
    change (ship_metrics unicode_ToLower snappy_Encode metrics_client (relabeling e) (with_pending (metricsFwd p) []))
      with (ship_metrics unicode_ToLower snappy_Encode metrics_client (relabeling e) (metricsFwd p)).
    cbn. by destruct (ship_metrics _ _ _ _ _ _) as [reqs r].
Qed.

Lemma log_tick_paths e p : let p' := log_tick e p in
  let b := if decide (lf_pending (logFwd p) = []) then None else Some (lf_pending (logFwd p)) in
  logFwd p' = with_log_pending (logFwd p) [] ∧ metricsFwd p' = metricsFwd p ∧
  sent p' = sent p ++ default [] (ship_l e p <$> b).
Proof.
  cbv zeta. unfold log_tick, log_flush.
  destruct (take_batch_spec (lf_pending (logFwd p))) as [[Hp ->]|[Hp ->]].
  - cbn. rewrite decide_True by done. split; [|done]. destruct (logFwd p). cbn in *. by subst.
  - rewrite decide_False by done.
    change (ship_logs unicode_ToLower (fp_order e) (group_order e) loki_client (relabeling e) (with_log_pending (logFwd p) []))
      with (ship_logs unicode_ToLower (fp_order e) (group_order e) loki_client (relabeling e) (logFwd p)).
    cbn. by destruct (ship_logs _ _ _ _ _ _ _) as [reqs r].
Qed.

(** An event, on both paths at once. *)
Lemma react_paths mt lt ev p : let p' := react mt lt ev p in
  ∃ bm bl,
    (default [] bm ++ mf_pending (metricsFwd p') = mf_pending (metricsFwd p) ++ event_samples mt ev ∧
     (∃ rest, metricsFwd p' = with_pending (metricsFwd p) rest) ∧ bm ≠ Some []) ∧
    (default [] bl ++ lf_pending (logFwd p') = lf_pending (logFwd p) ++ event_entries lt ev ∧
     (∃ rest, logFwd p' = with_log_pending (logFwd p) rest) ∧ bl ≠ Some []) ∧
    sent p' = sent p ++ default [] (ship_m (event_env ev) p <$> bm) ++ default [] (ship_l (event_env ev) p <$> bl).
Proof.
  assert (Hm : ∀ p, ∃ rest, metricsFwd p = with_pending (metricsFwd p) rest).
  { intros q. exists (mf_pending (metricsFwd q)). by destruct (metricsFwd q). }
  assert (Hl : ∀ p, ∃ rest, logFwd p = with_log_pending (logFwd p) rest).
  { intros q. exists (lf_pending (logFwd q)). by destruct (logFwd q). }
  cbv zeta. destruct ev as [e m|e|e|e samples|e entry|e d]; cbn [react event_env event_samples event_entries].
  - apply processMessage_paths.
  - destruct (metrics_tick_paths e p) as (H1 & H2 & H3). rewrite H1, H2.
    eexists _, None. split; [|split]; [|split; [by rewrite app_nil_r|split; [|done]]|cbn; rewrite app_nil_r; exact H3].
    + split; [|split; [by eexists|]]; case_decide as Hp; cbn; rewrite ?Hp, ?app_nil_r; try done. congruence.
    + apply Hl.
  - destruct (log_tick_paths e p) as (H1 & H2 & H3). rewrite H1, H2.
    eexists None, _. split; [|split]; [split; [by rewrite app_nil_r|split; [|done]]| |cbn; exact H3].
    + apply Hm.
    + split; [|split; [by eexists|]]; case_decide as Hp; cbn; rewrite ?Hp, ?app_nil_r; try done. congruence.
  - destruct (submit_metrics_queue e samples p) as (b & H1 & H2 & H3 & H4).
    destruct (submit_metrics_frame e samples p) as (Hf & _). rewrite Hf.
    exists b, None. cbn. rewrite !app_nil_r. auto 10.
  - destruct (submit_log_queue e entry p) as (b & H1 & H2 & H3 & H4).
    destruct (submit_log_frame e entry p) as (Hf & _). rewrite Hf.
    exists None, b. cbn. rewrite !app_nil_r. auto 10.
  - exists None, None. cbn. rewrite !app_nil_r. auto 10.
Qed.

Program Definition metrics_path mt lt : path mt lt MetricSample :=
  mkPath mt lt MetricSample (λ p, mf_pending (metricsFwd p)) (event_samples mt) metrics_request
    (λ p e b, ship_m e p b) _ _.
Next Obligation.
  intros mt lt ev p. cbn beta. destruct (react_paths mt lt ev p) as (bm & bl & (H1 & _ & H2) & _ & H3).
  exists bm. split; [done|]. split; [|done]. rewrite (own_app _ _ _ _ H3), filter_app.
  destruct bm, bl; cbn; rewrite ?(proj1 (own_ship_m _ _ _)), ?(proj2 (own_ship_l _ _ _)), ?app_nil_r; done.
Qed.
Next Obligation.
  intros mt lt ev p. cbn beta.
  by destruct (react_paths mt lt ev p) as (_ & _ & (_ & [rest ->] & _) & _).
Qed.

Program Definition log_path mt lt : path mt lt LogEntry :=
  mkPath mt lt LogEntry (λ p, lf_pending (logFwd p)) (event_entries lt) log_request
    (λ p e b, ship_l e p b) _ _.
Next Obligation.
  intros mt lt ev p. cbn beta. destruct (react_paths mt lt ev p) as (bm & bl & _ & (H1 & _ & H2) & H3).
  exists bl. split; [done|]. split; [|done]. rewrite (own_app _ _ _ _ H3), filter_app.
  destruct bm, bl; cbn; rewrite ?(proj2 (own_ship_m _ _ _)), ?(proj1 (own_ship_l _ _ _)), ?app_nil_r; done.
Qed.
Next Obligation.
  intros mt lt ev p. cbn beta.
  by destruct (react_paths mt lt ev p) as (_ & _ & _ & (_ & [rest ->] & _) & _).
Qed.

(** ** Properties *)

(** C7. Routing with the default topics: for an identifier whose five topics
    survive trimming and whose name has no dot, a message on [<id>.<kind>]
    that parses reaches exactly the right backend -- telemetry and health
    samples the metrics forwarder, alerts, audit logs and inventory the log
    forwarder, and neither both nor none -- and is counted as received; one that
    does not parse is counted as dropped and changes nothing else. *)
Theorem default_routing (c : Config) (id : string) (k : MessageKind) (e : env) (m : Records.Message) (p : program) :
  MetricsTopics (TopicRouting c) = [] → LogTopics (TopicRouting c) = [] →
  id = OMEIdentifier (Kafka (applyDefaults c)) → no_char "."%char id →
  (∀ k, TrimSpace (id +:+ String "."%char (kind_string k)) = (id +:+ String "."%char (kind_string k))%string) →
  k ≠ KindUnknown → Records.Topic m = (id +:+ String "."%char (kind_string k))%string →
  let p1 := processMessage (buildTopicSet (MetricsTopics (TopicRouting (applyDefaults c))))
    (buildTopicSet (LogTopics (TopicRouting (applyDefaults c)))) e m p in
  match Parse_msg e m with
  | inr _ => p1 = count_dropped (Records.Topic m, "parse_error"%string) p
  | inl pm =>
      let p0 := count_received (Records.Topic m, kind_string k) p in
      if metrics_kind k
      then p1 = if 0 <? len (p_Metrics pm) then submit_metrics e (p_Metrics pm) p0 else p0
      else ∃ entry, p_LogEntry pm = Some entry ∧ p1 = submit_log e entry p0
  end.
Proof.
  intros Hm Hl Hid Hdot Htrim Hk Ht. cbn zeta.
  destruct (default_routes c k id Hm Hl Hid Htrim Hk) as [HM HL]. rewrite <- Ht in HM, HL.
  unfold processMessage. rewrite HM, HL. unfold Parse_msg.
  destruct (Parse _ _ _ _ _ _ _ _) as [pm|err] eqn:Ep; [|done].
  apply Parse_ok in Ep. destruct Ep as (_ & Hkind & Hpm).
  assert (Htk : topicKind (Records.Topic m) = k).
  { rewrite Ht. apply topicKind_cut; [done|]. exists id. by apply cut_app. }
  rewrite Htk in Hkind. rewrite Hkind in *.
  destruct k; try done; destruct Hpm as (_ & x & Hx & _); cbn; rewrite Hx; eauto.
Qed.

(** C8. An identifier that contains a dot makes the bridge useless: topics are
    split at their FIRST dot, so every message on [<id>.<kind>] -- whatever the
    kind, the routing and the payload -- is dropped as a parse error. *)
Theorem dotted_identifier_drops (mt lt : gmap string bool) (a b : string) (k : MessageKind)
    (e : env) (m : Records.Message) (p : program) :
  let id := (a +:+ String "."%char b)%string in
  Records.Topic m = (id +:+ String "."%char (kind_string k))%string →
  processMessage mt lt e m p = count_dropped (Records.Topic m, "parse_error"%string) p.
Proof.
  intros id Ht.
  assert (Hk : topicKind (Records.Topic m) = KindUnknown).
  { destruct (decide (topicKind (Records.Topic m) = KindUnknown)) as [|Hne]; [done|]. exfalso.
    pose proof (proj1 (topicKind_cut (Records.Topic m) _ Hne) eq_refl) as (x & Hx).
    pose proof (cut_no_char _ _ _ _ Hx) as Hfree.
    assert (Hc : ∃ y z, cut "."%char (Records.Topic m) = Some (y, (z +:+ String "."%char (kind_string k))%string)).
    { rewrite Ht. unfold id. clear. induction a as [|ch a IH].
      - exists ""%string, b. change (("" +:+ String "." b) +:+ String "." (kind_string k))%string
          with (String "." (b +:+ String "." (kind_string k)))%string. cbn [cut]. by rewrite decide_True.
      - destruct IH as (y & z & IH).
        change ((String ch a +:+ String "." b) +:+ String "." (kind_string k))%string
          with (String ch ((a +:+ String "." b) +:+ String "." (kind_string k)))%string. cbn [cut].
        case_decide as Hch.
        + exists ""%string, (a +:+ String "." b)%string. done.
        + rewrite IH. by exists (String ch y), z. }
    destruct Hc as (y & z & Hc). rewrite Hx in Hc. injection Hc as _ Hz.
    assert (Hno : ∀ k', cut "."%char (kind_string k') = None) by (by intros []).
    assert (Hsome : ∀ z', cut "."%char (z' +:+ String "." (kind_string k))%string ≠ None).
    { intros z'. induction z' as [|ch z' IH].
      - change ("" +:+ String "." (kind_string k))%string with (String "." (kind_string k)). cbn [cut].
        by rewrite decide_True.
      - change (String ch z' +:+ String "." (kind_string k))%string
          with (String ch (z' +:+ String "." (kind_string k)))%string. cbn [cut].
        case_decide; [done|]. destruct (cut _ (z' +:+ _)%string) as [[? ?]|]; [done|by destruct IH]. }
    apply (Hsome z). rewrite <- Hz. apply Hno. }
  unfold processMessage, Parse_msg, Parse. by rewrite Hk.
Qed.

(** C5. The disk cache is dead: starting from an empty directory, no sequence of
    messages, flushes -- failed ones included -- and retries ever puts a file
    into it; retrying only deletes.  And the only reason ever counted in
    messages_dropped is a parse error: neither relabeling nor a failed send is. *)
Theorem cache_never_fed (mt lt : gmap string bool) (p p' : program) :
  psteps mt lt p p' →
  cacheDir p' ⊆ cacheDir p ∧ (cacheDir p = ∅ → cacheDir p' = ∅) ∧
  ∀ l, l.2 ≠ "parse_error"%string → msgsDropped p' !! l = msgsDropped p !! l.
Proof.
  intros Hs. assert (H : cacheDir p' ⊆ cacheDir p ∧
    ∀ l, l.2 ≠ "parse_error"%string → msgsDropped p' !! l = msgsDropped p !! l).
  { induction Hs as [p|p1 p2 p3 H12 _ [IH1 IH2]]; [done|].
    apply pstep_cache in H12 as (_ & H1 & H2). split; [by etransitivity|].
    intros l Hl. by rewrite IH2, H2. }
  destruct H as [H1 H2]. split; [done|]. split; [|done].
  intros He. rewrite He in H1. apply map_eq. intros n. rewrite lookup_empty.
  apply eq_None_not_Some. intros [b Hb]. apply (lookup_weaken _ _ _ _ Hb) in H1.
  by rewrite lookup_empty in H1.
Qed.

(** C4. Neither path loses, duplicates or reorders anything before the POST: over
    any run of messages, flush ticks and cache replays, the batches flushed
    followed by what is pending are what was pending at first followed by what
    the parsed messages contribute -- their samples on metrics topics, their log
    entries on log topics -- and the replayed files deliver, in order; no batch is
    empty; and the requests sent to each backend are exactly those flush makes of
    its batches, one after the other. *)
Theorem process_conserves (mt lt : gmap string bool) (evs : list pevent) (p : program) :
  let p' := history mt lt evs p in
  (∃ bs : list (env * list MetricSample),
    concat (map snd bs) ++ mf_pending (metricsFwd p') =
      mf_pending (metricsFwd p) ++ concat (map (event_samples mt) evs) ∧
    own metrics_request p' = own metrics_request p ++ concat (map (λ eb,
      (ship_metrics unicode_ToLower snappy_Encode metrics_client (relabeling eb.1) (metricsFwd p) eb.2).1) bs) ∧
    Forall (λ eb, eb.1 ∈ map event_env evs ∧ eb.2 ≠ []) bs) ∧
  ∃ bs : list (env * list LogEntry),
    concat (map snd bs) ++ lf_pending (logFwd p') =
      lf_pending (logFwd p) ++ concat (map (event_entries lt) evs) ∧
    own log_request p' = own log_request p ++ concat (map (λ eb,
      (ship_logs unicode_ToLower (fp_order eb.1) (group_order eb.1) loki_client (relabeling eb.1) (logFwd p) eb.2).1) bs) ∧
    Forall (λ eb, eb.1 ∈ map event_env evs ∧ eb.2 ≠ []) bs.
Proof. split; [exact (path_conserves (metrics_path mt lt) evs p)|exact (path_conserves (log_path mt lt) evs p)]. Qed.
End Pipeline.

(** ** Start-up *)

Section Startup.
Context {RE : Regexp} (MkdirAll : string → option error) (ReadFile : string → bytes + error)
  (LoadX509KeyPair : string → string → unit + error).

(** main, from the loaded configuration to the installed callbacks; an error is
    fatal.  [d] is what the cache directory holds from an earlier run. *)
Definition startup (conf : Config) (d : directory) : outcome (program + error) :=
  dc ← Cache.New MkdirAll (Config.Cache conf);
  match dc with
  | inr err => Ok (inr ("init cache: " +:+ err))
  | inl dc =>
      mf ← NewMetricsForwarder ReadFile LoadX509KeyPair (RemoteWrite conf) (ExtraLabels conf) (RelabelConfigs conf);
      match mf with
      | inr err => Ok (inr ("init metrics forwarder: " +:+ err))
      | inl mf =>
          lf ← NewLogForwarder ReadFile LoadX509KeyPair (Loki conf) (ExtraLabels conf) (LogRelabelCfgs conf);
          match lf with
          | inr err => Ok (inr ("init log forwarder: " +:+ err))
          | inl lf =>
              let dc := match dc with Some c => Some (mkCache (k_cfg c) true true) | None => None end in
              Ok (inl (mkProgram mf lf ∅ ∅ [] [] dc d))
          end
      end
  end.

(** Start-up from a loaded configuration crashes only on a negative duration
    in the file -- a flush interval, or the retry interval of an enabled cache;
    when it succeeds the forwarders are empty and configured as the file says,
    and an enabled cache has both callbacks. *)
Theorem startup_spec (conf : Config) (d : directory) : complete conf →
  match startup conf d with
  | Ok (inl p) => mf_cfg (metricsFwd p) = RemoteWrite conf ∧ lf_cfg (logFwd p) = Loki conf ∧
      mf_pending (metricsFwd p) = [] ∧ lf_pending (logFwd p) = [] ∧ cacheDir p = d ∧
      diskCache p = if c_Enabled (Config.Cache conf) then Some (mkCache (Config.Cache conf) true true) else None
  | Ok (inr _) => True
  | Panic q => q = PanicTicker ∧
      (rw_FlushInterval (RemoteWrite conf) < 0 ∨ lk_FlushInterval (Loki conf) < 0 ∨
       (c_Enabled (Config.Cache conf) = true ∧ c_RetryInterval (Config.Cache conf) < 0))
  | OutOfFuel => False
  end.
Proof.
  intros Hc. destruct (complete_flush _ Hc) as [H1 H2].
  destruct (complete_cache _ Hc) as (_ & _ & H3 & _).
  unfold startup, Cache.New, NewMetricsForwarder, NewLogForwarder, NewTicker.
  destruct (Z.ltb_spec 0 (c_RetryInterval (Config.Cache conf))),
    (Z.ltb_spec 0 (rw_FlushInterval (RemoteWrite conf))),
    (Z.ltb_spec 0 (lk_FlushInterval (Loki conf)));
    destruct (c_Enabled (Config.Cache conf)), (MkdirAll (c_Dir (Config.Cache conf))),
      (Relabel.New (RelabelConfigs conf)), (buildHTTPClient ReadFile LoadX509KeyPair (rw_TLS (RemoteWrite conf))),
      (Relabel.New (LogRelabelCfgs conf)), (buildHTTPClient ReadFile LoadX509KeyPair (lk_TLS (Loki conf)));
    cbn; first [done|split; [done|]; intuition lia].
Qed.
End Startup.

(** ** Witnesses *)

Definition sample_env : env := mkEnv 1700000000000000000 some_order fwd_orders turning_order some_order.
Definition sample_program : program :=
  mkProgram sample_fwd sample_log_fwd ∅ ∅ [] [] (Some (mkCache (sample_cache_cfg 512) true true)) ∅.

Definition health_msg (topic : string) : Records.Message :=
  Records.mkMessage topic 0 None (Some [Byte.x7b; Byte.x7d]) 0.
Local Abbreviation sample_process mt lt e m p :=
  (processMessage no_table sample_type_error no_Quote no_type_name id down down mt lt e m p).

Lemma default_routing_witness :
  sample_process (buildTopicSet (MetricsTopics (TopicRouting (applyDefaults url_config))))
    (buildTopicSet (LogTopics (TopicRouting (applyDefaults url_config)))) sample_env
    (health_msg "ome.alerts") sample_program =
  submit_log no_table down sample_env
    (mkLogEntry 1700000000000000000 (json_Marshal (alert_members zeroAlert)) (alertLabels no_table "ome.alerts" zeroAlert))
    (count_received ("ome.alerts", "alerts")%string sample_program).
Proof.
  pose proof (default_routing no_table sample_type_error no_Quote no_type_name id down down url_config "ome" KindAlerts sample_env
    (health_msg "ome.alerts") sample_program) as H.
  destruct H as (x & Hx & ->); [reflexivity..|by intros []|discriminate|reflexivity|].
  by injection Hx as <-.
Defined.

Lemma dotted_identifier_drops_witness :
  msgsDropped (sample_process ∅ ∅ sample_env (health_msg "dc1.ome.health") sample_program)
    !! ("dc1.ome.health", "parse_error")%string = Some 1.
Proof.
  rewrite (dotted_identifier_drops no_table sample_type_error no_Quote no_type_name id down down ∅ ∅ "dc1" "ome" KindHealth); reflexivity.
Defined.

Lemma cache_never_fed_witness : ∃ p',
  psteps no_table sample_type_error no_Quote no_type_name id down down (λ _, inl sample_cached) no_faults
    (buildTopicSet ["ome.health"])%string ∅ sample_program p' ∧ cacheDir p' = ∅.
Proof.
  assert (Hs : psteps no_table sample_type_error no_Quote no_type_name id down down (λ _, inl sample_cached) no_faults
    (buildTopicSet ["ome.health"])%string ∅ sample_program
    (sample_process (buildTopicSet ["ome.health"])%string ∅ sample_env (health_msg "ome.health") sample_program))
    by (apply rtc_once, step_message).
  eexists. split; [exact Hs|]. eapply (cache_never_fed no_table); [exact Hs|reflexivity].
Defined.

Lemma startup_spec_witness : ∃ p,
  startup (λ _, None) (λ _, inl []) (λ _ _, inl tt) (applyDefaults url_config) ∅ = Ok (inl p) ∧
  mf_pending (metricsFwd p) = [] ∧ diskCache p = Some (mkCache (Config.Cache (applyDefaults url_config)) true true).
Proof.
  eexists. split; [reflexivity|].
  pose proof (startup_spec (λ _, None) (λ _, inl []) (λ _ _, inl tt) (applyDefaults url_config) ∅
    (applyDefaults_complete url_config)) as (_ & _ & H1 & _ & _ & H2).
  split; [exact H1|exact H2].
Defined.
