(* ===== verification/Main.v ===== *)
(** * Main: main.go, from the command line to the running service

    The statements of [main] before it waits for a signal: the configuration,
    the logger, the components in order, each of whose errors is fatal; and the
    two goroutines' worth of HTTP API and latency histogram around the pipeline
    of Pipeline.v. *)
From S2P Require Import Prelude Regexp Float GoLib Config Relabel Json Parser Readings Batch Forwarder Cache Pipeline.
From S2P Require Records Broker Conn.
From Stdlib Require Import Floats.SpecFloat.
Open Scope Z_scope.

(** ** The logger *)

(** Level names are read by logrus, third-party code. *)
Class Logrus := { level : Type; ParseLevel : string → level + error; InfoLevel : level }.
Record logger `{Logrus} := mkLogger { json_format : bool; log_level : level }.

Definition setup_logger `{Logrus} (c : LogConfig) : logger :=
  mkLogger _ (bool_decide (log_Format c = "json"%string))
    (match ParseLevel (log_Level c) with inl l => l | inr _ => InfoLevel end).

(** ** Start-up *)

(** What main holds once everything runs. *)
Record service {LR : Logrus} {RE : Regexp} := mkService {
  s_conf : Config; s_log : logger; s_prog : program; s_broker : Broker.Broker;
  metricsFilter : gmap string bool; logFilter : gmap string bool; s_api : option error }.

(** The flag [-config]. *)
Definition configFile (given : option string) : string := default "config.yaml"%string given.

Section Main.
Context {LR : Logrus} {RE : Regexp} (ReadFile : string → bytes + error) (yamlUnmarshal : bytes → Config + error)
  (MkdirAll : string → option error) (LoadX509KeyPair : string → string → unit + error)
  (Listen : string → option error).

(** [srv.ListenAndServe] in its goroutine: an address it cannot listen on is
    logged, and the rest runs on without the API. *)
Definition serve_api (conf : Config) : option error := Listen (api_ListenAddr conf).

Definition main_start (given : option string) (d : directory) : outcome (service + error) :=
  match Load ReadFile yamlUnmarshal (configFile given) with
  | (_, Some err) => Ok (inr ("load config: " +:+ err))%string
  | (None, None) => OutOfFuel (* Load never returns nil without an error *)
  | (Some conf, None) =>
      let log := setup_logger (Config.Log conf) in
      p ← startup MkdirAll ReadFile LoadX509KeyPair conf d;
      match p with
      | inr err => Ok (inr err)
      | inl p =>
          let kb := Broker.New (Kafka conf) in
          match Conn.Start Listen kb with
          | Some err => Ok (inr ("start kafka broker: " +:+ err))%string
          | None => Ok (inl (mkService _ _ conf log p kb
              (buildTopicSet (MetricsTopics (TopicRouting conf)))
              (buildTopicSet (LogTopics (TopicRouting conf))) (serve_api conf)))
          end
      end
  end.
Local Abbreviation Load := (Load ReadFile yamlUnmarshal).
Local Abbreviation startup := (startup MkdirAll ReadFile LoadX509KeyPair).

(** A running service has gone through every statement. *)
Lemma main_start_inv given d sv : main_start given d = Ok (inl sv) →
  Load (configFile given) = (Some (s_conf sv), None) ∧ startup (s_conf sv) d = Ok (inl (s_prog sv)) ∧
  s_broker sv = Broker.New (Kafka (s_conf sv)) ∧ Listen (ListenAddr (Kafka (s_conf sv))) = None ∧
  metricsFilter sv = buildTopicSet (MetricsTopics (TopicRouting (s_conf sv))) ∧
  logFilter sv = buildTopicSet (LogTopics (TopicRouting (s_conf sv))) ∧
  s_log sv = setup_logger (Config.Log (s_conf sv)) ∧ s_api sv = Listen (api_ListenAddr (s_conf sv)).
Proof using Type.
  unfold main_start. destruct (Load (configFile given)) as [[conf|] [err|]]; try done.
  destruct (startup conf d) as [[p|err]| |] eqn:Es; try done. cbn [mbind outcome_bind].
  unfold Conn.Start. cbn [Broker.New Broker.cfg].
  destruct (Listen (ListenAddr (Kafka conf))) eqn:El; [done|]. intros [= <-]. by split_and!.
Qed.

(** C40. Start-up from the command line.  The service runs exactly when the file
    loads, every component starts on it and the broker's address is free; it
    then holds the configuration of the file with its defaults -- complete, and
    with both backend URLs -- empty forwarders configured as the file says, both
    callbacks of an enabled cache, a new broker and the topic sets of the file.
    Otherwise main exits with the error of the first statement that has one.
    It crashes only on a negative flush or retry interval, which validation lets
    through. *)
Theorem main_start_spec (given : option string) (d : directory) :
  match main_start given d with
  | Ok (inl sv) =>
      let conf := s_conf sv in
      Load (configFile given) = (Some conf, None) ∧ complete conf ∧
      rw_URL (RemoteWrite conf) ≠ ""%string ∧ lk_URL (Loki conf) ≠ ""%string ∧
      mf_cfg (metricsFwd (s_prog sv)) = RemoteWrite conf ∧ mf_pending (metricsFwd (s_prog sv)) = [] ∧
      lf_cfg (logFwd (s_prog sv)) = Loki conf ∧ lf_pending (logFwd (s_prog sv)) = [] ∧
      cacheDir (s_prog sv) = d ∧
      diskCache (s_prog sv) =
        (if c_Enabled (Config.Cache conf) then Some (mkCache (Config.Cache conf) true true) else None) ∧
      Listen (ListenAddr (Kafka conf)) = None ∧ s_broker sv = Broker.New (Kafka conf) ∧
      metricsFilter sv = buildTopicSet (MetricsTopics (TopicRouting conf)) ∧
      logFilter sv = buildTopicSet (LogTopics (TopicRouting conf))
  | Ok (inr err) =>
      (∃ e, (Load (configFile given)).2 = Some e ∧ err = ("load config: " +:+ e)%string) ∨
      ∃ conf, Load (configFile given) = (Some conf, None) ∧
        (startup conf d = Ok (inr err) ∨
         ∃ p e, startup conf d = Ok (inl p) ∧ Listen (ListenAddr (Kafka conf)) = Some e ∧
           err = ("start kafka broker: broker listen " +:+ ListenAddr (Kafka conf) +:+ ": " +:+ e)%string)
  | Panic q => q = PanicTicker ∧ ∃ conf, Load (configFile given) = (Some conf, None) ∧
      (rw_FlushInterval (RemoteWrite conf) < 0 ∨ lk_FlushInterval (Loki conf) < 0 ∨
       (c_Enabled (Config.Cache conf) = true ∧ c_RetryInterval (Config.Cache conf) < 0))
  | OutOfFuel => False
  end.
Proof using Type.
  destruct (main_start given d) as [[sv|err]|q|] eqn:E.
  - apply main_start_inv in E as (Hl & Hs & Hb & Hk & Hm & Ht & _).
    destruct (Load_accepts _ _ _ _ Hl) as (Hc & H1 & H2 & _).
    pose proof (startup_spec MkdirAll ReadFile LoadX509KeyPair (s_conf sv) d Hc) as H. rewrite Hs in H.
    cbn zeta. intuition.
  - revert E. unfold main_start. destruct (Load (configFile given)) as [[conf|] [e|]] eqn:El; cbn [snd].
    1,3: intros [= <-]; left; eauto.
    + destruct (startup conf d) as [[p|e]| |] eqn:Es; try done; cbn [mbind outcome_bind].
      * unfold Conn.Start. cbn [Broker.New Broker.cfg].
        destruct (Listen (ListenAddr (Kafka conf))) eqn:Ek; [|done]. intros [= <-]. right. eauto 10.
      * intros [= <-]. right. eauto.
    + done.
  - revert E. unfold main_start. destruct (Load (configFile given)) as [[conf|] [e|]] eqn:El; try done.
    destruct (Load_accepts _ _ _ _ El) as (Hc & _).
    pose proof (startup_spec MkdirAll ReadFile LoadX509KeyPair conf d Hc) as H.
    destruct (startup conf d) as [[p|e]| |]; cbn [mbind outcome_bind]; try done.
    + by destruct (Conn.Start Listen _).
    + intros [= <-]. destruct H. eauto.
  - revert E. unfold main_start. destruct (Load (configFile given)) as [[conf|] [e|]] eqn:El; try done.
    + destruct (Load_accepts _ _ _ _ El) as (Hc & _).
      pose proof (startup_spec MkdirAll ReadFile LoadX509KeyPair conf d Hc) as H.
      destruct (startup conf d) as [[p|e]| |]; cbn [mbind outcome_bind]; try done. by destruct (Conn.Start Listen _).
    + unfold Config.Load in El. repeat case_match; simplify_eq.
Qed.
End Main.

(** The API is optional: whether its address is free makes no difference to
    anything but itself. *)
Theorem api_optional {LR : Logrus} {RE : Regexp} ReadFile yamlUnmarshal MkdirAll LoadX509KeyPair
    (Listen Listen' : string → option error) (given : option string) (d : directory) (sv : service) :
  main_start ReadFile yamlUnmarshal MkdirAll LoadX509KeyPair Listen given d = Ok (inl sv) →
  Listen' (ListenAddr (Kafka (s_conf sv))) = None →
  main_start ReadFile yamlUnmarshal MkdirAll LoadX509KeyPair Listen' given d = Ok (inl
    (mkService _ _ (s_conf sv) (s_log sv) (s_prog sv) (s_broker sv) (metricsFilter sv) (logFilter sv)
      (Listen' (api_ListenAddr (s_conf sv))))).
Proof.
  intros H Hl. apply main_start_inv in H as (H1 & H2 & H3 & _ & H4 & H5 & H6 & _).
  unfold main_start. rewrite H1, H2. cbn [mbind outcome_bind]. unfold Conn.Start. cbn [Broker.New Broker.cfg].
  by rewrite Hl, H3, H4, H5, H6.
Qed.

(** ** The latency histogram

    [forwardLatency] is given the time that Submit takes on the metrics path:
    that of an append to the pending slice and, when the batch is then full, of
    the flush Submit calls before it returns. *)

Definition spec_of_int (n : Z) : spec_float := binary_normalize 53 1024 n 0 false.
(** [Duration.Seconds]: whole seconds, plus the nanoseconds over 1e9. *)
Definition Seconds (d : Z) : float64 :=
  bits_of_spec (SFadd 53 1024 (spec_of_int (Z.quot d Second))
    (SFdiv 53 1024 (spec_of_int (Z.rem d Second)) (spec_of_int Second))).

Example seconds_half : Seconds 1500000000 = 0x3FF8000000000000.
Proof. by vm_compute. Qed.

Record observation := mkObservation { dest : string; seconds : float64 }.
(** The clock is read before and after the call. *)
Definition observe (dest : string) (before after : time) : observation :=
  mkObservation dest (Seconds (after - before)).

Section Latency.
Context (unicode_ToLower : Z → Z) (type_error : json → error) (Quote : string → string) (type_name : any → string).
Local Abbreviation Parse_msg := (Parse_msg unicode_ToLower type_error Quote type_name).
Local Abbreviation routed := (routed unicode_ToLower type_error Quote type_name).

Definition message_observed (metricsTopics : gmap string bool) (e : env) (msg : Records.Message)
    (before after : time) : list observation :=
  match Parse_msg e msg with
  | inr _ => []
  | inl parsed =>
      if in_topics metricsTopics (Records.Topic msg) && (0 <? len (p_Metrics parsed))
      then [observe "remote_write" before after] else []
  end.
Definition retry_observed (c : call) (before after : time) : list observation :=
  match c with CallMetrics _ => [observe "remote_write_retry" before after] | CallLogs _ => [] end.

Lemma message_observed_len metricsTopics e m t0 t1 :
  length (message_observed metricsTopics e m t0 t1) = if decide (routed metricsTopics (e, m) ≠ []) then 1%nat else 0%nat.
Proof.
  unfold message_observed, Pipeline.routed. cbn [fst snd].
  destruct (Parse_msg e m) as [pm|err]; [|done].
  destruct (in_topics metricsTopics (Records.Topic m)); [|done].
  by destruct (p_Metrics pm).
Qed.

(** The histogram has one observation per message that is routed to
    remote_write with samples, whatever becomes of the samples afterwards. *)
Theorem latency_counts_submits (metricsTopics : gmap string bool)
    (msgs : list (env * Records.Message * (time * time))) :
  len (concat (map (λ x, message_observed metricsTopics x.1.1 x.1.2 x.2.1 x.2.2) msgs)) =
  len (filter (λ x, routed metricsTopics x.1 ≠ []) msgs).
Proof.
  induction msgs as [|[[e m] [t0 t1]] msgs IH]; [done|]. cbn [map concat fst snd].
  rewrite filter_cons. cbn [fst]. unfold len in *. rewrite length_app, message_observed_len.
  case_decide; cbn [length]; lia.
Qed.
End Latency.

(** ** Witnesses *)

#[export] Instance sample_logrus : Logrus := {| level := unit; ParseLevel := λ _, inl tt; InfoLevel := tt |}.

Lemma api_optional_witness : ∃ sv,
  main_start (λ _, inl []) (λ _, inl url_config) (λ _, None) (λ _ _, inl tt)
    (λ a, if decide (a = "0.0.0.0:8080"%string) then Some "address already in use"%string else None)
    None ∅ = Ok (inl sv) ∧ s_api sv = Some "address already in use"%string.
Proof.
  eexists. split.
  - eapply (api_optional (λ _, inl []) (λ _, inl url_config) (λ _, None) (λ _ _, inl tt) (λ _, None));
      [reflexivity|by vm_compute].
  - reflexivity.
Defined.
