(* ===== verification/EndToEnd.v ===== *)
(** * EndToEnd: from Produce requests to the bodies POSTed

    The broker and the pipeline joined by the message channel: requests handled
    by the connections, whole or in interleaved sections, messages received by
    the pipeline goroutine, ticks of the two flush loops and cache replays, in
    any order.  A short contract -- a bounded queue
    between the two -- says what such a run does, and the bodies POSTed decode
    to what the messages say. *)
From S2P Require Import Prelude Regexp Float GoLib Utf8 Config Relabel Json Prompb Parser Values LogLines LokiWriter Batch Forwarder Posts Cache Retry CacheJson Pipeline Main.
From S2P Require Wire Records Protocol Broker Replies BrokerSafety Interleave.
Open Scope Z_scope.

(** ** Requests *)

(** A Produce request as a client describes it. *)
Record produce := mkProduce {
  version : Z; corrID : Z; clientID : string; txid : string; acks : Z; timeout : Z;
  topics : list (string * list Broker.part) }.

(** The requests of a run.  Flexible versions are described, the others may hold
    any bytes. *)
Inductive request :=
  | Produce (r : produce)
  | ApiVersions (version corrID : Z) (clientID : string) (rest : bytes)
  | Metadata (version corrID : Z) (clientID : string) (topics : list string) (rest : bytes)
  | Plain (body : bytes).

Definition body_of (r : request) : bytes :=
  match r with
  | Produce r => Broker.enc_header 0 (version r) (corrID r) (clientID r) ++
      Broker.enc_produce (txid r) (acks r) (timeout r) (topics r)
  | ApiVersions version corrID clientID rest => Replies.client_header 18 version corrID clientID ++ rest
  | Metadata version corrID clientID topics rest =>
      Broker.enc_header 3 version corrID clientID ++ Broker.enc_topics (9 <=? version) topics ++ rest
  | Plain body => body
  end.

(** The messages a request delivers, and what a client reads of the answer. *)
Definition delivers (r : request) : list Records.Message :=
  match r with Produce r => Broker.produced (topics r) | _ => [] end.
Definition answered (r : request) (a : option bytes) : Prop := ∃ resp, a = Some resp ∧
  match r with
  | Produce r => Replies.acknowledges (version r) (corrID r) resp
  | ApiVersions version corrID _ _ => Protocol.apiVersions_reply version resp =
      Some (Protocol.mkApiVersionsReply corrID 0 Replies.announced_keys 0, Replies.throttle_extra version)
  | _ => True
  end.

(** A Produce request of an advertised version, laid out as the decoder reads it;
    ApiVersions and Metadata requests of the versions announced; and any bytes
    for a request of another kind than Produce in a version that is not
    flexible. *)
Definition request_ok (r : request) : Prop := len (body_of r) <= BrokerSafety.maxRequest ∧
  match r with
  | Produce p => 0 <= version p < 9 ∧ inS 32 (corrID p) ∧ Wire.Writer.slen (clientID p) < 2 ^ 15 ∧ Wire.Writer.slen (txid p) < 2 ^ 15 ∧
      inS 16 (acks p) ∧ inS 32 (timeout p) ∧ Forall Broker.topic_ok (topics p) ∧ len (topics p) < 2 ^ 31
  | ApiVersions version corrID clientID _ =>
      0 <= version <= 3 ∧ inS 32 corrID ∧ clientID ≠ ""%string ∧ Wire.Writer.slen clientID < 128
  | Metadata version corrID clientID topics _ =>
      0 <= version <= 9 ∧ inS 32 corrID ∧ Wire.Writer.slen clientID < 2 ^ 15 ∧
      Forall (λ t, Wire.Writer.slen t < 2 ^ 15) topics ∧ len topics < 2 ^ 31
  | Plain body => 8 <= len body ∧ BrokerSafety.req_key body ≠ 0 ∧
      Broker.isFlexibleVersion (BrokerSafety.req_key body) (BrokerSafety.req_version body) = false
  end.

(** The channel after a request: what fits is queued, the rest is dropped. *)
Definition offer (ms chan : list Records.Message) : list Records.Message :=
  chan ++ take (Z.to_nat (Broker.chanCap - len chan)) ms.

Definition with_channel (ms : list Records.Message) (b : Broker.Broker) : Broker.Broker :=
  Broker.mkBroker (Broker.cfg b) (Broker.topicSet b) ms (Broker.done_ b).

Lemma offer_nothing chan : offer [] chan = chan.
Proof. unfold offer. by rewrite take_nil, app_nil_r. Qed.

Lemma handleRequest_offers order clock r b : request_ok r →
  ∃ a err b', Broker.handleRequest order clock (body_of r) b = Ok ((a, err), b') ∧
    answered r a ∧ Broker.msgCh b' = offer (delivers r) (Broker.msgCh b).
Proof.
  intros [Hl Hr]. assert (Hs := BrokerSafety.maxRequest_small _ Hl).
  destruct r as [p|version corrID clientID rest|version corrID clientID topics rest|body];
    cbn [body_of delivers] in *; rewrite ?offer_nothing.
  - destruct Hr as (Hv & Hc & Hid & Ht & Ha & Hto & Hts & Hn).
    rewrite Broker.handleRequest_produce by done.
    eexists _, _, _. split; [done|]. split; [|by rewrite Broker.send_all_channel].
    eexists. split; [done|]. by apply Replies.reads_produce.
  - destruct Hr as (Hv & Hc & Hne & Hid).
    destruct (Replies.handleRequest_apiVersions order clock version corrID clientID rest b) as (resp & -> & Hresp);
      [done..|].
    eexists _, _, _. split; [done|]. split; [by eexists|done].
  - destruct Hr as (Hv & Hc & Hid & Hts & Hn).
    rewrite Replies.handleRequest_metadata; try done; [|unfold inS; lia].
    eexists _, _, _. split; [done|]. split; [by eexists|]. apply Replies.autoCreateTopics_same.
  - destruct Hr as (H1 & H2 & H3).
    destruct (BrokerSafety.plain_request_safe order clock body b H1 Hl H2 H3) as (w & b' & H). rewrite H.
    eexists _, _, _. split; [done|]. split; [by eexists|]. by eapply BrokerSafety.other_request_channel.
Qed.

(** A section of a request that shares the broker with others: what it sends, and
    what is known of the response it completes. *)
Definition sent_by (s : Interleave.section) : list Records.Message :=
  match s with Interleave.Send m => [m] | _ => [] end.
Definition completes (s : Interleave.section) : list (option bytes → Prop) :=
  match s with
  | Interleave.Answer w => [λ a, a = Some w]
  | Interleave.Snapshot _ _ => [is_Some]
  | _ => []
  end.
Definition met (ps : list (option bytes → Prop)) (rs : list (option bytes)) : Prop := Forall2 (λ P r, P r) ps rs.

Lemma perform_offers order s b : let '(b', out) := Interleave.perform order s b in
  met (completes s) (map Some out) ∧ Broker.msgCh b' = offer (sent_by s) (Broker.msgCh b).
Proof.
  pose proof (Interleave.perform_spec order 0 s b) as Hs. unfold offer.
  destruct s as [m|req|version corrID|w]; cbn [Interleave.perform Interleave.taken sent_by completes map] in *;
    rewrite ?take_nil, ?app_nil_r; (split; [repeat constructor; eauto|]); try done; [|by rewrite app_nil_r in Hs; apply Hs].
  destruct Hs as (_ & -> & _). f_equal. unfold Interleave.has_room.
  destruct (Z.ltb_spec (len (Broker.msgCh b)) Broker.chanCap).
  - rewrite take_ge; [done|]. cbn [length]. lia.
  - by replace (Z.to_nat _) with 0%nat by lia.
Qed.

Section EndToEnd.
Context {RE : Regexp} (unicode_ToLower : Z → Z)
  (type_error : json → error) (Quote : string → string) (type_name : any → string)
  (snappy_Encode : bytes → bytes) (snappy_Decode : bytes → option bytes)
  (metrics_client loki_client : http_client)
  (unmarshal_entry : bytes → CachedEntry + error) (fs : faults).

Local Abbreviation processMessage := (processMessage unicode_ToLower type_error Quote type_name
  snappy_Encode metrics_client loki_client).
Local Abbreviation react := (react unicode_ToLower type_error Quote type_name
  snappy_Encode metrics_client loki_client).
Local Abbreviation history := (history unicode_ToLower type_error Quote type_name
  snappy_Encode metrics_client loki_client).
Local Abbreviation on_retry := (on_retry unicode_ToLower snappy_Encode metrics_client loki_client).
Local Abbreviation samples_of := (event_samples unicode_ToLower type_error Quote type_name).
Local Abbreviation entries_of := (event_entries unicode_ToLower type_error Quote type_name).

(** ** The bridge *)

Record bridge := mkBridge { kafka : Broker.Broker; prog : program; answers : list (option bytes) }.

Inductive action :=
  | Serve (order : gmap string bool → list string) (clock : Z → time) (r : request)
  | Turn (order : gmap string bool → list string) (s : Interleave.section)
  | Receive (e : env)
  | Tick (e : env)
  | LogsTick (e : env)
  | Replay (e : env) (expired : nat → bool).

Local Abbreviation replayAll := (replayAll unmarshal_entry fs).

Definition bridge_step (mt lt : gmap string bool) (a : action) (s : bridge) : outcome bridge :=
  match a with
  | Serve order clock r =>
      '((resp, _), b) ← Broker.handleRequest order clock (body_of r) (kafka s);
      Ok (mkBridge b (prog s) (answers s ++ [resp]))
  | Turn order x =>
      let '(b, out) := Interleave.perform order x (kafka s) in
      Ok (mkBridge b (prog s) (answers s ++ map Some out))
  | Receive e =>
      match Broker.msgCh (kafka s) with
      | [] => Ok s
      | m :: ms => Ok (mkBridge (with_channel ms (kafka s)) (processMessage mt lt e m (prog s)) (answers s))
      end
  | Tick e => Ok (mkBridge (kafka s) (react mt lt (MetricsTick e) (prog s)) (answers s))
  | LogsTick e => Ok (mkBridge (kafka s) (react mt lt (LogTick e) (prog s)) (answers s))
  | Replay e expired =>
      match diskCache (prog s) with
      | None => Ok s
      | Some c =>
          let '(d, calls) := replayAll c (now e) expired (cacheDir (prog s)) in
          Ok (mkBridge (kafka s) (foldl (λ p x, on_retry e x p) (set_dir d (prog s)) calls) (answers s))
      end
  end.

Fixpoint bridge_run (mt lt : gmap string bool) (acts : list action) (s : bridge) : outcome bridge :=
  match acts with
  | [] => Ok s
  | a :: acts => s ← bridge_step mt lt a s; bridge_run mt lt acts s
  end.

(** The contract: the channel is a queue, and the pipeline sees what it hands
    out, in order; a replay takes files out of the spool directory, if there is a
    cache, and submits what they hold.  The channel at the end, and what drove
    the forwarders. *)
Fixpoint contract (cache : option Cache) (acts : list action) (chan : list Records.Message) (d : directory)
    : list Records.Message * list pevent :=
  match acts with
  | [] => (chan, [])
  | Serve _ _ r :: acts => contract cache acts (offer (delivers r) chan) d
  | Turn _ x :: acts => contract cache acts (offer (sent_by x) chan) d
  | Receive e :: acts =>
      match chan with
      | [] => contract cache acts [] d
      | m :: chan => let '(c, evs) := contract cache acts chan d in (c, Received e m :: evs)
      end
  | Tick e :: acts => let '(c, evs) := contract cache acts chan d in (c, MetricsTick e :: evs)
  | LogsTick e :: acts => let '(c, evs) := contract cache acts chan d in (c, LogTick e :: evs)
  | Replay e expired :: acts =>
      match cache with
      | None => contract cache acts chan d
      | Some k =>
          let '(d', calls) := replayAll k (now e) expired d in
          let '(c, evs) := contract cache acts chan d' in (c, replay_events e d' calls ++ evs)
      end
  end.

(** The responses, in the order in which they are complete. *)
Definition expected (a : action) : list (option bytes → Prop) :=
  match a with Serve _ _ r => [answered r] | Turn _ x => completes x | _ => [] end.

(** Go visits every key of a map once, in some order. *)
Definition valid_env (e : env) : Prop :=
  valid_orders (relabeling e) ∧ (∀ i ls, valid_order ls (fp_order e i ls)) ∧ ∀ m, valid_order m (group_order e m).
Definition action_ok (a : action) : Prop :=
  match a with Serve _ _ r => request_ok r | Turn _ _ => True | Receive e | Tick e | LogsTick e | Replay e _ => valid_env e end.

Lemma bridge_run_contract mt lt acts : Forall action_ok acts → ∀ s,
  let '(chan, evs) := contract (diskCache (prog s)) acts (Broker.msgCh (kafka s)) (cacheDir (prog s)) in
  ∃ s' rs, bridge_run mt lt acts s = Ok s' ∧ Broker.msgCh (kafka s') = chan ∧
    prog s' = history mt lt evs (prog s) ∧
    answers s' = answers s ++ rs ∧ met (concat (map expected acts)) rs.
Proof.
  induction 1 as [|a acts Ha _ IH]; intros s; cbn [bridge_run contract].
  { exists s, []. cbn [map concat]. rewrite app_nil_r. split_and!; [done..|constructor]. }
  destruct a as [order clock r|order x|e|e|e|e expired]; cbn [bridge_step].
  - destruct (handleRequest_offers order clock r (kafka s) Ha) as (a & err & b' & -> & Hans & Hch).
    cbn [mbind outcome_bind]. specialize (IH (mkBridge b' (prog s) (answers s ++ [a]))).
    cbn [kafka prog answers] in IH. rewrite Hch in IH. destruct (contract _ acts _ _) as [chan evs].
    destruct IH as (s' & rs & H1 & H2 & H3 & H4 & H5).
    exists s', (a :: rs). split_and!; [done..| |by constructor]. by rewrite H4, <- app_assoc.
  - pose proof (perform_offers order x (kafka s)) as Hx.
    destruct (Interleave.perform order x (kafka s)) as [b' out]. destruct Hx as [Hans Hch].
    cbn [mbind outcome_bind]. specialize (IH (mkBridge b' (prog s) (answers s ++ map Some out))).
    cbn [kafka prog answers] in IH. rewrite Hch in IH. destruct (contract _ acts _ _) as [chan evs].
    destruct IH as (s' & rs & H1 & H2 & H3 & H4 & H5).
    exists s', (map Some out ++ rs). split_and!; [done..| |by apply Forall2_app]. by rewrite H4, <- app_assoc.
  - destruct (Broker.msgCh (kafka s)) as [|m ms] eqn:Em; cbn [mbind outcome_bind].
    + specialize (IH s). by rewrite Em in IH.
    + specialize (IH (mkBridge (with_channel ms (kafka s)) (processMessage mt lt e m (prog s)) (answers s))).
      cbn [kafka prog answers with_channel Broker.msgCh] in IH.
      destruct (processMessage_same unicode_ToLower type_error Quote type_name snappy_Encode metrics_client
        loki_client mt lt e m (prog s)) as (Hc & Hd & _).
      rewrite Hc, Hd in IH.
      by destruct (contract _ acts _ _) as [chan evs].
  - cbn [mbind outcome_bind]. specialize (IH (mkBridge (kafka s) (react mt lt (MetricsTick e) (prog s)) (answers s))).
    cbn [kafka prog answers Pipeline.react] in IH.
    destruct (metrics_tick_same unicode_ToLower snappy_Encode metrics_client e (prog s)) as (Hc & Hd & _).
    rewrite Hc, Hd in IH.
    by destruct (contract _ acts _ _) as [chan evs].
  - cbn [mbind outcome_bind]. specialize (IH (mkBridge (kafka s) (react mt lt (LogTick e) (prog s)) (answers s))).
    cbn [kafka prog answers Pipeline.react] in IH.
    destruct (log_tick_same unicode_ToLower loki_client e (prog s)) as (Hc & Hd & _).
    rewrite Hc, Hd in IH.
    by destruct (contract _ acts _ _) as [chan evs].
  - destruct (diskCache (prog s)) as [k|] eqn:Ek; cbn [mbind outcome_bind]; [|specialize (IH s); by rewrite Ek in IH].
    destruct (replayAll k (now e) expired (cacheDir (prog s))) as [d' calls] eqn:Er. cbn [mbind outcome_bind].
    specialize (IH (mkBridge (kafka s) (foldl (λ p x, on_retry e x p) (set_dir d' (prog s)) calls) (answers s))).
    cbn [kafka prog answers] in IH.
    destruct (retries_same unicode_ToLower snappy_Encode metrics_client loki_client e calls (set_dir d' (prog s))) as (Hc & Hd & _).
    rewrite Hc, Hd in IH. cbn [diskCache cacheDir set_dir] in IH. rewrite Ek in IH.
    destruct (contract _ acts _ _) as [chan evs]. destruct IH as (s' & rs & H1 & H2 & H3 & H4).
    exists s', rs. split; [done|]. split; [done|]. split; [|done]. rewrite H3.
    unfold Pipeline.history. rewrite foldl_app. f_equal.
    by rewrite (replay_history unicode_ToLower type_error Quote type_name snappy_Encode metrics_client loki_client mt lt).
Qed.

(** What the spool directory holds at start-up is fit to be sent: written by the
    parser, say. *)
Definition spool_good (d : directory) : Prop := ∀ n data entry, d !! n = Some data →
  unmarshal_entry data = inl entry → Forall sample_good (ce_Metrics entry) ∧ Forall entry_good (ce_Logs entry).

Definition event_ok (ev : pevent) : Prop :=
  valid_env (event_env ev) ∧
  match ev with
  | RetriedMetrics _ samples => Forall sample_good samples
  | RetriedLog _ entry => entry_good entry
  | _ => True
  end.

Lemma replay_events_ok k e expired d : valid_env e → spool_good d →
  let '(d', calls) := replayAll k (now e) expired d in Forall event_ok (replay_events e d' calls) ∧ spool_good d'.
Proof.
  intros He Hd. pose proof (replayAll_calls unmarshal_entry fs k (now e) expired d) as Hc.
  pose proof (replayAll_subseteq unmarshal_entry fs k (now e) expired d) as Hs.
  destruct (replayAll k (now e) expired d) as [d' calls]. cbn [fst snd] in *. split.
  - constructor; [done|]. apply Forall_concat, Forall_map. eapply Forall_impl; [exact Hc|].
    intros cl (n & data & entry & Hn & Hu & Hcl). destruct (Hd _ _ _ Hn Hu) as [Hm Hl].
    destruct Hcl as [->| ->]; cbn [call_events]; [by apply Forall_singleton|].
    apply Forall_map. eapply Forall_impl; [exact Hl|]. by intros x Hx.
  - intros n data entry Hn. apply (Hd n). by eapply lookup_weaken.
Qed.

Lemma contract_ok cache acts : Forall action_ok acts → ∀ chan d, spool_good d →
  Forall event_ok (contract cache acts chan d).2.
Proof.
  induction 1 as [|a acts Ha _ IH]; intros chan d Hd; cbn [contract]; [constructor|].
  destruct a as [order clock r|order x|e|e|e|e expired]; [by apply IH|by apply IH|destruct chan as [|m chan]; [by apply IH|]|..].
  1-3: specialize (IH chan d Hd); destruct (contract cache acts chan d); by constructor.
  destruct cache as [k|]; [|by apply IH]. pose proof (replay_events_ok k e expired d Ha Hd) as Hr.
  destruct (replayAll k (now e) expired d) as [d' calls]. destruct Hr as [Hr Hd']. specialize (IH chan d' Hd').
  destruct (contract (Some k) acts chan d') as [c evs]. by apply Forall_app.
Qed.

(** Samples from the parser are fit to be encoded. *)
Lemma event_samples_good mt ev : event_ok ev → Forall sample_good (samples_of mt ev).
Proof.
  destruct ev as [e m|e|e|e samples|e x|e d]; intros [_ Hok]; [|done || constructor..].
  cbn [event_samples]. unfold routed, Parse_msg. cbn [fst snd].
  destruct (Parse _ _ _ _ _ _ _ _) as [pm|err] eqn:Ep; [|constructor].
  destruct (in_topics mt _); [|constructor].
  apply Forall_and. split; [by eapply Parse_values|].
  apply Parse_ok in Ep as (_ & _ & Hpm). destruct (p_Kind pm); [..|done].
  1-2: destruct Hpm as [_ Hs]; eapply Forall_impl; [exact Hs|]; intros s [_ Hn _ _]; exact Hn.
  all: destruct Hpm as [-> _]; constructor.
Qed.

Lemma event_entries_good lt ev : event_ok ev → Forall entry_good (entries_of lt ev).
Proof.
  destruct ev as [e m|e|e|e samples|e x|e d]; intros [_ Hok]; [|(constructor; fail) || by repeat constructor..].
  cbn [event_entries]. unfold routed_log, Parse_msg. cbn [fst snd].
  destruct (Parse _ _ _ _ _ _ _ _) as [pm|err] eqn:Ep; [|constructor].
  destruct (in_topics lt _); [|constructor]. destruct (p_LogEntry pm) as [x|] eqn:Ex; constructor; [|constructor].
  by eapply Parse_line_utf8.
Qed.

(** ** Start-up *)

Lemma startup_inv MkdirAll ReadFile LoadX509KeyPair conf d p :
  startup MkdirAll ReadFile LoadX509KeyPair conf d = Ok (inl p) →
  ∃ me le, Relabel.New (RelabelConfigs conf) = inl me ∧ Relabel.New (LogRelabelCfgs conf) = inl le ∧
    metricsFwd p = mkMetricsForwarder (RemoteWrite conf) (ExtraLabels conf) me [] ∧
    logFwd p = mkLogForwarder (Loki conf) (ExtraLabels conf) le (lk_URL (Loki conf)) [] ∧ sent p = [] ∧ cacheDir p = d.
Proof.
  unfold startup, NewMetricsForwarder, NewLogForwarder, NewTicker.
  destruct (Cache.New _ _) as [[dc|?]| |]; [|done..].
  destruct (Relabel.New (RelabelConfigs conf)) as [me|?]; [|done].
  destruct (buildHTTPClient _ _ (rw_TLS (RemoteWrite conf))); [done|].
  destruct (0 <? rw_FlushInterval (RemoteWrite conf)); [|done].
  destruct (Relabel.New (LogRelabelCfgs conf)) as [le|?]; [|done].
  destruct (buildHTTPClient _ _ (lk_TLS (Loki conf))); [done|].
  destruct (0 <? lk_FlushInterval (Loki conf)); [|done].
  intros H. exists me, le. injection H as <-. done.
Qed.

(** ** Properties *)

(** C1. From the wire to the wire.  Start the program on a configuration file
    without labelmap rules, with extra labels that have names and URLs that
    parse, over spooled files that are fit to be sent.  Let requests, receptions,
    flush ticks and cache replays come in any order; requests are handled whole,
    or as the sections and sends of several connections in any interleaving.  A
    Produce request has its batches laid out as the decoder reads them; other
    requests are ApiVersions and Metadata of the announced versions, or any bytes
    in a version that is not flexible ([request_ok]).  The run never fails; what a
    client decodes from the answers to its Produce and ApiVersions requests is
    success; the channel is the bounded queue of the contract, which drops what
    does not fit; and the bodies POSTed to remote_write so far decode, one after the other, to exactly the series of
    the samples flushed so far that the rules keep -- right labels, value and
    millisecond, none lost, duplicated or out of order -- where the samples
    flushed and those still pending are, in order, what the messages received
    contain for metrics topics and what the replayed files hold.  The bodies POSTed to Loki likewise hold exactly
    the kept lines, each under its own labels when these are plain. *)
Theorem bridge_end_to_end {LR : Logrus} (ReadFile : string → bytes + error) (yamlUnmarshal : bytes → Config + error)
    (MkdirAll : string → option error) (LoadX509KeyPair : string → string → unit + error)
    (Listen : string → option error) (given : option string) (d : directory) (sv : service) (acts : list action) :
  main_start ReadFile yamlUnmarshal MkdirAll LoadX509KeyPair Listen given d = Ok (inl sv) →
  let conf := s_conf sv in let p := s_prog sv in
  names_ok (ExtraLabels conf) →
  no_labelmap unicode_ToLower (mf_relabelEng (metricsFwd p)) →
  no_labelmap unicode_ToLower (lf_relabelEng (logFwd p)) →
  NewRequest metrics_client (rw_URL (RemoteWrite conf)) = None → NewRequest loki_client (lk_URL (Loki conf)) = None →
  (∀ d, snappy_Decode (snappy_Encode d) = Some d) →
  spool_good d → Forall action_ok acts →
  let '(chan, evs) := contract (diskCache p) acts [] d in
  ∃ s, bridge_run (metricsFilter sv) (logFilter sv) acts (mkBridge (s_broker sv) p []) = Ok s ∧
    Broker.msgCh (kafka s) = chan ∧ met (concat (map expected acts)) (answers s) ∧
    (∃ flushed, flushed ++ mf_pending (metricsFwd (prog s)) = concat (map (samples_of (metricsFilter sv)) evs) ∧
      (bodies_fit snappy_Decode (own metrics_request (prog s)) → ∃ wrs,
        Forall2 (reads_series snappy_Decode) (own metrics_request (prog s)) wrs ∧
        Forall2 carries (concat (map Timeseries wrs))
          (omap (kept_sample unicode_ToLower (mf_relabelEng (metricsFwd p)) (ExtraLabels conf)) flushed))) ∧
    ∃ flushed, flushed ++ lf_pending (logFwd (prog s)) = concat (map (entries_of (logFilter sv)) evs) ∧
      ∃ sss, Forall2 reads_streams (own log_request (prog s)) sss ∧
        streams_carry (concat sss)
          (omap (kept_entry unicode_ToLower (lf_relabelEng (logFwd p)) (ExtraLabels conf)) flushed).
Proof.
  intros Hstart conf p Hx Hmr Hlr Hmu Hlu Hsn Hd Hacts.
  apply main_start_inv in Hstart as (_ & Hst & Hkb & _ & _ & _ & _ & _). fold conf p in Hst, Hkb. rewrite Hkb.
  generalize (metricsFilter sv) (logFilter sv). intros mt lt. clearbody conf p. clear Hkb sv.
  apply startup_inv in Hst as (me & le & _ & _ & Hm & Hl & Hsent & Hdir).
  pose proof (bridge_run_contract mt lt acts Hacts (mkBridge (Broker.New (Kafka conf)) p [])) as Hrun.
  pose proof (contract_ok (diskCache p) acts Hacts [] d Hd) as Hok. cbn [kafka prog answers Broker.New Broker.msgCh] in *.
  rewrite Hdir in Hrun. destruct (contract _ acts [] d) as [chan evs]. cbn [snd] in Hok.
  destruct Hrun as (s & rs & H1 & H2 & H3 & H4 & H5).
  exists s. split; [done|]. split; [done|]. split; [by rewrite H4|]. rewrite H3. rewrite Hm, Hl in *. cbn in Hmr, Hlr.
  assert (Hown : ∀ k, own k p = []) by (intros k; unfold own; by rewrite Hsent).
  assert (Henvs : ∀ {B} (bs : list (env * list B)), Forall (λ eb, eb.1 ∈ map event_env evs ∧ eb.2 ≠ []) bs →
    Forall (λ eb, valid_env eb.1) bs).
  { intros B bs H. eapply Forall_impl; [exact H|]. intros eb [Hin _]. rewrite Forall_forall in Hok.
    apply list_elem_of_fmap in Hin as (ev & -> & Hin). by apply Hok. }
  split.
  - destruct (path_conserves _ _ _ _ _ _ _ (metrics_path unicode_ToLower type_error Quote type_name snappy_Encode
      metrics_client loki_client mt lt) evs p) as (bs & B1 & B2 & B3).
    cbn [queue contributed mine requests metrics_path] in B1, B2. rewrite Hown, Hm in *. cbn [mf_pending app] in B1, B2.
    exists (concat (map snd bs)). split; [done|]. rewrite B2. intros Hfit.
    apply (batches_posts unicode_ToLower snappy_Encode snappy_Decode metrics_client Hsn relabeling
      (mkMetricsForwarder (RemoteWrite conf) (ExtraLabels conf) me []) bs); try done.
    + eapply Forall_impl; [exact (Henvs _ _ B3)|]. by intros eb [? _].
    + assert (Hall : Forall sample_good (concat (map (samples_of mt) evs)))
        by (apply Forall_concat, Forall_fmap; eapply Forall_impl; [exact Hok|apply event_samples_good]).
      rewrite <- B1 in Hall. by apply Forall_app in Hall as [Hall _].
  - destruct (path_conserves _ _ _ _ _ _ _ (log_path unicode_ToLower type_error Quote type_name snappy_Encode
      metrics_client loki_client mt lt) evs p) as (bs & B1 & B2 & B3).
    cbn [queue contributed mine requests log_path] in B1, B2. rewrite Hown, Hl in *. cbn [lf_pending app] in B1, B2.
    exists (concat (map snd bs)). split; [done|]. rewrite B2.
    apply (log_batches_posts unicode_ToLower loki_client relabeling fp_order group_order
      (mkLogForwarder (Loki conf) (ExtraLabels conf) le (lk_URL (Loki conf)) []) bs); try done.
    + exact (Henvs _ _ B3).
    + assert (Hall : Forall entry_good (concat (map (entries_of lt) evs)))
        by (apply Forall_concat, Forall_fmap; eapply Forall_impl; [exact Hok|apply event_entries_good]).
      rewrite <- B1 in Hall. by apply Forall_app in Hall as [Hall _].
Qed.
End EndToEnd.

(** ** Witness

    A client asks for the versions, tries to authenticate, creates a topic and
    sends a health report and an alert in one Produce request, while another's
    Metadata request creates a topic and gets its listing; both messages are
    received, a file left by an earlier run is replayed, and both loops tick. *)

Definition e2e_conf : Config := applyDefaults
  (mkConfig (mkKafkaConfig "" "" "" 0 [] true 0 0)
    (mkRemoteWriteConfig "http://vm:8428/api/v1/write" 0 "" "" (mkTLSConfig false "" "" "") 0 0)
    (mkLokiConfig "http://loki:3100" 0 (mkTLSConfig false "" "" "") 0 0)
    (mkCacheConfig true "" 0 0 0) {["environment" := "production"]}
    [mk_rule ["__name__"] "" "ome_health_rollup_status" "" "drop"] []
    (mkTopicRoutingConfig [] []) "" (mkLogConfig "" ""))%string.

Definition json_record (b : bytes) : Records.rec := Records.mkRec 0 0 0 None (Some b) [].
Definition json_part (b : bytes) : Broker.part :=
  Broker.mkPart 0 0 (Records.plain_header 1700000000000) [json_record b].
Definition e2e_produce : produce := mkProduce 7 5 "ome" "" 1 1000
  [("ome.health", [json_part sample_health_bytes]); ("ome.alerts", [json_part (json_bytes "{}")])]%string.
Definition e2e_acts : list action :=
  [Serve Broker.map_keys (λ _, 0) (ApiVersions 3 4 "ome" []);
   Serve Broker.map_keys (λ _, 0) (Plain (Broker.enc_header 17 0 5 "ome"));
   Serve Broker.map_keys (λ _, 0) (Metadata 9 6 "ome" ["ome.telemetry"%string] []);
   Turn Broker.map_keys (Interleave.Create ["ome.audit"%string]);
   Serve Broker.map_keys (λ _, 0) (Produce e2e_produce);
   Turn Broker.map_keys (Interleave.Snapshot 1 7);
   Receive sample_env; Replay sample_env (λ _, false); Tick sample_env; Receive sample_env; LogsTick sample_env].

(** One sample, stored a second before. *)
Definition e2e_entry : CachedEntry :=
  mkCachedEntry "metrics_1" EntryKindMetrics 1699999999000000000 [spooled_sample] [].
Definition e2e_spool : directory :=
  match marshal_entry 0 (λ _, 0) e2e_entry with inl data => {["metrics_1.json" := data]} | inr _ => ∅ end.

Lemma e2e_spool_good : spool_good (unmarshal_entry sample_type_error) e2e_spool.
Proof.
  intros n data entry. unfold e2e_spool. destruct (marshal_entry 0 (λ _, 0) e2e_entry) as [data'|] eqn:Em; [|done].
  intros [<- <-]%lookup_singleton_Some.
  assert (Hu : utf8_entry e2e_entry).
  { split_and!; [apply valid_utf8_ascii; reflexivity|done|apply valid_utf8_ascii; reflexivity| |constructor].
    apply Forall_singleton. split; [apply valid_utf8_ascii; reflexivity|]. split.
    - apply map_Forall_singleton. split; apply valid_utf8_ascii; reflexivity.
    - vm_compute. split; congruence. }
  rewrite (entry_back sample_type_error 0 (λ _, 0) (λ _, eq_refl) eq_refl _ _ Hu Em). intros [= <-].
  split; [|constructor]. apply Forall_singleton. split; [vm_compute; split; congruence|reflexivity].
Qed.

Local Abbreviation e2e_start := (main_start (λ _, inl []) (λ _, inl e2e_conf) (λ _, None) (λ _ _, inl tt) (λ _, None)
  None e2e_spool).
Local Abbreviation e2e_run sv := (bridge_run no_table sample_type_error no_Quote no_type_name id up up
  (unmarshal_entry sample_type_error) no_faults (metricsFilter sv) (logFilter sv) e2e_acts (mkBridge (s_broker sv) (s_prog sv) [])).

Lemma json_part_ok b : (len b <? 2 ^ 31) && (len (Records.enc_rec_body (json_record b)) <? 2 ^ 31) = true →
  Broker.part_ok (json_part b).
Proof.
  intros [H1 H2]%andb_true_iff. apply Z.ltb_lt in H1, H2.
  split; cbn [Broker.p_index Broker.p_size Broker.p_header Broker.p_recs json_part];
    [unfold inS; lia..|apply Records.plain_header_ok; unfold inS; lia| |done].
  apply Forall_singleton. split; try done; unfold inS; cbn; lia.
Qed.

Lemma e2e_acts_ok : Forall action_ok e2e_acts.
Proof.
  assert (He : valid_env sample_env).
  { split; [apply fwd_orders_valid|]. split; [apply turning_order_valid|intros; apply some_order_valid]. }
  repeat apply Forall_cons_2; try exact He; try exact I; [split; [by vm_compute|]..|by constructor];
    cbn [request_ok version corrID clientID txid acks timeout topics e2e_produce].
  - split_and!; unfold inS; (lia || done).
  - split_and!; by vm_compute.
  - split_and!; try (unfold inS; lia); try done. by apply Forall_singleton.
  - split_and!; try (unfold inS; lia); try done.
    repeat apply Forall_cons_2; [..|apply Forall_nil_2]; (split_and!; [done| |done]);
      apply Forall_singleton, json_part_ok; by vm_compute.
Qed.

Lemma bridge_end_to_end_witness : ∃ sv s wrs sss,
  e2e_start = Ok (inl sv) ∧ e2e_run sv = Ok s ∧
  Forall2 (reads_series Some) (own metrics_request (prog s)) wrs ∧
  map Samples (concat (map Timeseries wrs)) =
    [[mkSample (float64_of_int 17) 1700000000000]; [mkSample (float64_of_int 1000) 1700000000000];
     [mkSample (float64_of_int 3000) 1700000000000]; [mkSample (float64_of_int 23) 1709208000250]] ∧
  Forall2 reads_streams (own log_request (prog s)) sss ∧
  map head (concat (map Values (concat sss))) ≡ₚ [Some "1700000000000000000"%string].
Proof.
  destruct e2e_start as [[sv|err]| |] eqn:Ep; [|discriminate Ep..].
  pose proof (bridge_end_to_end no_table sample_type_error no_Quote no_type_name id Some up up
    (unmarshal_entry sample_type_error) no_faults (λ _, inl []) (λ _, inl e2e_conf) (λ _, None) (λ _ _, inl tt) (λ _, None) None e2e_spool sv e2e_acts Ep) as H.
  injection Ep as Ep. cbn zeta in H.
  destruct (contract _ _ _ e2e_acts [] e2e_spool) as [chan evs] eqn:Ec.
  destruct H as (s & Hs & _ & _ & (fm & Hfm & Hm) & fl & Hfl & sss & Hss & Hv & _).
  - rewrite <- Ep. by vm_compute.
  - rewrite <- Ep. repeat constructor; by vm_compute.
  - rewrite <- Ep. constructor.
  - done.
  - done.
  - done.
  - exact e2e_spool_good.
  - exact e2e_acts_ok.
  - exists sv, s.
    assert (Hall : match e2e_run sv with
      | Ok s => forallb (λ req, len (req_Body req) <? 2 ^ 63) (own metrics_request (prog s)) = true ∧
          mf_pending (metricsFwd (prog s)) = [] ∧ lf_pending (logFwd (prog s)) = []
      | _ => False end) by (rewrite <- Ep; vm_compute; auto).
    rewrite Hs in Hall. destruct Hall as (Hfit & Hpm & Hpl).
    rewrite Hpm, app_nil_r in Hfm. rewrite Hpl, app_nil_r in Hfl. subst fm fl.
    destruct Hm as (wrs & H1 & H2).
    { apply Forall_forall. intros req Hin d [= <-]. rewrite forallb_forall in Hfit.
      apply Z.ltb_lt, Hfit. by apply list_elem_of_In. }
    exists wrs, sss. split; [by rewrite <- Ep|]. split; [exact Hs|]. split; [exact H1|]. split; [|split; [exact Hss|]].
    + transitivity (map (λ ls : labels * MetricSample, [mkSample (m_Value ls.2) (UnixMilli (m_Timestamp ls.2))])
        (omap (kept_sample no_table (mf_relabelEng (metricsFwd (s_prog sv))) (ExtraLabels (s_conf sv)))
          (concat (map (event_samples no_table sample_type_error no_Quote no_type_name
            (metricsFilter sv)) evs)))).
      * clear -H2. induction H2 as [|ts ls l1 l2 [_ Hc] _ IH]; [done|]. cbn [map]. by rewrite Hc, IH.
      * apply (f_equal snd) in Ec. cbn [snd] in Ec. rewrite <- Ec. clear Ec. rewrite <- Ep. vm_compute. reflexivity.
    + rewrite Hv. apply (f_equal snd) in Ec. cbn [snd] in Ec. rewrite <- Ec. clear Ec. rewrite <- Ep. vm_compute. reflexivity.
Defined.
