(* ===== verification/Shutdown.v ===== *)
(** * Shutdown: main.go, the goroutines and the shutdown sequence

    The whole process as a transition system: main waiting for a signal and
    then closing one component after the other, the broker's connections
    delivering messages, the pipeline goroutine, the two forwarder queues of
    [Batch] with their flush loops, and the cache's retry loop.  The process
    ends when main returns: from then on nobody takes a step.  The goroutine of
    a Submit that found the queue full owes it a flush ([owed]) and may here go
    on before it: the code's runs, in which it does not, are among the model's. *)
From S2P Require Import Prelude Regexp GoLib Config Relabel Json Parser Batch Forwarder Pipeline.
From S2P Require Records Broker.
Open Scope Z_scope.

(** The statement main executes next. *)
Inductive main_point :=
  | Waiting          (* <-sigCh *)
  | Cancel           (* cancel() *)
  | BrokerClose      (* kb.Close() *)
  | MetricsClose     (* metricsFwd.Close() *)
  | LogsClose        (* logFwd.Close() *)
  | CacheClose       (* diskCache.Close() *)
  | ServerShutdown   (* srv.Shutdown, which gives up after ten seconds *)
  | Exited.

Definition remaining_statements (pc : main_point) : nat :=
  match pc with
  | Waiting => 7 | Cancel => 6 | BrokerClose => 5 | MetricsClose => 4 | LogsClose => 3
  | CacheClose => 2 | ServerShutdown => 1 | Exited => 0
  end.

Definition exited (pc : main_point) : bool := match pc with Exited => true | _ => false end.

(** Where the pipeline goroutine stands: in its select; in processMessage, with
    the metrics or the log part of a message still to be submitted; or gone. *)
Inductive worker_state :=
  | Idle
  | Metrics (em : env * Records.Message)
  | Logs (em : env * Records.Message)
  | Gone.

(** [retry] is the cache's retry loop, absent when the cache is disabled.
    [accepted], [handled] and [retried] record the history: the messages the
    channel took, those the pipeline received, and what was submitted again
    from the cache. *)
Record proc_state := mkProc {
  pc : main_point; cancelled : bool; kb : Broker.Broker; worker : worker_state;
  mq : @system MetricSample; lq : @system LogEntry; retry : option loop_state;
  accepted : list Records.Message; handled : list (env * Records.Message);
  retried_samples : list MetricSample; retried_logs : list LogEntry }.

(** [close(f.done)] and [close(c.done)]: closing twice panics. *)
Definition close_loop (l : loop_state) : outcome loop_state :=
  match l with Running => Ok Closing | _ => Panic PanicCloseClosed end.
Definition running (l : loop_state) : bool := match l with Running => true | _ => false end.
Definition close_queue {A} (q : @system A) : outcome system := l ← close_loop (loop q); Ok (set_loop l q).
Definition close_retry (r : option loop_state) : outcome (option loop_state) :=
  match r with Some l => l ← close_loop l; Ok (Some l) | None => Ok None end.

Section Shutdown.
Context {RE : Regexp} (unicode_ToLower : Z → Z)
  (type_error : json → error) (Quote : string → string) (type_name : any → string)
  (mt lt : gmap string bool) (mB lB : Z).
Local Abbreviation samples := (routed unicode_ToLower type_error Quote type_name mt).
Local Abbreviation entries_of := (routed_log unicode_ToLower type_error Quote type_name lt).

Definition main_step (s : proc_state) : outcome proc_state :=
  let '(mkProc pc cn kb wk mq lq rt ac hd rs rl) := s in
  match pc with
  | Waiting => Ok (mkProc Cancel cn kb wk mq lq rt ac hd rs rl)
  | Cancel => Ok (mkProc BrokerClose true kb wk mq lq rt ac hd rs rl)
  | BrokerClose => kb ← Broker.Close kb; Ok (mkProc MetricsClose cn kb wk mq lq rt ac hd rs rl)
  | MetricsClose => mq ← close_queue mq; Ok (mkProc LogsClose cn kb wk mq lq rt ac hd rs rl)
  | LogsClose => lq ← close_queue lq; Ok (mkProc CacheClose cn kb wk mq lq rt ac hd rs rl)
  | CacheClose => rt ← close_retry rt; Ok (mkProc ServerShutdown cn kb wk mq lq rt ac hd rs rl)
  | ServerShutdown | Exited => Ok (mkProc Exited cn kb wk mq lq rt ac hd rs rl)
  end.

(** What the goroutines do.  A connection that is reading a request when the
    broker closes still delivers its records; the pipeline's select may pick a
    message even when the context is cancelled, and parses it and submits what it
    holds in further steps; the retry loop may be in the
    middle of a replay when it is told to stop. *)
Inductive action :=
  | ActMain
  | ActDeliver (m : Records.Message)
  | ActReceive (e : env)
  | ActSubmitMetrics
  | ActSubmitLog
  | ActStop
  | ActMetrics (ev : @event MetricSample)
  | ActLogs (ev : @event LogEntry)
  | ActRetryMetrics (xs : list MetricSample)
  | ActRetryLog (x : LogEntry)
  | ActRetryStop.

(** The events of a queue that its own goroutines cause. *)
Definition internal {A} (ev : @event A) : bool :=
  match ev with EvSubmit _ | EvClose => false | _ => true end.

(** Submit, not called for no items at all. *)
Definition submit {A} (B : Z) (xs : list A) (q : system) : system :=
  match xs with [] => q | _ => default q (Batch.step B q (EvSubmit xs)) end.

Definition alive (r : option loop_state) : bool :=
  match r with Some Running | Some Closing => true | _ => false end.

(** One step; [None] when the action is not enabled. *)
Definition act (s : proc_state) (a : action) : option (outcome proc_state) :=
  let '(mkProc pc cn kb wk mq lq rt ac hd rs rl) := s in
  if exited pc then None
  else
    match a with
    | ActMain => Some (main_step s)
    | ActDeliver m =>
        let ac := if len (Broker.msgCh kb) <? Broker.chanCap then ac ++ [m] else ac in
        Some (Ok (mkProc pc cn (Broker.send_msg kb m) wk mq lq rt ac hd rs rl))
    | ActReceive e =>
        match wk, Broker.msgCh kb with
        | Idle, m :: ms =>
            let kb := Broker.mkBroker (Broker.cfg kb) (Broker.topicSet kb) ms (Broker.done_ kb) in
            Some (Ok (mkProc pc cn kb (Metrics (e, m)) mq lq rt ac (hd ++ [(e, m)]) rs rl))
        | _, _ => None
        end
    | ActSubmitMetrics =>
        match wk with
        | Metrics em => Some (Ok (mkProc pc cn kb (Logs em) (submit mB (samples em) mq) lq rt ac hd rs rl))
        | _ => None
        end
    | ActSubmitLog =>
        match wk with
        | Logs em => Some (Ok (mkProc pc cn kb Idle mq (submit lB (entries_of em) lq) rt ac hd rs rl))
        | _ => None
        end
    | ActStop =>
        match wk with
        | Idle => if cn then Some (Ok (mkProc pc cn kb Gone mq lq rt ac hd rs rl)) else None
        | _ => None
        end
    | ActMetrics ev =>
        if internal ev
        then mq ← Batch.step mB mq ev; Some (Ok (mkProc pc cn kb wk mq lq rt ac hd rs rl)) else None
    | ActLogs ev =>
        if internal ev
        then lq ← Batch.step lB lq ev; Some (Ok (mkProc pc cn kb wk mq lq rt ac hd rs rl)) else None
    | ActRetryMetrics xs =>
        if alive rt then Some (Ok (mkProc pc cn kb wk (submit mB xs mq) lq rt ac hd (rs ++ xs) rl)) else None
    | ActRetryLog x =>
        if alive rt then Some (Ok (mkProc pc cn kb wk mq (submit lB [x] lq) rt ac hd rs (rl ++ [x]))) else None
    | ActRetryStop =>
        match rt with
        | Some Closing => Some (Ok (mkProc pc cn kb wk mq lq (Some Stopped) ac hd rs rl))
        | _ => None
        end
    end.

(** After start-up: the broker is new, the loops run. *)
Definition boot (c : KafkaConfig) (cache : bool) : proc_state :=
  mkProc Waiting false (Broker.New c) Idle Batch.init Batch.init (if cache then Some Running else None)
    [] [] [] [].

Inductive reachable (c : KafkaConfig) (cache : bool) : proc_state → Prop :=
  | reach_boot : reachable c cache (boot c cache)
  | reach_act s a s' : reachable c cache s → act s a = Some (Ok s') → reachable c cache s'.

Fixpoint run (s : proc_state) (acts : list action) : option proc_state :=
  match acts with
  | [] => Some s
  | a :: acts => match act s a with Some (Ok s) => run s acts | _ => None end
  end.

(** ** Queues *)

Lemma submit_step {A} B (xs : list A) q : ∃ ow,
  submit B xs q = mkSystem (pending q ++ xs) ow (inflight q) (finished q) (loop q) (taken q) (submitted q ++ xs).
Proof using Type.
  destruct xs as [|x xs]; [exists (owed q); rewrite !app_nil_r; by destruct q|]. by eexists.
Qed.

Lemma submit_inv {A} B (xs : list A) q : inv B q → inv B (submit B xs q).
Proof using Type. intros H. destruct xs as [|x xs]; [done|]. by apply (step_inv B q (EvSubmit (x :: xs))). Qed.

Lemma internal_step {A} B (q q' : @system A) ev : internal ev = true → Batch.step B q ev = Some q' →
  submitted q' = submitted q ∧ running (loop q') = running (loop q) ∧
  ((loop q = Stopped → pending q = []) → loop q' = Stopped → pending q' = []).
Proof using Type.
  assert (Ht : ∀ q : @system A, submitted (flush_take q) = submitted q ∧ loop (flush_take q) = loop q ∧
    pending (flush_take q) = []).
  { intros r. unfold flush_take. destruct (take_batch_spec (pending r)) as [[Hp ->]|[_ ->]]; done. }
  intros Hi. destruct ev as [xs| | | | |i]; try done; cbn [Batch.step].
  - destruct (owed q) as [|n]; [done|]. intros [= <-]. destruct (Ht (set_owed n q)) as (-> & -> & ->). done.
  - destruct (loop q) eqn:El; [..|done]; intros [= <-]; destruct (Ht q) as (-> & -> & ->); by rewrite El.
  - destruct (loop q) eqn:El; try done. intros [= <-]. destruct (Ht (set_loop Stopped q)) as (-> & -> & ->). done.
  - destruct (inflight q !! i) as [b|]; [|done]. cbn. intros [= <-]. done.
Qed.

(** ** The invariant *)

(** What the pipeline goroutine has received and not yet submitted. *)
Definition held_samples (wk : worker_state) : list MetricSample :=
  match wk with Metrics em => samples em | _ => [] end.
Definition held_entries (wk : worker_state) : list LogEntry :=
  match wk with Metrics em | Logs em => entries_of em | _ => [] end.

Record good (s : proc_state) : Prop := {
  g_mq : inv mB (mq s);
  g_lq : inv lB (lq s);
  g_done : Broker.done_ (kb s) = (remaining_statements (pc s) <? 5)%nat;
  g_ml : running (loop (mq s)) = (4 <=? remaining_statements (pc s))%nat;
  g_ll : running (loop (lq s)) = (3 <=? remaining_statements (pc s))%nat;
  g_rl : ∀ l, retry s = Some l → running l = (2 <=? remaining_statements (pc s))%nat;
  g_fifo : map snd (handled s) ++ Broker.msgCh (kb s) = accepted s;
  g_msub : submitted (mq s) ++ held_samples (worker s) ≡ₚ concat (map samples (handled s)) ++ retried_samples s;
  g_lsub : submitted (lq s) ++ held_entries (worker s) ≡ₚ concat (map entries_of (handled s)) ++ retried_logs s }.

Lemma close_queue_Running {A} (q : @system A) : running (loop q) = true → close_queue q = Ok (set_loop Closing q).
Proof using Type. intros H. unfold close_queue. by destruct (loop q). Qed.

Lemma set_loop_inv {A} B l (q : @system A) : inv B q → inv B (set_loop l q).
Proof using Type. by intros [H1 H2 H3 H4]. Qed.

Lemma app_insert {A} (l h k xs : list A) : l ++ h ≡ₚ k → (l ++ xs) ++ h ≡ₚ k ++ xs.
Proof using Type. intros <-. rewrite <- !app_assoc. f_equiv. apply Permutation_app_comm. Qed.

(** Re-establish the invariant field by field. *)
Ltac keep_good := split; cbn in *; try done; try congruence; eauto using set_loop_inv.

(** main never crashes, and gets one statement further. *)
Lemma main_step_good s : good s → pc s ≠ Exited →
  ∃ s', main_step s = Ok s' ∧ good s' ∧ S (remaining_statements (pc s')) = remaining_statements (pc s) ∧
    worker s' = worker s ∧ Broker.msgCh (kb s') = Broker.msgCh (kb s) ∧
    pending (mq s') = pending (mq s) ∧ inflight (mq s') = inflight (mq s) ∧ finished (mq s') = finished (mq s) ∧
    pending (lq s') = pending (lq s) ∧ inflight (lq s') = inflight (lq s) ∧ finished (lq s') = finished (lq s).
Proof using Type.
  destruct s as [p cn b wk m l rt ac hd rs rl]. intros [] Hp. cbn in *.
  assert (Hb : p = BrokerClose → Broker.Close b = Ok (Broker.mkBroker (Broker.cfg b) (Broker.topicSet b) (Broker.msgCh b) true)).
  { intros ->. unfold Broker.Close. by rewrite g_done0. }
  assert (Hr : p = CacheClose → close_retry rt = Ok ((λ _, Closing) <$> rt)).
  { intros ->. destruct rt as [r|]; [|done]. specialize (g_rl0 r eq_refl). by destruct r. }
  destruct p; try done; cbn in *;
    rewrite ?close_queue_Running by done; rewrite ?Hb, ?Hr by done; cbn;
    (eexists; split; [reflexivity|]; split; [keep_good|done]).
  intros r' Hr'. by destruct rt; simplify_eq/=.
Qed.

Lemma submit_spec {A} B (xs : list A) q : inv B q →
  inv B (submit B xs q) ∧ running (loop (submit B xs q)) = running (loop q) ∧
  submitted (submit B xs q) = submitted q ++ xs.
Proof using Type. intros H. split; [by apply submit_inv|]. by destruct (submit_step B xs q) as [ow ->]. Qed.

Lemma send_msg_spec b m : Broker.done_ (Broker.send_msg b m) = Broker.done_ b ∧
  Broker.msgCh (Broker.send_msg b m) =
    Broker.msgCh b ++ if len (Broker.msgCh b) <? Broker.chanCap then [m] else [].
Proof using Type. unfold Broker.send_msg. destruct (_ <? _); [done|]. by rewrite app_nil_r. Qed.

Lemma act_main s : exited (pc s) = false → act s ActMain = Some (main_step s).
Proof using Type. destruct s. cbn. by intros ->. Qed.

Lemma act_running s a r : act s a = Some r → exited (pc s) = false.
Proof using Type. destruct s as [p]. cbn. by destruct (exited p). Qed.

Lemma act_good s a s' : good s → act s a = Some (Ok s') → good s'.
Proof using Type.
  intros Hg Ha. pose proof (act_running _ _ _ Ha) as Hp.
  destruct a as [|m|e| | | |ev|ev|xs|x|].
  { destruct (main_step_good s Hg) as (s1 & Hs & ? & _); [by intros Hx; rewrite Hx in Hp|].
    rewrite act_main, Hs in Ha by done. by injection Ha as <-. }
  all: destruct s as [p cn b wk m' l rt ac hd rs rl]; destruct Hg; cbn in *; rewrite Hp in Ha.
  - destruct (send_msg_spec b m) as [H1 H2]. injection Ha as <-. keep_good.
    rewrite H2, <- g_fifo0, app_assoc. destruct (_ <? _); [done|]. by rewrite app_nil_r.
  - destruct wk; [|done..]. destruct (Broker.msgCh b) as [|m ms] eqn:Em; [done|]. injection Ha as <-.
    rewrite app_nil_r in g_msub0, g_lsub0. keep_good; [by rewrite map_app, <- app_assoc|..];
      rewrite ?g_msub0, ?g_lsub0, map_app, concat_app; cbn; rewrite app_nil_r, <- !app_assoc; f_equiv; apply Permutation_app_comm.
  - destruct wk as [|em| |]; [done| |done..]. injection Ha as <-.
    destruct (submit_spec mB (samples em) m' g_mq0) as (? & H1 & H2). keep_good. by rewrite H2, app_nil_r.
  - destruct wk as [| |em|]; [done..| |done]. injection Ha as <-.
    destruct (submit_spec lB (entries_of em) l g_lq0) as (? & H1 & H2). keep_good. by rewrite H2, app_nil_r.
  - destruct wk; [|done..]. destruct cn; [|done]. injection Ha as <-. keep_good.
  - destruct (internal ev) eqn:Hi; [|done]. destruct (Batch.step mB m' ev) as [q|] eqn:E; [|done].
    injection Ha as <-. pose proof (step_inv _ _ _ _ g_mq0 E).
    apply internal_step in E as (H1 & H2 & _); [|done]. keep_good; by rewrite H1.
  - destruct (internal ev) eqn:Hi; [|done]. destruct (Batch.step lB l ev) as [q|] eqn:E; [|done].
    injection Ha as <-. pose proof (step_inv _ _ _ _ g_lq0 E).
    apply internal_step in E as (H1 & H2 & _); [|done]. keep_good; by rewrite H1.
  - destruct (alive rt); [|done]. injection Ha as <-.
    destruct (submit_spec mB xs m' g_mq0) as (? & H1 & H2). keep_good.
    by rewrite H2, (app_insert _ _ _ _ g_msub0), <- app_assoc.
  - destruct (alive rt); [|done]. injection Ha as <-.
    destruct (submit_spec lB [x] l g_lq0) as (? & H1 & H2). keep_good.
    by rewrite (app_insert _ _ _ _ g_lsub0), <- app_assoc.
  - destruct rt as [[]|]; try done. injection Ha as <-. keep_good. intros ? [= <-]. by apply (g_rl0 Closing).
Qed.

Lemma reachable_good c cache s : reachable c cache s → good s.
Proof using Type.
  induction 1 as [|s a s' _ IH Ha]; [|by eapply act_good].
  unfold boot. split; cbn; try done; [split; done..|]. intros l Hl. destruct cache; by simplify_eq.
Qed.

(** No action ever crashes. *)
Lemma act_no_panic s a p : good s → act s a ≠ Some (Panic p).
Proof using Type.
  intros Hg Ha. pose proof (act_running _ _ _ Ha) as Hp.
  destruct a as [|m|e| | | |ev|ev|xs|x|].
  { destruct (main_step_good s Hg) as (s1 & Hs & ? & _); [by intros Hx; rewrite Hx in Hp|].
    by rewrite act_main, Hs in Ha. }
  all: destruct s as [pc0 cn b wk m' l rt ac hd rs rl]; cbn in *; rewrite Hp in Ha.
  all: repeat case_match; simplify_eq/=;
    match goal with H : (?m ≫= _) = Some _ |- _ => by destruct m end.
Qed.

Lemma close_loop_inv l l' : close_loop l = Ok l' → l = Running ∧ l' = Closing.
Proof using Type. destruct l; try done. by intros [= <-]. Qed.

(** What never changes back once the submitters have stopped: no goroutine is
    left that submits, and a queue whose loop has ended is empty. *)
Definition quiet (s : proc_state) : Prop :=
  worker s = Gone ∧ alive (retry s) = false ∧
  (loop (mq s) = Stopped → pending (mq s) = []) ∧ (loop (lq s) = Stopped → pending (lq s) = []).

Lemma act_quiet s a s' : quiet s → act s a = Some (Ok s') → quiet s'.
Proof using Type.
  intros (H1 & H2 & H3 & H4) Ha. pose proof (act_running _ _ _ Ha) as Hp.
  destruct s as [p cn b wk m l rt ac hd rs rl]. cbn in H1, H2, H3, H4, Hp. subst wk.
  destruct a as [|m'|e| | | |ev|ev|xs|x|]; cbn in Ha; rewrite Hp, ?H2 in Ha; cbn in Ha; try done.
  - unfold quiet, close_queue, close_retry in *. destruct p; simplify_eq/=; repeat case_match; simplify_eq/=; try done;
      repeat match goal with H : (?x ≫= _) = Ok _ |- _ => destruct x eqn:?; simplify_eq/= end;
      try match goal with H : close_loop _ = Ok _ |- _ => apply close_loop_inv in H as [Hr ->] end;
      simplify_eq/=; rewrite ?Hr in *; done.
  - by simplify_eq.
  - destruct (internal ev) eqn:Hi; [|done]. destruct (Batch.step mB m ev) as [q|] eqn:E; [|done].
    injection Ha as <-. apply internal_step in E as (_ & _ & Hs); [|done]. unfold quiet. cbn. auto.
  - destruct (internal ev) eqn:Hi; [|done]. destruct (Batch.step lB l ev) as [q|] eqn:E; [|done].
    injection Ha as <-. apply internal_step in E as (_ & _ & Hs); [|done]. unfold quiet. cbn. auto.
  - by destruct rt as [[]|].
Qed.

Lemma run_keeps (P : proc_state → Prop) acts : (∀ s a s', P s → act s a = Some (Ok s') → P s') →
  ∀ s s', P s → run s acts = Some s' → P s'.
Proof using Type.
  intros HP. induction acts as [|a acts IH]; intros s s' Hs; cbn; [by intros [= <-]|].
  destruct (act s a) as [[s1| |]|] eqn:E; try done. apply IH. by eapply HP.
Qed.

Lemma places {A} B (q : @system A) : inv B q →
  submitted q ≡ₚ concat (inflight q) ++ concat (finished q) ++ pending q.
Proof using Type.
  intros [H1 H2 _ _]. rewrite <- H1, app_assoc, <- concat_app. f_equiv. by rewrite H2.
Qed.

(** ** Properties *)

(** C15. However the goroutines interleave with the shutdown, nothing crashes --
    no channel is closed twice -- and nothing gets lost inside the process: the
    messages the pipeline has received followed by those in the channel are
    the messages accepted, in order; and every sample and log entry of a
    received message, and every one replayed from the cache, is in exactly one
    place: a batch whose flush has finished, a batch being shipped, the pending
    queue, or the hands of the pipeline goroutine, which has yet to submit it. *)
Theorem shutdown_conserves (c : KafkaConfig) (cache : bool) (s : proc_state) : reachable c cache s →
  (∀ a p, act s a ≠ Some (Panic p)) ∧
  map snd (handled s) ++ Broker.msgCh (kb s) = accepted s ∧
  concat (map samples (handled s)) ++ retried_samples s ≡ₚ
    concat (inflight (mq s)) ++ concat (finished (mq s)) ++ pending (mq s) ++ held_samples (worker s) ∧
  concat (map entries_of (handled s)) ++ retried_logs s ≡ₚ
    concat (inflight (lq s)) ++ concat (finished (lq s)) ++ pending (lq s) ++ held_entries (worker s).
Proof.
  intros Hr%reachable_good. split; [by intros a p; apply act_no_panic|]. destruct Hr.
  split; [done|]. by rewrite <- g_msub0, <- g_lsub0, (places mB (mq s)), (places lB (lq s)), <- !app_assoc.
Qed.

(** C14. main waits for nobody: from every reachable state, its remaining
    statements can all run -- never blocked, never crashing -- without a step of
    any other goroutine, and then the process is over.  So whatever was in the
    channel, in the pipeline goroutine's hands, pending or being shipped is
    dropped: the final flush that Close asks for need not happen. *)
Theorem main_never_waits (c : KafkaConfig) (cache : bool) (s : proc_state) : reachable c cache s →
  ∃ s', run s (replicate (remaining_statements (pc s)) ActMain) = Some s' ∧
    (∀ a, act s' a = None) ∧ Broker.msgCh (kb s') = Broker.msgCh (kb s) ∧ worker s' = worker s ∧
    pending (mq s') = pending (mq s) ∧ inflight (mq s') = inflight (mq s) ∧ finished (mq s') = finished (mq s) ∧
    pending (lq s') = pending (lq s) ∧ inflight (lq s') = inflight (lq s) ∧ finished (lq s') = finished (lq s).
Proof.
  intros Hg%reachable_good. remember (remaining_statements (pc s)) as n eqn:Hn.
  revert s Hg Hn. induction n as [|n IH]; intros s Hg Hn.
  - exists s. split; [done|]. split; [|done]. intros a. destruct s as [p]. cbn in *. by destruct p.
  - assert (Hp : exited (pc s) = false) by (by destruct (pc s)).
    destruct (main_step_good s Hg) as (s1 & Hs & Hg1 & Hr & H0 & H1 & H2 & H3 & H4 & H5 & H6 & H7);
      [by intros Hx; rewrite Hx in Hp|].
    destruct (IH s1 Hg1) as (s' & Hrun & Hend & K1 & K0 & K2 & K3 & K4 & K5 & K6 & K7); [lia|].
    exists s'. cbn [replicate run]. rewrite act_main, Hs by done. split; [exact Hrun|]. split; [exact Hend|].
    split_and!; congruence.
Qed.

(** C31. What waiting would buy: once the pipeline goroutine and the retry loop
    have stopped, any continuation in which both flush loops come to their end
    with no flush still running has shipped everything -- the batches finished
    are exactly what was received and replayed. *)
Theorem drained_shutdown (c : KafkaConfig) (cache : bool) (s s' : proc_state) (acts : list action) :
  reachable c cache s → worker s = Gone → alive (retry s) = false →
  loop (mq s) ≠ Stopped → loop (lq s) ≠ Stopped → run s acts = Some s' →
  loop (mq s') = Stopped → loop (lq s') = Stopped → inflight (mq s') = [] → inflight (lq s') = [] →
  concat (finished (mq s')) ≡ₚ concat (map samples (handled s')) ++ retried_samples s' ∧
  concat (finished (lq s')) ≡ₚ concat (map entries_of (handled s')) ++ retried_logs s'.
Proof.
  intros Hg%reachable_good Hw Ha Hm Hl Hrun Hm' Hl' Him Hil.
  assert (Hq : quiet s) by (repeat split; done).
  destruct (run_keeps quiet acts act_quiet s s' Hq Hrun) as (Hwk & _ & Hpm & Hpl).
  destruct (run_keeps good acts act_good s s' Hg Hrun).
  rewrite Hwk in g_msub0, g_lsub0. cbn in g_msub0, g_lsub0. rewrite app_nil_r in g_msub0, g_lsub0.
  rewrite <- g_msub0, <- g_lsub0, (places mB (mq s')), (places lB (lq s')) by done.
  rewrite Him, Hil, Hpm, Hpl by done. by rewrite !app_nil_r.
Qed.
End Shutdown.

(** ** Witnesses *)

Lemma acts_reachable {RE : Regexp} u te q tn mt lt mB lB c cache acts : ∀ s s',
  reachable u te q tn mt lt mB lB c cache s → run u te q tn mt lt mB lB s acts = Some s' →
  reachable u te q tn mt lt mB lB c cache s'.
Proof.
  induction acts as [|a acts IH]; intros s s' Hs; cbn; [by intros [= <-]|].
  destruct (act _ _ _ _ _ _ _ _ s a) as [[s1| |]|] eqn:E; try done. apply IH. by eapply reach_act.
Qed.

Lemma default_reachable {RE : Regexp} u te q tn mt lt mB lB c cache acts s :
  reachable u te q tn mt lt mB lB c cache s →
  reachable u te q tn mt lt mB lB c cache (default s (run u te q tn mt lt mB lB s acts)).
Proof. intros Hs. destruct (run _ _ _ _ _ _ _ _ s acts) as [s'|] eqn:E; [|done]. by eapply acts_reachable. Qed.

Definition health_topics : gmap string bool := buildTopicSet ["ome.health"]%string.
Local Abbreviation sample_run := (run no_table sample_type_error no_Quote no_type_name health_topics ∅ 1000 100).
Local Abbreviation sample_reach := (reachable no_table sample_type_error no_Quote no_type_name health_topics ∅ 1000 100).
Definition sample_kafka : KafkaConfig := Kafka (applyDefaults url_config).

(** One health message has been received when the signal arrives, and another is
    in the hands of the pipeline goroutine. *)
Definition received : list action :=
  [ActDeliver (health_msg "ome.health"); ActReceive sample_env; ActSubmitMetrics; ActSubmitLog;
   ActDeliver (health_msg "ome.health"); ActReceive sample_env; ActMain].
Definition at_signal : proc_state := default (boot sample_kafka false) (sample_run (boot sample_kafka false) received).

Lemma at_signal_reachable : sample_reach sample_kafka false at_signal.
Proof. apply default_reachable. constructor. Qed.

Lemma shutdown_conserves_witness :
  len (pending (mq at_signal)) = 2 ∧ len (held_samples no_table sample_type_error no_Quote no_type_name health_topics
    (worker at_signal)) = 2 ∧
  concat (map (routed no_table sample_type_error no_Quote no_type_name health_topics) (handled at_signal)) ++ [] ≡ₚ
    [] ++ [] ++ pending (mq at_signal) ++ held_samples no_table sample_type_error no_Quote no_type_name health_topics
      (worker at_signal).
Proof.
  split; [by vm_compute|]. split; [by vm_compute|].
  apply (shutdown_conserves no_table sample_type_error no_Quote no_type_name health_topics ∅ 1000 100
    sample_kafka false at_signal at_signal_reachable).
Defined.

(** Both samples are lost, with a backend that is up. *)
Lemma main_never_waits_witness : ∃ s', sample_run at_signal (replicate 6 ActMain) = Some s' ∧
  len (pending (mq s')) = 2 ∧ finished (mq s') = [] ∧
  ∀ a, act no_table sample_type_error no_Quote no_type_name health_topics ∅ 1000 100 s' a = None.
Proof.
  destruct (main_never_waits no_table sample_type_error no_Quote no_type_name health_topics ∅ 1000 100
    sample_kafka false at_signal at_signal_reachable) as (s' & H1 & H2 & _ & _ & H3 & _ & H4 & _).
  exists s'. split; [exact H1|]. rewrite H3, H4. split; [by vm_compute|]. split; [by vm_compute|exact H2].
Defined.

Definition worker_gone : proc_state := default at_signal (sample_run at_signal [ActSubmitMetrics; ActSubmitLog; ActMain; ActStop]).
Definition flushes : list action :=
  [ActMain; ActMain; ActMain; ActMetrics EvFinal; ActMetrics (EvShip 0); ActLogs EvFinal].

Definition drained : proc_state := default worker_gone (sample_run worker_gone flushes).
Definition ended {A} (q : @system A) : bool :=
  match loop q, inflight q with Stopped, [] => true | _, _ => false end.

Lemma ended_spec {A} (q : @system A) : ended q = true → loop q = Stopped ∧ inflight q = [].
Proof. unfold ended. by destruct (loop q), (inflight q). Qed.

Lemma worker_gone_reachable : sample_reach sample_kafka false worker_gone.
Proof. apply default_reachable, at_signal_reachable. Qed.

Lemma drained_shutdown_witness :
  len (concat (finished (mq drained))) = 4 ∧
  concat (finished (mq drained)) ≡ₚ
    concat (map (routed no_table sample_type_error no_Quote no_type_name health_topics) (handled drained))
    ++ retried_samples drained.
Proof.
  split; [by vm_compute|].
  assert (Hm : ended (mq drained) = true) by (by vm_compute).
  assert (Hl : ended (lq drained) = true) by (by vm_compute).
  apply ended_spec in Hm as [Hm1 Hm2], Hl as [Hl1 Hl2].
  assert (Hr : sample_run worker_gone flushes = Some drained).
  { assert (Hs : match sample_run worker_gone flushes with Some _ => true | None => false end = true) by (by vm_compute).
    unfold drained. by destruct (sample_run worker_gone flushes). }
  apply (drained_shutdown no_table sample_type_error no_Quote no_type_name health_topics ∅ 1000 100
    sample_kafka false worker_gone drained flushes worker_gone_reachable); try done; by vm_compute.
Defined.
